(** * UUB acquisition utilities: self-test (adc_check_ramp), streaming
      (netscope) and remote ramp toggle (adcramp)

    Shallow embedding of the C sources and proofs of the properties the
    design document states about them.

    Conventions.
    - A C array is a [list]; a pointer into it is the offset ([nat]) from
      its first element.  A read through [!!] outside the list models an
      access outside the object and makes the computation fail.
    - Fixed-width integers are [Z]; truncation is written out where the
      source relies on it.
    - A [for] loop over a constant range is a [Fixpoint] on the number of
      iterations still to run, carrying the loop variable. *)

From Stdlib Require Import ZArith List Lia Bool ZifyNat.
From stdpp Require Import base tactics option list.

Open Scope Z_scope.

(** [lia] also decides goals with division and remainder by constants. *)
Ltac Zify.zify_post_hook ::= Z.to_euclidean_division_equations.

(** ** Constants of shwr_evt_defs.h, as copied into the tools *)

Definition SHWR_MAX_VAL : Z := Z.shiftl 1 12.
Definition SHWR_RAW_NCH_MAX : nat := 5.
Definition SHWR_NCH_MAX : nat := 2 * SHWR_RAW_NCH_MAX.
Definition SHWR_NSAMPLES : nat := 2048.

(** [uint16_t traces[SHWR_NCH_MAX][SHWR_NSAMPLES]] *)
Abbreviation Trace := (list (list Z)).

(** [traces[ch][i]] as an rvalue *)
Definition tget (traces : Trace) (ch i : nat) : option Z :=
  row ← traces !! ch; row !! i.

(** [traces[ch][i] = v] *)
Definition tset (traces : Trace) (ch i : nat) (v : Z) : Trace :=
  alter (<[i := v]>) ch traces.

(** The array has its declared shape and holds [uint16_t] values. *)
Definition trace_shape (traces : Trace) : Prop :=
  length traces = SHWR_NCH_MAX ∧
  Forall (λ row, length row = SHWR_NSAMPLES) traces.

Definition trace_uint16 (traces : Trace) : Prop :=
  Forall (Forall (λ v, 0 ≤ v < 65536)) traces.

(** ** Hardware interface

    [sde_trigger_defs.h], [time_tagging.h] and [test_control_defs.h] are
    not part of the sources, neither are the run-time values
    [sysconf(_SC_PAGESIZE)] and [SIGRTMIN]: the constants the tools take
    from them are parameters of the development. *)

Class HwDefs := {
  SHWR_BUF_STATUS_ADDR : Z;
  SHWR_BUF_START_ADDR : Z;
  SHWR_BUF_TRIG_ID_ADDR : Z;
  SHWR_BUF_CONTROL_ADDR : Z;
  SHWR_BUF_TRIG_MASK_ADDR : Z;
  SHWR_BUF_NFULL_MASK : Z;
  SHWR_BUF_NFULL_SHIFT : Z;
  SHWR_BUF_RNUM_MASK : Z;
  SHWR_BUF_RNUM_SHIFT : Z;
  SHWR_BUF_TRIG_LED : Z;
  COMPATIBILITY_SHWR_BUF_TRIG_EXT : Z;
  LED_CONTROL_ADDR : Z;
  TTAG_SHWR_SECONDS_ADDR : Z;
  TTAG_SHWR_NANOSEC_ADDR : Z;
  USE_FAKE_ADDR : Z;
  USE_FAKE_PPS_BIT : Z;
  SHWR_MEM_DEPTH : Z;
  SHWR_MEM_NBUF : Z;
  PAGESIZE : Z;
  SIG_WAKEUP : Z
}.

(** Windows of physical memory the tools map. *)
Inductive region :=
| TriggerRegs            (* SDE_TRIGGER_BASE *)
| TimeTagRegs            (* TIME_TAGGING_BASE *)
| TestCtlRegs            (* TEST_CONTROL_BASE *)
| ShwrBuf (i : nat).     (* shwr_addr[i] *)

Global Instance region_eq_dec : EqDecision region.
Proof. solve_decision. Defined.

Inductive spi_ioc :=
| SPI_IOC_WR_MODE | SPI_IOC_RD_MODE
| SPI_IOC_WR_BITS_PER_WORD | SPI_IOC_RD_BITS_PER_WORD
| SPI_IOC_WR_MAX_SPEED_HZ | SPI_IOC_RD_MAX_SPEED_HZ.

(** Calls into the C library and the kernel, with the arguments that
    matter here. *)
Inductive call :=
| c_sched_setscheduler
| c_getopt
| c_open_spidev (adc : nat)
| c_ioctl (fd : Z) (req : spi_ioc)
| c_write (fd : Z) (bytes : list Z)
| c_close (fd : Z)
| c_open_devmem
| c_mmap (r : region) (size : Z)
| c_munmap (r : region) (size : Z)
| c_sigemptyset | c_sigaddset | c_sigprocmask
| c_timer_create | c_timer_settime
| c_sigwaitinfo
| c_gettimeofday
| c_usleep (us : Z)
| c_dump_trace
| c_socket
| c_setsockopt
| c_inet_aton
| c_bind (port : Z)
| c_sendto (sock : Z) (bytes : list Z)
| c_recvfrom (sock : Z) (len : Z)
| c_select (sock : Z).

(** What the program does to the outside, in program order.  [EvIdCounter]
    records the update of [gl.id_counter], which is internal, so that its
    place among the register accesses can be stated. *)
Inductive event :=
| EvSys (c : call) (ret : Z)
| EvRead (r : region) (addr : Z) (v : Z)
| EvWrite (r : region) (addr : Z) (v : Z)
| EvMemcpy (r : region) (offset : Z) (nwords : nat)
| EvIdCounter (v : Z).

(** The environment answers every call and every volatile read; the
    answer may depend on the moment, which is the number of events so
    far. *)
Record Env := {
  sys_ret : nat → call → Z;
  hw_val : nat → region → Z → Z;
  recv_bytes : nat → list Z;      (* the datagram a [recvfrom] gets *)
  databuf_addr : Z                (* address of [_databuf] *)
}.

(** [struct read_evt_global]; a pointer is [None] for [NULL], else the
    window it points to.  [sigset] carries no information here. *)
Record read_evt_global := {
  id_counter : Z;
  shwr_pt : list (option region);
  shwr_mem_size : Z;
  regs : option region;
  tt_regs : option region;
  tstctl_regs : option region;
  regs_size : Z
}.

Record shwr_header := {
  id : Z;
  shwr_buf_status : Z;
  shwr_buf_start : Z;
  shwr_buf_trig_id : Z;
  ttag_shwr_seconds : Z;
  ttag_shwr_nanosec : Z;
  rd : Z
}.

(** Functions registered with [atexit]. *)
Inductive handler := h_read_evt_end | h_restore_trigger | h_adc_normal.

(** The globals of the two tools, and the process state around them. *)
Record world := {
  gl : read_evt_global;
  sh : shwr_header;
  saved_trigger : Z;
  databuf : list Z;              (* adc_check_ramp: uint32_t words *)
  traces : list (list Z);
  adc_trace_fn : bool;           (* non-NULL? *)
  adcfd : list Z;
  failedadcfd : Z;
  workbuf : list Z;              (* netscope: bytes *)
  atexit_list : list handler;    (* most recent first *)
  mapped : list (region * Z);    (* live mappings and their size in bytes *)
  log : list event
}.

Definition set_gl (f : read_evt_global → read_evt_global) (w : world) : world :=
  {| gl := f (gl w); sh := sh w; saved_trigger := saved_trigger w;
     databuf := databuf w; traces := traces w; adc_trace_fn := adc_trace_fn w;
     adcfd := adcfd w; failedadcfd := failedadcfd w; workbuf := workbuf w;
     atexit_list := atexit_list w; mapped := mapped w; log := log w |}.
Definition set_sh (x : shwr_header) (w : world) : world :=
  {| gl := gl w; sh := x; saved_trigger := saved_trigger w;
     databuf := databuf w; traces := traces w; adc_trace_fn := adc_trace_fn w;
     adcfd := adcfd w; failedadcfd := failedadcfd w; workbuf := workbuf w;
     atexit_list := atexit_list w; mapped := mapped w; log := log w |}.
Definition set_saved_trigger (x : Z) (w : world) : world :=
  {| gl := gl w; sh := sh w; saved_trigger := x;
     databuf := databuf w; traces := traces w; adc_trace_fn := adc_trace_fn w;
     adcfd := adcfd w; failedadcfd := failedadcfd w; workbuf := workbuf w;
     atexit_list := atexit_list w; mapped := mapped w; log := log w |}.
Definition set_databuf (x : list Z) (w : world) : world :=
  {| gl := gl w; sh := sh w; saved_trigger := saved_trigger w;
     databuf := x; traces := traces w; adc_trace_fn := adc_trace_fn w;
     adcfd := adcfd w; failedadcfd := failedadcfd w; workbuf := workbuf w;
     atexit_list := atexit_list w; mapped := mapped w; log := log w |}.
Definition set_traces (x : list (list Z)) (w : world) : world :=
  {| gl := gl w; sh := sh w; saved_trigger := saved_trigger w;
     databuf := databuf w; traces := x; adc_trace_fn := adc_trace_fn w;
     adcfd := adcfd w; failedadcfd := failedadcfd w; workbuf := workbuf w;
     atexit_list := atexit_list w; mapped := mapped w; log := log w |}.
Definition set_adc_trace_fn (x : bool) (w : world) : world :=
  {| gl := gl w; sh := sh w; saved_trigger := saved_trigger w;
     databuf := databuf w; traces := traces w; adc_trace_fn := x;
     adcfd := adcfd w; failedadcfd := failedadcfd w; workbuf := workbuf w;
     atexit_list := atexit_list w; mapped := mapped w; log := log w |}.
Definition set_adcfd (x : list Z) (w : world) : world :=
  {| gl := gl w; sh := sh w; saved_trigger := saved_trigger w;
     databuf := databuf w; traces := traces w; adc_trace_fn := adc_trace_fn w;
     adcfd := x; failedadcfd := failedadcfd w; workbuf := workbuf w;
     atexit_list := atexit_list w; mapped := mapped w; log := log w |}.
Definition set_failedadcfd (x : Z) (w : world) : world :=
  {| gl := gl w; sh := sh w; saved_trigger := saved_trigger w;
     databuf := databuf w; traces := traces w; adc_trace_fn := adc_trace_fn w;
     adcfd := adcfd w; failedadcfd := x; workbuf := workbuf w;
     atexit_list := atexit_list w; mapped := mapped w; log := log w |}.
Definition set_workbuf (x : list Z) (w : world) : world :=
  {| gl := gl w; sh := sh w; saved_trigger := saved_trigger w;
     databuf := databuf w; traces := traces w; adc_trace_fn := adc_trace_fn w;
     adcfd := adcfd w; failedadcfd := failedadcfd w; workbuf := x;
     atexit_list := atexit_list w; mapped := mapped w; log := log w |}.
Definition set_atexit_list (x : list handler) (w : world) : world :=
  {| gl := gl w; sh := sh w; saved_trigger := saved_trigger w;
     databuf := databuf w; traces := traces w; adc_trace_fn := adc_trace_fn w;
     adcfd := adcfd w; failedadcfd := failedadcfd w; workbuf := workbuf w;
     atexit_list := x; mapped := mapped w; log := log w |}.
Definition set_mapped (x : list (region * Z)) (w : world) : world :=
  {| gl := gl w; sh := sh w; saved_trigger := saved_trigger w;
     databuf := databuf w; traces := traces w; adc_trace_fn := adc_trace_fn w;
     adcfd := adcfd w; failedadcfd := failedadcfd w; workbuf := workbuf w;
     atexit_list := atexit_list w; mapped := x; log := log w |}.
Definition set_log (x : list event) (w : world) : world :=
  {| gl := gl w; sh := sh w; saved_trigger := saved_trigger w;
     databuf := databuf w; traces := traces w; adc_trace_fn := adc_trace_fn w;
     adcfd := adcfd w; failedadcfd := failedadcfd w; workbuf := workbuf w;
     atexit_list := atexit_list w; mapped := mapped w; log := x |}.

(** How a computation ends: it returns, the program calls [exit] (the
    registered functions have not run yet) or [abort], it touches memory
    outside an object or a mapping, or the model runs out of [fuel] in a
    loop whose number of iterations the environment decides. *)
Inductive outcome (A : Type) :=
| Ret (a : A) (w : world)
| Exit (code : Z) (w : world)
| Abort (w : world)
| Fault (w : world)
| OutOfFuel.
Arguments Ret {A} a w.
Arguments Exit {A} code w.
Arguments Abort {A} w.
Arguments Fault {A} w.
Arguments OutOfFuel {A}.

Definition M (A : Type) : Type := world → outcome A.

Global Instance M_ret : MRet M := λ A a w, Ret a w.
Global Instance M_bind : MBind M := λ A B k m w,
  match m w with
  | Ret a w' => k a w'
  | Exit code w' => Exit code w'
  | Abort w' => Abort w'
  | Fault w' => Fault w'
  | OutOfFuel => OutOfFuel
  end.

Definition gets {A} (f : world → A) : M A := λ w, Ret (f w) w.
Definition modify (f : world → world) : M unit := λ w, Ret tt (f w).
Definition exit {A} (code : Z) : M A := λ w, Exit code w.
Definition abort {A} : M A := λ w, Abort w.
Definition fault {A} : M A := λ w, Fault w.
Definition out_of_fuel {A} : M A := λ _, OutOfFuel.
Definition emit (e : event) : M unit := modify (λ w, set_log (log w ++ [e]) w).

(** [for (i = i0; i < i0 + n; i++) body(i)]; [continue] is [mret tt]. *)
Fixpoint for_loop (n i : nat) (body : nat → M unit) : M unit :=
  match n with
  | O => mret tt
  | S n' => body i;; for_loop n' (S i) body
  end.

(** [a[i]] of a global array; outside the array the access faults. *)
Definition arr_get {A} (a : world → list A) (i : nat) : M A :=
  λ w, match a w !! i with Some x => Ret x w | None => Fault w end.

(** Bytes [pos .. pos + length src) of [buf] replaced by [src] *)
Definition store (buf : list Z) (pos : nat) (src : list Z) : option (list Z) :=
  if decide (pos + length src ≤ length buf)%nat
  then Some (take pos buf ++ src ++ drop (pos + length src) buf)
  else None.

Section Primitives.
Context `{HwDefs} (E : Env).

(** A call: the environment's answer is logged and returned. *)
Definition sys (c : call) : M Z := λ w,
  let r := sys_ret E (length (log w)) c in
  Ret r (set_log (log w ++ [EvSys c r]) w).

(** [mmap(NULL, size, ..., fd, base of r)]: [Some r], or [None] for
    [MAP_FAILED] *)
Definition mmap (r : region) (size : Z) : M (option region) :=
  ret ← sys (c_mmap r size);
  if decide (ret = -1) then mret None
  else modify (λ w, set_mapped ((r, size) :: mapped w) w);; mret (Some r).

Definition munmap (r : region) (size : Z) : M unit :=
  sys (c_munmap r size);;
  modify (λ w, set_mapped (filter (λ m, m.1 ≠ r) (mapped w)) w).

(** Size of the live mapping a pointer refers to *)
Definition window (p : option region) : M (region * Z) := λ w,
  match p with
  | None => Fault w
  | Some r =>
      match list_find (λ m, m.1 = r) (mapped w) with
      | Some (_, m) => Ret m w
      | None => Fault w
      end
  end.

(** [p[addr]] as an rvalue, [p] a [uint32_t volatile *] *)
Definition reg_read (p : world → option region) (addr : Z) : M Z :=
  ptr ← gets p;
  '(r, size) ← window ptr;
  if decide (0 ≤ 4 * addr ∧ 4 * addr + 4 ≤ size) then
    t ← gets (λ w, length (log w));
    let v := hw_val E t r addr in
    emit (EvRead r addr v);; mret v
  else fault.

(** [p[addr] = v] *)
Definition reg_write (p : world → option region) (addr v : Z) : M unit :=
  ptr ← gets p;
  '(r, size) ← window ptr;
  if decide (0 ≤ 4 * addr ∧ 4 * addr + 4 ≤ size) then emit (EvWrite r addr v)
  else fault.

(** The [nwords] words a [memcpy] from [p + offset] reads *)
Definition read_words (p : option region) (offset : Z) (nwords : nat)
    : M (list Z) :=
  '(r, size) ← window p;
  if decide (0 ≤ 4 * offset ∧ 4 * (offset + Z.of_nat nwords) ≤ size) then
    t ← gets (λ w, length (log w));
    emit (EvMemcpy r offset nwords);;
    mret (map (λ k, hw_val E t r (offset + Z.of_nat k)) (seq 0 nwords))
  else fault.

(** [atexit(h)] *)
Definition atexit (h : handler) : M unit :=
  modify (λ w, set_atexit_list (h :: atexit_list w) w).

End Primitives.

(** [unsigned roundup(unsigned n, unsigned multiple)], the same in both
    tools; unsigned arithmetic wraps at 32 bits. *)
Definition roundup (n multiple : Z) : Z :=
  ((((n + multiple - 1) mod 2 ^ 32) / multiple) * multiple) mod 2 ^ 32.

(** Conversions between [unsigned] and [int] *)
Definition to_uint32 (x : Z) : Z := x mod 2 ^ 32.
Definition to_int32 (x : Z) : Z :=
  let u := x mod 2 ^ 32 in if decide (u < 2 ^ 31) then u else u - 2 ^ 32.

Definition set_id_counter (x : Z) (g : read_evt_global) : read_evt_global :=
  {| id_counter := x; shwr_pt := shwr_pt g; shwr_mem_size := shwr_mem_size g;
     regs := regs g; tt_regs := tt_regs g; tstctl_regs := tstctl_regs g;
     regs_size := regs_size g |}.
Definition set_shwr_pt (x : list (option region)) (g : read_evt_global)
    : read_evt_global :=
  {| id_counter := id_counter g; shwr_pt := x; shwr_mem_size := shwr_mem_size g;
     regs := regs g; tt_regs := tt_regs g; tstctl_regs := tstctl_regs g;
     regs_size := regs_size g |}.
Definition set_shwr_mem_size (x : Z) (g : read_evt_global) : read_evt_global :=
  {| id_counter := id_counter g; shwr_pt := shwr_pt g; shwr_mem_size := x;
     regs := regs g; tt_regs := tt_regs g; tstctl_regs := tstctl_regs g;
     regs_size := regs_size g |}.
Definition set_regs (x : option region) (g : read_evt_global) : read_evt_global :=
  {| id_counter := id_counter g; shwr_pt := shwr_pt g;
     shwr_mem_size := shwr_mem_size g;
     regs := x; tt_regs := tt_regs g; tstctl_regs := tstctl_regs g;
     regs_size := regs_size g |}.
Definition set_tt_regs (x : option region) (g : read_evt_global)
    : read_evt_global :=
  {| id_counter := id_counter g; shwr_pt := shwr_pt g;
     shwr_mem_size := shwr_mem_size g;
     regs := regs g; tt_regs := x; tstctl_regs := tstctl_regs g;
     regs_size := regs_size g |}.
Definition set_tstctl_regs (x : option region) (g : read_evt_global)
    : read_evt_global :=
  {| id_counter := id_counter g; shwr_pt := shwr_pt g;
     shwr_mem_size := shwr_mem_size g;
     regs := regs g; tt_regs := tt_regs g; tstctl_regs := x;
     regs_size := regs_size g |}.
Definition set_regs_size (x : Z) (g : read_evt_global) : read_evt_global :=
  {| id_counter := id_counter g; shwr_pt := shwr_pt g;
     shwr_mem_size := shwr_mem_size g;
     regs := regs g; tt_regs := tt_regs g; tstctl_regs := tstctl_regs g;
     regs_size := x |}.

(** [if (cond) exit(code);] *)
Definition exit_if (cond : Prop) `{Decision cond} (code : Z) : M unit :=
  if decide cond then exit code else mret tt.

(** The part of the two tools that is the same text in both:
    [read_evt_init] up to the exit codes, [read_evt_end], and the wait
    that opens [read_evt_read]. *)
Module ReadEvt.
Section ReadEvt.
Context `{HwDefs} (E : Env).

(** Exit codes of [read_evt_init], in the order of use *)
Record init_codes := {
  EXIT_EVTDEVMEM : Z; EXIT_EVTMAPTRIG : Z; EXIT_EVTMAPTIME : Z;
  EXIT_EVTMAPTEST : Z; EXIT_EVTMAPSHWR : Z; EXIT_EVTSIGNAL : Z;
  EXIT_EVTTIMER : Z; EXIT_EVTSETTIME : Z
}.

Definition read_evt_init (c : init_codes) : M unit :=
  fd ← sys E c_open_devmem;
  exit_if (fd < 0) (EXIT_EVTDEVMEM c);;

  let size := to_int32 (roundup (to_uint32 (256 * 4)) (to_uint32 PAGESIZE)) in
  modify (set_gl (set_regs_size size));;
  pt ← mmap E TriggerRegs (to_uint32 size);
  exit_if (pt = None) (EXIT_EVTMAPTRIG c);;
  modify (set_gl (set_regs pt));;

  pt ← mmap E TimeTagRegs (to_uint32 size);
  exit_if (pt = None) (EXIT_EVTMAPTIME c);;
  modify (set_gl (set_tt_regs pt));;

  pt ← mmap E TestCtlRegs (to_uint32 size);
  exit_if (pt = None) (EXIT_EVTMAPTEST c);;
  modify (set_gl (set_tstctl_regs pt));;

  let size :=
    to_int32 (roundup (to_uint32 (SHWR_MEM_DEPTH * SHWR_MEM_NBUF))
                      (to_uint32 PAGESIZE)) in
  modify (set_gl (set_shwr_mem_size size));;
  for_loop SHWR_RAW_NCH_MAX 0 (λ i,
    pt ← mmap E (ShwrBuf i) (to_uint32 size);
    exit_if (pt = None) (EXIT_EVTMAPSHWR c);;
    modify (set_gl (λ g, set_shwr_pt (<[i := pt]> (shwr_pt g)) g)));;
  sys E (c_close fd);;

  r ← sys E c_sigemptyset; exit_if (r ≠ 0) (EXIT_EVTSIGNAL c);;
  r ← sys E c_sigaddset; exit_if (r ≠ 0) (EXIT_EVTSIGNAL c);;
  r ← sys E c_sigprocmask; exit_if (r ≠ 0) (EXIT_EVTSIGNAL c);;

  r ← sys E c_timer_create; exit_if (r ≠ 0) (EXIT_EVTTIMER c);;
  r ← sys E c_timer_settime; exit_if (r ≠ 0) (EXIT_EVTSETTIME c);;

  modify (set_gl (set_id_counter 0)).

Definition read_evt_end : M unit :=
  p ← gets (regs ∘ gl); size ← gets (regs_size ∘ gl);
  (if p is Some r then munmap E r (to_uint32 size) else mret tt);;
  p ← gets (tt_regs ∘ gl);
  (if p is Some r then munmap E r (to_uint32 size) else mret tt);;
  p ← gets (tstctl_regs ∘ gl);
  (if p is Some r then munmap E r (to_uint32 size) else mret tt);;
  for_loop SHWR_RAW_NCH_MAX 0 (λ i,
    p ← arr_get (shwr_pt ∘ gl) i; size ← gets (shwr_mem_size ∘ gl);
    if p is Some r then munmap E r (to_uint32 size) else mret tt).

(** [while ((st[0] & aux) == 0 && sig == SIG_WAKEUP)
      sig = sigwaitinfo(&gl.sigset, NULL);]
    The status register is read at every test; the result is [sig]. *)
Fixpoint wait_trigger (fuel : nat) (aux sig : Z) : M Z :=
  match fuel with
  | O => out_of_fuel
  | S fuel' =>
      st ← reg_read E (regs ∘ gl) SHWR_BUF_STATUS_ADDR;
      if decide (Z.land st aux = 0 ∧ sig = SIG_WAKEUP) then
        sig ← sys E c_sigwaitinfo;
        wait_trigger fuel' aux sig
      else mret sig
  end.

End ReadEvt.
End ReadEvt.

Module AdcCheckRamp.

(** [#define DATASIZE (SHWR_NSAMPLES * SHWR_RAW_NCH_MAX)], in words *)
Definition DATASIZE : nat := SHWR_NSAMPLES * SHWR_RAW_NCH_MAX.

(** Inner loop of [convert_databuf]: [n] iterations remain, [i] is the
    sample index, [cur_ptr] and [stop_ptr] are offsets into [databuf]. *)
Fixpoint convert_samples (n i adc cur_ptr stop_ptr : nat)
    (databuf : list Z) (traces : Trace) : option Trace :=
  match n with
  | O => Some traces
  | S n' =>
      w ← databuf !! cur_ptr;
      let traces := tset traces (2 * adc) i (Z.land w 0xfff) in
      let traces := tset traces (2 * adc + 1) i (Z.land (Z.shiftr w 16) 0xfff) in
      let cur_ptr := S cur_ptr in
      let cur_ptr :=
        if decide (cur_ptr = stop_ptr) then (stop_ptr - SHWR_NSAMPLES)%nat
        else cur_ptr in
      convert_samples n' (S i) adc cur_ptr stop_ptr databuf traces
  end.

(** [p + n] for a [uint32_t *p] at offset [off] and the [uint32_t]
    value [n]: on the target addresses have 32 bits, so the sum wraps at
    2^32 bytes, which is 2^30 words. *)
Definition ptr_add (off n : nat) : nat :=
  Z.to_nat ((Z.of_nat off + Z.of_nat n) mod 2 ^ 30).

(** Outer loop of [convert_databuf] over the raw channels.  The array is
    far shorter than 2^30 words, so [stop_ptr], and the increment of a
    pointer that was just read through, do not wrap. *)
Fixpoint convert_channels (n adc shwr_buf_start : nat)
    (databuf : list Z) (traces : Trace) : option Trace :=
  match n with
  | O => Some traces
  | S n' =>
      let stop_ptr := ((adc + 1) * SHWR_NSAMPLES)%nat in
      let cur_ptr := ptr_add (adc * SHWR_NSAMPLES) shwr_buf_start in
      traces ← convert_samples SHWR_NSAMPLES 0 adc cur_ptr stop_ptr
                 databuf traces;
      convert_channels n' (S adc) shwr_buf_start databuf traces
  end.

(** [void convert_databuf(uint32_t *databuf, uint16_t traces[][SHWR_NSAMPLES])];
    the global [sh.shwr_buf_start] it reads is the first argument. *)
Definition convert_databuf (shwr_buf_start : nat) (databuf : list Z)
    (traces : Trace) : option Trace :=
  convert_channels SHWR_RAW_NCH_MAX 0 shwr_buf_start databuf traces.

(** Inner loop of [evaluate_ramp]; [Some true] is the [break] taken after
    [result |= 1 << ch].  [%] on the promoted [int] operands is [Z.rem]. *)
Fixpoint ramp_mismatch (n i ch : nat) (sum : Z) (trace : Trace)
    : option bool :=
  match n with
  | O => Some false
  | S n' =>
      a ← tget trace (2 * ch) i;
      b ← tget trace (2 * ch + 1) i;
      if negb (a =? b)
         || negb (Z.rem (a + Z.of_nat i) SHWR_MAX_VAL =? sum)
      then Some true
      else ramp_mismatch n' (S i) ch sum trace
  end.

Fixpoint evaluate_channels (n ch : nat) (result : Z) (trace : Trace)
    : option Z :=
  match n with
  | O => Some result
  | S n' =>
      sum ← tget trace (2 * ch) 0;
      bad ← ramp_mismatch SHWR_NSAMPLES 0 ch sum trace;
      let result :=
        if bad : bool then Z.lor result (Z.shiftl 1 (Z.of_nat ch))
        else result in
      evaluate_channels n' (S ch) result trace
  end.

(** [int evaluate_ramp(uint16_t trace[][SHWR_NSAMPLES])] *)
Definition evaluate_ramp (trace : Trace) : option Z :=
  evaluate_channels SHWR_RAW_NCH_MAX 0 0 trace.



(** *** SPI control of the ADCs *)

Definition MASK_CHS : Z := 0x03.
Definition ADDR_CHS : Z := 0x05.
Definition ADDR_TEST : Z := 0x0D.
Definition RAMPON : Z := 0x0F.
Definition RAMPOFF : Z := 0x00.

Definition EXIT_NOPER : Z := 32.
Definition EXIT_OPENSPI : Z := 33.
Definition EXIT_SPIWRMODE : Z := 34.
Definition EXIT_SPIRDMODE : Z := 35.
Definition EXIT_SPIBITPERW : Z := 36.
Definition EXIT_SPIWRSPEED : Z := 37.
Definition EXIT_SPIRDSPEED : Z := 38.
Definition EXIT_SPIWRITE : Z := 39.
Definition EXIT_SPIREAD : Z := 40.
Definition EXIT_BUFALIGN : Z := 50.
Definition exit_codes : ReadEvt.init_codes :=
  {| ReadEvt.EXIT_EVTDEVMEM := 60; ReadEvt.EXIT_EVTMAPTRIG := 61; ReadEvt.EXIT_EVTMAPTIME := 62;
     ReadEvt.EXIT_EVTMAPTEST := 63; ReadEvt.EXIT_EVTMAPSHWR := 64; ReadEvt.EXIT_EVTSIGNAL := 65;
     ReadEvt.EXIT_EVTTIMER := 66; ReadEvt.EXIT_EVTSETTIME := 67 |}.

Section Tool.
Context `{HwDefs} (E : Env).

Definition openspidev (adc : nat) : M Z :=
  fd ← sys E (c_open_spidev adc);
  exit_if (fd < 0) EXIT_OPENSPI;;
  mret fd.

Definition spi_init (adcfd : Z) : M unit :=
  ret ← sys E (c_ioctl adcfd SPI_IOC_WR_MODE);
  exit_if (ret = -1) EXIT_SPIWRMODE;;
  ret ← sys E (c_ioctl adcfd SPI_IOC_RD_MODE);
  exit_if (ret = -1) EXIT_SPIRDMODE;;
  ret ← sys E (c_ioctl adcfd SPI_IOC_WR_BITS_PER_WORD);
  exit_if (ret = -1) EXIT_SPIBITPERW;;
  ret ← sys E (c_ioctl adcfd SPI_IOC_RD_BITS_PER_WORD);
  exit_if (ret = -1) EXIT_SPIBITPERW;;
  ret ← sys E (c_ioctl adcfd SPI_IOC_WR_MAX_SPEED_HZ);
  exit_if (ret = -1) EXIT_SPIWRSPEED;;
  ret ← sys E (c_ioctl adcfd SPI_IOC_RD_MAX_SPEED_HZ);
  exit_if (ret = -1) EXIT_SPIRDSPEED.

(** The three bytes [adc_write] puts on the link *)
Definition cmdstr (address cmd : Z) : list Z :=
  [Z.land (Z.shiftr address 8) 0xff; Z.land address 0xff; cmd mod 256].

Definition adc_write (adcfd address cmd : Z) : M Z :=
  n ← sys E (c_write adcfd (cmdstr address cmd));
  if decide (n ≠ 3) then
    modify (set_failedadcfd adcfd);;
    exit EXIT_SPIWRITE
  else mret 1.

Definition adc_settestmode (testmode : Z) : M unit :=
  for_loop SHWR_RAW_NCH_MAX 0 (λ i,
    fd ← arr_get adcfd i;
    if decide (0 ≤ fd) then
      failed ← gets failedadcfd;
      if decide (fd = failed) then mret tt     (* skip ADC fd with errors *)
      else
        adc_write fd ADDR_CHS MASK_CHS;;
        adc_write fd ADDR_TEST testmode;;
        mret tt
    else mret tt).

Definition adc_normal : M unit :=
  adc_settestmode RAMPOFF;;
  for_loop SHWR_RAW_NCH_MAX 0 (λ i,
    fd ← arr_get adcfd i;
    sys E (c_close fd);;
    modify (λ w, set_adcfd (<[i := -1]> (adcfd w)) w)).

(** *** Event reading *)

Definition read_evt_init : M unit := ReadEvt.read_evt_init E exit_codes.
Definition read_evt_end : M unit := ReadEvt.read_evt_end E.

(** The [for] loop of [read_evt_read]: one [memcpy] of [SHWR_NSAMPLES]
    words per raw channel, from [gl.shwr_pt[i] + offset] to [buf], which
    then moves on by [SHWR_NSAMPLES]. *)
Definition copy_slot (offset : Z) : M unit :=
  for_loop SHWR_RAW_NCH_MAX 0 (λ i,
    p ← arr_get (shwr_pt ∘ gl) i;
    src ← read_words E p offset SHWR_NSAMPLES;
    buf ← gets databuf;
    match store buf (i * SHWR_NSAMPLES) src with
    | Some buf' => modify (set_databuf buf')
    | None => fault
    end).

(** [long long read_evt_read(struct shwr_header* sh, uint32_t *buf)] as
    [main] calls it, with [&sh] and [databuf].  The time of day is the
    environment's answer in microseconds.  The source forms it as
    [tval.tv_sec * 1000000L + tval.tv_usec] in [long], which has 32 bits
    on the target: what enters the 64-bit [duration] is that value, and
    its negation, reduced to 32 bits in two's complement. *)
Definition read_evt_read (fuel : nat) : M Z :=
  let aux := to_uint32 (Z.shiftl SHWR_BUF_NFULL_MASK SHWR_BUF_NFULL_SHIFT) in
  sig ← ReadEvt.wait_trigger E fuel aux SIG_WAKEUP;
  if decide (sig = SIG_WAKEUP) then
    t0 ← sys E c_gettimeofday;
    let duration := to_int32 (- t0) in
    st ← reg_read E (regs ∘ gl) SHWR_BUF_STATUS_ADDR;
    let rd := Z.land (Z.shiftr st SHWR_BUF_RNUM_SHIFT) SHWR_BUF_RNUM_MASK in
    let offset := rd * Z.of_nat SHWR_NSAMPLES in
    copy_slot offset;;
    v_id ← gets (id_counter ∘ gl);
    v_status ← reg_read E (regs ∘ gl) SHWR_BUF_STATUS_ADDR;
    v_start ← reg_read E (regs ∘ gl) SHWR_BUF_START_ADDR;
    v_trig_id ← reg_read E (regs ∘ gl) SHWR_BUF_TRIG_ID_ADDR;
    v_seconds ← reg_read E (tt_regs ∘ gl) TTAG_SHWR_SECONDS_ADDR;
    v_nanosec ← reg_read E (tt_regs ∘ gl) TTAG_SHWR_NANOSEC_ADDR;
    modify (set_sh {| id := v_id; shwr_buf_status := v_status;
                      shwr_buf_start := v_start;
                      shwr_buf_trig_id := v_trig_id;
                      ttag_shwr_seconds := v_seconds;
                      ttag_shwr_nanosec := v_nanosec; rd := rd |});;
    (* release buffer *)
    reg_write (regs ∘ gl) SHWR_BUF_CONTROL_ADDR rd;;
    modify (set_gl (set_id_counter (to_uint32 (v_id + 1))));;
    emit (EvIdCounter (to_uint32 (v_id + 1)));;
    t1 ← sys E c_gettimeofday;
    mret (duration + to_int32 t1)
  else mret (-1).

Definition restore_trigger : M unit :=
  p ← gets (regs ∘ gl);
  if p is Some _ then
    v ← gets saved_trigger;
    reg_write (regs ∘ gl) SHWR_BUF_TRIG_MASK_ADDR v
  else mret tt.

Definition LED_trigger : M unit :=
  reg_write (regs ∘ gl) LED_CONTROL_ADDR 0;;
  reg_write (regs ∘ gl) LED_CONTROL_ADDR 1;;
  sys E (c_usleep 100);;
  mret tt.

(** *** The program *)

(** [convert_databuf(databuf, traces)] on the globals *)
Definition convert_databuf_globals : M unit := λ w,
  match convert_databuf (Z.to_nat (shwr_buf_start (sh w))) (databuf w)
          (traces w) with
  | Some t => Ret tt (set_traces t w)
  | None => Fault w
  end.

(** [evaluate_ramp(traces)] on the global *)
Definition evaluate_ramp_globals : M Z := λ w,
  match evaluate_ramp (traces w) with
  | Some r => Ret r w
  | None => Fault w
  end.

(** [while ((opt = getopt(argc, argv, "d:vVh")) != -1) switch (opt) ...];
    the result is [verbose]. *)
Fixpoint parse_options (fuel : nat) (verbose : Z) : M Z :=
  match fuel with
  | O => out_of_fuel
  | S fuel' =>
      opt ← sys E c_getopt;
      if decide (opt = -1) then mret verbose
      else if decide (opt = 100) then            (* 'd' *)
        modify (set_adc_trace_fn true);;
        parse_options fuel' verbose
      else if decide (opt = 118) then            (* 'v' *)
        parse_options fuel' 1
      else                                       (* 'V', 'h', default *)
        exit EXIT_NOPER
  end.

(** [main] from [atexit(read_evt_end)] to its [return] *)
Definition main_after_init (fuel : nat) : M Z :=
  atexit h_read_evt_end;;
  (* save current trigger and set to LED *)
  v ← reg_read E (regs ∘ gl) SHWR_BUF_TRIG_MASK_ADDR;
  modify (set_saved_trigger v);;
  reg_write (regs ∘ gl) SHWR_BUF_TRIG_MASK_ADDR SHWR_BUF_TRIG_LED;;
  atexit h_restore_trigger;;
  (* set fake GPS *)
  v ← reg_read E (tstctl_regs ∘ gl) USE_FAKE_ADDR;
  reg_write (tstctl_regs ∘ gl) USE_FAKE_ADDR
    (Z.lor v (Z.shiftl 1 USE_FAKE_PPS_BIT));;

  adc_settestmode RAMPON;;
  atexit h_adc_normal;;

  LED_trigger;;
  duration ← read_evt_read fuel;
  convert_databuf_globals;;
  fn ← gets adc_trace_fn;
  (if fn : bool then sys E c_dump_trace;; mret tt else mret tt);;
  result ← evaluate_ramp_globals;
  (* clean up function registered via atexit *)
  mret result.

Definition main (fuel : nat) : M Z :=
  (* make databuf aligned to 8*n + 4 *)
  let a := databuf_addr E in
  let d := to_uint32 (Z.shiftl (Z.shiftr (to_uint32 (a + 7)) 3) 3 + 4) in
  exit_if (d < a ∨ a + 4 * 8 ≤ d ∨ Z.land d 7 ≠ 4) EXIT_BUFALIGN;;
  (* set real-time priority; a failure is only reported *)
  sys E c_sched_setscheduler;;
  verbose ← parse_options fuel 0;
  for_loop SHWR_RAW_NCH_MAX 0 (λ i,
    modify (λ w, set_adcfd (<[i := -1]> (adcfd w)) w));;
  for_loop SHWR_RAW_NCH_MAX 0 (λ i,
    fd ← openspidev i;
    spi_init fd;;
    modify (λ w, set_adcfd (<[i := fd]> (adcfd w)) w));;
  read_evt_init;;
  main_after_init fuel.

(** *** The process around [main] *)

Definition run_handler (h : handler) : M unit :=
  match h with
  | h_read_evt_end => read_evt_end
  | h_restore_trigger => restore_trigger
  | h_adc_normal => adc_normal
  end.

(** [exit(code)]: the registered functions run, last registered first.
    One of them calling [exit] again is undefined in ISO C; glibc then
    goes on with the functions that are left and ends with the new
    status, and that is what is modelled.  No registered function of the
    tool registers another. *)
Fixpoint run_atexit (hs : list handler) (code : Z) (w : world) : outcome Z :=
  match hs with
  | [] => Exit code w
  | h :: hs' =>
      match run_handler h (set_atexit_list hs' w) with
      | Ret _ w' => run_atexit hs' code w'
      | Exit code' w' => run_atexit hs' code' w'
      | Abort w' => Abort w'
      | Fault w' => Fault w'
      | OutOfFuel => OutOfFuel
      end
  end.

(** The whole process: [Exit code w] is termination with status [code]. *)
Definition run_process (m : M Z) (w : world) : outcome Z :=
  match m w with
  | Ret code w' => run_atexit (atexit_list w') code w'
  | Exit code w' => run_atexit (atexit_list w') code w'
  | Abort w' => Abort w'
  | Fault w' => Fault w'
  | OutOfFuel => OutOfFuel
  end.

End Tool.

End AdcCheckRamp.

Module Netscope.

Definition DATAPORT : Z := 8888.
Definition CTRLPORT : Z := 8887.
Definition PACKETSIZE : nat := 1400.        (* plus frag header *)

(** [sizeof(struct shwr_header)] and [sizeof(struct frag_header)]: seven
    [uint32_t], and one [uint32_t] with two [uint16_t]; no padding. *)
Definition SHWR_HEADER_SIZE : nat := 28.
Definition FRAG_HEADER_SIZE : nat := 8.

(** [DATASIZE] is in bytes here. *)
Definition DATASIZE : nat := 4 * SHWR_NSAMPLES * SHWR_RAW_NCH_MAX.
Definition WBUFSIZE : nat := FRAG_HEADER_SIZE + DATASIZE.

(** The [n] bytes of an unsigned value in memory; the board is
    little-endian. *)
Fixpoint le_bytes (n : nat) (x : Z) : list Z :=
  match n with
  | O => []
  | S n' => x mod 256 :: le_bytes n' (x / 256)
  end.

(** [(uint8_t * ) &sh] *)
Definition shwr_header_bytes (h : shwr_header) : list Z :=
  le_bytes 4 (id h) ++ le_bytes 4 (shwr_buf_status h)
  ++ le_bytes 4 (shwr_buf_start h) ++ le_bytes 4 (shwr_buf_trig_id h)
  ++ le_bytes 4 (ttag_shwr_seconds h) ++ le_bytes 4 (ttag_shwr_nanosec h)
  ++ le_bytes 4 (rd h).

(** [struct frag_header] in memory; [start] and [end] are [uint16_t]. *)
Definition frag_header_bytes (id start end_ : Z) : list Z :=
  le_bytes 4 id ++ le_bytes 2 start ++ le_bytes 2 end_.

Definition set_id (x : Z) (h : shwr_header) : shwr_header :=
  {| id := x; shwr_buf_status := shwr_buf_status h;
     shwr_buf_start := shwr_buf_start h;
     shwr_buf_trig_id := shwr_buf_trig_id h;
     ttag_shwr_seconds := ttag_shwr_seconds h;
     ttag_shwr_nanosec := ttag_shwr_nanosec h; rd := rd h |}.

Definition exit_codes : ReadEvt.init_codes :=
  {| ReadEvt.EXIT_EVTDEVMEM := 1; ReadEvt.EXIT_EVTMAPTRIG := 1; ReadEvt.EXIT_EVTMAPTIME := 1;
     ReadEvt.EXIT_EVTMAPTEST := 1; ReadEvt.EXIT_EVTMAPSHWR := 1; ReadEvt.EXIT_EVTSIGNAL := 1;
     ReadEvt.EXIT_EVTTIMER := 1; ReadEvt.EXIT_EVTSETTIME := 1 |}.

Section Tool.
Context `{HwDefs} (E : Env).

Definition opensock : M Z :=
  sock ← sys E c_socket;
  exit_if (sock = -1) 1;;
  r ← sys E c_inet_aton;
  exit_if (r = 0) 1;;
  mret sock.

Definition opencontrolsock : M Z :=
  sock ← sys E c_socket;
  exit_if (sock = -1) 1;;
  sys E c_setsockopt;;
  r ← sys E (c_bind CTRLPORT);
  exit_if (r < 0) 1;;
  mret sock.

(** The [for] loop of [senddata]; [start] and [end_] are offsets into
    [workbuf], so [databuf] is [FRAG_HEADER_SIZE] and [endbuf] is
    [WBUFSIZE].  Every turn moves [end_] forward, so [WBUFSIZE] turns are
    enough. *)
Fixpoint send_fragments (fuel : nat) (sock id : Z) (start end_ : nat)
    : M unit :=
  match fuel with
  | O => out_of_fuel
  | S fuel' =>
      if decide (end_ < WBUFSIZE)%nat then
        let end_ :=
          if decide (WBUFSIZE < start + PACKETSIZE)%nat then WBUFSIZE
          else (start + PACKETSIZE)%nat in
        (* fh = (struct frag_header * ) start *)
        let fh :=
          frag_header_bytes id
            (Z.of_nat start mod 2 ^ 16)
            ((Z.of_nat end_ - Z.of_nat FRAG_HEADER_SIZE) mod 2 ^ 16) in
        buf ← gets workbuf;
        match store buf start fh with
        | None => fault
        | Some buf' =>
            modify (set_workbuf buf');;
            let psize := (end_ - start)%nat in
            n ← sys E (c_sendto sock (take psize (drop start buf')));
            exit_if (n ≠ Z.of_nat psize) 1;;
            send_fragments fuel' sock id (end_ - FRAG_HEADER_SIZE) end_
        end
      else mret tt
  end.

Definition senddata (sock : Z) : M unit :=
  h ← gets sh;
  let id := id h in
  (* send header *)
  let psize := SHWR_HEADER_SIZE in
  modify (set_sh (set_id (Z.lor id 0x80000000) h));;
  h ← gets sh;
  n ← sys E (c_sendto sock (shwr_header_bytes h));
  exit_if (n ≠ Z.of_nat psize) 1;;
  send_fragments WBUFSIZE sock id 0 0.

Definition controlrecv (sock : Z) : M Z := sys E (c_recvfrom sock 1).

Definition read_evt_init : M unit := ReadEvt.read_evt_init E exit_codes.
Definition read_evt_end : M unit := ReadEvt.read_evt_end E.

(** The [for] loop of [read_evt_read]: one [memcpy] of [SHWR_NSAMPLES]
    words per raw channel, from [gl.shwr_pt[i] + offset] to [fadc], which
    then moves on by [SHWR_NSAMPLES] words. *)
Definition copy_slot (offset : Z) : M unit :=
  for_loop SHWR_RAW_NCH_MAX 0 (λ i,
    p ← arr_get (shwr_pt ∘ gl) i;
    src ← read_words E p offset SHWR_NSAMPLES;
    buf ← gets workbuf;
    match store buf (FRAG_HEADER_SIZE + 4 * (i * SHWR_NSAMPLES))
            (flat_map (le_bytes 4) src) with
    | Some buf' => modify (set_workbuf buf')
    | None => fault
    end).

(** [int read_evt_read(struct shwr_header* sh, uint8_t *buf)] as [main]
    calls it, with [&sh] and [databuf], which is [workbuf] after the
    room for one fragment header. *)
Definition read_evt_read (fuel : nat) : M Z :=
  let aux := to_uint32 (Z.shiftl SHWR_BUF_NFULL_MASK SHWR_BUF_NFULL_SHIFT) in
  sig ← ReadEvt.wait_trigger E fuel aux SIG_WAKEUP;
  if decide (sig = SIG_WAKEUP) then
    st ← reg_read E (regs ∘ gl) SHWR_BUF_STATUS_ADDR;
    let rd := Z.land (Z.shiftr st SHWR_BUF_RNUM_SHIFT) SHWR_BUF_RNUM_MASK in
    let offset := rd * Z.of_nat SHWR_NSAMPLES in
    copy_slot offset;;
    v_id ← gets (id_counter ∘ gl);
    v_status ← reg_read E (regs ∘ gl) SHWR_BUF_STATUS_ADDR;
    v_start ← reg_read E (regs ∘ gl) SHWR_BUF_START_ADDR;
    v_trig_id ← reg_read E (regs ∘ gl) SHWR_BUF_TRIG_ID_ADDR;
    v_seconds ← reg_read E (tt_regs ∘ gl) TTAG_SHWR_SECONDS_ADDR;
    v_nanosec ← reg_read E (tt_regs ∘ gl) TTAG_SHWR_NANOSEC_ADDR;
    modify (set_sh {| id := v_id; shwr_buf_status := v_status;
                      shwr_buf_start := v_start;
                      shwr_buf_trig_id := v_trig_id;
                      ttag_shwr_seconds := v_seconds;
                      ttag_shwr_nanosec := v_nanosec; rd := rd |});;
    (* release buffer *)
    reg_write (regs ∘ gl) SHWR_BUF_CONTROL_ADDR rd;;
    modify (set_gl (set_id_counter (to_uint32 (v_id + 1))));;
    emit (EvIdCounter (to_uint32 (v_id + 1)));;
    mret 0
  else mret 1.

(** One turn of the acquisition loop of [main], after the test *)
Definition acquire_and_send (fuel : nat) (datasock : Z) : M unit :=
  read_evt_read fuel;;
  senddata datasock.

(** [while (controlrecv(controlsock) <= 0) { ... }] *)
Fixpoint acquisition_loop (fuel : nat) (datasock controlsock : Z) : M unit :=
  match fuel with
  | O => out_of_fuel
  | S fuel' =>
      msglen ← controlrecv controlsock;
      if decide (msglen ≤ 0) then
        acquire_and_send fuel' datasock;;
        acquisition_loop fuel' datasock controlsock
      else mret tt
  end.

(** [main], built with [TRIG_EXT] *)
Definition main (fuel : nat) : M Z :=
  (* prepare UDP *)
  datasock ← opensock;
  controlsock ← opencontrolsock;

  read_evt_init;;
  (* set trigger to external *)
  reg_write (regs ∘ gl) SHWR_BUF_TRIG_MASK_ADDR COMPATIBILITY_SHWR_BUF_TRIG_EXT;;
  (* set fake GPS *)
  v ← reg_read E (tstctl_regs ∘ gl) USE_FAKE_ADDR;
  reg_write (tstctl_regs ∘ gl) USE_FAKE_ADDR
    (Z.lor v (Z.shiftl 1 USE_FAKE_PPS_BIT));;

  acquisition_loop fuel datasock controlsock;;

  read_evt_end;;
  sys E (c_close controlsock);;
  sys E (c_close datasock);;
  mret 0.

(** The whole process; the tool registers nothing with [atexit], so
    [exit] ends it at once.  [Exit code w] is termination with status
    [code]. *)
Definition run_process (m : M Z) (w : world) : outcome Z :=
  match m w with
  | Ret code w' => Exit code w'
  | o => o
  end.

End Tool.

End Netscope.

Module AdcRamp.

Definition CTRLPORT : Z := 8886.
Definition MSGLEN : nat := 18.
Definition NADC : nat := 5.

Definition MASK_CMD : Z := 0x40.
Definition MASK_ON : Z := 0x20.
Definition MASK_ADC : Z := 0x1C.
Definition SH_ADC : Z := 2.
Definition MASK_CHS : Z := 0x03.
Definition CMD_QUIT : Z := 0x21.
Definition RESP_BASE : Z := 0x20.
Definition RESP_ERR : Z := 0x10.

Definition ADDR_CHS : Z := 0x05.
Definition ADDR_TEST : Z := 0x0D.
Definition RAMPON : Z := 0x0F.
Definition RAMPOFF : Z := 0x00.

Section Tool.
Context (E : Env).

(** [pabort] appends to a log file and calls [abort]. *)
Definition pabort {A} : M A := abort.

Definition openspidev (adc : nat) : M Z :=
  fd ← sys E (c_open_spidev adc);
  (if decide (fd < 0) then pabort else mret tt);;
  mret fd.

Definition spi_init (adcfd : Z) : M unit :=
  ret ← sys E (c_ioctl adcfd SPI_IOC_WR_MODE);
  (if decide (ret = -1) then pabort else mret tt);;
  ret ← sys E (c_ioctl adcfd SPI_IOC_RD_MODE);
  (if decide (ret = -1) then pabort else mret tt);;
  ret ← sys E (c_ioctl adcfd SPI_IOC_WR_BITS_PER_WORD);
  (if decide (ret = -1) then pabort else mret tt);;
  ret ← sys E (c_ioctl adcfd SPI_IOC_RD_BITS_PER_WORD);
  (if decide (ret = -1) then pabort else mret tt);;
  ret ← sys E (c_ioctl adcfd SPI_IOC_WR_MAX_SPEED_HZ);
  (if decide (ret = -1) then pabort else mret tt);;
  ret ← sys E (c_ioctl adcfd SPI_IOC_RD_MAX_SPEED_HZ);
  if decide (ret = -1) then pabort else mret tt.

Definition adc_write (adcfd address cmd : Z) : M Z :=
  n ← sys E (c_write adcfd
               [Z.land (Z.shiftr address 8) 0xff; Z.land address 0xff;
                cmd mod 256]);
  if decide (n ≠ 3) then pabort else mret 1.

Definition opencontrolsock : M Z :=
  sock ← sys E c_socket;
  (if decide (sock = -1) then pabort else mret tt);;
  r ← sys E (c_bind CTRLPORT);
  (if decide (r < 0) then pabort else mret tt);;
  mret sock.

(** [recvfrom(sock, buf, MSGLEN, 0, ...)]: the first bytes of the
    datagram go to [buf], their number is the result. *)
Definition recvfrom (sock : Z) (buf : list Z) : M (Z * list Z) := λ w,
  let data := take MSGLEN (recv_bytes E (length (log w))) in
  let len := Z.of_nat (length data) in
  Ret (len, data ++ drop (length data) buf)
      (set_log (log w ++ [EvSys (c_recvfrom sock (Z.of_nat MSGLEN)) len]) w).

(** [for (i = 0; buf[i] != '\0'; i++) ...] of [main]; the result is the
    pair of [c] and [resp] after the loop.  [adcfd] is the array of
    [main], kept in the global of the same name.  The sentinel in
    [buf[MSGLEN-1]] ends the loop within [MSGLEN] turns. *)
Fixpoint run_commands (n i : nat) (buf : list Z) (c resp : Z) : M (Z * Z) :=
  match n with
  | O => fault
  | S n' =>
      match buf !! i with
      | None => fault
      | Some b =>
          if decide (b = 0) then mret (c, resp)
          else
            let c := b in
            if decide (c = CMD_QUIT) then mret (c, resp + 1)
            else if decide (Z.land c MASK_CMD ≠ 0) then
              let adc := Z.shiftr (Z.land c MASK_ADC) SH_ADC in
              if decide (Z.of_nat NADC ≤ adc) then
                mret (c, Z.lor resp RESP_ERR)
              else
                adc ← arr_get adcfd (Z.to_nat adc);
                adc_write adc ADDR_CHS (Z.land c MASK_CHS);;
                adc_write adc ADDR_TEST
                  (if decide (Z.land c MASK_ON ≠ 0) then RAMPON else RAMPOFF);;
                run_commands n' (S i) buf c (resp + 1)
            else                                   (* invalid cmd *)
              mret (c, Z.lor resp RESP_ERR)
      end
  end.

(** One turn of the [do ... while] of [main], from [select] to the
    [continue] or the [sendto]; [buf] and [c] go in and come out. *)
Definition serve_once (sock : Z) (buf : list Z) (c : Z) : M (list Z * Z) :=
  len ← sys E (c_select sock);
  if decide (len = 0) then mret (buf, c)           (* timeout *)
  else
    '(len, buf) ← recvfrom sock buf;
    if decide (len ≠ Z.of_nat MSGLEN) then mret (buf, c)   (* incomplete packet *)
    else
      let resp := RESP_BASE in
      let buf := <[(MSGLEN - 1)%nat := 0]> buf in   (* sentinel *)
      '(c, resp) ← run_commands MSGLEN 0 buf c resp;
      let buf := <[0%nat := resp]> buf in
      sys E (c_sendto sock buf);;
      mret (buf, c).

(** [do { ... } while (c != CMD_QUIT)] *)
Fixpoint main_loop (fuel : nat) (sock : Z) (buf : list Z) (c : Z) : M unit :=
  match fuel with
  | O => out_of_fuel
  | S fuel' =>
      '(buf, c) ← serve_once sock buf c;
      if decide (c ≠ CMD_QUIT) then main_loop fuel' sock buf c
      else mret tt
  end.

Definition main (fuel : nat) : M Z :=
  sock ← opencontrolsock;
  for_loop NADC 0 (λ adc,
    fd ← openspidev adc;
    spi_init fd;;
    modify (λ w, set_adcfd (<[adc := fd]> (adcfd w)) w));;
  (* main loop *)
  main_loop fuel sock (replicate MSGLEN 0) 0;;
  sys E (c_close sock);;
  for_loop NADC 0 (λ adc,
    fd ← arr_get adcfd adc;
    sys E (c_close fd);;
    mret tt);;
  mret 0.

End Tool.

End AdcRamp.

(** ** Properties and sample data the statements below use *)

(** Sample [i] of raw channel [c] breaks the ramp that starts at [sum]. *)
Definition ramp_broken_at (trace : Trace) (c : nat) (sum : Z) (i : nat) : Prop :=
  ∃ a b, tget trace (2 * c) i = Some a ∧ tget trace (2 * c + 1) i = Some b
         ∧ (a ≠ b ∨ (a + Z.of_nat i) mod 4096 ≠ sum).

(** A staging buffer in which word [k] of every raw channel holds
    [k mod 4096] in both halves, and a cleared trace array. *)
Definition ramp_databuf : list Z :=
  flat_map (λ _ : nat,
      map (λ k, let v := Z.of_nat k mod 4096 in v + v * 65536)
          (seq 0 SHWR_NSAMPLES))
    (seq 0 SHWR_RAW_NCH_MAX).

Definition blank_traces : Trace :=
  replicate SHWR_NCH_MAX (replicate SHWR_NSAMPLES 0).

(** *** Reasoning about computations in [M] *)

(** The ways a computation ends without returning *)
Inductive halt :=
| HExit (code : Z) (w : world)
| HAbort (w : world)
| HFault (w : world)
| HFuel.

(** [post m w Q R]: run from [w], [m] returns a value and a state in [Q],
    or it ends in a way [R] allows. *)
Definition post {A} (m : M A) (w : world)
    (Q : A → world → Prop) (R : halt → Prop) : Prop :=
  match m w with
  | Ret a w' => Q a w'
  | Exit code w' => R (HExit code w')
  | Abort w' => R (HAbort w')
  | Fault w' => R (HFault w')
  | OutOfFuel => R HFuel
  end.

(** The state in which a computation stopped, if there is one *)
Definition halt_world (h : halt) : option world :=
  match h with
  | HExit _ w | HAbort w | HFault w => Some w
  | HFuel => None
  end.

(** The events [w'] has after those of [w] *)
Definition events_since (w w' : world) : list event :=
  drop (length (log w)) (log w').

(** A write on the SPI link of [fd] *)
Definition is_spi_write (fd : Z) (e : event) : Prop :=
  ∃ bytes ret, e = EvSys (c_write fd bytes) ret.

(** A completed SPI write, and a [close] *)
Definition spi_write_done (e : event) : Prop :=
  ∃ fd bytes, e = EvSys (c_write fd bytes) 3.

Definition is_close (e : event) : Prop := ∃ fd r, e = EvSys (c_close fd) r.

(** [w'] has the events of [w] and then events that all satisfy [P]. *)
Definition extends_with (P : event → Prop) (w w' : world) : Prop :=
  ∃ evs, log w' = log w ++ evs ∧ Forall P evs.


(** *** A sample platform and sample environments

    The values stand in for the headers that are not part of the
    sources; only the examples use them. *)
Definition sample_defs : HwDefs :=
  {| SHWR_BUF_STATUS_ADDR := 130; SHWR_BUF_START_ADDR := 131;
     SHWR_BUF_TRIG_ID_ADDR := 129; SHWR_BUF_CONTROL_ADDR := 128;
     SHWR_BUF_TRIG_MASK_ADDR := 127;
     SHWR_BUF_NFULL_MASK := 7; SHWR_BUF_NFULL_SHIFT := 4;
     SHWR_BUF_RNUM_MASK := 3; SHWR_BUF_RNUM_SHIFT := 0;
     SHWR_BUF_TRIG_LED := 65536; COMPATIBILITY_SHWR_BUF_TRIG_EXT := 16;
     LED_CONTROL_ADDR := 126;
     TTAG_SHWR_SECONDS_ADDR := 8; TTAG_SHWR_NANOSEC_ADDR := 9;
     USE_FAKE_ADDR := 0; USE_FAKE_PPS_BIT := 0;
     SHWR_MEM_DEPTH := 8192; SHWR_MEM_NBUF := 4;
     PAGESIZE := 4096; SIG_WAKEUP := 48 |}.

(** Every call succeeds: the SPI devices open as descriptors 3..7, SPI
    writes transfer their three bytes and sends every byte, the wake-up signal arrives, no option
    is on the command line and a control datagram is waiting. *)
Definition sys_ok (t : nat) (c : call) : Z :=
  match c with
  | c_getopt => -1
  | c_open_spidev adc => 3 + Z.of_nat adc
  | c_write _ _ => 3
  | c_sendto _ bytes => Z.of_nat (length bytes)
  | c_open_devmem => 8
  | c_socket => 9
  | c_inet_aton => 1
  | c_sigwaitinfo => 48
  | c_recvfrom _ _ => 1
  | c_select _ => 1
  | _ => 0
  end.

(** A trigger status with the buffer-full flag set and slot 2 ready *)
Definition hw_ready (t : nat) (r : region) (addr : Z) : Z :=
  match r with
  | TriggerRegs => if decide (addr = 130) then 18 else 0
  | TimeTagRegs => 1000 + addr
  | TestCtlRegs => 0
  | ShwrBuf i => (Z.of_nat i * 4096 - addr) mod 4096 * 65537
  end.

Definition env_ok : Env :=
  {| sys_ret := sys_ok; hw_val := hw_ready; recv_bytes := λ _, [];
     databuf_addr := 4096 |}.

(** The globals at program start; [failedadcfd] has an initialiser. *)
Definition w_init : world :=
  {| gl := {| id_counter := 0; shwr_pt := replicate SHWR_RAW_NCH_MAX None;
              shwr_mem_size := 0; regs := None; tt_regs := None;
              tstctl_regs := None; regs_size := 0 |};
     sh := {| id := 0; shwr_buf_status := 0; shwr_buf_start := 0;
              shwr_buf_trig_id := 0; ttag_shwr_seconds := 0;
              ttag_shwr_nanosec := 0; rd := 0 |};
     saved_trigger := 0;
     databuf := replicate AdcCheckRamp.DATASIZE 0;
     traces := blank_traces;
     adc_trace_fn := false;
     adcfd := replicate SHWR_RAW_NCH_MAX 0;
     failedadcfd := -1;
     workbuf := replicate Netscope.WBUFSIZE 0;
     atexit_list := [];
     mapped := [];
     log := [] |}.

(** The five SPI links open on descriptors 3..7 *)
Definition w_spi_open : world := set_adcfd [3; 4; 5; 6; 7] w_init.

(** As [env_ok], but the link on descriptor 3 transfers nothing. *)
Definition env_spi3_dead : Env :=
  {| sys_ret := λ t c,
       match c with
       | c_write 3 _ => -1
       | _ => sys_ok t c
       end;
     hw_val := hw_ready; recv_bytes := λ _, []; databuf_addr := 4096 |}.

(** The state in which a computation ended, whichever way it ended *)
Definition ends_in {A} (o : outcome A) (w' : world) : Prop :=
  match o with
  | Ret _ w | Exit _ w | Abort w | Fault w => w = w'
  | OutOfFuel => False
  end.


(** *** The drain of [read_evt_read] *)

(** Events of the wait: reads of the status register and waits for the
    signal *)
Definition is_wait_event `{HwDefs} (e : event) : Prop :=
  (∃ r v, e = EvRead r SHWR_BUF_STATUS_ADDR v) ∨ (∃ s, e = EvSys c_sigwaitinfo s).

(** The slot index in a value of the status register *)
Definition slot_of `{HwDefs} (st : Z) : Z :=
  Z.land (Z.shiftr st SHWR_BUF_RNUM_SHIFT) SHWR_BUF_RNUM_MASK.

(** The events of one drain, in order: the status read that gives the
    slot, one copy per channel window in [rs], the reads for the header,
    the release of the slot, the new value of the id counter. *)
Definition drain_events `{HwDefs} (rg rt : region) (rs : list region)
    (st : Z) (h : shwr_header) (new_id : Z) : list event :=
  [EvRead rg SHWR_BUF_STATUS_ADDR st]
  ++ map (λ r, EvMemcpy r (slot_of st * Z.of_nat SHWR_NSAMPLES) SHWR_NSAMPLES) rs
  ++ [EvRead rg SHWR_BUF_STATUS_ADDR (shwr_buf_status h);
      EvRead rg SHWR_BUF_START_ADDR (shwr_buf_start h);
      EvRead rg SHWR_BUF_TRIG_ID_ADDR (shwr_buf_trig_id h);
      EvRead rt TTAG_SHWR_SECONDS_ADDR (ttag_shwr_seconds h);
      EvRead rt TTAG_SHWR_NANOSEC_ADDR (ttag_shwr_nanosec h);
      EvWrite rg SHWR_BUF_CONTROL_ADDR (slot_of st);
      EvIdCounter new_id].

(** What a drain leaves: the header [h] holds the old id counter and the
    slot, the counter is one more, and the events are those of
    [drain_events] between [before] and [after]. *)
Definition drained `{HwDefs} (w w' : world) (before after : list event) : Prop :=
  ∃ rg rt rs st,
    regs (gl w) = Some rg ∧ tt_regs (gl w) = Some rt
    ∧ take SHWR_RAW_NCH_MAX (shwr_pt (gl w)) = map Some rs
    ∧ id (sh w') = id_counter (gl w)
    ∧ rd (sh w') = slot_of st
    ∧ gl w' = set_id_counter (to_uint32 (id_counter (gl w) + 1)) (gl w)
    ∧ events_since w w'
      = before ++ drain_events rg rt rs st (sh w')
                    (to_uint32 (id_counter (gl w) + 1)) ++ after.

(** What a wait without wake-up leaves: nothing but the events of the
    wait. *)
Definition timed_out `{HwDefs} (w w' : world) : Prop :=
  w' = set_log (log w') w ∧ extends_with is_wait_event w w'.

(** The state [read_evt_init] leaves on the sample platform: the three
    register blocks and the five channel windows mapped, the SPI links
    open. *)
Definition w_mapped : world :=
  set_mapped
    [(ShwrBuf 4, 32768); (ShwrBuf 3, 32768); (ShwrBuf 2, 32768);
     (ShwrBuf 1, 32768); (ShwrBuf 0, 32768);
     (TestCtlRegs, 4096); (TimeTagRegs, 4096); (TriggerRegs, 4096)]
    (set_gl (λ _, {| id_counter := 0;
                     shwr_pt := [Some (ShwrBuf 0); Some (ShwrBuf 1);
                                 Some (ShwrBuf 2); Some (ShwrBuf 3);
                                 Some (ShwrBuf 4)];
                     shwr_mem_size := 32768;
                     regs := Some TriggerRegs; tt_regs := Some TimeTagRegs;
                     tstctl_regs := Some TestCtlRegs; regs_size := 4096 |})
       w_spi_open).

(** Size of the live mapping of [r], the most recent one if there are
    several *)
Definition mapping_in (ms : list (region * Z)) (r : region) : option Z :=
  (λ x, x.2.2) <$> list_find (λ m, m.1 = r) ms.

Definition mapping_of (w : world) (r : region) : option Z :=
  mapping_in (mapped w) r.

(** Size in bytes of a channel window as [read_evt_init] asks for it *)
Definition shwr_window_size `{HwDefs} : Z :=
  to_uint32 (to_int32 (roundup (to_uint32 (SHWR_MEM_DEPTH * SHWR_MEM_NBUF))
                               (to_uint32 PAGESIZE))).

(** Every channel pointer is set to a live window of [size] bytes. *)
Definition windows_mapped (w : world) (size : Z) : Prop :=
  ∀ i, (i < SHWR_RAW_NCH_MAX)%nat →
    shwr_pt (gl w) !! i = Some (Some (ShwrBuf i))
    ∧ mapping_of w (ShwrBuf i) = Some size.

(** Ends that are not a call of [exit] *)
Definition not_exit (h : halt) : Prop :=
  match h with HExit _ _ => False | _ => True end.

(** A trace array that passes the test: each channel pair counts down
    from its first sample, which is what [evaluate_ramp] accepts. *)
Definition falling_traces : Trace :=
  map (λ ch : nat,
         map (λ i, (100 * Z.of_nat (ch / 2) - Z.of_nat i) mod 4096)
             (seq 0 SHWR_NSAMPLES))
      (seq 0 SHWR_NCH_MAX).

(** *** Fragments as the receiver reads them *)

(** The value of little-endian bytes *)
Fixpoint le_value (bs : list Z) : Z :=
  match bs with
  | [] => 0
  | b :: bs' => b + 256 * le_value bs'
  end.

(** The fields of the [struct frag_header] a fragment begins with, and
    the payload that follows it *)
Definition frag_id (f : list Z) : Z := le_value (take 4 f).
Definition frag_start (f : list Z) : Z := le_value (take 2 (drop 4 f)).
Definition frag_end (f : list Z) : Z := le_value (take 2 (drop 6 f)).
Definition frag_payload (f : list Z) : list Z :=
  drop Netscope.FRAG_HEADER_SIZE f.

(** The [sendto] of a datagram on [sock] that the transport took whole *)
Definition sent (sock : Z) (bytes : list Z) : event :=
  EvSys (c_sendto sock bytes) (Z.of_nat (length bytes)).

(** Fragments that carry [id] and follow one another from payload offset
    [start] to the end of the payload: each is a header with its own
    start and end offsets, then the payload bytes between them. *)
Fixpoint frag_chain (id : Z) (start : nat) (frags : list (list Z)) : Prop :=
  match frags with
  | [] => start = Netscope.DATASIZE
  | f :: rest =>
      ∃ payload,
        f = Netscope.frag_header_bytes id (Z.of_nat start)
              (Z.of_nat (start + length payload)) ++ payload
        ∧ (0 < length payload)%nat
        ∧ (length f ≤ Netscope.PACKETSIZE)%nat
        ∧ frag_chain id (start + length payload) rest
  end.

(** The header [senddata] writes at offset [s] of [workbuf] *)
Definition header_at (id : Z) (s : nat) : list Z :=
  Netscope.frag_header_bytes id (Z.of_nat s mod 2 ^ 16)
    ((Z.of_nat (if decide (Netscope.WBUFSIZE < s + Netscope.PACKETSIZE)%nat
                then Netscope.WBUFSIZE else (s + Netscope.PACKETSIZE)%nat)
      - Z.of_nat Netscope.FRAG_HEADER_SIZE) mod 2 ^ 16).

(** [workbuf] after [senddata] has sent from offset [start] on: the
    headers of the fragments over what was there. *)
Definition stamped (id : Z) (start : nat) (buf : list Z) (p : nat) : option Z :=
  if decide (start ≤ p ∧ p mod 1392 < 8)%nat
  then header_at id (p - p mod 1392) !! (p mod 1392)%nat
  else buf !! p.

(** The states in which the loop of [senddata] tests its condition: the
    first time, or after a fragment, with enough [fuel] left *)
Definition loop_head (fuel start end_ : nat) : Prop :=
  (start = 0 ∧ end_ = 0 ∧ Netscope.WBUFSIZE ≤ fuel)%nat
  ∨ (end_ = start + Netscope.FRAG_HEADER_SIZE ∧ end_ ≤ Netscope.WBUFSIZE
     ∧ Netscope.WBUFSIZE - end_ < fuel
     ∧ (start mod 1392 = 0 ∨ start = Netscope.DATASIZE))%nat.

(** The [n] offsets from [p] on *)
Fixpoint offsets (p : Z) (n : nat) : list Z :=
  match n with
  | O => []
  | S n' => p :: offsets (p + 1) n'
  end.

(** An event in the streaming tool's buffers: header with id 7, payload
    bytes that vary with the position *)
Definition w_event : world :=
  set_workbuf (map (λ p, p mod 251) (offsets 0 Netscope.WBUFSIZE))
    (set_sh {| id := 7; shwr_buf_status := 18; shwr_buf_start := 0;
               shwr_buf_trig_id := 1; ttag_shwr_seconds := 1008;
               ttag_shwr_nanosec := 1009; rd := 2 |} w_mapped).

(** The datagrams sent, in order *)
Definition sent_bytes (l : list event) : list (list Z) :=
  omap (λ e, match e with EvSys (c_sendto _ bytes) _ => Some bytes | _ => None end) l.

(** The trigger never fires and the wait for the signal fails: every
    [read_evt_read] returns without an event.  Sends succeed. *)
Definition env_no_event : Env :=
  {| sys_ret := λ t c, match c with c_sigwaitinfo => -1 | _ => sys_ok t c end;
     hw_val := λ _ _ _, 0; recv_bytes := λ _, []; databuf_addr := 4096 |}.
(** *** What a computation leaves alone

    [keeps I X m]: from any state [w], [m] ends in a state [w'] with
    [I w w'] however it ends; when it ends by [exit], the status
    satisfies [X]. *)
Definition halts_within (I : world → world → Prop) (X : Z → Prop)
    (w : world) (h : halt) : Prop :=
  match h with
  | HExit code w' => X code ∧ I w w'
  | HAbort w' | HFault w' => I w w'
  | HFuel => True
  end.

Definition keeps {A} (I : world → world → Prop) (X : Z → Prop) (m : M A)
    : Prop :=
  ∀ w, post m w (λ _ w', I w w') (halts_within I X w).

(** An event other than the mapping and the unmapping of a window *)
Definition plain (e : event) : Prop :=
  match e with
  | EvSys (c_mmap _ _) _ | EvSys (c_munmap _ _) _ => False
  | _ => True
  end.

Definition is_munmap (e : event) : Prop :=
  ∃ r size ret, e = EvSys (c_munmap r size) ret.

(** The statuses with which the self-test reports a failure, the
    [EXIT_*] codes it uses: those of the command line, the SPI links
    and the buffer alignment, then those of [read_evt_init]. *)
Definition early_statuses : list Z := [32; 33; 34; 35; 36; 37; 38; 39; 50].
Definition failure_statuses : list Z :=
  early_statuses ++ [60; 61; 62; 63; 64; 65; 66; 67].

(** Ends by [exit] with a status in [X] and a state in [I w0]; other
    ends are not constrained. *)
Definition exits_within (I : world → world → Prop) (X : Z → Prop)
    (w0 : world) (h : halt) : Prop :=
  match h with
  | HExit code w' => X code ∧ I w0 w'
  | _ => True
  end.

(** Between [w] and [w'] no window was unmapped. *)
Definition releases_nothing (w w' : world) : Prop :=
  extends_with (λ e, ¬ is_munmap e) w w'.

(** Ends by [exit] with a status and a state in [G]; other ends are not
    constrained. *)
Definition exit_ends (G : Z → world → Prop) (h : halt) : Prop :=
  match h with
  | HExit code w' => G code w'
  | _ => True
  end.

(** A window one of the pointers of [gl] refers to *)
Definition referenced (g : read_evt_global) (r : region) : Prop :=
  regs g = Some r ∨ tt_regs g = Some r ∨ tstctl_regs g = Some r
  ∨ ∃ i, (i < SHWR_RAW_NCH_MAX)%nat ∧ shwr_pt g !! i = Some (Some r).

(** Every live mapping is one a pointer of [gl] refers to. *)
Definition all_referenced (w : world) : Prop :=
  ∀ m, m ∈ mapped w → referenced (gl w) m.1.

(** The pointers of [gl] and the mappings are those of [w], and what was
    registered with [atexit] still is. *)
Definition same_windows (w w' : world) : Prop :=
  mapped w' = mapped w
  ∧ regs (gl w') = regs (gl w) ∧ tt_regs (gl w') = tt_regs (gl w)
  ∧ tstctl_regs (gl w') = tstctl_regs (gl w)
  ∧ shwr_pt (gl w') = shwr_pt (gl w)
  ∧ atexit_list w `suffix_of` atexit_list w'.

(** Nothing is mapped or registered that was not in [w], and [gl] is as
    in [w]. *)
Definition not_started (w w' : world) : Prop :=
  mapped w' = mapped w ∧ gl w' = gl w ∧ atexit_list w' = atexit_list w.

(** On the way through [read_evt_end]: [gl] and the registered functions
    are those of [w], and what is still mapped was mapped in [w] and is
    not in a window that is [gone]. *)
Definition released (w : world) (gone : region → Prop) (w' : world) : Prop :=
  gl w' = gl w ∧ atexit_list w' = atexit_list w
  ∧ ∀ m, m ∈ mapped w' → m ∈ mapped w ∧ ¬ gone m.1.

(** As [env_ok], but the block of the time-tagging registers cannot be
    mapped. *)
Definition env_no_timetag : Env :=
  {| sys_ret := λ t c,
       match c with
       | c_mmap TimeTagRegs _ => -1
       | _ => sys_ok t c
       end;
     hw_val := hw_ready; recv_bytes := λ _, []; databuf_addr := 4096 |}.

(** As [env_ok], with [-h] on the command line *)
Definition env_help : Env :=
  {| sys_ret := λ t c, match c with c_getopt => 104 | _ => sys_ok t c end;
     hw_val := hw_ready; recv_bytes := λ _, []; databuf_addr := 4096 |}.

(** *** The remote ramp toggle: what a message asks for *)

(** A byte that is a ramp command for one of the five devices *)
Definition is_ramp_command (b : Z) : Prop :=
  Z.land b AdcRamp.MASK_CMD ≠ 0
  ∧ Z.shiftr (Z.land b AdcRamp.MASK_ADC) AdcRamp.SH_ADC < Z.of_nat AdcRamp.NADC.

Global Instance is_ramp_command_dec b : Decision (is_ramp_command b).
Proof. unfold is_ramp_command. apply _. Defined.

(** The commands at the head of a message: the bytes before the first
    one that is not a ramp command for a device *)
Fixpoint leading_commands (msg : list Z) : list Z :=
  match msg with
  | b :: rest =>
      if decide (is_ramp_command b) then b :: leading_commands rest else []
  | [] => []
  end.

(** The two SPI writes, completed, that the command byte [c] stands for:
    on the device with the index in bits 2..4, the channel mask of bits
    0..1 to register 5, then ramp on (15) or off (0), by bit 5, to
    register 13. *)
Definition command_writes (fds : list Z) (c : Z) : list event :=
  match fds !! Z.to_nat (Z.shiftr (Z.land c 0x1C) 2) with
  | Some fd =>
      [EvSys (c_write fd [0; 5; Z.land c 3]) 3;
       EvSys (c_write fd [0; 13; if decide (Z.land c 0x20 ≠ 0) then 15 else 0]) 3]
  | None => []
  end.

Definition is_sendto (e : event) : Prop :=
  ∃ sock bytes ret, e = EvSys (c_sendto sock bytes) ret.

(** A message that switches the ramp on for both channels of device 0
    and off for channel A of device 3, then quits; and an environment
    that delivers it. *)
Definition sample_message : list Z :=
  [0x63; 0x4D; 0x21; 0; 0; 0; 0; 0; 0; 0; 0; 0; 0; 0; 0; 0; 0; 0].

Definition env_message : Env :=
  {| sys_ret := sys_ok; hw_val := hw_ready;
     recv_bytes := λ _, sample_message; databuf_addr := 4096 |}.

(** From [w] to [w']: events that satisfy [P], then an SPI write that
    did not complete, and nothing after it. *)
Definition failed_write_after (P : event → Prop) (w w' : world) : Prop :=
  ∃ pre fd bytes r,
    log w' = log w ++ pre ++ [EvSys (c_write fd bytes) r]
    ∧ r ≠ 3 ∧ Forall P pre.

(** The only way the server stops without returning is [abort], after
    an SPI write that did not complete, having sent nothing. *)
Definition aborts_unanswered (w : world) (h : halt) : Prop :=
  match h with
  | HAbort w' => failed_write_after (λ e, ¬ is_sendto e) w w'
  | HExit _ _ => False
  | _ => True
  end.
(** The address [main] gives [databuf], from the address of [_databuf] *)
Definition databuf_of (a : Z) : Z :=
  to_uint32 (Z.shiftl (Z.shiftr (to_uint32 (a + 7)) 3) 3 + 4).

(** The calls [main] makes before it opens the first device *)
Definition before_devices (e : event) : Prop :=
  ∃ r, e = EvSys c_sched_setscheduler r ∨ e = EvSys c_getopt r.

(** Only such calls were made from [w] to [w'], and nothing was
    registered with [atexit] *)
Definition quiet_start (w w' : world) : Prop :=
  extends_with before_devices w w' ∧ atexit_list w' = atexit_list w.

(** What [senddata] on [sock], started in [w], may end the process with:
    status 1, after a [sendto] that did not take its datagram whole,
    every earlier one having been taken whole *)
Definition stops_short (sock : Z) (w : world) (code : Z) (w' : world)
    : Prop :=
  code = 1
  ∧ ∃ frags bytes r,
      events_since w w'
      = map (sent sock) frags ++ [EvSys (c_sendto sock bytes) r]
      ∧ r ≠ Z.of_nat (length bytes).

(** As [env_ok], but the call made at time [t0], if it is a [sendto],
    fails *)
Definition env_send_fails_at (t0 : nat) : Env :=
  {| sys_ret := λ t c,
       match c with
       | c_sendto _ bytes =>
           if decide (t = t0) then -1 else Z.of_nat (length bytes)
       | _ => sys_ok t c
       end;
     hw_val := hw_ready; recv_bytes := λ _, []; databuf_addr := 4096 |}.

(** From [w] to [w'] the log only grew. *)
Definition log_grows (w w' : world) : Prop :=
  ∃ evs, log w' = log w ++ evs.

(** From [w] to [w'] the staging buffer, the header and the trace array
    were left alone. *)
Definition untouched (w w' : world) : Prop :=
  databuf w' = databuf w ∧ sh w' = sh w ∧ traces w' = traces w
  ∧ log_grows w w'.

(** Not an SPI transaction *)
Definition not_spi_write (e : event) : Prop := ∀ fd, ¬ is_spi_write fd e.

(** The same functions are registered with [atexit] in [w'] as in [w]. *)
Definition same_atexit (w w' : world) : Prop :=
  atexit_list w' = atexit_list w.

(** As [env_ok], but the SPI link of the second device (descriptor 4)
    takes no write. *)
Definition env_spi_broken : Env :=
  {| sys_ret := λ t c,
       match c with
       | c_write fd _ => if decide (fd = 4) then -1 else 3
       | _ => sys_ok t c
       end;
     hw_val := hw_ready; recv_bytes := λ _, []; databuf_addr := 4096 |}.

(** A write to a register *)
Definition is_reg_write (e : event) : Prop := ∃ r addr v, e = EvWrite r addr v.

Definition not_reg_write (e : event) : Prop := ¬ is_reg_write e.

(** From [w] to [w'] no register was written and nothing was registered
    with [atexit]. *)
Definition only_calls (w w' : world) : Prop :=
  extends_with not_reg_write w w'
  ∧ atexit_list w' = atexit_list w.

(** Since [w], and with no register written before, [main] has read the
    trigger mask, [v], and set it to [SHWR_BUF_TRIG_LED]; [v] is in
    [saved_trigger], and [gl.regs] still points to the registers. *)
Definition armed `{HwDefs} (w w' : world) : Prop :=
  ∃ rg v pre mid,
    log w' = log w ++ pre
             ++ [EvRead rg SHWR_BUF_TRIG_MASK_ADDR v;
                 EvWrite rg SHWR_BUF_TRIG_MASK_ADDR SHWR_BUF_TRIG_LED] ++ mid
    ∧ Forall not_reg_write pre
    ∧ regs (gl w') = Some rg ∧ saved_trigger w' = v.

(** From [w] to [w'] the pointer to the registers, the saved mask and
    the registered functions are the same, and the log only grew. *)
Definition trigger_kept (w w' : world) : Prop :=
  regs (gl w') = regs (gl w) ∧ saved_trigger w' = saved_trigger w
  ∧ atexit_list w' = atexit_list w ∧ log_grows w w'.

(** The run has set the trigger mask and, as its last register write,
    has put back the value it found. *)
Definition mask_restored `{HwDefs} (evs : list event) : Prop :=
  ∃ rg v pre mid post,
    evs = pre ++ [EvRead rg SHWR_BUF_TRIG_MASK_ADDR v;
                  EvWrite rg SHWR_BUF_TRIG_MASK_ADDR SHWR_BUF_TRIG_LED]
              ++ mid ++ EvWrite rg SHWR_BUF_TRIG_MASK_ADDR v :: post
    ∧ Forall not_reg_write pre ∧ Forall is_munmap post.
(** *** The wait and the drain of [read_evt_read], moment by moment

    The environment answers by the moment, so it decides how a call of
    [read_evt_read] that starts at moment [t] goes: the status register
    is read at the moments [t], [t + 2], ..., and the signal is waited
    for in between. *)

(** The buffer-full bits of a status value, as the loop tests them *)
Definition full_flag `{HwDefs} (st : Z) : Z :=
  Z.land st (to_uint32 (Z.shiftl SHWR_BUF_NFULL_MASK SHWR_BUF_NFULL_SHIFT)).

(** Round [j] of the wait: the status value the loop test reads, and
    what [sigwaitinfo] returns if the loop goes on *)
Definition wait_status `{HwDefs} (E : Env) (rg : region) (t j : nat) : Z :=
  hw_val E (t + 2 * j)%nat rg SHWR_BUF_STATUS_ADDR.

Definition wait_signal (E : Env) (t j : nat) : Z :=
  sys_ret E (t + 2 * j + 1)%nat c_sigwaitinfo.

(** The value of [sig] at the loop test of round [j]: its initial value
    at first, which is [SIG_WAKEUP], then what the last [sigwaitinfo]
    returned *)
Definition signal_at (E : Env) (sig : Z) (t j : nat) : Z :=
  match j with
  | O => sig
  | S j' => wait_signal E t j'
  end.

Definition signal_before `{HwDefs} (E : Env) (t j : nat) : Z :=
  signal_at E SIG_WAKEUP t j.

(** The wait makes [n] calls of [sigwaitinfo]: the loop test holds in
    the rounds before [n] and fails in round [n]. *)
Definition waits_for `{HwDefs} (E : Env) (rg : region) (t n : nat) : Prop :=
  (∀ j, (j < n)%nat →
     full_flag (wait_status E rg t j) = 0 ∧ signal_before E t j = SIG_WAKEUP)
  ∧ ¬ (full_flag (wait_status E rg t n) = 0
       ∧ signal_before E t n = SIG_WAKEUP).

(** The events of the rounds before [n], and of the whole wait *)
Definition wait_rounds `{HwDefs} (E : Env) (rg : region) (t n : nat)
    : list event :=
  flat_map (λ j, [EvRead rg SHWR_BUF_STATUS_ADDR (wait_status E rg t j);
                  EvSys c_sigwaitinfo (wait_signal E t j)])
           (seq 0 n).

Definition wait_events `{HwDefs} (E : Env) (rg : region) (t n : nat)
    : list event :=
  wait_rounds E rg t n
  ++ [EvRead rg SHWR_BUF_STATUS_ADDR (wait_status E rg t n)].

(** The pointer [p] refers to the live window [r], and register [addr]
    lies inside it. *)
Definition reg_mapped (w : world) (p : option region) (r : region) (addr : Z)
    : Prop :=
  p = Some r
  ∧ ∃ size, mapping_of w r = Some size ∧ 0 ≤ 4 * addr ∧ 4 * addr + 4 ≤ size.

(** What a drain relies on: the registers it reads and writes are
    mapped, every channel pointer is set to a live window of [size]
    bytes, and such a window holds every slot the status register can
    name. *)
Definition drain_ready `{HwDefs} (w : world) (rg rt : region) (size : Z)
    : Prop :=
  Forall (reg_mapped w (regs (gl w)) rg)
         [SHWR_BUF_STATUS_ADDR; SHWR_BUF_START_ADDR; SHWR_BUF_TRIG_ID_ADDR;
          SHWR_BUF_CONTROL_ADDR]
  ∧ Forall (reg_mapped w (tt_regs (gl w)) rt)
           [TTAG_SHWR_SECONDS_ADDR; TTAG_SHWR_NANOSEC_ADDR]
  ∧ windows_mapped w size
  ∧ ∀ st, 0 ≤ slot_of st
          ∧ 4 * ((slot_of st + 1) * Z.of_nat SHWR_NSAMPLES) ≤ size.

(** The windows of the five raw channels, in the order of the copies *)
Definition channel_windows : list region := map ShwrBuf (seq 0 SHWR_RAW_NCH_MAX).

(** The words one channel's copy takes at moment [t] from [offset] on,
    and the words of the five copies, the first of them made at [t] *)
Definition channel_words (E : Env) (t : nat) (offset : Z) (i : nat) : list Z :=
  map (λ k, hw_val E (t + i)%nat (ShwrBuf i) (offset + Z.of_nat k))
      (seq 0 SHWR_NSAMPLES).

Definition slot_words (E : Env) (t : nat) (offset : Z) : list Z :=
  flat_map (channel_words E t offset) (seq 0 SHWR_RAW_NCH_MAX).

(** The header a drain fills whose status read for the slot is made at
    moment [td]; [idc] is the id counter.  After that read come the five
    copies, then the five reads for the header. *)
Definition drain_header `{HwDefs} (E : Env) (rg rt : region) (td : nat)
    (idc : Z) : shwr_header :=
  {| id := idc;
     shwr_buf_status := hw_val E (td + 6)%nat rg SHWR_BUF_STATUS_ADDR;
     shwr_buf_start := hw_val E (td + 7)%nat rg SHWR_BUF_START_ADDR;
     shwr_buf_trig_id := hw_val E (td + 8)%nat rg SHWR_BUF_TRIG_ID_ADDR;
     ttag_shwr_seconds := hw_val E (td + 9)%nat rt TTAG_SHWR_SECONDS_ADDR;
     ttag_shwr_nanosec := hw_val E (td + 10)%nat rt TTAG_SHWR_NANOSEC_ADDR;
     rd := slot_of (hw_val E td rg SHWR_BUF_STATUS_ADDR) |}.

(** The events of that drain, in order *)
Definition drain_log `{HwDefs} (E : Env) (rg rt : region) (td : nat) (idc : Z)
    : list event :=
  drain_events rg rt channel_windows (hw_val E td rg SHWR_BUF_STATUS_ADDR)
    (drain_header E rg rt td idc) (to_uint32 (idc + 1)).

(** The first word of the slot the drain at [td] copies *)
Definition drain_offset `{HwDefs} (E : Env) (rg : region) (td : nat) : Z :=
  slot_of (hw_val E td rg SHWR_BUF_STATUS_ADDR) * Z.of_nat SHWR_NSAMPLES.

(** What the self-test's [read_evt_read] returns and leaves after a wait
    of [n] rounds that ends with the wake-up: the time of day is taken
    right after the wait and again at the end. *)
Definition adc_drain_value (E : Env) (w : world) (n : nat) : Z :=
  let t := length (log w) in
  to_int32 (- sys_ret E (t + 2 * n + 1)%nat c_gettimeofday)
  + to_int32 (sys_ret E (t + 2 * n + 15)%nat c_gettimeofday).

Definition adc_drain_state `{HwDefs} (E : Env) (rg rt : region) (w : world)
    (n : nat) : world :=
  let t := length (log w) in
  let td := (t + 2 * n + 2)%nat in
  let idc := id_counter (gl w) in
  set_log (log w ++ wait_events E rg t n
           ++ [EvSys c_gettimeofday (sys_ret E (t + 2 * n + 1)%nat c_gettimeofday)]
           ++ drain_log E rg rt td idc
           ++ [EvSys c_gettimeofday
                 (sys_ret E (t + 2 * n + 15)%nat c_gettimeofday)])
    (set_gl (set_id_counter (to_uint32 (idc + 1)))
       (set_sh (drain_header E rg rt td idc)
          (set_databuf (slot_words E (td + 1) (drain_offset E rg td)) w))).

(** The same for the streaming tool, which takes no time of day and
    copies the words, as bytes, behind the room for a fragment header *)
Definition net_drain_state `{HwDefs} (E : Env) (rg rt : region) (w : world)
    (n : nat) : world :=
  let t := length (log w) in
  let td := (t + 2 * n + 1)%nat in
  let idc := id_counter (gl w) in
  set_log (log w ++ wait_events E rg t n ++ drain_log E rg rt td idc)
    (set_gl (set_id_counter (to_uint32 (idc + 1)))
       (set_sh (drain_header E rg rt td idc)
          (set_workbuf
             (take Netscope.FRAG_HEADER_SIZE (workbuf w)
              ++ flat_map (Netscope.le_bytes 4)
                          (slot_words E (td + 1) (drain_offset E rg td)))
             w))).

(** *** A second failure moves the mark *)


(** The [close] calls of [adc_normal], one per descriptor of [fds], with
    the results [rs] *)
Definition closes (fds rs : list Z) : list event :=
  zip_with (λ fd r, EvSys (c_close fd) r) fds rs.


(** *** A failure on the way out *)

(* ================================================================== *)
(** * Proofs *)

(** ** Sample unpacking *)

Section Convert.
Import AdcCheckRamp.

Lemma tget_tset_eq (t : Trace) ch i v row :
  t !! ch = Some row → (i < length row)%nat →
  tget (tset t ch i v) ch i = Some v.
Proof.
  intros Hrow Hi. unfold tget, tset.
  rewrite list_lookup_alter. rewrite decide_True by done.
  rewrite Hrow. simpl. by apply list_lookup_insert_eq.
Qed.

Lemma tget_tset_ne (t : Trace) ch i ch' i' v :
  ch ≠ ch' ∨ i ≠ i' → tget (tset t ch i v) ch' i' = tget t ch' i'.
Proof.
  intros Hne. unfold tget, tset. rewrite list_lookup_alter.
  case_decide as Heq; [|done]. subst ch'.
  destruct (t !! ch) as [row|]; [|done]. simpl.
  apply list_lookup_insert_ne. by destruct Hne.
Qed.

Lemma tset_shape (t : Trace) ch i v : trace_shape t → trace_shape (tset t ch i v).
Proof.
  intros [Hl Hr]. split; unfold tset.
  - by rewrite length_alter.
  - apply Forall_alter; [done|]. intros row _ Hrow. by rewrite length_insert.
Qed.

Lemma shape_row (t : Trace) ch :
  trace_shape t → (ch < SHWR_NCH_MAX)%nat →
  ∃ row, t !! ch = Some row ∧ length row = SHWR_NSAMPLES.
Proof.
  intros [Hl Hr] Hch.
  destruct (lookup_lt_is_Some_2 t ch) as [row Hrow]; [lia|].
  exists row. split; [done|]. by eapply (Forall_lookup_1 _ _ _ _ Hr).
Qed.

Lemma convert_samples_spec (databuf : list Z) (adc base stop_ptr s : nat) :
  (base + SHWR_NSAMPLES ≤ length databuf)%nat →
  stop_ptr = (base + SHWR_NSAMPLES)%nat →
  (2 * adc + 1 < SHWR_NCH_MAX)%nat →
  ∀ (n i cur_ptr : nat) (traces : Trace),
    (i + n = SHWR_NSAMPLES)%nat →
    cur_ptr = (base + (s + i) mod SHWR_NSAMPLES)%nat →
    trace_shape traces →
    ∃ tr, convert_samples n i adc cur_ptr stop_ptr databuf traces = Some tr
      ∧ trace_shape tr
      ∧ (∀ ch j, ¬ ((ch = 2 * adc ∨ ch = 2 * adc + 1)%nat ∧ (i ≤ j)%nat) →
           tget tr ch j = tget traces ch j)
      ∧ (∀ j, (i ≤ j < SHWR_NSAMPLES)%nat →
           ∃ w, databuf !! (base + (s + j) mod SHWR_NSAMPLES)%nat = Some w
             ∧ tget tr (2 * adc) j = Some (Z.land w 0xfff)
             ∧ tget tr (2 * adc + 1) j = Some (Z.land (Z.shiftr w 16) 0xfff)).
Proof.
  intros Hlen -> Hadc. induction n as [|n IH]; intros i cur_ptr traces Hin Hcur Hsh; subst cur_ptr.
  - exists traces. split; [done|]. split; [done|]. split; [done|].
    intros j Hj. lia.
  - destruct (lookup_lt_is_Some_2 databuf (base + (s + i) mod SHWR_NSAMPLES))
      as [w Hw].
    { unfold SHWR_NSAMPLES in *. lia. }
    cbn [convert_samples]. rewrite Hw. cbn [mbind option_bind].
    set (t1 := tset traces (2 * adc) i (Z.land w 0xfff)).
    set (t2 := tset t1 (2 * adc + 1) i (Z.land (Z.shiftr w 16) 0xfff)).
    destruct (IH (S i)
      (if decide (S (base + (s + i) mod SHWR_NSAMPLES) = (base + SHWR_NSAMPLES)%nat)
       then (base + SHWR_NSAMPLES - SHWR_NSAMPLES)%nat
       else S (base + (s + i) mod SHWR_NSAMPLES)) t2)
      as (tr & Heq & Hshape & Hother & Hset).
    { lia. }
    { unfold SHWR_NSAMPLES in *. case_decide; lia. }
    { by do 2 apply tset_shape. }
    exists tr. split; [done|]. split; [done|]. split.
    + intros ch j Hn. rewrite Hother by (intros [? ?]; apply Hn; split; [done|lia]).
      unfold t2, t1. rewrite !tget_tset_ne; [done|..].
      * destruct (decide (2 * adc = ch)%nat); [|by left].
        right. intros ->. apply Hn. split; [by left|lia].
      * destruct (decide (2 * adc + 1 = ch)%nat); [|by left].
        right. intros ->. apply Hn. split; [by right|lia].
    + intros j Hj. destruct (decide (j = i)) as [->|Hne].
      * exists w. split; [done|].
        destruct (shape_row traces (2 * adc)) as (r0 & Hr0 & Hl0); [done|lia|].
        destruct (shape_row t1 (2 * adc + 1)) as (r1 & Hr1 & Hl1);
          [by apply tset_shape|lia|].
        rewrite !Hother by lia. unfold t2. split.
        -- rewrite tget_tset_ne by (left; lia). unfold t1.
           eapply tget_tset_eq; [done|lia].
        -- eapply tget_tset_eq; [done|lia].
      * apply Hset. lia.
Qed.

Lemma ptr_add_small (off n : nat) :
  Z.of_nat off + Z.of_nat n < 2 ^ 30 → ptr_add off n = (off + n)%nat.
Proof.
  intros Hlt. unfold ptr_add. rewrite Z.mod_small by lia. lia.
Qed.


Lemma convert_channels_spec (databuf : list Z) (s : nat) :
  length databuf = DATASIZE → (s < SHWR_NSAMPLES)%nat →
  ∀ (n adc : nat) (traces : Trace),
    (adc + n = SHWR_RAW_NCH_MAX)%nat → trace_shape traces →
    ∃ tr, convert_channels n adc s databuf traces = Some tr
      ∧ trace_shape tr
      ∧ (∀ ch j, (ch < 2 * adc)%nat → tget tr ch j = tget traces ch j)
      ∧ (∀ c j, (adc ≤ c < SHWR_RAW_NCH_MAX)%nat → (j < SHWR_NSAMPLES)%nat →
           ∃ w, databuf !! (c * SHWR_NSAMPLES + (s + j) mod SHWR_NSAMPLES)%nat
                  = Some w
             ∧ tget tr (2 * c) j = Some (Z.land w 0xfff)
             ∧ tget tr (2 * c + 1) j = Some (Z.land (Z.shiftr w 16) 0xfff)).
Proof.
  intros Hlen Hs. induction n as [|n IH]; intros adc traces Hn Hsh.
  - exists traces. split; [done|]. split; [done|]. split; [done|].
    intros c j Hc. lia.
  - cbn [convert_channels].
    rewrite ptr_add_small
      by (change (2 ^ 30) with 1073741824;
          unfold SHWR_RAW_NCH_MAX, SHWR_NSAMPLES in *; lia).
    destruct (convert_samples_spec databuf adc (adc * SHWR_NSAMPLES)
                ((adc + 1) * SHWR_NSAMPLES) s) with
      (n := SHWR_NSAMPLES) (i := 0%nat)
      (cur_ptr := (adc * SHWR_NSAMPLES + s)%nat) (traces := traces)
      as (t1 & Heq1 & Hsh1 & Hoth1 & Hset1).
    { rewrite Hlen. unfold DATASIZE, SHWR_RAW_NCH_MAX, SHWR_NSAMPLES in *. lia. }
    { lia. }
    { unfold SHWR_NCH_MAX, SHWR_RAW_NCH_MAX in *. lia. }
    { done. }
    { rewrite Nat.add_0_r, Nat.mod_small by done. done. }
    { done. }
    rewrite Heq1. cbn [mbind option_bind].
    destruct (IH (S adc) t1) as (tr & Heq & Hshape & Hoth & Hset); [lia|done|].
    exists tr. split; [done|]. split; [done|]. split.
    + intros ch j Hch. rewrite Hoth by lia. apply Hoth1. lia.
    + intros c j Hc Hj. destruct (decide (c = adc)) as [->|Hne].
      * destruct (Hset1 j) as (w & Hw & He & Ho); [lia|].
        exists w. split; [done|]. rewrite !Hoth by lia. done.
      * apply Hset; [lia|done].
Qed.

End Convert.

(** ** Ramp evaluation *)

Section Evaluate.
Import AdcCheckRamp.

Lemma tget_shape (t : Trace) ch i :
  trace_shape t → trace_uint16 t →
  (ch < SHWR_NCH_MAX)%nat → (i < SHWR_NSAMPLES)%nat →
  ∃ v, tget t ch i = Some v ∧ 0 ≤ v < 65536.
Proof.
  intros Hsh Hu Hch Hi.
  destruct (shape_row t ch Hsh Hch) as (row & Hrow & Hlen).
  destruct (lookup_lt_is_Some_2 row i) as [v Hv]; [lia|].
  exists v. unfold tget. rewrite Hrow. split; [done|].
  pose proof (Forall_lookup_1 _ _ _ _ Hu Hrow) as Hr.
  by apply (Forall_lookup_1 _ _ _ _ Hr Hv).
Qed.

Lemma ramp_mismatch_spec (trace : Trace) (ch : nat) (sum : Z) :
  trace_shape trace → trace_uint16 trace → (ch < SHWR_RAW_NCH_MAX)%nat →
  ∀ n i, (i + n = SHWR_NSAMPLES)%nat →
    ∃ bad, ramp_mismatch n i ch sum trace = Some bad
      ∧ (bad = true ↔
         ∃ j, (i ≤ j < SHWR_NSAMPLES)%nat ∧ ramp_broken_at trace ch sum j).
Proof.
  intros Hsh Hu Hch. induction n as [|n IH]; intros i Hin.
  - exists false. split; [done|]. split; [done|]. intros (j & Hj & _). lia.
  - destruct (tget_shape trace (2 * ch) i) as (a & Ha & Hra); try done.
    { unfold SHWR_NCH_MAX, SHWR_RAW_NCH_MAX in *. lia. }
    { lia. }
    destruct (tget_shape trace (2 * ch + 1) i) as (b & Hb & Hrb); try done.
    { unfold SHWR_NCH_MAX, SHWR_RAW_NCH_MAX in *. lia. }
    { lia. }
    cbn [ramp_mismatch]. rewrite Ha, Hb. cbn [mbind option_bind].
    assert (Hrem : Z.rem (a + Z.of_nat i) SHWR_MAX_VAL = (a + Z.of_nat i) mod 4096).
    { apply Z.rem_mod_nonneg; [lia|done]. }
    rewrite Hrem.
    destruct (negb (a =? b) || negb ((a + Z.of_nat i) mod 4096 =? sum)) eqn:Hc.
    + exists true. split; [done|]. split; [|done]. intros _.
      exists i. split; [lia|]. exists a, b. split; [done|]. split; [done|].
      apply orb_true_iff in Hc as [Hc|Hc]; apply negb_true_iff in Hc;
        apply Z.eqb_neq in Hc; [by left|by right].
    + destruct (IH (S i)) as (bad & Heq & Hiff); [lia|].
      exists bad. split; [done|]. rewrite Hiff. split.
      * intros (j & Hj & Hbr). exists j. split; [lia|done].
      * intros (j & Hj & Hbr). exists j. split; [|done].
        destruct (decide (j = i)) as [->|]; [|lia]. exfalso.
        destruct Hbr as (a' & b' & Ha' & Hb' & Hor).
        rewrite Ha in Ha'. rewrite Hb in Hb'. simplify_eq.
        apply orb_false_iff in Hc as [Hc1 Hc2].
        apply negb_false_iff, Z.eqb_eq in Hc1, Hc2. by destruct Hor.
Qed.

Lemma bits_above_bound (r : Z) (k : Z) :
  0 ≤ r → 0 ≤ k → (∀ j, k ≤ j → Z.testbit r j = false) → r < 2 ^ k.
Proof.
  intros Hr Hk Hbits. destruct (decide (r = 0)) as [->|Hne].
  - by apply Z.pow_pos_nonneg.
  - apply Z.log2_lt_pow2; [lia|].
    destruct (decide (Z.log2 r < k)) as [|Hge]; [done|]. exfalso.
    pose proof (Z.bit_log2 r ltac:(lia)) as Hb.
    rewrite Hbits in Hb by lia. done.
Qed.

Lemma evaluate_channels_spec (trace : Trace) :
  trace_shape trace → trace_uint16 trace →
  ∀ n ch result, (ch + n = SHWR_RAW_NCH_MAX)%nat →
    0 ≤ result → (∀ j, Z.of_nat ch ≤ j → Z.testbit result j = false) →
    ∃ r, evaluate_channels n ch result trace = Some r
      ∧ 0 ≤ r
      ∧ (∀ j, Z.of_nat SHWR_RAW_NCH_MAX ≤ j → Z.testbit r j = false)
      ∧ (∀ c, (c < ch)%nat → Z.testbit r (Z.of_nat c) = Z.testbit result (Z.of_nat c))
      ∧ (∀ c, (ch ≤ c < SHWR_RAW_NCH_MAX)%nat →
           (Z.testbit r (Z.of_nat c) = true ↔
            ∃ sum i, tget trace (2 * c) 0 = Some sum ∧ (i < SHWR_NSAMPLES)%nat
                     ∧ ramp_broken_at trace c sum i)).
Proof.
  intros Hsh Hu. induction n as [|n IH]; intros ch result Hn Hr Hhi.
  - exists result. split; [done|]. split; [done|].
    split; [intros j Hj; apply Hhi; lia|]. split; [done|]. intros c Hc. lia.
  - destruct (tget_shape trace (2 * ch) 0) as (sum & Hsum & _); try done.
    { unfold SHWR_NCH_MAX, SHWR_RAW_NCH_MAX in *. lia. }
    { unfold SHWR_NSAMPLES. lia. }
    destruct (ramp_mismatch_spec trace ch sum Hsh Hu ltac:(lia) SHWR_NSAMPLES 0%nat)
      as (bad & Hbad & Hiff); [done|].
    cbn [evaluate_channels]. rewrite Hsum. cbn [mbind option_bind].
    rewrite Hbad. cbn [mbind option_bind].
    set (result' := if bad then Z.lor result (Z.shiftl 1 (Z.of_nat ch)) else result).
    assert (Hbit : ∀ j, 0 ≤ j → Z.testbit result' j
                     = Z.testbit result j || (bad && (j =? Z.of_nat ch))).
    { intros j Hj. unfold result'. destruct bad; [|by rewrite orb_false_r].
      rewrite Z.lor_spec, Z.shiftl_spec by done. f_equal.
      destruct (Z.eqb_spec j (Z.of_nat ch)) as [->|Hne].
      - by rewrite Z.sub_diag.
      - destruct (decide (j < Z.of_nat ch)).
        + by rewrite Z.testbit_neg_r by lia.
        + replace (j - Z.of_nat ch) with (Z.succ (j - Z.of_nat ch - 1)) by lia.
          rewrite (Z.bits_above_log2 1); [done|lia|simpl; lia]. }
    destruct (IH (S ch) result') as (r & Heq & Hr0 & Hrhi & Hlow & Hset).
    { lia. }
    { unfold result'. destruct bad; [|done]. apply Z.lor_nonneg. split; [done|].
      apply Z.shiftl_nonneg. lia. }
    { intros j Hj. rewrite Hbit by lia. rewrite Hhi by lia.
      destruct (Z.eqb_spec j (Z.of_nat ch)); [lia|]. by rewrite andb_false_r. }
    exists r. split; [done|]. split; [done|]. split; [done|]. split.
    + intros c Hc. rewrite Hlow by lia. rewrite Hbit by lia.
      destruct (Z.eqb_spec (Z.of_nat c) (Z.of_nat ch)); [lia|].
      by rewrite andb_false_r, orb_false_r.
    + intros c Hc. destruct (decide (c = ch)) as [->|Hne]; [|apply Hset; lia].
      rewrite Hlow by lia. rewrite Hbit by lia. rewrite Hhi by lia.
      rewrite Z.eqb_refl, andb_true_r. cbn [orb]. rewrite Hiff. split.
      * intros (j & Hj & Hbr). exists sum, j. split; [done|]. split; [lia|done].
      * intros (sum' & j & Hs & Hj & Hbr). rewrite Hsum in Hs. simplify_eq.
        exists j. split; [lia|done].
Qed.

End Evaluate.

(** ** Claim C1 *)

(** C1.  For a staging buffer of 5*2048 words and a start offset [s] below
    2048, [convert_databuf] fills the trace array so that, for every raw
    channel [c] and sample [i], [traces[2c][i]] is the low 12 bits and
    [traces[2c+1][i]] is bits 16..27 of word [c*2048 + (s+i) mod 2048]:
    a rotation inside the 2048 words of channel [c]. *)
Theorem convert_databuf_rotation (buf : list Z) (t : Trace) (s : nat) :
  length buf = AdcCheckRamp.DATASIZE → trace_shape t → (s < SHWR_NSAMPLES)%nat →
  ∃ tr, AdcCheckRamp.convert_databuf s buf t = Some tr
    ∧ trace_shape tr
    ∧ ∀ c i, (c < 5)%nat → (i < 2048)%nat →
        let k := (c * 2048 + (s + i) mod 2048)%nat in
        (c * 2048 ≤ k < (c + 1) * 2048)%nat
        ∧ ∃ word, buf !! k = Some word
            ∧ tget tr (2 * c) i = Some (word mod 2 ^ 12)
            ∧ tget tr (2 * c + 1) i = Some ((word / 2 ^ 16) mod 2 ^ 12).
Proof.
  intros Hlen Hsh Hs.
  destruct (convert_channels_spec buf s Hlen Hs SHWR_RAW_NCH_MAX 0%nat t)
    as (tr & Heq & Hshape & _ & Hset); [done|done|].
  exists tr. split; [done|]. split; [done|]. intros c i Hc Hi k.
  split; [unfold k; lia|].
  destruct (Hset c i) as (word & Hw & He & Ho);
    [unfold SHWR_RAW_NCH_MAX; lia|unfold SHWR_NSAMPLES; lia|].
  exists word. split; [done|].
  rewrite He, Ho. rewrite Z.shiftr_div_pow2 by done.
  change 4095 with (Z.ones 12). rewrite !Z.land_ones by done. done.
Qed.

Lemma blank_traces_shape : trace_shape blank_traces.
Proof.
  split; [reflexivity|]. unfold blank_traces.
  apply Forall_replicate. apply length_replicate.
Qed.

Lemma convert_databuf_rotation_witness :
  length ramp_databuf = AdcCheckRamp.DATASIZE ∧ trace_shape blank_traces
  ∧ (7 < SHWR_NSAMPLES)%nat
  ∧ ∃ tr, AdcCheckRamp.convert_databuf 7 ramp_databuf blank_traces = Some tr
    ∧ trace_shape tr
    ∧ ∀ c i, (c < 5)%nat → (i < 2048)%nat →
        let k := (c * 2048 + (7 + i) mod 2048)%nat in
        (c * 2048 ≤ k < (c + 1) * 2048)%nat
        ∧ ∃ word, ramp_databuf !! k = Some word
            ∧ tget tr (2 * c) i = Some (word mod 2 ^ 12)
            ∧ tget tr (2 * c + 1) i = Some ((word / 2 ^ 16) mod 2 ^ 12).
Proof.
  assert (Hl : length ramp_databuf = AdcCheckRamp.DATASIZE)
    by (vm_compute; reflexivity).
  assert (Hs : (7 < SHWR_NSAMPLES)%nat) by (unfold SHWR_NSAMPLES; lia).
  split; [exact Hl|]. split; [exact blank_traces_shape|]. split; [exact Hs|].
  exact (convert_databuf_rotation ramp_databuf blank_traces 7 Hl
           blank_traces_shape Hs).
Defined.

(** ** Computations in [M] *)

(** Projections of updated states *)
Ltac wsimpl :=
  cbn [gl sh saved_trigger databuf traces adc_trace_fn adcfd failedadcfd
       workbuf atexit_list mapped log
       set_gl set_sh set_saved_trigger set_databuf set_traces
       set_adc_trace_fn set_adcfd set_failedadcfd set_workbuf
       set_atexit_list set_mapped set_log
       id_counter shwr_pt shwr_mem_size regs tt_regs tstctl_regs regs_size
       set_id_counter set_shwr_pt set_shwr_mem_size set_regs set_tt_regs
       set_tstctl_regs set_regs_size compose] in *.

Section MonadLemmas.

Lemma post_ret {A} (a : A) w Q R : Q a w → post (mret a) w Q R.
Proof. done. Qed.

Lemma post_bind {A B} (m : M A) (k : A → M B) w Q R :
  post m w (λ a w', post (k a) w' Q R) R → post (m ≫= k) w Q R.
Proof.
  unfold post, mbind, M_bind. by destruct (m w).
Qed.

Lemma post_mono {A} (m : M A) w (Q Q' : A → world → Prop) (R R' : halt → Prop) :
  post m w Q R → (∀ a w', Q a w' → Q' a w') → (∀ h, R h → R' h) →
  post m w Q' R'.
Proof.
  unfold post. destruct (m w); eauto.
Qed.

Lemma post_gets {A} (f : world → A) w Q R : Q (f w) w → post (gets f) w Q R.
Proof. done. Qed.

Lemma post_modify f w Q R : Q tt (f w) → post (modify f) w Q R.
Proof. done. Qed.

Lemma post_exit {A} code w (Q : A → world → Prop) R :
  R (HExit code w) → post (exit code) w Q R.
Proof. done. Qed.

Lemma post_exit_if (c : Prop) `{Decision c} code w Q (R : halt → Prop) :
  (c → R (HExit code w)) → (¬ c → Q tt w) → post (exit_if c code) w Q R.
Proof.
  intros Hc Hn. unfold exit_if. case_decide; [by apply Hc|by apply Hn].
Qed.

Lemma post_sys E c w Q R :
  Q (sys_ret E (length (log w)) c)
    (set_log (log w ++ [EvSys c (sys_ret E (length (log w)) c)]) w) →
  post (sys E c) w Q R.
Proof. done. Qed.

Lemma post_arr_get {A} (a : world → list A) i w Q (R : halt → Prop) :
  (∀ x, a w !! i = Some x → Q x w) → (a w !! i = None → R (HFault w)) →
  post (arr_get a i) w Q R.
Proof. unfold post, arr_get. destruct (a w !! i); eauto. Qed.

(** A loop invariant [I], indexed by the loop variable *)
Lemma post_for_loop (I : nat → world → Prop) body (R : halt → Prop) n i :
  (∀ j w, (i ≤ j < i + n)%nat → I j w →
          post (body j) w (λ _ w', I (S j) w') R) →
  ∀ w, I i w → post (for_loop n i body) w (λ _ w', I (i + n)%nat w') R.
Proof.
  revert i. induction n as [|n IH]; intros i Hbody w Hi.
  - simpl. apply post_ret. by rewrite Nat.add_0_r.
  - cbn [for_loop]. apply post_bind.
    eapply post_mono; [apply Hbody; [lia|done]| |done].
    intros [] w' Hw'. cbv beta in *.
    replace (i + S n)%nat with (S i + n)%nat by lia. apply IH; [|done].
    intros j w1 Hj. apply Hbody. lia.
Qed.

Lemma post_eq {A} (m : M A) w (a : A) w' :
  post m w (λ b w1, b = a ∧ w1 = w') (λ _, False) → m w = Ret a w'.
Proof. unfold post. destruct (m w); try done. by intros [-> ->]. Qed.

Lemma post_ret_inv {A} (m : M A) w Q R a w' :
  post m w Q R → m w = Ret a w' → Q a w'.
Proof. unfold post. intros H Heq. by rewrite Heq in H. Qed.

Lemma post_exit_inv {A} (m : M A) w Q R code w' :
  post m w Q R → m w = Exit code w' → R (HExit code w').
Proof. unfold post. intros H Heq. by rewrite Heq in H. Qed.

Lemma bind_ret_inv {A B} (m : M A) (k : A → M B) w b w' :
  (m ≫= k) w = Ret b w' → ∃ a w1, m w = Ret a w1 ∧ k a w1 = Ret b w'.
Proof.
  unfold mbind, M_bind. destruct (m w) as [a w1| | | |]; try done. eauto.
Qed.

Lemma events_since_app w w' evs :
  log w' = log w ++ evs → events_since w w' = evs.
Proof. unfold events_since. intros ->. by rewrite drop_app_length. Qed.

End MonadLemmas.

(** ** ADC control over SPI *)

Section Spi.
Import AdcCheckRamp.
Context `{HwDefs} (E : Env).

Lemma set_log_id w : set_log (log w) w = w.
Proof. by destruct w. Qed.

Lemma extends_with_refl P w : extends_with P w w.
Proof. exists []. by rewrite app_nil_r. Qed.

Lemma extends_with_trans P w1 w2 w3 :
  extends_with P w1 w2 → extends_with P w2 w3 → extends_with P w1 w3.
Proof.
  intros (e1 & H1 & F1) (e2 & H2 & F2). exists (e1 ++ e2).
  rewrite H2, H1, app_assoc. split; [done|]. by apply Forall_app.
Qed.

Lemma extends_with_snoc P w e :
  P e → extends_with P w (set_log (log w ++ [e]) w).
Proof. intros He. exists [e]. split; [done|]. by constructor. Qed.

Lemma extends_with_events P w w' :
  extends_with P w w' → Forall P (events_since w w').
Proof. intros (evs & Hl & Hf). by rewrite (events_since_app _ _ _ Hl). Qed.

(** What one [adc_write] does *)
Lemma post_adc_write fd address cmd w Q (R : halt → Prop) :
  let r := sys_ret E (length (log w)) (c_write fd (cmdstr address cmd)) in
  let w1 := set_log (log w ++ [EvSys (c_write fd (cmdstr address cmd)) r]) w in
  (r = 3 → Q 1 w1) →
  (r ≠ 3 → R (HExit EXIT_SPIWRITE (set_failedadcfd fd w1))) →
  post (adc_write E fd address cmd) w Q R.
Proof.
  intros r w1 Hok Hfail. unfold adc_write. apply post_bind, post_sys.
  fold r. fold w1. case_decide as Hr.
  - apply post_bind, post_modify, post_exit. by apply Hfail.
  - apply post_ret, Hok. lia.
Qed.

(** Whatever the links do, [adc_settestmode] makes no transaction on the
    device marked as failed, and keeps the mark when it returns. *)
Lemma adc_settestmode_skips testmode w :
  post (adc_settestmode E testmode) w
    (λ _ w', failedadcfd w' = failedadcfd w ∧ adcfd w' = adcfd w
             ∧ extends_with (λ e, ¬ is_spi_write (failedadcfd w) e) w w')
    (λ h, ∀ w', halt_world h = Some w' →
            extends_with (λ e, ¬ is_spi_write (failedadcfd w) e) w w').
Proof.
  set (P := λ e, ¬ is_spi_write (failedadcfd w) e).
  set (I := λ (_ : nat) w', failedadcfd w' = failedadcfd w
                            ∧ adcfd w' = adcfd w ∧ extends_with P w w').
  unfold adc_settestmode.
  eapply post_mono;
    [apply (post_for_loop I) with (R := λ h, ∀ w', halt_world h = Some w' →
                                               extends_with P w w')| |done].
  - intros j w1 _ (Hf & Ha & Hext). apply post_bind, post_arr_get.
    2:{ intros _ w' [= <-]. done. }
    intros fd Hfd. case_decide as Hpos; [|by apply post_ret].
    apply post_bind, post_gets. case_decide as Hfail; [by apply post_ret|].
    assert (Hw : ∀ a c, P (EvSys (c_write fd (cmdstr a c))
                       (sys_ret E (length (log w1)) (c_write fd (cmdstr a c))))).
    { intros a c (bs & r & [= Hfd' _ _]). congruence. }
    apply post_bind, post_adc_write.
    2:{ intros _ w' [= <-]. eapply extends_with_trans; [done|].
        exists [EvSys (c_write fd (cmdstr ADDR_CHS MASK_CHS))
                  (sys_ret E (length (log w1))
                     (c_write fd (cmdstr ADDR_CHS MASK_CHS)))].
        split; [done|]. constructor; [apply Hw|done]. }
    intros _. apply post_bind, post_adc_write.
    + intros _. apply post_ret. split; [done|]. split; [done|].
      eapply extends_with_trans; [done|].
      eexists [_; _]. split; [cbn; by rewrite <- app_assoc|].
      constructor; [apply Hw|]. constructor; [|done].
      intros (bs & r & [= Hfd' _ _]). congruence.
    + intros _ w' [= <-]. eapply extends_with_trans; [done|].
      eexists [_; _]. split; [cbn; by rewrite <- app_assoc|].
      constructor; [apply Hw|]. constructor; [|done].
      intros (bs & r & [= Hfd' _ _]). congruence.
  - split; [done|]. split; [done|]. apply extends_with_refl.
  - intros [] w' HI. apply HI.
Qed.

(** [adc_settestmode] either completes every write it makes, or ends the
    process at the first write that does not complete, the device of
    that write being the one it marks. *)
Lemma adc_settestmode_outcome testmode w :
  length (adcfd w) = SHWR_RAW_NCH_MAX →
  post (adc_settestmode E testmode) w
    (λ _ w', failedadcfd w' = failedadcfd w ∧ extends_with spi_write_done w w')
    (λ h, ∃ w' pre fd bytes r,
        h = HExit EXIT_SPIWRITE w'
        ∧ log w' = log w ++ pre ++ [EvSys (c_write fd bytes) r]
        ∧ r ≠ 3 ∧ failedadcfd w' = fd ∧ adcfd w' = adcfd w
        ∧ Forall spi_write_done pre).
Proof.
  intros Hlen.
  set (I := λ (_ : nat) w', failedadcfd w' = failedadcfd w
              ∧ adcfd w' = adcfd w ∧ extends_with spi_write_done w w').
  unfold adc_settestmode.
  eapply post_mono; [apply (post_for_loop I)| |intros h Hh; exact Hh].
  - intros j w1 Hj (Hf & Ha & (evs & Hlog & Hevs)).
    apply post_bind, post_arr_get.
    2:{ intros Hnone. apply lookup_ge_None in Hnone. rewrite Ha in Hnone. lia. }
    intros fd Hfd.
    assert (Hskip : I (S j) w1).
    { split; [done|]. split; [done|]. by exists evs. }
    case_decide as Hpos; [|by apply post_ret].
    apply post_bind, post_gets. case_decide as Hfail; [by apply post_ret|].
    assert (Hl1 : ∀ e, log w1 ++ [e] = log w ++ evs ++ [e]).
    { intros e. by rewrite Hlog, <- app_assoc. }
    assert (Hl2 : ∀ e1 e2, (log w1 ++ [e1]) ++ [e2]
                           = log w ++ (evs ++ [e1]) ++ [e2]).
    { intros e1 e2. by rewrite Hlog, <- !app_assoc. }
    apply post_bind, post_adc_write.
    2:{ intros Hr. eexists _, evs, fd, _, _. split; [done|].
        split; [apply Hl1|]. done. }
    intros Hr1. apply post_bind, post_adc_write.
    + intros Hr2. apply post_ret. split; [done|]. split; [done|].
      assert (Hl3 : ∀ e1 e2, (log w1 ++ [e1]) ++ [e2]
                             = log w ++ evs ++ [e1; e2]).
      { intros e1 e2. by rewrite Hlog, <- !app_assoc. }
      eexists (evs ++ [_; _]). split; [apply Hl3|].
      apply Forall_app. split; [done|]. wsimpl.
      rewrite Hr2, Hr1.
      constructor; [by eexists _, _|]. constructor; [by eexists _, _|done].
    + intros Hr2. eexists _, (evs ++ [_]), fd, _, _. split; [done|].
      split; [apply Hl2|]. split; [exact Hr2|]. split; [done|].
      split; [done|]. apply Forall_app. split; [done|].
      rewrite Hr1. constructor; [by eexists _, _|done].
  - split; [done|]. split; [done|]. apply extends_with_refl.
  - intros [] w' (Hf & _ & Hext). done.
Qed.



Lemma post_ends_in {A} (m : M A) w (P : world → Prop) :
  post m w (λ _ w', P w') (λ h, ∀ w', halt_world h = Some w' → P w') →
  ∀ w', ends_in (m w) w' → P w'.
Proof.
  unfold post, ends_in. destruct (m w); intros Hp w' Hw'; subst; eauto.
  done.
Qed.



End Spi.

(** ** Claim C5 *)

(** C5, what the code does instead.  With the links open on 3..7 and the
    first one dead, [adc_settestmode] ends the process with
    [EXIT_SPIWRITE] after that single write: it does not go on, and the
    other four devices get no write in this call. *)
Lemma settestmode_write_failure_is_fatal :
  (∃ w', AdcCheckRamp.adc_settestmode env_spi3_dead AdcCheckRamp.RAMPON
           w_spi_open = Exit 39 w'
         ∧ failedadcfd w' = 3
         ∧ events_since w_spi_open w' = [EvSys (c_write 3 [0; 5; 3]) (-1)])
  ∧ ¬ ∃ w', AdcCheckRamp.adc_settestmode env_spi3_dead AdcCheckRamp.RAMPON
              w_spi_open = Ret tt w'
            ∧ Exists (is_spi_write 4) (events_since w_spi_open w').
Proof.
  assert (Hrun : match AdcCheckRamp.adc_settestmode env_spi3_dead
                         AdcCheckRamp.RAMPON w_spi_open with
                 | Exit code w' =>
                     code = 39 ∧ failedadcfd w' = 3
                     ∧ events_since w_spi_open w'
                       = [EvSys (c_write 3 [0; 5; 3]) (-1)]
                 | _ => False
                 end)
    by (vm_compute; auto).
  destruct (AdcCheckRamp.adc_settestmode _ _ _) as [|code w'| | |]; try done.
  destruct Hrun as (-> & Hf & Hev). split; [by exists w'|].
  intros (w'' & [=] & _).
Qed.

(** C5, amended.  [adc_settestmode] either completes every write it
    makes and returns with the mark unchanged, or it ends the process
    with [EXIT_SPIWRITE] at the first write that does not complete: that
    write is the last event of the call, its device is the one marked,
    and any later call of [adc_settestmode] makes no write on it. *)
Theorem settestmode_write_failure (E : Env) (w : world) (testmode : Z) :
  length (adcfd w) = SHWR_RAW_NCH_MAX →
  (∃ w', AdcCheckRamp.adc_settestmode E testmode w = Ret tt w'
         ∧ failedadcfd w' = failedadcfd w
         ∧ Forall spi_write_done (events_since w w'))
  ∨ (∃ w' pre fd bytes r,
       AdcCheckRamp.adc_settestmode E testmode w
       = Exit AdcCheckRamp.EXIT_SPIWRITE w'
       ∧ events_since w w' = pre ++ [EvSys (c_write fd bytes) r]
       ∧ r ≠ 3 ∧ Forall spi_write_done pre
       ∧ failedadcfd w' = fd
       ∧ ∀ testmode' w'',
           ends_in (AdcCheckRamp.adc_settestmode E testmode' w') w'' →
           Forall (λ e, ¬ is_spi_write fd e) (events_since w' w'')).
Proof.
  intros Hlen.
  pose proof (adc_settestmode_outcome E testmode w Hlen) as Hpost.
  unfold post in Hpost.
  destruct (AdcCheckRamp.adc_settestmode E testmode w)
    as [[] w'|code w'|w'|w'|] eqn:Hrun.
  - left. exists w'. split; [done|]. destruct Hpost as (Hf & Hext).
    split; [done|]. by apply extends_with_events.
  - right.
    destruct Hpost as (w1 & pre & fd & bytes & r & [= -> ->] & Hlog & Hr
                       & Hf & Ha & Hpre).
    exists w1, pre, fd, bytes, r. split; [done|].
    split; [by apply events_since_app|]. split; [done|]. split; [done|].
    split; [done|]. intros testmode' w'' Hend.
    apply extends_with_events. rewrite <- Hf. revert w'' Hend.
    apply post_ends_in.
    eapply post_mono; [apply adc_settestmode_skips| |done].
    intros [] w2 (_ & _ & Hext). done.
  - by destruct Hpost as (? & ? & ? & ? & ? & ? & _).
  - by destruct Hpost as (? & ? & ? & ? & ? & ? & _).
  - by destruct Hpost as (? & ? & ? & ? & ? & ? & _).
Qed.

Lemma settestmode_write_failure_witness :
  length (adcfd w_spi_open) = SHWR_RAW_NCH_MAX
  ∧ ((∃ w', AdcCheckRamp.adc_settestmode env_spi3_dead AdcCheckRamp.RAMPON
              w_spi_open = Ret tt w'
            ∧ failedadcfd w' = failedadcfd w_spi_open
            ∧ Forall spi_write_done (events_since w_spi_open w'))
     ∨ (∃ w' pre fd bytes r,
          AdcCheckRamp.adc_settestmode env_spi3_dead AdcCheckRamp.RAMPON
            w_spi_open = Exit AdcCheckRamp.EXIT_SPIWRITE w'
          ∧ events_since w_spi_open w' = pre ++ [EvSys (c_write fd bytes) r]
          ∧ r ≠ 3 ∧ Forall spi_write_done pre
          ∧ failedadcfd w' = fd
          ∧ ∀ testmode' w'',
              ends_in (AdcCheckRamp.adc_settestmode env_spi3_dead testmode' w')
                      w'' →
              Forall (λ e, ¬ is_spi_write fd e) (events_since w' w''))).
Proof.
  split; [reflexivity|].
  exact (settestmode_write_failure env_spi3_dead w_spi_open
           AdcCheckRamp.RAMPON eq_refl).
Defined.

(** ** Reading an event *)

Section ReadEvtProofs.
Context `{HwDefs} (E : Env).

Lemma window_inv p w r size w' :
  window p w = Ret (r, size) w' →
  w' = w ∧ p = Some r ∧ (r, size) ∈ mapped w.
Proof.
  unfold window. destruct p as [r0|]; [|done].
  destruct (list_find _ _) as [[i [r1 s1]]|] eqn:Hfind; [|done].
  intros [= -> -> ->]. apply list_find_Some in Hfind as (Hl & Heq & _).
  cbn in Heq. subst. split; [done|]. split; [done|].
  by eapply list_elem_of_lookup_2.
Qed.

Lemma post_window p w Q (R : halt → Prop) :
  R (HFault w) →
  (∀ r size, p = Some r → (r, size) ∈ mapped w → Q (r, size) w) →
  post (window p) w Q R.
Proof.
  intros Hf Hq. unfold post.
  destruct (window p w) as [[r size] w'| | | |] eqn:Hw.
  - apply window_inv in Hw as (-> & Hp & Hin). by apply Hq.
  - unfold window in Hw. destruct p; [|done]. by destruct (list_find _ _) as [[? []]|].
  - unfold window in Hw. destruct p; [|done]. by destruct (list_find _ _) as [[? []]|].
  - unfold window in Hw. destruct p as [r|]; [|by simplify_eq].
    destruct (list_find _ _) as [[? []]|]; by simplify_eq.
  - unfold window in Hw. destruct p; [|done]. by destruct (list_find _ _) as [[? []]|].
Qed.

Lemma post_reg_read p addr w Q (R : halt → Prop) :
  R (HFault w) →
  (∀ r, p w = Some r →
     let v := hw_val E (length (log w)) r addr in
     Q v (set_log (log w ++ [EvRead r addr v]) w)) →
  post (reg_read E p addr) w Q R.
Proof.
  intros Hf Hq. unfold reg_read. apply post_bind, post_gets, post_bind.
  apply post_window; [done|]. intros r size Hp _. case_decide; [|done].
  apply post_bind, post_gets, post_bind, post_modify, post_ret. by apply Hq.
Qed.

Lemma post_reg_write p addr v w Q (R : halt → Prop) :
  R (HFault w) →
  (∀ r, p w = Some r → Q tt (set_log (log w ++ [EvWrite r addr v]) w)) →
  post (reg_write p addr v) w Q R.
Proof.
  intros Hf Hq. unfold reg_write. apply post_bind, post_gets, post_bind.
  apply post_window; [done|]. intros r size Hp _. case_decide; [|done].
  apply post_modify. by apply Hq.
Qed.

Lemma post_read_words p offset n w Q (R : halt → Prop) :
  R (HFault w) →
  (∀ r size, p = Some r → (r, size) ∈ mapped w →
     0 ≤ 4 * offset ∧ 4 * (offset + Z.of_nat n) ≤ size →
     Q (map (λ k, hw_val E (length (log w)) r (offset + Z.of_nat k)) (seq 0 n))
       (set_log (log w ++ [EvMemcpy r offset n]) w)) →
  post (read_words E p offset n) w Q R.
Proof.
  intros Hf Hq. unfold read_words. apply post_bind.
  apply post_window; [done|]. intros r size Hp Hin. case_decide; [|done].
  apply post_bind, post_gets, post_bind, post_modify, post_ret. by eapply Hq.
Qed.

(** The wait changes nothing but the log, and adds only its own events. *)
Lemma wait_trigger_post fuel aux sig w :
  post (ReadEvt.wait_trigger E fuel aux sig) w
    (λ _ w', timed_out w w') (λ _, True).
Proof.
  revert sig w. induction fuel as [|fuel IH]; intros sig w; [done|].
  cbn [ReadEvt.wait_trigger]. apply post_bind, post_reg_read; [done|].
  intros r Hr v. set (w1 := set_log _ w).
  assert (H1 : timed_out w w1).
  { split; [done|]. apply extends_with_snoc. left. by eexists _, _. }
  case_decide.
  - apply post_bind, post_sys. set (w2 := set_log _ w1).
    eapply post_mono; [apply IH| |done]. intros sig' w' (Heq & Hext).
    split.
    + rewrite Heq. done.
    + eapply extends_with_trans; [apply H1|].
      eapply extends_with_trans; [|done].
      apply extends_with_snoc. right. by eexists.
  - by apply post_ret.
Qed.

(** The copy loop of the self-test tool: on return every channel pointer
    was set, one copy per channel was made, in channel order, and only
    the staging buffer and the log have changed. *)
Lemma adc_copy_slot_post offset w :
  post (AdcCheckRamp.copy_slot E offset) w
    (λ _ w', ∃ rs d,
        take SHWR_RAW_NCH_MAX (shwr_pt (gl w)) = map Some rs
        ∧ w' = set_databuf d
                 (set_log (log w ++ map (λ r, EvMemcpy r offset SHWR_NSAMPLES) rs) w))
    (λ _, True).
Proof.
  set (I := λ (j : nat) w', ∃ rs d,
        take j (shwr_pt (gl w)) = map Some rs
        ∧ w' = set_databuf d
                 (set_log (log w ++ map (λ r, EvMemcpy r offset SHWR_NSAMPLES) rs) w)).
  unfold AdcCheckRamp.copy_slot.
  eapply post_mono; [apply (post_for_loop I)| |intros h Hh; exact Hh].
  - intros j w1 _ (rs & d & Hrs & ->). apply post_bind, post_arr_get; [|done].
    wsimpl. intros p Hp. apply post_bind, post_read_words; [done|].
    intros r size -> _ _. apply post_bind, post_gets.
    destruct (store _ _ _) as [buf'|]; [|done]. apply post_modify.
    exists (rs ++ [r]), buf'. split.
    + rewrite (take_S_r _ _ _ Hp), Hrs, map_app. done.
    + wsimpl. rewrite map_app, app_assoc. done.
  - exists [], (databuf w). split; [done|]. cbn. rewrite app_nil_r.
    by destruct w.
  - intros [] w' HI. exact HI.
Qed.

(** The same for the streaming tool, where the copy goes to [workbuf]. *)
Lemma net_copy_slot_post offset w :
  post (Netscope.copy_slot E offset) w
    (λ _ w', ∃ rs d,
        take SHWR_RAW_NCH_MAX (shwr_pt (gl w)) = map Some rs
        ∧ w' = set_workbuf d
                 (set_log (log w ++ map (λ r, EvMemcpy r offset SHWR_NSAMPLES) rs) w))
    (λ _, True).
Proof.
  set (I := λ (j : nat) w', ∃ rs d,
        take j (shwr_pt (gl w)) = map Some rs
        ∧ w' = set_workbuf d
                 (set_log (log w ++ map (λ r, EvMemcpy r offset SHWR_NSAMPLES) rs) w)).
  unfold Netscope.copy_slot.
  eapply post_mono; [apply (post_for_loop I)| |intros h Hh; exact Hh].
  - intros j w1 _ (rs & d & Hrs & ->). apply post_bind, post_arr_get; [|done].
    wsimpl. intros p Hp. apply post_bind, post_read_words; [done|].
    intros r size -> _ _. apply post_bind, post_gets.
    destruct (store _ _ _) as [buf'|]; [|done]. apply post_modify.
    exists (rs ++ [r]), buf'. split.
    + rewrite (take_S_r _ _ _ Hp), Hrs, map_app. done.
    + wsimpl. rewrite map_app, app_assoc. done.
  - exists [], (workbuf w). split; [done|]. cbn. rewrite app_nil_r.
    by destruct w.
  - intros [] w' HI. exact HI.
Qed.

(** A pointer read twice is the same pointer. *)
Ltac same_ptr Hp :=
  match goal with
  | Hr : ?p = Some ?r |- _ =>
      lazymatch type of Hp with
      | p = Some ?r0 =>
          first [ constr_eq Hr Hp; fail 1
                | let Heq := fresh in
                  assert (Heq : r = r0) by congruence; subst r ]
      end
  end.

Lemma adc_read_evt_read_post fuel w :
  post (AdcCheckRamp.read_evt_read E fuel) w
    (λ r w', ∃ waits, Forall is_wait_event waits
       ∧ ((∃ t0 t1, r = to_int32 (- t0) + to_int32 t1
             ∧ drained w w' (waits ++ [EvSys c_gettimeofday t0])
                       [EvSys c_gettimeofday t1])
          ∨ (r = -1 ∧ timed_out w w' ∧ events_since w w' = waits)))
    (λ _, True).
Proof.
  unfold AdcCheckRamp.read_evt_read. apply post_bind.
  eapply post_mono; [apply wait_trigger_post| |done].
  intros sig w1 Hto. cbv beta. pose proof Hto as (Hw1 & waits & Hlog & Hwaits).
  case_decide as Hsig.
  2:{ apply post_ret. exists waits. split; [done|]. right.
      split; [done|]. split; [done|]. by apply events_since_app. }
  apply post_bind, post_sys. set (t0 := sys_ret E _ _).
  apply post_bind, post_reg_read; [done|]. intros rg Hrg st.
  apply post_bind. eapply post_mono; [apply adc_copy_slot_post| |done].
  intros [] w2 (rs & d & Hrs & ->). cbv beta.
  apply post_bind, post_gets.
  apply post_bind, post_reg_read; [done|]. intros rg1 Hrg1 v_status.
  apply post_bind, post_reg_read; [done|]. intros rg2 Hrg2 v_start.
  apply post_bind, post_reg_read; [done|]. intros rg3 Hrg3 v_trig.
  apply post_bind, post_reg_read; [done|]. intros rt Hrt v_sec.
  apply post_bind, post_reg_read; [done|]. intros rt1 Hrt1 v_nsec.
  apply post_bind, post_modify.
  apply post_bind, post_reg_write; [done|]. intros rg4 Hrg4.
  apply post_bind, post_modify. apply post_bind, post_modify.
  apply post_bind, post_sys. set (t1 := sys_ret E _ _). apply post_ret.
  assert (Hgl : gl w1 = gl w) by (by rewrite Hw1).
  wsimpl. rewrite Hgl in *.
  assert (rg1 = rg) as -> by congruence. assert (rg2 = rg) as -> by congruence.
  assert (rg3 = rg) as -> by congruence. assert (rg4 = rg) as -> by congruence.
  assert (rt1 = rt) as -> by congruence.
  exists waits. split; [done|]. left. exists t0, t1. split; [done|].
  exists rg, rt, rs, st. wsimpl. rewrite ?Hgl.
  unfold drain_events. cbn [id shwr_buf_status shwr_buf_start
    shwr_buf_trig_id ttag_shwr_seconds ttag_shwr_nanosec rd].
  split; [done|]. split; [done|]. split; [done|].
  split; [done|]. split; [done|]. split; [done|].
  apply events_since_app. wsimpl. rewrite Hlog.
  rewrite <- !app_assoc. cbn [app]. done.
Qed.

Lemma net_read_evt_read_post fuel w :
  post (Netscope.read_evt_read E fuel) w
    (λ r w', ∃ waits, Forall is_wait_event waits
       ∧ ((r = 0 ∧ drained w w' waits [])
          ∨ (r = 1 ∧ timed_out w w' ∧ events_since w w' = waits)))
    (λ _, True).
Proof.
  unfold Netscope.read_evt_read. apply post_bind.
  eapply post_mono; [apply wait_trigger_post| |done].
  intros sig w1 Hto. cbv beta. pose proof Hto as (Hw1 & waits & Hlog & Hwaits).
  case_decide as Hsig.
  2:{ apply post_ret. exists waits. split; [done|]. right.
      split; [done|]. split; [done|]. by apply events_since_app. }
  apply post_bind, post_reg_read; [done|]. intros rg Hrg st.
  apply post_bind. eapply post_mono; [apply net_copy_slot_post| |done].
  intros [] w2 (rs & d & Hrs & ->). cbv beta.
  apply post_bind, post_gets.
  apply post_bind, post_reg_read; [done|]. intros rg1 Hrg1 v_status.
  apply post_bind, post_reg_read; [done|]. intros rg2 Hrg2 v_start.
  apply post_bind, post_reg_read; [done|]. intros rg3 Hrg3 v_trig.
  apply post_bind, post_reg_read; [done|]. intros rt Hrt v_sec.
  apply post_bind, post_reg_read; [done|]. intros rt1 Hrt1 v_nsec.
  apply post_bind, post_modify.
  apply post_bind, post_reg_write; [done|]. intros rg4 Hrg4.
  apply post_bind, post_modify. apply post_bind, post_modify.
  apply post_ret.
  assert (Hgl : gl w1 = gl w) by (by rewrite Hw1).
  wsimpl. rewrite Hgl in *.
  assert (rg1 = rg) as -> by congruence. assert (rg2 = rg) as -> by congruence.
  assert (rg3 = rg) as -> by congruence. assert (rg4 = rg) as -> by congruence.
  assert (rt1 = rt) as -> by congruence.
  exists waits. split; [done|]. left. split; [done|].
  exists rg, rt, rs, st. wsimpl. rewrite ?Hgl.
  unfold drain_events. cbn [id shwr_buf_status shwr_buf_start
    shwr_buf_trig_id ttag_shwr_seconds ttag_shwr_nanosec rd].
  split; [done|]. split; [done|]. split; [done|].
  split; [done|]. split; [done|]. split; [done|].
  apply events_since_app. wsimpl. rewrite Hlog.
  rewrite <- !app_assoc. cbn [app]. done.
Qed.

End ReadEvtProofs.

Lemma outcome_is_ret {A} (o : outcome A) :
  (if o is Ret _ _ then True else False) → ∃ a w', o = Ret a w'.
Proof. destruct o; try done. eauto. Qed.

(** ** Bounds of the reads *)

Section Bounds.
Context `{HwDefs} (E : Env).

Lemma window_mapping w r size :
  mapping_of w r = Some size → window (Some r) w = Ret (r, size) w.
Proof.
  unfold mapping_of, mapping_in, window.
  destruct (list_find _ _) as [[i [r1 s1]]|] eqn:Hfind; [|done].
  cbn. intros [= ->]. apply list_find_Some in Hfind as (_ & Heq & _).
  cbn in Heq. by subst.
Qed.

Lemma mapping_in_cons r size ms r' :
  mapping_in ((r, size) :: ms) r'
  = if decide (r = r') then Some size else mapping_in ms r'.
Proof.
  unfold mapping_in. cbn [list_find]. cbn [fst].
  case_decide as Heq; [done|].
  destruct (list_find _ _) as [[i [r1 s1]]|]; done.
Qed.

Lemma post_mmap r size w Q (R : halt → Prop) :
  let ret := sys_ret E (length (log w)) (c_mmap r size) in
  let w1 := set_log (log w ++ [EvSys (c_mmap r size) ret]) w in
  (ret = -1 → Q None w1) →
  (ret ≠ -1 → Q (Some r) (set_mapped ((r, size) :: mapped w1) w1)) →
  post (mmap E r size) w Q R.
Proof.
  intros ret w1 Hfail Hok. unfold mmap. apply post_bind, post_sys.
  fold ret. fold w1. case_decide.
  - apply post_ret. by apply Hfail.
  - apply post_bind, post_modify, post_ret. by apply Hok.
Qed.

(** [munmap] and the rest of a run leave a mapping alone unless they say
    otherwise; here: a state change that keeps [gl.shwr_pt] and the
    mappings keeps [windows_mapped]. *)
Lemma windows_mapped_same w w' size :
  shwr_pt (gl w') = shwr_pt (gl w) → mapped w' = mapped w →
  windows_mapped w size → windows_mapped w' size.
Proof.
  intros Hp Hm Hw i Hi. destruct (Hw i Hi) as (H1 & H2).
  unfold mapping_of in *. by rewrite Hp, Hm.
Qed.

(** When [read_evt_init] returns, the five channel pointers are set and
    their windows are mapped with the size it computed. *)
Lemma read_evt_init_windows c w :
  length (shwr_pt (gl w)) = SHWR_RAW_NCH_MAX →
  post (ReadEvt.read_evt_init E c) w
    (λ _ w', windows_mapped w' shwr_window_size ∧ databuf w' = databuf w)
    (λ _, True).
Proof.
  intros Hlen. unfold ReadEvt.read_evt_init.
  apply post_bind, post_sys, post_bind, post_exit_if; [done|]. intros _.
  apply post_bind, post_modify.
  apply post_bind, post_mmap; intros _;
    (apply post_bind, post_exit_if; [done|]); [done|]. intros _.
  apply post_bind, post_modify.
  apply post_bind, post_mmap; intros _;
    (apply post_bind, post_exit_if; [done|]); [done|]. intros _.
  apply post_bind, post_modify.
  apply post_bind, post_mmap; intros _;
    (apply post_bind, post_exit_if; [done|]); [done|]. intros _.
  apply post_bind, post_modify.
  apply post_bind, post_modify.
  set (w0 := set_gl _ _).
  set (I := λ (j : nat) w', length (shwr_pt (gl w')) = SHWR_RAW_NCH_MAX
     ∧ databuf w' = databuf w
     ∧ ∀ i, (i < j)%nat →
         shwr_pt (gl w') !! i = Some (Some (ShwrBuf i))
         ∧ mapping_of w' (ShwrBuf i) = Some shwr_window_size).
  apply post_bind.
  eapply post_mono; [apply (post_for_loop I)| |intros h Hh; exact Hh].
  - intros j w1 Hj (Hl & Hd & Hw). apply post_bind, post_mmap; intros _;
      (apply post_bind, post_exit_if; [done|]); [done|]. intros _.
    apply post_modify. split; [wsimpl; by rewrite length_insert|].
    split; [done|]. intros i Hi. wsimpl. destruct (decide (i = j)) as [->|Hne].
    + split; [apply list_lookup_insert_eq; lia|].
      unfold mapping_of. wsimpl. rewrite mapping_in_cons.
      rewrite decide_True by done. done.
    + destruct (Hw i) as (Hp & Hm); [lia|].
      split; [by rewrite list_lookup_insert_ne|].
      unfold mapping_of in *. wsimpl. rewrite mapping_in_cons.
      rewrite decide_False by congruence. done.
  - split; [done|]. split; [done|]. intros i Hi. lia.
  - intros [] w1 (Hl & Hd & Hw). cbv beta.
    apply post_bind, post_sys.
    apply post_bind, post_sys, post_bind, post_exit_if; [done|]. intros _.
    apply post_bind, post_sys, post_bind, post_exit_if; [done|]. intros _.
    apply post_bind, post_sys, post_bind, post_exit_if; [done|]. intros _.
    apply post_bind, post_sys, post_bind, post_exit_if; [done|]. intros _.
    apply post_bind, post_sys, post_bind, post_exit_if; [done|]. intros _.
    apply post_modify. split; [|done].
    eapply (windows_mapped_same w1); [done|done|]. exact Hw.
Qed.

Lemma store_some (buf : list Z) pos (src : list Z) :
  (pos + length src ≤ length buf)%nat →
  ∃ b, store buf pos src = Some b ∧ length b = length buf.
Proof.
  intros Hle. unfold store. rewrite decide_True by done. eexists.
  split; [done|]. rewrite !length_app, length_take, length_drop. lia.
Qed.

Lemma post_read_words_in p offset n w r size Q (R : halt → Prop) :
  p = Some r → mapping_of w r = Some size →
  0 ≤ 4 * offset ∧ 4 * (offset + Z.of_nat n) ≤ size →
  Q (map (λ k, hw_val E (length (log w)) r (offset + Z.of_nat k)) (seq 0 n))
    (set_log (log w ++ [EvMemcpy r offset n]) w) →
  post (read_words E p offset n) w Q R.
Proof.
  intros -> Hm Hin Hq. unfold read_words. apply post_bind.
  unfold post at 1. rewrite (window_mapping _ _ _ Hm).
  rewrite decide_True by done.
  apply post_bind, post_gets, post_bind, post_modify, post_ret. done.
Qed.

(** With every channel window mapped and the slot inside it, the copy
    loop returns: no copy leaves its window or the staging buffer. *)
Lemma adc_copy_slot_in_window offset size w :
  windows_mapped w size →
  0 ≤ 4 * offset ∧ 4 * (offset + Z.of_nat SHWR_NSAMPLES) ≤ size →
  length (databuf w) = AdcCheckRamp.DATASIZE →
  post (AdcCheckRamp.copy_slot E offset) w
    (λ _ w', events_since w w'
             = map (λ i, EvMemcpy (ShwrBuf i) offset SHWR_NSAMPLES)
                   (seq 0 SHWR_RAW_NCH_MAX))
    (λ _, False).
Proof.
  intros Hwin Hin Hlen.
  set (I := λ (j : nat) w',
         gl w' = gl w ∧ mapped w' = mapped w
         ∧ length (databuf w') = AdcCheckRamp.DATASIZE
         ∧ log w' = log w ++ map (λ i, EvMemcpy (ShwrBuf i) offset SHWR_NSAMPLES)
                                 (seq 0 j)).
  unfold AdcCheckRamp.copy_slot.
  eapply post_mono; [apply (post_for_loop I)| |intros h Hh; exact Hh].
  - intros j w1 Hj (Hgl & Hmap & Hl & Hlog).
    destruct (Hwin j) as (Hp & Hm); [lia|].
    apply post_bind, post_arr_get.
    2:{ cbn [compose]. rewrite Hgl, Hp. done. }
    cbn [compose]. rewrite Hgl, Hp. intros p [= <-].
    apply post_bind. eapply post_read_words_in; [done| |done|].
    { unfold mapping_of in *. by rewrite Hmap. }
    apply post_bind, post_gets. wsimpl.
    destruct (store_some (databuf w1) (j * SHWR_NSAMPLES)
      (map (λ k, hw_val E (length (log w1)) (ShwrBuf j) (offset + Z.of_nat k))
           (seq 0 SHWR_NSAMPLES))) as (b & Hb & Hbl).
    { rewrite length_map, length_seq, Hl.
      unfold AdcCheckRamp.DATASIZE, SHWR_RAW_NCH_MAX, SHWR_NSAMPLES in *. lia. }
    rewrite Hb. apply post_modify. unfold I. wsimpl.
    split; [done|]. split; [done|]. split; [congruence|].
    rewrite Hlog, seq_S, map_app, <- app_assoc. done.
  - split; [done|]. split; [done|]. split; [done|]. cbn. by rewrite app_nil_r.
  - intros [] w' (_ & _ & _ & Hlog). by apply events_since_app.
Qed.

(** The window [read_evt_init] asks for holds [SHWR_MEM_NBUF] slots. *)
Lemma shwr_window_holds_slots :
  0 < PAGESIZE → 0 ≤ SHWR_MEM_DEPTH * SHWR_MEM_NBUF →
  SHWR_MEM_DEPTH * SHWR_MEM_NBUF + PAGESIZE ≤ 2 ^ 31 →
  SHWR_MEM_DEPTH * SHWR_MEM_NBUF ≤ shwr_window_size.
Proof.
  intros Hp Hn Hsum. unfold shwr_window_size, to_int32, roundup, to_uint32.
  set (n := SHWR_MEM_DEPTH * SHWR_MEM_NBUF) in *. set (m := PAGESIZE) in *.
  assert (H32 : 2 ^ 32 = 4294967296) by reflexivity.
  assert (H31 : 2 ^ 31 = 2147483648) by reflexivity.
  rewrite H31 in *. rewrite H32.
  rewrite (Z.mod_small n) by lia. rewrite (Z.mod_small m) by lia.
  rewrite (Z.mod_small (n + m - 1)) by lia.
  pose proof (Z.div_mod (n + m - 1) m ltac:(lia)) as Hdm.
  pose proof (Z.mod_pos_bound (n + m - 1) m Hp) as Hmb.
  set (q := (n + m - 1) / m) in *.
  assert (Hq : n ≤ q * m ≤ n + m - 1) by lia.
  rewrite (Z.mod_small (q * m)) by lia.
  rewrite (Z.mod_small (q * m)) by lia.
  rewrite decide_True by lia.
  rewrite (Z.mod_small (q * m)) by lia. lia.
Qed.

End Bounds.

Lemma outcome_is_ret_unit (o : outcome unit) :
  (if o is Ret _ _ then True else False) → ∃ w', o = Ret tt w'.
Proof. destruct o as [[] w| | | |]; try done. eauto. Qed.

(** ** Claim C6 *)

(** C6.  On a platform whose slot depth holds one event's samples of a
    channel (4 bytes for each of the 2048 words) and whose window size
    does not wrap, after [read_evt_init] has returned: for every slot
    index [rd] below the number of slots, the five copies of the drain
    read bytes [4*rd*2048 .. 4*(rd*2048+2048)) of windows that are
    mapped with at least that size, and the copy loop returns without
    touching memory outside them.  And for a start offset below 2048
    [convert_databuf] returns, every read of the staging buffer having
    been inside its 5*2048 words. *)
Theorem reads_stay_in_bounds `{HwDefs} (E : Env) (w0 w : world) (slot : Z)
    (s : nat) (buf : list Z) (t : Trace) :
  0 < PAGESIZE →
  4 * Z.of_nat SHWR_NSAMPLES ≤ SHWR_MEM_DEPTH →
  SHWR_MEM_DEPTH * SHWR_MEM_NBUF + PAGESIZE ≤ 2 ^ 31 →
  length (shwr_pt (gl w0)) = SHWR_RAW_NCH_MAX →
  length (databuf w0) = AdcCheckRamp.DATASIZE →
  AdcCheckRamp.read_evt_init E w0 = Ret tt w →
  0 ≤ slot < SHWR_MEM_NBUF →
  length buf = AdcCheckRamp.DATASIZE → trace_shape t → (s < SHWR_NSAMPLES)%nat →
  let offset := slot * Z.of_nat SHWR_NSAMPLES in
  (windows_mapped w shwr_window_size
   ∧ 0 ≤ 4 * offset
   ∧ 4 * (offset + Z.of_nat SHWR_NSAMPLES) ≤ shwr_window_size
   ∧ ∃ w', AdcCheckRamp.copy_slot E offset w = Ret tt w'
           ∧ events_since w w'
             = map (λ i, EvMemcpy (ShwrBuf i) offset SHWR_NSAMPLES)
                   (seq 0 SHWR_RAW_NCH_MAX))
  ∧ is_Some (AdcCheckRamp.convert_databuf s buf t).
Proof.
  intros Hpage Hdepth Hsum Hpt Hdb Hinit Hslot Hbuf Hshape Hs offset. split.
  - pose proof (post_ret_inv _ _ _ _ _ _
      (read_evt_init_windows E AdcCheckRamp.exit_codes w0 Hpt) Hinit)
      as (Hwin & Hd).
    assert (Hsize : SHWR_MEM_DEPTH * SHWR_MEM_NBUF ≤ shwr_window_size).
    { apply shwr_window_holds_slots; [done| |done].
      unfold SHWR_NSAMPLES in *. nia. }
    assert (Hin : 0 ≤ 4 * offset
                  ∧ 4 * (offset + Z.of_nat SHWR_NSAMPLES) ≤ shwr_window_size).
    { unfold offset, SHWR_NSAMPLES in *. nia. }
    split; [done|]. split; [apply Hin|]. split; [apply Hin|].
    pose proof (adc_copy_slot_in_window E offset shwr_window_size w Hwin Hin
                  ltac:(congruence)) as Hpost.
    unfold post in Hpost.
    destruct (AdcCheckRamp.copy_slot E offset w) as [[] w'| | | |]; try done.
    by exists w'.
  - destruct (convert_channels_spec buf s Hbuf Hs SHWR_RAW_NCH_MAX 0%nat t)
      as (tr & Heq & _); [done|done|].
    by exists tr.
Qed.

Lemma reads_stay_in_bounds_witness :
  ∃ w, AdcCheckRamp.read_evt_init (H := sample_defs) env_ok w_init = Ret tt w
    ∧ (windows_mapped w (shwr_window_size (H := sample_defs))
       ∧ 0 ≤ 4 * (3 * Z.of_nat SHWR_NSAMPLES)
       ∧ 4 * (3 * Z.of_nat SHWR_NSAMPLES + Z.of_nat SHWR_NSAMPLES)
         ≤ shwr_window_size (H := sample_defs)
       ∧ ∃ w', AdcCheckRamp.copy_slot env_ok (3 * Z.of_nat SHWR_NSAMPLES) w
               = Ret tt w'
               ∧ events_since w w'
                 = map (λ i, EvMemcpy (ShwrBuf i) (3 * Z.of_nat SHWR_NSAMPLES)
                               SHWR_NSAMPLES)
                       (seq 0 SHWR_RAW_NCH_MAX))
      ∧ is_Some (AdcCheckRamp.convert_databuf 7 ramp_databuf blank_traces).
Proof.
  destruct (outcome_is_ret_unit
              (AdcCheckRamp.read_evt_init (H := sample_defs) env_ok w_init))
    as (w & Hinit); [vm_compute; exact I|].
  exists w. split; [exact Hinit|].
  apply (reads_stay_in_bounds (H := sample_defs) env_ok w_init w 3 7
           ramp_databuf blank_traces).
  - reflexivity.
  - vm_compute. discriminate.
  - vm_compute. discriminate.
  - reflexivity.
  - vm_compute. reflexivity.
  - exact Hinit.
  - split; [vm_compute; discriminate|reflexivity].
  - vm_compute. reflexivity.
  - exact blank_traces_shape.
  - unfold SHWR_NSAMPLES. lia.
Defined.

(** ** The result of the self-test *)

Section SelfTest.
Import AdcCheckRamp.
Context `{HwDefs} (E : Env).

Lemma post_bind_any {A B} (m : M A) (k : A → M B) w Q :
  (∀ a w', post (k a) w' Q (λ _, True)) → post (m ≫= k) w Q (λ _, True).
Proof.
  intros Hk. apply post_bind. unfold post at 1.
  destruct (m w); [apply Hk|done..].
Qed.

Lemma trace_uint16_pointwise (t : Trace) :
  trace_shape t →
  (∀ ch i v, tget t ch i = Some v → 0 ≤ v < 65536) → trace_uint16 t.
Proof.
  intros Hsh Hv. apply Forall_lookup_2. intros ch row Hrow.
  apply Forall_lookup_2. intros i v Hi. apply (Hv ch i).
  unfold tget. by rewrite Hrow.
Qed.

Lemma convert_databuf_unfold s buf (t : Trace) :
  convert_databuf s buf t = convert_channels SHWR_RAW_NCH_MAX 0 s buf t.
Proof. reflexivity. Qed.

(** What [convert_databuf] leaves is a well-shaped array of 12-bit
    values, whatever was in it before. *)
Lemma convert_databuf_uint16 (buf : list Z) (t tr : Trace) (s : nat) :
  length buf = DATASIZE → trace_shape t → (s < SHWR_NSAMPLES)%nat →
  convert_databuf s buf t = Some tr → trace_shape tr ∧ trace_uint16 tr.
Proof.
  intros Hlen Hsh Hs Hconv.
  destruct (convert_channels_spec buf s Hlen Hs SHWR_RAW_NCH_MAX 0%nat t)
    as (tr' & Heq & Hshape & _ & Hset); [done|done|].
  assert (tr' = tr) as ->.
  { rewrite convert_databuf_unfold, Heq in Hconv. by injection Hconv. }
  split; [done|]. apply trace_uint16_pointwise; [done|].
  intros ch i v Hv.
  assert (Hch : (ch < SHWR_NCH_MAX)%nat).
  { unfold tget in Hv. destruct (tr !! ch) eqn:Hrow; [|done].
    apply lookup_lt_Some in Hrow. destruct Hshape as [Hl _]. lia. }
  assert (Hi : (i < SHWR_NSAMPLES)%nat).
  { destruct (shape_row tr ch Hshape Hch) as (row & Hrow & Hl).
    unfold tget in Hv. rewrite Hrow in Hv. cbn in Hv.
    apply lookup_lt_Some in Hv. lia. }
  destruct (Hset (ch / 2)%nat i) as (word & _ & He & Ho); [|done|].
  { unfold SHWR_NCH_MAX, SHWR_RAW_NCH_MAX in *. lia. }
  assert (Hb : ∀ x, 0 ≤ Z.land x 4095 < 65536).
  { intros x. change 4095 with (Z.ones 12). rewrite Z.land_ones by done. lia. }
  assert (Hpar : ch = (2 * (ch / 2))%nat ∨ ch = (2 * (ch / 2) + 1)%nat) by lia.
  destruct Hpar as [Hpar|Hpar]; rewrite <- Hpar in *.
  - rewrite He in Hv. injection Hv as <-. apply Hb.
  - rewrite Ho in Hv. injection Hv as <-. apply Hb.
Qed.

Lemma evaluate_ramp_globals_post w :
  post (result ← evaluate_ramp_globals; mret result) w
    (λ code w', evaluate_ramp (traces w') = Some code) (λ _, True).
Proof.
  unfold evaluate_ramp_globals, post, mbind, M_bind, mret, M_ret.
  destruct (evaluate_ramp (traces w)) eqn:Heq; [exact Heq|exact I].
Qed.

(** The value [main] returns is what [evaluate_ramp] gives on the trace
    array as [main] leaves it. *)
Lemma main_returns_evaluation fuel w :
  post (main E fuel) w
    (λ code w', evaluate_ramp (traces w') = Some code) (λ _, True).
Proof.
  unfold main, main_after_init.
  repeat (first [ apply evaluate_ramp_globals_post
                | apply post_bind_any; intros ]).
Qed.

Lemma post_munmap r size w (Q : unit → world → Prop) (R : halt → Prop) :
  (∀ l, Q tt (set_mapped (filter (λ m, m.1 ≠ r) (mapped w)) (set_log l w))) →
  post (munmap E r size) w Q R.
Proof.
  intros Hq. unfold munmap. apply post_bind, post_sys, post_modify.
  wsimpl. apply Hq.
Qed.

Lemma munmap_if_set_post (p : option region) size w
    (Q : unit → world → Prop) (R : halt → Prop) :
  (∀ w', Q tt w') →
  post (if p is Some r then munmap E r size else mret tt) w Q R.
Proof.
  intros Hq. destruct p; [apply post_munmap; intros; apply Hq|apply post_ret, Hq].
Qed.

Lemma read_evt_end_no_exit w :
  post (read_evt_end E) w (λ _ _, True) not_exit.
Proof.
  unfold read_evt_end, ReadEvt.read_evt_end.
  apply post_bind, post_gets, post_bind, post_gets.
  apply post_bind, munmap_if_set_post. intros w1.
  apply post_bind, post_gets.
  apply post_bind, munmap_if_set_post. intros w2.
  apply post_bind, post_gets.
  apply post_bind, munmap_if_set_post. intros w3.
  eapply post_mono;
    [apply (post_for_loop (λ _ _, True)); [|done]|done|intros h Hh; exact Hh].
  intros j w4 _ _. apply post_bind, post_arr_get; [|done].
  intros p _. apply post_bind, post_gets. by apply munmap_if_set_post.
Qed.




End SelfTest.

(** The sample array of falling ramps is a trace array. *)
Lemma falling_traces_shape : trace_shape falling_traces.
Proof.
  split; [reflexivity|]. unfold falling_traces.
  apply Forall_map, Forall_forall. intros ch _. cbn [compose].
  by rewrite length_map, length_seq.
Qed.


(** ** Fragmentation *)

Section Fragments.
Import Netscope.
Context (E : Env) (sock : Z).
Hypothesis sendto_whole :
  ∀ t bytes, sys_ret E t (c_sendto sock bytes) = Z.of_nat (length bytes).

Lemma sizes :
  Z.of_nat WBUFSIZE = 40968 ∧ Z.of_nat DATASIZE = 40960
  ∧ Z.of_nat PACKETSIZE = 1400 ∧ Z.of_nat FRAG_HEADER_SIZE = 8.
Proof. repeat split; vm_compute; reflexivity. Qed.

Lemma WBUFSIZE_eq : WBUFSIZE = (FRAG_HEADER_SIZE + DATASIZE)%nat.
Proof. reflexivity. Qed.

Lemma length_le_bytes n x : length (le_bytes n x) = n.
Proof. revert x. induction n as [|n IH]; intros x; cbn; [done|]. by rewrite IH. Qed.

Lemma length_frag_header id a b : length (frag_header_bytes id a b) = 8%nat.
Proof. unfold frag_header_bytes. by rewrite !length_app, !length_le_bytes. Qed.

Lemma le_value_bytes n x :
  0 ≤ x → le_value (le_bytes n x) = x mod 256 ^ Z.of_nat n.
Proof.
  revert x. induction n as [|n IH]; intros x Hx.
  - cbn. by rewrite Z.mod_1_r.
  - cbn [le_bytes le_value]. rewrite IH by (apply Z.div_pos; lia).
    rewrite Nat2Z.inj_succ, Z.pow_succ_r by lia.
    rewrite Z.rem_mul_r by lia. lia.
Qed.

Lemma store_lookup (buf : list Z) pos src b p :
  store buf pos src = Some b →
  b !! p = if decide (pos ≤ p < pos + length src)%nat
           then src !! (p - pos)%nat else buf !! p.
Proof.
  unfold store. case_decide as Hle; [|done]. intros [= <-].
  case_decide as Hin.
  - rewrite lookup_app_r by (rewrite length_take; lia).
    rewrite length_take, Nat.min_l by lia.
    rewrite lookup_app_l by lia. done.
  - destruct (decide (p < pos)%nat).
    + rewrite lookup_app_l by (rewrite length_take; lia).
      by rewrite lookup_take_lt.
    + rewrite lookup_app_r by (rewrite length_take; lia).
      rewrite length_take, Nat.min_l by lia.
      rewrite lookup_app_r by lia. rewrite lookup_drop. f_equal. lia.
Qed.

Lemma store_drop (buf : list Z) pos src b :
  store buf pos src = Some b →
  drop pos b = src ++ drop (pos + length src) buf.
Proof.
  unfold store. case_decide as Hle; [|done]. intros [= <-].
  rewrite drop_app_length'; [done|]. rewrite length_take. lia.
Qed.

Lemma store_drop_after (buf : list Z) pos src b q :
  store buf pos src = Some b → (pos + length src ≤ q)%nat →
  drop q b = drop q buf.
Proof.
  unfold store. case_decide as Hle; [|done]. intros [= <-] Hq.
  rewrite app_assoc. rewrite drop_app_ge by (rewrite length_app, length_take; lia).
  rewrite length_app, length_take, Nat.min_l by lia.
  rewrite drop_drop. f_equal. lia.
Qed.

Lemma bind_gets {A B} (f : world → A) (k : A → M B) w :
  (gets f ≫= k) w = k (f w) w.
Proof. reflexivity. Qed.

Lemma bind_modify {B} f (k : unit → M B) w : (modify f ≫= k) w = k tt (f w).
Proof. reflexivity. Qed.

Lemma bind_sys {B} c (k : Z → M B) w :
  (sys E c ≫= k) w
  = k (sys_ret E (length (log w)) c)
      (set_log (log w ++ [EvSys c (sys_ret E (length (log w)) c)]) w).
Proof. reflexivity. Qed.

Lemma bind_exit_if_false {B} (c : Prop) `{Decision c} code (k : unit → M B) w :
  ¬ c → (exit_if c code ≫= k) w = k tt w.
Proof. intros Hc. unfold exit_if. by rewrite decide_False. Qed.

Lemma send_fragments_unfold fuel id start end_ :
  send_fragments E (S fuel) sock id start end_
  = if decide (end_ < WBUFSIZE)%nat then
      let end_ :=
        if decide (WBUFSIZE < start + PACKETSIZE)%nat then WBUFSIZE
        else (start + PACKETSIZE)%nat in
      let fh :=
        frag_header_bytes id
          (Z.of_nat start mod 2 ^ 16)
          ((Z.of_nat end_ - Z.of_nat FRAG_HEADER_SIZE) mod 2 ^ 16) in
      buf ← gets workbuf;
      match store buf start fh with
      | None => fault
      | Some buf' =>
          modify (set_workbuf buf');;
          let psize := (end_ - start)%nat in
          n ← sys E (c_sendto sock (take psize (drop start buf')));
          exit_if (n ≠ Z.of_nat psize) 1;;
          send_fragments E fuel sock id (end_ - FRAG_HEADER_SIZE) end_
      end
    else mret tt.
Proof. reflexivity. Qed.

(** The loop of [senddata], the transport taking every datagram whole *)
Lemma send_fragments_run id :
  ∀ fuel start end_ w,
    length (workbuf w) = WBUFSIZE → loop_head fuel start end_ →
    ∃ frags buf',
      send_fragments E fuel sock id start end_ w
      = Ret tt (set_workbuf buf' (set_log (log w ++ map (sent sock) frags) w))
      ∧ length buf' = WBUFSIZE
      ∧ frag_chain id start frags
      ∧ concat (map frag_payload frags)
        = drop (start + FRAG_HEADER_SIZE) (workbuf w)
      ∧ ∀ p, (p < WBUFSIZE)%nat → buf' !! p = stamped id start (workbuf w) p.
Proof.
  pose proof sizes as (HW & HD & HP & HF).
  induction fuel as [|fuel IH]; intros start end_ w Hlen Hhead.
  { unfold loop_head in Hhead. lia. }
  rewrite send_fragments_unfold. case_decide as Hrun.
  2:{ assert (Hst : start = DATASIZE) by (unfold loop_head in Hhead; lia).
      exists [], (workbuf w). split.
      { cbn. rewrite app_nil_r. by destruct w. }
      split; [done|]. split; [done|]. split.
      { cbn. symmetry. apply drop_ge. lia. }
      intros p Hp. unfold stamped. rewrite decide_False; [done|]. lia. }
  assert (Hmod : (start mod 1392 = 0)%nat) by (unfold loop_head in Hhead; lia).
  assert (Hs8 : (start + FRAG_HEADER_SIZE < WBUFSIZE)%nat)
    by (unfold loop_head in Hhead; lia).
  cbv zeta.
  set (end1 := if decide (WBUFSIZE < start + PACKETSIZE)%nat then WBUFSIZE
               else (start + PACKETSIZE)%nat).
  assert (Hend1 : (start + FRAG_HEADER_SIZE < end1 ≤ WBUFSIZE
                   ∧ end1 ≤ start + PACKETSIZE)%nat).
  { unfold end1. case_decide; lia. }
  set (fh := frag_header_bytes id _ _).
  assert (Hfh : length fh = 8%nat) by apply length_frag_header.
  rewrite bind_gets.
  destruct (store_some (workbuf w) start fh) as (buf1 & Hst & Hl1); [lia|].
  rewrite Hst, bind_modify, bind_sys, sendto_whole.
  rewrite bind_exit_if_false by (rewrite length_take, length_drop; lia).
  set (pkt := take (end1 - start) (drop start buf1)).
  set (payload := take (end1 - start - 8) (drop (start + 8) (workbuf w))).
  assert (Hpl : length payload = (end1 - start - 8)%nat).
  { unfold payload. rewrite length_take, length_drop. lia. }
  assert (Hpkt : pkt = fh ++ payload).
  { unfold pkt. rewrite (store_drop _ _ _ _ Hst), Hfh.
    rewrite take_app_ge by lia. rewrite Hfh. done. }
  set (w2 := set_log _ _).
  destruct (IH (end1 - FRAG_HEADER_SIZE)%nat end1 w2) as
    (frags & buf' & Hrun' & Hl' & Hchain & Hcat & Hstamp).
  { unfold w2. wsimpl. lia. }
  { right. unfold loop_head in Hhead. unfold end1 in *. case_decide; lia. }
  exists (pkt :: frags), buf'. split.
  { rewrite Hrun'. unfold w2. wsimpl. cbn [map]. rewrite <- app_assoc. done. }
  split; [done|]. split.
  { cbn [frag_chain]. exists payload. split.
    - rewrite Hpkt. unfold fh. change (2 ^ 16) with 65536.
      rewrite (Z.mod_small (Z.of_nat start)) by lia.
      rewrite (Z.mod_small (Z.of_nat end1 - Z.of_nat FRAG_HEADER_SIZE)) by lia.
      replace (Z.of_nat end1 - Z.of_nat FRAG_HEADER_SIZE)
        with (Z.of_nat (start + length payload)) by lia. done.
    - split; [lia|]. split; [rewrite Hpkt, length_app; lia|].
      replace (start + length payload)%nat with (end1 - FRAG_HEADER_SIZE)%nat
        by lia. done. }
  split.
  { cbn [map concat]. rewrite Hcat. unfold w2. wsimpl.
    unfold frag_payload. rewrite Hpkt.
    rewrite drop_app_length' by lia.
    rewrite (store_drop_after _ _ _ _ _ Hst) by lia.
    unfold payload.
    replace (end1 - FRAG_HEADER_SIZE + FRAG_HEADER_SIZE)%nat
      with ((start + 8) + (end1 - start - 8))%nat by lia.
    rewrite <- (drop_drop _ (end1 - start - 8) (start + 8)).
    replace (start + FRAG_HEADER_SIZE)%nat with (start + 8)%nat by lia.
    apply take_drop. }
  intros p Hp. rewrite Hstamp by done. unfold stamped, w2. wsimpl.
  rewrite (store_lookup _ _ _ _ p Hst), Hfh.
  repeat case_decide; try lia; try done.
  replace (p - p mod 1392)%nat with start by lia.
  replace (p mod 1392)%nat with (p - start)%nat by lia. done.
Qed.

Lemma length_shwr_header_bytes h :
  length (shwr_header_bytes h) = SHWR_HEADER_SIZE.
Proof. unfold shwr_header_bytes. by rewrite !length_app, !length_le_bytes. Qed.

(** [senddata], the transport taking every datagram whole: the header
    with the tagged id, then the fragments of the loop started at 0. *)
Lemma senddata_run w :
  length (workbuf w) = WBUFSIZE →
  let h := set_id (Z.lor (id (sh w)) 0x80000000) (sh w) in
  ∃ frags buf',
    senddata E sock w
    = Ret tt (set_workbuf buf'
                (set_log (log w ++ sent sock (shwr_header_bytes h)
                                   :: map (sent sock) frags)
                   (set_sh h w)))
    ∧ length buf' = WBUFSIZE
    ∧ frag_chain (id (sh w)) 0 frags
    ∧ concat (map frag_payload frags) = drop FRAG_HEADER_SIZE (workbuf w)
    ∧ ∀ p, (p < WBUFSIZE)%nat →
        buf' !! p = stamped (id (sh w)) 0 (workbuf w) p.
Proof.
  intros Hlen h. unfold senddata.
  rewrite bind_gets, bind_modify, bind_gets, bind_sys, sendto_whole.
  wsimpl. fold h.
  rewrite bind_exit_if_false by (rewrite length_shwr_header_bytes; lia).
  set (w1 := set_log _ _).
  destruct (send_fragments_run (id (sh w)) WBUFSIZE 0 0 w1)
    as (frags & buf' & Hrun & Hl & Hchain & Hcat & Hstamp).
  { done. }
  { left. done. }
  exists frags, buf'. split.
  { rewrite Hrun. unfold w1. wsimpl. rewrite <- app_assoc. done. }
  done.
Qed.

Lemma frag_fields id a b payload :
  0 ≤ id < 2 ^ 32 → 0 ≤ a < 65536 → 0 ≤ b < 65536 →
  let f := frag_header_bytes id a b ++ payload in
  frag_id f = id ∧ frag_start f = a ∧ frag_end f = b
  ∧ frag_payload f = payload ∧ length f = (8 + length payload)%nat.
Proof.
  intros Hid Ha Hb f. unfold f, frag_header_bytes.
  unfold frag_id, frag_start, frag_end, frag_payload.
  split; [|split; [|split; [|split]]].
  - rewrite <- !app_assoc.
    rewrite take_app_length' by (by rewrite length_le_bytes).
    rewrite le_value_bytes by lia. apply Z.mod_small. done.
  - rewrite <- !app_assoc.
    rewrite drop_app_length' by (by rewrite length_le_bytes).
    rewrite take_app_length' by (by rewrite length_le_bytes).
    rewrite le_value_bytes by lia. apply Z.mod_small. done.
  - rewrite (app_assoc (le_bytes 4 id)), <- app_assoc.
    rewrite drop_app_length' by (by rewrite length_app, !length_le_bytes).
    rewrite take_app_length' by (by rewrite length_le_bytes).
    rewrite le_value_bytes by lia. apply Z.mod_small. done.
  - rewrite drop_app_length'; [done|].
    by rewrite !length_app, !length_le_bytes.
  - by rewrite !length_app, !length_le_bytes.
Qed.

(** What the receiver reads in the fragments of a chain *)
Lemma frag_chain_props id :
  0 ≤ id < 2 ^ 32 →
  ∀ frags start, frag_chain id start frags →
    (start + length (concat (map frag_payload frags)) = DATASIZE)%nat
    ∧ ∀ k f, frags !! k = Some f →
        frag_id f = id ∧ (8 < length f ≤ PACKETSIZE)%nat
        ∧ frag_start f
          = Z.of_nat (start + length (concat (map frag_payload (take k frags))))
        ∧ frag_end f = frag_start f + Z.of_nat (length (frag_payload f)).
Proof.
  intros Hid. pose proof sizes as (HW & HD & HP & HF).
  induction frags as [|f0 frags IH]; intros start Hc.
  - cbn [frag_chain] in Hc. rewrite Hc. cbn [map concat length].
    split; [lia|]. intros k f Hk. by rewrite lookup_nil in Hk.
  - cbn [frag_chain] in Hc.
    destruct Hc as (payload & -> & Hpos & Hlen & Hrest).
    destruct (IH _ Hrest) as (Hsum & Hall).
    destruct (frag_fields id (Z.of_nat start) (Z.of_nat (start + length payload))
                payload) as (Hfid & Hfs & Hfe & Hfp & Hfl); [done|lia|lia|].
    split.
    + cbn [map concat]. rewrite Hfp, length_app. lia.
    + intros [|k] f Hk.
      * cbn [lookup list_lookup] in Hk.
        assert (f = frag_header_bytes id (Z.of_nat start)
                      (Z.of_nat (start + length payload)) ++ payload) as ->
          by congruence.
        rewrite Hfid, Hfs, Hfe, Hfp.
        cbn [take map concat length]. split; [done|]. split; [lia|]. split; lia.
      * cbn [lookup list_lookup] in Hk.
        destruct (Hall k f Hk) as (H1 & H2 & H3 & H4).
        split; [done|]. split; [done|]. split; [|done].
        rewrite H3. cbn [take map concat]. rewrite Hfp, length_app.
        f_equal. lia.
Qed.

Lemma payload_prefix_mono (frags : list (list Z)) j k f :
  (j < k)%nat → frags !! j = Some f →
  (length (concat (map frag_payload (take j frags))) + length (frag_payload f)
   ≤ length (concat (map frag_payload (take k frags))))%nat.
Proof.
  intros Hjk Hf.
  replace k with (S j + (k - S j))%nat by lia.
  rewrite <- take_take_drop, (take_S_r _ _ _ Hf).
  rewrite !map_app, !concat_app, !length_app. cbn [map concat].
  rewrite app_nil_r. lia.
Qed.

End Fragments.

Lemma length_offsets p n : length (offsets p n) = n.
Proof. revert p. induction n as [|n IH]; intros p; cbn; [done|]. by rewrite IH. Qed.

(** ** Fragments of one event *)

(** X1.  With a payload of 40960 bytes behind the room for one header,
    and a transport that takes every datagram whole, [senddata] returns
    after sending the header packet (id with the tag bit) and then the
    fragments, where: the payloads after the 8-byte headers, in the
    order sent, are byte for byte the payload as it was at entry; each
    header has the untagged id, the payload offset of its first byte and
    the offset after its last byte; the start offsets increase strictly;
    the last fragment ends at 40960. *)
Theorem senddata_fragments (E : Env) (sock : Z) (w : world) :
  length (workbuf w) = Netscope.WBUFSIZE →
  (∀ t bytes, sys_ret E t (c_sendto sock bytes) = Z.of_nat (length bytes)) →
  0 ≤ id (sh w) < 2 ^ 32 →
  ∃ frags w',
    Netscope.senddata E sock w = Ret tt w'
    ∧ events_since w w'
      = sent sock (Netscope.shwr_header_bytes
                     (Netscope.set_id (Z.lor (id (sh w)) 0x80000000) (sh w)))
        :: map (sent sock) frags
    ∧ Z.of_nat (length (drop 8 (workbuf w))) = 40960
    ∧ concat (map (drop 8) frags) = drop 8 (workbuf w)
    ∧ (∀ k f, frags !! k = Some f →
         frag_id f = id (sh w) ∧ (8 < length f ≤ 1400)%nat
         ∧ frag_start f
           = Z.of_nat (length (concat (map (drop 8) (take k frags))))
         ∧ frag_end f = frag_start f + Z.of_nat (length (drop 8 f)))
    ∧ (∀ j k f g, (j < k)%nat → frags !! j = Some f → frags !! k = Some g →
         frag_start f < frag_start g)
    ∧ ∃ f, last frags = Some f ∧ frag_end f = 40960.
Proof.
  intros Hlen Hok Hid. pose proof (sizes) as (HW & HD & HP & HF).
  destruct (senddata_run E sock Hok w Hlen)
    as (frags & buf' & Hrun & Hl & Hchain & Hcat & _).
  destruct (frag_chain_props (id (sh w)) Hid frags 0%nat Hchain)
    as (Hsum & Hall).
  eexists frags, _. split; [exact Hrun|]. split.
  { apply events_since_app. done. }
  split; [rewrite length_drop; lia|]. split; [exact Hcat|]. split.
  { intros k f Hk. destruct (Hall k f Hk) as (H1 & H2 & H3 & H4).
    split; [done|]. split; [lia|]. split; [|done]. rewrite H3. done. }
  split.
  { intros j k f g Hjk Hf Hg.
    destruct (Hall j f Hf) as (_ & Hlf & -> & _).
    destruct (Hall k g Hg) as (_ & _ & -> & _).
    pose proof (payload_prefix_mono frags j k f Hjk Hf) as Hm.
    unfold frag_payload in Hm at 2. rewrite length_drop in Hm. lia. }
  destruct frags as [|f0 frags'] eqn:Hfr using rev_ind.
  { cbn [frag_chain] in Hchain. lia. }
  clear IHfrags'. exists f0. split; [apply last_snoc|].
  assert (Hk : (frags' ++ [f0]) !! length frags' = Some f0).
  { rewrite lookup_app_r by lia. by rewrite Nat.sub_diag. }
  destruct (Hall _ _ Hk) as (_ & _ & H3 & H4). rewrite H4, H3.
  rewrite take_app_length.
  rewrite map_app, concat_app, length_app in Hsum. cbn [map concat] in Hsum.
  rewrite app_nil_r in Hsum. lia.
Qed.

Lemma senddata_fragments_witness :
  length (workbuf w_event) = Netscope.WBUFSIZE
  ∧ (∀ t bytes, sys_ret env_ok t (c_sendto 9 bytes) = Z.of_nat (length bytes))
  ∧ 0 ≤ id (sh w_event) < 2 ^ 32
  ∧ ∃ frags w',
      Netscope.senddata env_ok 9 w_event = Ret tt w'
      ∧ concat (map (drop 8) frags) = drop 8 (workbuf w_event)
      ∧ ∃ f, last frags = Some f ∧ frag_end f = 40960.
Proof.
  assert (Hlen : length (workbuf w_event) = Netscope.WBUFSIZE).
  { unfold w_event. cbn [workbuf set_workbuf].
    by rewrite length_map, length_offsets. }
  assert (Hok : ∀ (t : nat) bytes,
             sys_ret env_ok t (c_sendto 9 bytes) = Z.of_nat (length bytes))
    by reflexivity.
  assert (Hid : 0 ≤ id (sh w_event) < 2 ^ 32) by (cbn; lia).
  split; [exact Hlen|]. split; [exact Hok|]. split; [exact Hid|].
  destruct (senddata_fragments env_ok 9 w_event Hlen Hok Hid)
    as (frags & w' & Hrun & _ & _ & Hcat & _ & _ & Hlast).
  exists frags, w'. split; [exact Hrun|]. split; [exact Hcat|exact Hlast].
Defined.

(** ** Sending again without a new event *)

Section Resend.
Import Netscope.
Context `{HwDefs} (E : Env) (sock : Z).
Hypothesis sendto_whole :
  ∀ t bytes, sys_ret E t (c_sendto sock bytes) = Z.of_nat (length bytes).

Lemma tag_bound x : 0 ≤ x < 2 ^ 32 → 0 ≤ Z.lor x 0x80000000 < 2 ^ 32.
Proof.
  intros Hx. assert (H0 : 0 ≤ Z.lor x 0x80000000) by (apply Z.lor_nonneg; lia).
  split; [done|]. apply bits_above_bound; [done|lia|].
  intros j Hj. rewrite Z.lor_spec. apply orb_false_iff. split.
  - destruct (decide (x = 0)) as [->|]; [apply Z.bits_0|].
    apply Z.bits_above_log2; [lia|].
    assert (Z.log2 x < 32) by (apply Z.log2_lt_pow2; lia). lia.
  - change 0x80000000 with (2 ^ 31). apply Z.pow2_bits_false. lia.
Qed.

(** The body of the acquisition loop calls [senddata] whatever
    [read_evt_read] returned. *)
Lemma acquire_and_send_unconditional fuel w r w' :
  read_evt_read E fuel w = Ret r w' →
  acquire_and_send E fuel sock w = senddata E sock w'.
Proof.
  intros Hr. unfold acquire_and_send, mbind, M_bind. by rewrite Hr.
Qed.

(** A second [senddata] on the buffers the first one left, with only
    events of a wait in between *)
Lemma senddata_again w w1 w2 :
  length (workbuf w) = WBUFSIZE → 0 ≤ id (sh w) < 2 ^ 32 →
  senddata E sock w = Ret tt w1 →
  w2 = set_log (log w2) w1 →
  ∃ frags2 w3,
    senddata E sock w2 = Ret tt w3
    ∧ events_since w2 w3
      = sent sock (shwr_header_bytes (sh w1)) :: map (sent sock) frags2
    ∧ id (sh w1) = Z.lor (id (sh w)) 0x80000000
    ∧ (∀ k f, frags2 !! k = Some f → frag_id f = Z.lor (id (sh w)) 0x80000000)
    ∧ ∀ q, (q < DATASIZE)%nat →
        concat (map (drop 8) frags2) !! q
        = stamped (id (sh w)) 0 (workbuf w) (q + 8).
Proof.
  intros Hlen Hid Hrun1 Hw2. pose proof (sizes) as (HW & HD & HP & HF).
  destruct (senddata_run E sock sendto_whole w Hlen)
    as (frags1 & buf1 & Hrun1' & Hl1 & _ & _ & Hstamp).
  rewrite Hrun1 in Hrun1'. injection Hrun1' as Hw1.
  assert (Hsh1 : sh w1 = set_id (Z.lor (id (sh w)) 0x80000000) (sh w))
    by (by rewrite Hw1).
  assert (Hb1 : workbuf w1 = buf1) by (by rewrite Hw1).
  assert (Hsh2 : sh w2 = sh w1) by (by rewrite Hw2).
  assert (Hb2 : workbuf w2 = buf1) by (by rewrite Hw2).
  assert (Hid1 : id (sh w1) = Z.lor (id (sh w)) 0x80000000) by (by rewrite Hsh1).
  assert (Hlor : Z.lor (id (sh w1)) 0x80000000 = id (sh w1)).
  { rewrite Hid1, <- Z.lor_assoc, Z.lor_diag. done. }
  destruct (senddata_run E sock sendto_whole w2) as
    (frags2 & buf2 & Hrun2 & _ & Hchain2 & Hcat2 & _); [congruence|].
  rewrite Hsh2 in Hrun2, Hchain2. rewrite Hb2 in Hcat2.
  assert (Hh : set_id (Z.lor (id (sh w1)) 0x80000000) (sh w1) = sh w1).
  { rewrite Hlor. by destruct (sh w1). }
  rewrite Hh in Hrun2.
  eexists frags2, _. split; [exact Hrun2|]. split.
  { by apply events_since_app. }
  split; [exact Hid1|]. split.
  - intros k f Hk. rewrite Hid1 in Hchain2.
    destruct (frag_chain_props _ (tag_bound _ Hid) frags2 0%nat Hchain2)
      as (_ & Hall).
    by destruct (Hall k f Hk) as (Hfid & _).
  - intros q Hq. change (map (drop 8) frags2) with (map frag_payload frags2).
    rewrite Hcat2, lookup_drop.
    replace (FRAG_HEADER_SIZE + q)%nat with (q + 8)%nat by lia.
    apply Hstamp. lia.
Qed.

End Resend.

(** ** The acquisition loop of the streaming tool *)

(** X2.  The loop body calls [senddata] whatever
    [read_evt_read] returned.  After an event has been sent, when the
    next [read_evt_read] returns without an event, the body sends again:
    the header packet as the first [senddata] left it, with the tagged
    id; fragments that all carry the tagged id; and as payload the
    buffer as the first [senddata] left it, that is the original payload
    except that the 8 bytes before each fragment boundary hold the
    fragment header written there, with the untagged id.  Byte 1388 of
    that payload is 112, the low byte of the offset 1392. *)
Theorem resend_after_failed_read `{HwDefs} (E : Env) (sock : Z) (fuel : nat)
    (w : world) :
  length (workbuf w) = Netscope.WBUFSIZE →
  (∀ t bytes, sys_ret E t (c_sendto sock bytes) = Z.of_nat (length bytes)) →
  0 ≤ id (sh w) < 2 ^ 32 →
  (∀ w0 r w', Netscope.read_evt_read E fuel w0 = Ret r w' →
     Netscope.acquire_and_send E fuel sock w0 = Netscope.senddata E sock w')
  ∧ ∃ w1,
      Netscope.senddata E sock w = Ret tt w1
      ∧ id (sh w1) = Z.lor (id (sh w)) 0x80000000
      ∧ ∀ w2, Netscope.read_evt_read E fuel w1 = Ret 1 w2 →
          ∃ frags2 w3,
            Netscope.acquire_and_send E fuel sock w1 = Ret tt w3
            ∧ events_since w2 w3
              = sent sock (Netscope.shwr_header_bytes (sh w1))
                :: map (sent sock) frags2
            ∧ (∀ k f, frags2 !! k = Some f →
                 frag_id f = Z.lor (id (sh w)) 0x80000000)
            ∧ (∀ q, (q < Netscope.DATASIZE)%nat →
                 concat (map (drop 8) frags2) !! q
                 = stamped (id (sh w)) 0 (workbuf w) (q + 8))
            ∧ concat (map (drop 8) frags2) !! 1388%nat = Some 112.
Proof.
  intros Hlen Hok Hid. split.
  { intros w0 r w' Hr.
    exact (acquire_and_send_unconditional E sock fuel w0 r w' Hr). }
  destruct (senddata_run E sock Hok w Hlen) as (frags1 & buf1 & Hsend & _).
  match type of Hsend with _ = Ret _ ?x => remember x as w1 eqn:Hw1 end.
  exists w1. split; [exact Hsend|]. split; [by rewrite Hw1|].
  intros w2 Hread.
  pose proof (net_read_evt_read_post E fuel w1) as Hp.
  eapply post_ret_inv in Hp; [|exact Hread].
  destruct Hp as (waits & _ & [(Hr & _)|(_ & Hto & _)]); [done|].
  pose proof Hto as (Hw2 & _).
  destruct (senddata_again E sock Hok w w1 w2 Hlen Hid Hsend Hw2)
    as (frags2 & w3 & Hrun & Hev & Hid1 & Hids & Hpay).
  exists frags2, w3.
  rewrite (acquire_and_send_unconditional E sock fuel w1 1 w2 Hread).
  split; [exact Hrun|]. split; [exact Hev|].
  split; [exact Hids|]. split; [exact Hpay|].
  rewrite Hpay by (pose proof sizes as (_ & HD & _); lia).
  reflexivity.
Qed.

Lemma resend_after_failed_read_witness :
  length (workbuf w_event) = Netscope.WBUFSIZE
  ∧ (∀ t bytes,
       sys_ret env_no_event t (c_sendto 9 bytes) = Z.of_nat (length bytes))
  ∧ 0 ≤ id (sh w_event) < 2 ^ 32
  ∧ ∃ w1,
      Netscope.senddata env_no_event 9 w_event = Ret tt w1
      ∧ ∀ w2,
          Netscope.read_evt_read (H := sample_defs) env_no_event 2 w1 = Ret 1 w2 →
          ∃ frags2,
            concat (map (drop 8) frags2) !! 1388%nat = Some 112
            ∧ workbuf w_event !! 1396%nat = Some 141.
Proof.
  assert (Hlen : length (workbuf w_event) = Netscope.WBUFSIZE).
  { unfold w_event. cbn [workbuf set_workbuf].
    by rewrite length_map, length_offsets. }
  assert (Hok : ∀ (t : nat) bytes,
             sys_ret env_no_event t (c_sendto 9 bytes) = Z.of_nat (length bytes))
    by reflexivity.
  assert (Hid : 0 ≤ id (sh w_event) < 2 ^ 32) by (cbn; lia).
  split; [exact Hlen|]. split; [exact Hok|]. split; [exact Hid|].
  destruct (resend_after_failed_read (H := sample_defs) env_no_event 9 2 w_event
              Hlen Hok Hid) as (_ & w1 & Hsend & _ & Hnext).
  exists w1. split; [exact Hsend|]. intros w2 Hread.
  destruct (Hnext w2 Hread) as (frags2 & w3 & _ & _ & _ & _ & Hbyte).
  exists frags2. split; [exact Hbyte|]. vm_compute. reflexivity.
Defined.
(** ** Arithmetic of the helpers *)

(** X3.  [roundup(n, multiple)], for 32-bit operands and a positive
    [multiple]: while [n + multiple - 1] does not wrap, the result is the
    least multiple of [multiple] that is at least [n]; when that sum
    wraps, the result is 0. *)
Theorem roundup_least_multiple (n m : Z) :
  0 ≤ n < 2 ^ 32 → 0 < m < 2 ^ 32 →
  (n + m - 1 < 2 ^ 32 →
     roundup n m mod m = 0
     ∧ n ≤ roundup n m < n + m
     ∧ ∀ k, k mod m = 0 → n ≤ k → roundup n m ≤ k)
  ∧ (2 ^ 32 ≤ n + m - 1 → roundup n m = 0).
Proof.
  intros Hn Hm. unfold roundup. split.
  - intros Hfit. rewrite (Z.mod_small (n + m - 1)) by lia.
    pose proof (Z.div_mod (n + m - 1) m ltac:(lia)) as Hd.
    pose proof (Z.mod_pos_bound (n + m - 1) m ltac:(lia)) as Hr.
    generalize dependent ((n + m - 1) / m).
    generalize dependent ((n + m - 1) mod m).
    intros r Hr q Hd.
    assert (Hqm : q * m = n + m - 1 - r) by lia.
    rewrite (Z.mod_small (q * m)) by lia.
    split; [apply Z.mod_mul; lia|]. split; [lia|].
    intros k Hk Hnk.
    pose proof (Z.div_mod k m ltac:(lia)) as Hkm. rewrite Hk in Hkm.
    generalize dependent (k / m). intros j Hj.
    assert (q < j + 1) by nia. nia.
  - intros Hwrap.
    replace ((n + m - 1) mod 2 ^ 32) with (n + m - 1 - 2 ^ 32)
      by lia.
    rewrite Z.div_small by lia. reflexivity.
Qed.

Lemma roundup_least_multiple_witness :
  0 ≤ 1024 < 2 ^ 32 ∧ 0 < 4096 < 2 ^ 32
  ∧ roundup 1024 4096 = 4096 ∧ roundup (2 ^ 32 - 5) 4096 = 0.
Proof.
  assert (Hn : 0 ≤ 1024 < 2 ^ 32) by lia.
  assert (Hm : 0 < 4096 < 2 ^ 32) by lia.
  split; [exact Hn|]. split; [exact Hm|].
  pose proof (roundup_least_multiple 1024 4096 Hn Hm) as (Hfit & _).
  destruct (Hfit ltac:(lia)) as (Hmod & Hrange & _).
  split; [|reflexivity].
  pose proof (Z.div_mod (roundup 1024 4096) 4096 ltac:(lia)) as Hd.
  rewrite Hmod in Hd. lia.
Defined.

(** ** The start offset is not checked *)

Section StartOutOfRange.
Import AdcCheckRamp.






End StartOutOfRange.



(** ** Which ramps pass *)

Section RampShape.
Import AdcCheckRamp.

Lemma twelve_bit_uint16 (trace : Trace) :
  trace_shape trace →
  (∀ ch i v, tget trace ch i = Some v → 0 ≤ v < 4096) → trace_uint16 trace.
Proof.
  intros Hsh Hv. apply trace_uint16_pointwise; [done|].
  intros ch i v Hg. specialize (Hv ch i v Hg). lia.
Qed.

(** The mask of [evaluate_ramp], bit by bit *)
Lemma evaluate_ramp_bits (trace : Trace) :
  trace_shape trace → trace_uint16 trace →
  ∃ r, evaluate_ramp trace = Some r ∧ 0 ≤ r
    ∧ (∀ j, 5 ≤ j → Z.testbit r j = false)
    ∧ ∀ c, (c < 5)%nat →
        (Z.testbit r (Z.of_nat c) = true ↔
         ∃ sum i, tget trace (2 * c) 0 = Some sum ∧ (i < 2048)%nat
                  ∧ ramp_broken_at trace c sum i).
Proof.
  intros Hsh Hu.
  destruct (evaluate_channels_spec trace Hsh Hu SHWR_RAW_NCH_MAX 0%nat 0)
    as (r & Heq & Hr0 & Hhi & _ & Hbits); [done|done| |].
  { intros j _. apply Z.bits_0. }
  exists r. split; [exact Heq|]. split; [done|]. split.
  - intros j Hj. apply Hhi. unfold SHWR_RAW_NCH_MAX. lia.
  - intros c Hc. apply Hbits. unfold SHWR_RAW_NCH_MAX. lia.
Qed.

End RampShape.

(** X5.  On 12-bit samples [evaluate_ramp] returns 0 exactly for
    falling ramps: in every channel pair both traces are equal and
    sample [i] is the first sample minus [i], modulo 4096.  A ramp that
    rises by one per sample is reported as failing on all five
    devices. *)
Theorem evaluate_ramp_accepts_falling (trace : Trace) :
  trace_shape trace →
  (∀ ch i v, tget trace ch i = Some v → 0 ≤ v < 4096) →
  (AdcCheckRamp.evaluate_ramp trace = Some 0 ↔
     ∀ c i, (c < 5)%nat → (i < 2048)%nat →
       ∃ a0, tget trace (2 * c) 0 = Some a0
         ∧ tget trace (2 * c) i = Some ((a0 - Z.of_nat i) mod 4096)
         ∧ tget trace (2 * c + 1) i = Some ((a0 - Z.of_nat i) mod 4096))
  ∧ ((∀ c i, (c < 5)%nat → (i < 2048)%nat →
       ∃ a0, tget trace (2 * c) 0 = Some a0
         ∧ tget trace (2 * c) i = Some ((a0 + Z.of_nat i) mod 4096)
         ∧ tget trace (2 * c + 1) i = Some ((a0 + Z.of_nat i) mod 4096)) →
     AdcCheckRamp.evaluate_ramp trace = Some 31).
Proof.
  intros Hsh Hv. pose proof (twelve_bit_uint16 trace Hsh Hv) as Hu.
  destruct (evaluate_ramp_bits trace Hsh Hu) as (r & Heq & Hr0 & Hhi & Hbits).
  rewrite Heq. split; [split|].
  - intros [= ->] c i Hc Hi.
    destruct (tget_shape trace (2 * c) 0) as (a0 & Ha0 & _); try done.
    { unfold SHWR_NCH_MAX, SHWR_RAW_NCH_MAX. lia. }
    { unfold SHWR_NSAMPLES. lia. }
    destruct (tget_shape trace (2 * c) i) as (a & Ha & _); try done.
    { unfold SHWR_NCH_MAX, SHWR_RAW_NCH_MAX. lia. }
    destruct (tget_shape trace (2 * c + 1) i) as (b & Hb & _); try done.
    { unfold SHWR_NCH_MAX, SHWR_RAW_NCH_MAX. lia. }
    pose proof (Hv _ _ _ Ha0). pose proof (Hv _ _ _ Ha). pose proof (Hv _ _ _ Hb).
    exists a0. split; [done|].
    destruct (decide (a = b ∧ (a + Z.of_nat i) mod 4096 = a0)) as [[-> Hr]|Hn].
    + rewrite Ha, Hb. split; f_equal; lia.
    + assert (Z.testbit 0 (Z.of_nat c) = true) as Hbit; [|by rewrite Z.bits_0 in Hbit].
      apply Hbits; [done|]. exists a0, i. split; [done|]. split; [done|].
      exists a, b. split; [done|]. split; [done|]. lia.
  - intros Hfall. f_equal. apply Z.bits_inj'. intros j Hj. rewrite Z.bits_0.
    destruct (decide (5 ≤ j)) as [H5|H5]; [by apply Hhi|].
    destruct (Z.testbit r j) eqn:Hbit; [|done]. exfalso.
    replace j with (Z.of_nat (Z.to_nat j)) in Hbit by lia.
    apply Hbits in Hbit; [|lia].
    destruct Hbit as (sum & i & Hsum & Hi & a & b & Ha & Hb & Hbroken).
    destruct (Hfall (Z.to_nat j) i ltac:(lia) Hi) as (a0 & Ha0 & Ha' & Hb').
    pose proof (Hv _ _ _ Ha0).
    assert (sum = a0) by congruence. assert (a = (a0 - Z.of_nat i) mod 4096) by congruence.
    assert (b = (a0 - Z.of_nat i) mod 4096) by congruence. lia.
  - intros Hrise. f_equal. apply Z.bits_inj'. intros j Hj.
    change 31 with (Z.ones 5).
    destruct (decide (5 ≤ j)) as [H5|H5].
    { rewrite Hhi by done. by rewrite Z.ones_spec_high by lia. }
    rewrite Z.ones_spec_low by lia.
    replace j with (Z.of_nat (Z.to_nat j)) by lia.
    apply Hbits; [lia|].
    destruct (Hrise (Z.to_nat j) 0%nat ltac:(lia) ltac:(lia)) as (a0 & Ha0 & _).
    destruct (Hrise (Z.to_nat j) 1%nat ltac:(lia) ltac:(lia))
      as (a0' & Ha0' & Ha & Hb).
    pose proof (Hv _ _ _ Ha0).
    assert (a0' = a0) as -> by congruence.
    exists a0, 1%nat. split; [done|]. split; [lia|].
    eexists _, _. split; [exact Ha|]. split; [exact Hb|]. right. lia.
Qed.

Lemma falling_traces_12bit ch i v :
  tget falling_traces ch i = Some v → 0 ≤ v < 4096.
Proof.
  unfold tget. intros H. apply bind_Some in H as (row & Hrow & Hv).
  unfold falling_traces in Hrow. rewrite list_lookup_fmap in Hrow.
  apply fmap_Some in Hrow as (c & _ & ->).
  rewrite list_lookup_fmap in Hv. apply fmap_Some in Hv as (k & _ & ->). lia.
Qed.

Lemma falling_traces_fall c i :
  (c < 5)%nat → (i < 2048)%nat →
  ∃ a0, tget falling_traces (2 * c) 0 = Some a0
    ∧ tget falling_traces (2 * c) i = Some ((a0 - Z.of_nat i) mod 4096)
    ∧ tget falling_traces (2 * c + 1) i = Some ((a0 - Z.of_nat i) mod 4096).
Proof.
  intros Hc Hi.
  assert (Hget : ∀ ch k, (ch < 10)%nat → (k < 2048)%nat →
            tget falling_traces ch k
            = Some ((100 * Z.of_nat (ch / 2) - Z.of_nat k) mod 4096)).
  { intros ch k Hch Hk. unfold tget, falling_traces.
    rewrite list_lookup_fmap, lookup_seq_lt by done. cbn [fmap option_fmap option_map mbind option_bind].
    by rewrite list_lookup_fmap, lookup_seq_lt. }
  exists ((100 * Z.of_nat c) mod 4096).
  rewrite !Hget by lia.
  replace (2 * c / 2)%nat with c by lia.
  replace ((2 * c + 1) / 2)%nat with c by lia.
  repeat split; f_equal; lia.
Qed.

Lemma evaluate_ramp_accepts_falling_witness :
  trace_shape falling_traces
  ∧ (∀ ch i v, tget falling_traces ch i = Some v → 0 ≤ v < 4096)
  ∧ AdcCheckRamp.evaluate_ramp falling_traces = Some 0.
Proof.
  split; [exact falling_traces_shape|]. split; [exact falling_traces_12bit|].
  destruct (evaluate_ramp_accepts_falling falling_traces falling_traces_shape
              falling_traces_12bit) as (Hiff & _).
  apply (proj2 Hiff). exact falling_traces_fall.
Defined.
(** ** What the tools leave alone, however they end *)

(** One step of a proof of [keeps]: by the form of the computation.
    Side conditions are instances of the closure properties in the
    context. *)
Ltac keeps_inst := fail.

Ltac keeps_side :=
  first [ assumption
        | keeps_inst
        | intros;
          first [ assumption
                | done
                | match goal with
                  | H : ∀ w e, plain e → _ |- _ => apply H; exact Logic.I
                  end
                | match goal with
                  | H : ∀ c, 33 ≤ c ≤ 38 → _ |- _ =>
                      apply H; vm_compute; split; intros Hx; discriminate Hx
                  end
                | match goal with
                  | H : ∀ w x, _ |- _ => apply H
                  end ] ].

Section Keeps.
Context (I : world → world → Prop) (X : Z → Prop).
Hypothesis I_refl : ∀ w, I w w.
Hypothesis I_trans : ∀ w1 w2 w3, I w1 w2 → I w2 w3 → I w1 w3.

Lemma keeps_ret {A} (a : A) : keeps I X (mret a).
Proof. intros w. apply I_refl. Qed.

Lemma keeps_bind {A B} (m : M A) (k : A → M B) :
  keeps I X m → (∀ a, keeps I X (k a)) → keeps I X (m ≫= k).
Proof.
  intros Hm Hk w. specialize (Hm w). unfold post, mbind, M_bind in *.
  destruct (m w) as [a w1|code w1|w1|w1|]; try done.
  specialize (Hk a w1). unfold post in Hk.
  destruct (k a w1) as [b w2|code w2|w2|w2|]; cbn in *; try done.
  - by eapply I_trans.
  - destruct Hk. split; [done|]. by eapply I_trans.
  - by eapply I_trans.
  - by eapply I_trans.
Qed.

Lemma keeps_gets {A} (f : world → A) : keeps I X (gets f).
Proof. intros w. apply I_refl. Qed.

Lemma keeps_modify f : (∀ w, I w (f w)) → keeps I X (modify f).
Proof. intros Hf w. apply Hf. Qed.

Lemma keeps_exit {A} code : X code → keeps I X (exit code : M A).
Proof. intros Hx w. split; [done|apply I_refl]. Qed.

Lemma keeps_exit_if (c : Prop) `{Decision c} code :
  X code → keeps I X (exit_if c code).
Proof.
  intros Hx. unfold exit_if. case_decide; [by apply keeps_exit|apply keeps_ret].
Qed.

Lemma keeps_abort {A} : keeps I X (abort : M A).
Proof. intros w. apply I_refl. Qed.

Lemma keeps_fault {A} : keeps I X (fault : M A).
Proof. intros w. apply I_refl. Qed.

Lemma keeps_out_of_fuel {A} : keeps I X (out_of_fuel : M A).
Proof. by intros w. Qed.

Lemma keeps_arr_get {A} (a : world → list A) i : keeps I X (arr_get a i).
Proof.
  intros w. unfold post, arr_get. destruct (a w !! i); apply I_refl.
Qed.

Lemma keeps_window p : keeps I X (window p).
Proof.
  intros w. unfold post, window. destruct p as [r|]; [|apply I_refl].
  destruct (list_find _ _) as [[? ?]|]; apply I_refl.
Qed.

Lemma keeps_for_loop n i body :
  (∀ j, keeps I X (body j)) → keeps I X (for_loop n i body).
Proof.
  intros Hb. revert i. induction n as [|n IH]; intros i; cbn [for_loop].
  - apply keeps_ret.
  - apply keeps_bind; [apply Hb|]. intros _. apply IH.
Qed.

(** The functions any of whose events is [plain] *)
Hypothesis I_log : ∀ w e, plain e → I w (set_log (log w ++ [e]) w).

Lemma keeps_emit e : plain e → keeps I X (emit e).
Proof. intros He w. by apply I_log. Qed.

Lemma keeps_sys E c : (∀ r, plain (EvSys c r)) → keeps I X (sys E c).
Proof. intros Hc w. apply I_log, Hc. Qed.

End Keeps.

(** Functions whose [keeps] lemma is at hand; extended below *)
Ltac keeps_known := fail.

Ltac keeps_step :=
  first
    [ keeps_known
    | lazymatch goal with
      | |- keeps _ _ (mret _) => apply keeps_ret; keeps_side
      | |- keeps _ _ (_ ≫= _) => apply keeps_bind; [keeps_side..| |intros ?]
      | |- keeps _ _ (gets _) => apply keeps_gets; keeps_side
      | |- keeps _ _ (modify _) => apply keeps_modify; keeps_side
      | |- keeps _ _ (emit _) => apply keeps_emit; keeps_side
      | |- keeps _ _ (sys _ _) => apply keeps_sys; keeps_side
      | |- keeps _ _ (exit _) => apply keeps_exit; keeps_side
      | |- keeps _ _ (exit_if _ _) => apply keeps_exit_if; keeps_side
      | |- keeps _ _ abort => apply keeps_abort; keeps_side
      | |- keeps _ _ fault => apply keeps_fault; keeps_side
      | |- keeps _ _ out_of_fuel => apply keeps_out_of_fuel
      | |- keeps _ _ (arr_get _ _) => apply keeps_arr_get; keeps_side
      | |- keeps _ _ (window _) => apply keeps_window; keeps_side
      | |- keeps _ _ (for_loop _ _ _) =>
          apply keeps_for_loop; [keeps_side..|intros ?]
      | |- keeps _ _ (match ?x with _ => _ end) => destruct x
      end ].

Section KeepsTools.
Context `{HwDefs} (E : Env).
Context (I : world → world → Prop) (X : Z → Prop).
Hypothesis I_refl : ∀ w, I w w.
Hypothesis I_trans : ∀ w1 w2 w3, I w1 w2 → I w2 w3 → I w1 w3.
Hypothesis I_log : ∀ w e, plain e → I w (set_log (log w ++ [e]) w).
Hypothesis I_sh : ∀ w x, I w (set_sh x w).
Hypothesis I_saved_trigger : ∀ w x, I w (set_saved_trigger x w).
Hypothesis I_databuf : ∀ w x, I w (set_databuf x w).
Hypothesis I_traces : ∀ w x, I w (set_traces x w).
Hypothesis I_adc_trace_fn : ∀ w x, I w (set_adc_trace_fn x w).
Hypothesis I_adcfd : ∀ w x, I w (set_adcfd x w).
Hypothesis I_failedadcfd : ∀ w x, I w (set_failedadcfd x w).
Hypothesis I_workbuf : ∀ w x, I w (set_workbuf x w).
Hypothesis I_id_counter : ∀ w x, I w (set_gl (set_id_counter x) w).
Hypothesis I_atexit : ∀ w h, I w (set_atexit_list (h :: atexit_list w) w).

Lemma keeps_reg_read p addr : keeps I X (reg_read E p addr).
Proof. unfold reg_read. repeat keeps_step. Qed.

Lemma keeps_reg_write p addr v : keeps I X (reg_write p addr v).
Proof. unfold reg_write. repeat keeps_step. Qed.

Lemma keeps_read_words p offset n : keeps I X (read_words E p offset n).
Proof. unfold read_words. repeat keeps_step. Qed.

Ltac keeps_known ::=
  lazymatch goal with
  | |- keeps _ _ (reg_read _ _ _) => apply keeps_reg_read; keeps_side
  | |- keeps _ _ (reg_write _ _ _) => apply keeps_reg_write; keeps_side
  | |- keeps _ _ (read_words _ _ _ _) => apply keeps_read_words; keeps_side
  end.

Lemma keeps_wait_trigger fuel aux sig :
  keeps I X (ReadEvt.wait_trigger E fuel aux sig).
Proof.
  revert sig. induction fuel as [|fuel IH]; intros sig;
    cbn [ReadEvt.wait_trigger]; repeat keeps_step.
  apply IH.
Qed.

(** *** The self-test tool *)

Section Adc.
Import AdcCheckRamp.
Hypothesis X_write : X EXIT_SPIWRITE.
Hypothesis X_noper : X EXIT_NOPER.
Hypothesis X_spi : ∀ c, 33 ≤ c ≤ 38 → X c.

Lemma keeps_openspidev adc : keeps I X (openspidev E adc).
Proof. unfold openspidev. repeat keeps_step. Qed.

Lemma keeps_spi_init fd : keeps I X (spi_init E fd).
Proof. unfold spi_init. repeat keeps_step. Qed.

Lemma keeps_adc_write fd address cmd : keeps I X (adc_write E fd address cmd).
Proof. unfold adc_write. repeat keeps_step. Qed.

Ltac keeps_known ::=
  lazymatch goal with
  | |- keeps _ _ (reg_read _ _ _) => apply keeps_reg_read; keeps_side
  | |- keeps _ _ (reg_write _ _ _) => apply keeps_reg_write; keeps_side
  | |- keeps _ _ (read_words _ _ _ _) => apply keeps_read_words; keeps_side
  | |- keeps _ _ (ReadEvt.wait_trigger _ _ _ _) =>
      apply keeps_wait_trigger; keeps_side
  | |- keeps _ _ (openspidev _ _) => apply keeps_openspidev; keeps_side
  | |- keeps _ _ (spi_init _ _) => apply keeps_spi_init; keeps_side
  | |- keeps _ _ (adc_write _ _ _ _) => apply keeps_adc_write; keeps_side
  end.

Lemma keeps_adc_settestmode testmode : keeps I X (adc_settestmode E testmode).
Proof. unfold adc_settestmode. repeat keeps_step. Qed.

Lemma keeps_adc_normal : keeps I X (adc_normal E).
Proof.
  unfold adc_normal. apply keeps_bind; [done|apply keeps_adc_settestmode|].
  intros _. repeat keeps_step.
Qed.

Lemma keeps_adc_copy_slot offset : keeps I X (copy_slot E offset).
Proof. unfold copy_slot. repeat keeps_step. Qed.

Ltac keeps_known ::=
  lazymatch goal with
  | |- keeps _ _ (reg_read _ _ _) => apply keeps_reg_read; keeps_side
  | |- keeps _ _ (reg_write _ _ _) => apply keeps_reg_write; keeps_side
  | |- keeps _ _ (read_words _ _ _ _) => apply keeps_read_words; keeps_side
  | |- keeps _ _ (ReadEvt.wait_trigger _ _ _ _) =>
      apply keeps_wait_trigger; keeps_side
  | |- keeps _ _ (copy_slot _ _) => apply keeps_adc_copy_slot; keeps_side
  end.

Lemma keeps_adc_read_evt_read fuel : keeps I X (read_evt_read E fuel).
Proof. unfold read_evt_read. cbv zeta. repeat keeps_step. Qed.

Lemma keeps_restore_trigger : keeps I X restore_trigger.
Proof. unfold restore_trigger. repeat keeps_step. Qed.

Lemma keeps_LED_trigger : keeps I X (LED_trigger E).
Proof. unfold LED_trigger. repeat keeps_step. Qed.

Lemma keeps_convert_databuf_globals : keeps I X convert_databuf_globals.
Proof.
  intros w. unfold post, convert_databuf_globals.
  destruct (convert_databuf _ _ _); [apply I_traces|apply I_refl].
Qed.

Lemma keeps_evaluate_ramp_globals : keeps I X evaluate_ramp_globals.
Proof.
  intros w. unfold post, evaluate_ramp_globals.
  destruct (evaluate_ramp _); apply I_refl.
Qed.

Lemma keeps_parse_options fuel verbose : keeps I X (parse_options E fuel verbose).
Proof.
  revert verbose. induction fuel as [|fuel IH]; intros verbose;
    cbn [parse_options]; repeat keeps_step; apply IH.
Qed.

Lemma keeps_atexit h : keeps I X (atexit h).
Proof. intros w. apply I_atexit. Qed.

Ltac keeps_known ::=
  lazymatch goal with
  | |- keeps _ _ (reg_read _ _ _) => apply keeps_reg_read; keeps_side
  | |- keeps _ _ (reg_write _ _ _) => apply keeps_reg_write; keeps_side
  | |- keeps _ _ (atexit _) => apply keeps_atexit; keeps_side
  | |- keeps _ _ (adc_settestmode _ _) =>
      apply keeps_adc_settestmode; keeps_side
  | |- keeps _ _ (LED_trigger _) => apply keeps_LED_trigger; keeps_side
  | |- keeps _ _ (read_evt_read _ _) =>
      apply keeps_adc_read_evt_read; keeps_side
  | |- keeps _ _ convert_databuf_globals =>
      apply keeps_convert_databuf_globals; keeps_side
  | |- keeps _ _ evaluate_ramp_globals =>
      apply keeps_evaluate_ramp_globals; keeps_side
  end.

Lemma keeps_main_after_init fuel : keeps I X (main_after_init E fuel).
Proof. unfold main_after_init. repeat keeps_step. Qed.

End Adc.

(** *** The streaming tool *)

Section Net.
Import Netscope.
Hypothesis X_net : X 1.

Lemma keeps_opensock : keeps I X (opensock E).
Proof. unfold opensock. repeat keeps_step. Qed.

Lemma keeps_opencontrolsock : keeps I X (opencontrolsock E).
Proof. unfold opencontrolsock. repeat keeps_step. Qed.

Lemma keeps_send_fragments fuel sock id start end_ :
  keeps I X (send_fragments E fuel sock id start end_).
Proof.
  revert start end_. induction fuel as [|fuel IH]; intros start end_;
    cbn [send_fragments]; repeat keeps_step; apply IH.
Qed.

Lemma keeps_senddata sock : keeps I X (senddata E sock).
Proof.
  unfold senddata. repeat keeps_step. apply keeps_send_fragments.
Qed.

Lemma keeps_controlrecv sock : keeps I X (controlrecv E sock).
Proof. unfold controlrecv. repeat keeps_step. Qed.

Lemma keeps_net_copy_slot offset : keeps I X (copy_slot E offset).
Proof. unfold copy_slot. repeat keeps_step. Qed.

Ltac keeps_known ::=
  lazymatch goal with
  | |- keeps _ _ (reg_read _ _ _) => apply keeps_reg_read; keeps_side
  | |- keeps _ _ (reg_write _ _ _) => apply keeps_reg_write; keeps_side
  | |- keeps _ _ (read_words _ _ _ _) => apply keeps_read_words; keeps_side
  | |- keeps _ _ (ReadEvt.wait_trigger _ _ _ _) =>
      apply keeps_wait_trigger; keeps_side
  | |- keeps _ _ (copy_slot _ _) => apply keeps_net_copy_slot; keeps_side
  end.

Lemma keeps_net_read_evt_read fuel : keeps I X (read_evt_read E fuel).
Proof. unfold read_evt_read. cbv zeta. repeat keeps_step. Qed.

Lemma keeps_acquire_and_send fuel sock : keeps I X (acquire_and_send E fuel sock).
Proof.
  unfold acquire_and_send.
  apply keeps_bind; [done|apply keeps_net_read_evt_read|]. intros _.
  apply keeps_senddata.
Qed.

Lemma keeps_acquisition_loop fuel datasock controlsock :
  keeps I X (acquisition_loop E fuel datasock controlsock).
Proof.
  induction fuel as [|fuel IH]; cbn [acquisition_loop]; [keeps_step|].
  apply keeps_bind; [done|apply keeps_controlrecv|]. intros msglen.
  case_decide; [|keeps_step].
  apply keeps_bind; [done|apply keeps_acquire_and_send|]. intros _. apply IH.
Qed.

End Net.

End KeepsTools.

(** *** Start-up, which maps the windows *)

Section KeepsInit.
Context `{HwDefs} (E : Env).
Context (I : world → world → Prop) (X : Z → Prop).
Hypothesis I_refl : ∀ w, I w w.
Hypothesis I_trans : ∀ w1 w2 w3, I w1 w2 → I w2 w3 → I w1 w3.
Hypothesis I_log : ∀ w e, plain e → I w (set_log (log w ++ [e]) w).
Hypothesis I_mmap :
  ∀ w r size ret, I w (set_log (log w ++ [EvSys (c_mmap r size) ret]) w).
Hypothesis I_mapped : ∀ w m, I w (set_mapped (m :: mapped w) w).
Hypothesis I_gl : ∀ w f, I w (set_gl f w).

Lemma keeps_mmap r size : keeps I X (mmap E r size).
Proof.
  unfold mmap. apply keeps_bind; [done| |].
  - intros w. apply I_mmap.
  - intros ret. case_decide; [apply keeps_ret; done|].
    apply keeps_bind; [done| |intros _; apply keeps_ret; done].
    apply keeps_modify. intros w. apply I_mapped.
Qed.

Lemma keeps_read_evt_init c :
  X (ReadEvt.EXIT_EVTDEVMEM c) → X (ReadEvt.EXIT_EVTMAPTRIG c) →
  X (ReadEvt.EXIT_EVTMAPTIME c) → X (ReadEvt.EXIT_EVTMAPTEST c) →
  X (ReadEvt.EXIT_EVTMAPSHWR c) → X (ReadEvt.EXIT_EVTSIGNAL c) →
  X (ReadEvt.EXIT_EVTTIMER c) → X (ReadEvt.EXIT_EVTSETTIME c) →
  keeps I X (ReadEvt.read_evt_init E c).
Proof.
  intros ????????. unfold ReadEvt.read_evt_init. cbv zeta.
  repeat first [ apply keeps_mmap | keeps_step ].
Qed.

End KeepsInit.

(** The lemmas above, by the function at the head of the computation *)
Ltac keeps_known ::=
  lazymatch goal with
  | |- keeps _ _ (reg_read _ _ _) => apply keeps_reg_read; keeps_side
  | |- keeps _ _ (reg_write _ _ _) => apply keeps_reg_write; keeps_side
  | |- keeps _ _ (read_words _ _ _ _) => apply keeps_read_words; keeps_side
  | |- keeps _ _ (atexit _) => apply keeps_atexit; keeps_side
  | |- keeps _ _ (ReadEvt.wait_trigger _ _ _ _) =>
      apply keeps_wait_trigger; keeps_side
  | |- keeps _ _ (AdcCheckRamp.openspidev _ _) =>
      apply keeps_openspidev; keeps_side
  | |- keeps _ _ (AdcCheckRamp.spi_init _ _) => apply keeps_spi_init; keeps_side
  | |- keeps _ _ (AdcCheckRamp.adc_write _ _ _ _) =>
      apply keeps_adc_write; keeps_side
  | |- keeps _ _ (AdcCheckRamp.adc_settestmode _ _) =>
      apply keeps_adc_settestmode; keeps_side
  | |- keeps _ _ (AdcCheckRamp.adc_normal _) =>
      apply keeps_adc_normal; keeps_side
  | |- keeps _ _ AdcCheckRamp.restore_trigger =>
      apply keeps_restore_trigger; keeps_side
  | |- keeps _ _ (AdcCheckRamp.LED_trigger _) =>
      apply keeps_LED_trigger; keeps_side
  | |- keeps _ _ (AdcCheckRamp.copy_slot _ _) =>
      apply keeps_adc_copy_slot; keeps_side
  | |- keeps _ _ (AdcCheckRamp.read_evt_read _ _) =>
      apply keeps_adc_read_evt_read; keeps_side
  | |- keeps _ _ AdcCheckRamp.convert_databuf_globals =>
      apply keeps_convert_databuf_globals; keeps_side
  | |- keeps _ _ AdcCheckRamp.evaluate_ramp_globals =>
      apply keeps_evaluate_ramp_globals; keeps_side
  | |- keeps _ _ (AdcCheckRamp.parse_options _ _ _) =>
      apply keeps_parse_options; keeps_side
  | |- keeps _ _ (Netscope.senddata _ _) => apply keeps_senddata; keeps_side
  | |- keeps _ _ (Netscope.read_evt_read _ _) =>
      apply keeps_net_read_evt_read; keeps_side
  end.
(** ** Ends of the streaming tool *)

Section ReleasesNothing.

Lemma releases_nothing_refl w : releases_nothing w w.
Proof. apply extends_with_refl. Qed.

Lemma releases_nothing_trans w1 w2 w3 :
  releases_nothing w1 w2 → releases_nothing w2 w3 → releases_nothing w1 w3.
Proof. apply extends_with_trans. Qed.

Lemma releases_nothing_same_log w w' :
  log w' = log w → releases_nothing w w'.
Proof. intros Hl. exists []. by rewrite Hl, app_nil_r. Qed.

Lemma releases_nothing_log w e :
  ¬ is_munmap e → releases_nothing w (set_log (log w ++ [e]) w).
Proof. intros He. by apply extends_with_snoc. Qed.

Lemma plain_not_munmap e : plain e → ¬ is_munmap e.
Proof. intros Hp (r & size & ret & ->). exact Hp. Qed.

End ReleasesNothing.

Section AfterKeeps.
Context (I : world → world → Prop) (X : Z → Prop).
Hypothesis I_trans : ∀ w1 w2 w3, I w1 w2 → I w2 w3 → I w1 w3.

(** A computation that keeps [I], then one for which the ends by [exit]
    are known *)
Lemma post_after_keeps {A B} (m : M A) (k : A → M B) w0 w
    (Q : B → world → Prop) :
  keeps I X m → I w0 w →
  (∀ a w1, I w0 w1 → post (k a) w1 Q (exits_within I X w0)) →
  post (m ≫= k) w Q (exits_within I X w0).
Proof.
  intros Hm Hw Hk. apply post_bind. specialize (Hm w).
  eapply post_mono; [exact Hm| |].
  - intros a w1 Hw1. apply Hk. by eapply I_trans.
  - intros [code w1|w1|w1|]; cbn; try done.
    intros [Hx Hw1]. split; [done|]. by eapply I_trans.
Qed.

Lemma post_no_exit {A} (m : M A) w w0 (Q : A → world → Prop) :
  post m w Q not_exit → post m w Q (exits_within I X w0).
Proof.
  intros Hm. eapply post_mono; [exact Hm|done|]. by intros [| | |].
Qed.

End AfterKeeps.

Section NetExits.
Context `{HwDefs} (E : Env).

Ltac rn_side :=
  first [ exact releases_nothing_refl
        | exact releases_nothing_trans
        | done
        | intros; apply releases_nothing_same_log; reflexivity
        | intros; apply releases_nothing_log;
          first [ by apply plain_not_munmap | by intros (? & ? & ? & ?) ] ].

Lemma net_tail_no_exit controlsock datasock w :
  post (Netscope.read_evt_end E;; sys E (c_close controlsock);;
        sys E (c_close datasock);; mret 0) w (λ code _, code = 0) not_exit.
Proof.
  apply post_bind.
  eapply post_mono; [apply (read_evt_end_no_exit E)| |done].
  intros _ w1 _. by apply post_bind, post_sys, post_bind, post_sys, post_ret.
Qed.

Lemma net_main_exits fuel w :
  post (Netscope.main E fuel) w (λ code _, code = 0)
    (exits_within releases_nothing (λ code, code = 1) w).
Proof.
  unfold Netscope.main.
  apply post_after_keeps;
    [rn_side|apply keeps_opensock; rn_side|rn_side|]. intros datasock w1 Hw1.
  apply post_after_keeps;
    [rn_side|apply keeps_opencontrolsock; rn_side|done|].
  intros controlsock w2 Hw2.
  apply post_after_keeps;
    [rn_side|apply keeps_read_evt_init; rn_side|done|]. intros _ w3 Hw3.
  apply post_after_keeps;
    [rn_side|apply keeps_reg_write; rn_side|done|]. intros _ w4 Hw4.
  apply post_after_keeps;
    [rn_side|apply keeps_reg_read; rn_side|done|]. intros v w5 Hw5.
  apply post_after_keeps;
    [rn_side|apply keeps_reg_write; rn_side|done|]. intros _ w6 Hw6.
  apply post_after_keeps;
    [rn_side|apply keeps_acquisition_loop; rn_side|done|]. intros _ w7 Hw7.
  apply post_no_exit, net_tail_no_exit.
Qed.

End NetExits.

(** X6.  The streaming tool registers nothing with [atexit]: when
    [main] returns, the status is 0; every [exit] it makes, at start-up
    or in [senddata], has status 1 and comes before [read_evt_end], so
    that no window mapped until then has been unmapped. *)
Theorem netscope_exit_paths `{HwDefs} (E : Env) (fuel : nat) (w : world) :
  (∀ code w', Netscope.main E fuel w = Ret code w' → code = 0)
  ∧ (∀ code w', Netscope.main E fuel w = Exit code w' →
       code = 1 ∧ Forall (λ e, ¬ is_munmap e) (events_since w w')
       ∧ Netscope.run_process (Netscope.main E fuel) w = Exit 1 w').
Proof.
  pose proof (net_main_exits E fuel w) as Hp. split.
  - intros code w' Hret. exact (post_ret_inv _ _ _ _ _ _ Hp Hret).
  - intros code w' Hex.
    pose proof (post_exit_inv _ _ _ _ _ _ Hp Hex) as [-> Hn].
    split; [done|]. split; [by apply extends_with_events|].
    unfold Netscope.run_process. by rewrite Hex.
Qed.
(** ** Mappings at the end of the self-test *)

Lemma post_conj {A} (m : M A) w (Q1 Q2 : A → world → Prop)
    (R1 R2 : halt → Prop) :
  post m w Q1 R1 → post m w Q2 R2 →
  post m w (λ a w', Q1 a w' ∧ Q2 a w') (λ h, R1 h ∧ R2 h).
Proof. unfold post. by destruct (m w). Qed.

Section AfterKeepsTo.
Context (I : world → world → Prop) (X : Z → Prop).
Hypothesis I_trans : ∀ w1 w2 w3, I w1 w2 → I w2 w3 → I w1 w3.

Lemma post_after_keeps_to {A B} (m : M A) (k : A → M B) w0 w
    (Q : B → world → Prop) (G : Z → world → Prop) :
  keeps I X m → I w0 w →
  (∀ code w', X code → I w0 w' → G code w') →
  (∀ a w1, I w0 w1 → post (k a) w1 Q (exit_ends G)) →
  post (m ≫= k) w Q (exit_ends G).
Proof.
  intros Hm Hw Hg Hk. apply post_bind. specialize (Hm w).
  eapply post_mono; [exact Hm| |].
  - intros a w1 Hw1. apply Hk. by eapply I_trans.
  - intros [code w1|w1|w1|]; cbn; try done.
    intros [Hx Hw1]. apply Hg; [done|]. by eapply I_trans.
Qed.

End AfterKeepsTo.

Section Cleanup.
Import AdcCheckRamp.
Context `{HwDefs} (E : Env).

Lemma same_windows_refl w : same_windows w w.
Proof. by unfold same_windows. Qed.

Lemma same_windows_trans w1 w2 w3 :
  same_windows w1 w2 → same_windows w2 w3 → same_windows w1 w3.
Proof.
  intros (? & ? & ? & ? & ? & ?) (? & ? & ? & ? & ? & ?).
  unfold same_windows. split_and!; try congruence. by etrans.
Qed.

Lemma same_windows_referenced w w' :
  same_windows w w' → all_referenced w → all_referenced w'.
Proof.
  intros (Hm & Hr & Ht & Hc & Hs & _) Hall m Hin. rewrite Hm in Hin.
  specialize (Hall m Hin). unfold referenced in *.
  by rewrite Hr, Ht, Hc, Hs.
Qed.

Ltac sw_side :=
  first [ exact same_windows_refl
        | exact same_windows_trans
        | done
        | intros; unfold same_windows; split_and!;
          first [ reflexivity | apply suffix_cons_r; reflexivity ] ].

Lemma not_started_refl w : not_started w w.
Proof. by unfold not_started. Qed.

Lemma not_started_trans w1 w2 w3 :
  not_started w1 w2 → not_started w2 w3 → not_started w1 w3.
Proof.
  intros (? & ? & ?) (? & ? & ?). unfold not_started. split_and!; congruence.
Qed.

Ltac ns_side :=
  first [ exact not_started_refl
        | exact not_started_trans
        | done
        | intros; unfold not_started; split_and!; reflexivity
        | apply list_elem_of_In; vm_compute;
          repeat first [left; reflexivity | right]
        | intros c Hc; apply list_elem_of_In; cbn; lia ].

Ltac keeps_inst ::= first [ sw_side | ns_side ].

(** *** [read_evt_end] *)

Lemma released_unmap (p : option region) size w gone w1 :
  released w gone w1 →
  post (if p is Some r then munmap E r size else mret tt) w1
    (λ _ w2, released w (λ r, gone r ∨ p = Some r) w2) not_exit.
Proof.
  intros (Hg & Ha & Hm). destruct p as [r|].
  - apply post_munmap. intros l. split; [done|]. split; [done|].
    wsimpl. intros m Hin. apply list_elem_of_filter in Hin as [Hne Hin].
    destruct (Hm m Hin) as [Hin0 Hgone]. split; [done|].
    intros [Hx|[= Heq]]; [by apply Hgone|by apply Hne].
  - apply post_ret. split; [done|]. split; [done|].
    intros m Hin. destruct (Hm m Hin) as [Hin0 Hgone]. split; [done|].
    by intros [Hx|Hx].
Qed.

Lemma released_mono w (g1 g2 : region → Prop) w' :
  (∀ r, g2 r → g1 r) → released w g1 w' → released w g2 w'.
Proof.
  intros Hg (? & ? & Hm). split; [done|]. split; [done|].
  intros m Hin. destruct (Hm m Hin) as [? Hn]. split; [done|].
  intros Hx. apply Hn, Hg, Hx.
Qed.

Lemma read_evt_end_unmaps w :
  all_referenced w →
  post (read_evt_end E) w
    (λ _ w', mapped w' = [] ∧ gl w' = gl w ∧ atexit_list w' = atexit_list w)
    not_exit.
Proof.
  intros Hall. unfold read_evt_end, ReadEvt.read_evt_end.
  assert (H0 : released w (λ _, False) w).
  { split; [done|]. split; [done|]. intros m Hin. split; [done|]. by intros []. }
  apply post_bind, post_gets, post_bind, post_gets.
  apply post_bind. eapply post_mono; [by apply released_unmap| |done].
  intros [] w1 H1. cbv beta.
  apply post_bind, post_gets.
  apply post_bind. eapply post_mono; [by apply released_unmap| |done].
  intros [] w2 H2. cbv beta.
  apply post_bind, post_gets.
  apply post_bind. eapply post_mono; [by apply released_unmap| |done].
  intros [] w3 H3. cbv beta.
  pose proof H1 as (Hg1 & _). pose proof H2 as (Hg2 & _).
  unfold compose in H3. rewrite Hg1, Hg2 in H3. unfold compose in H2.
  rewrite Hg1 in H2. clear H0 H1 H2 Hg1 Hg2.
  set (J := λ (j : nat) w', released w
     (λ r, regs (gl w) = Some r ∨ tt_regs (gl w) = Some r
           ∨ tstctl_regs (gl w) = Some r
           ∨ ∃ i, (i < j)%nat ∧ shwr_pt (gl w) !! i = Some (Some r)) w').
  eapply post_mono; [apply (post_for_loop J)| |intros h Hh; exact Hh].
  - intros j w4 Hj Hw4. apply post_bind, post_arr_get; [|done].
    intros p Hp. apply post_bind, post_gets.
    eapply post_mono; [by apply released_unmap| |done].
    intros [] w5 H5. cbv beta. unfold J. eapply released_mono; [|exact H5].
    cbv beta. intros r [Hr|[Hr|[Hr|(i & Hi & Hr)]]]; [tauto..|].
    destruct (decide (i = j)) as [->|Hne].
    + right. destruct Hw4 as (Hg4 & _). unfold compose in Hp.
      rewrite Hg4 in Hp. congruence.
    + left. right. right. right. exists i. split; [lia|done].
  - unfold J. eapply released_mono; [|exact H3]. cbv beta.
    intros r [Hr|[Hr|[Hr|(i & Hi & _)]]]; [tauto..|lia].
  - intros [] w4 (Hg & Ha & Hm). split; [|done].
    destruct (mapped w4) as [|m l] eqn:Hl; [done|]. exfalso.
    destruct (Hm m) as [Hin Hgone]; [apply list_elem_of_here|].
    apply Hgone. destruct (Hall m Hin) as [Hr|[Hr|[Hr|(i & Hi & Hr)]]];
      [tauto..|].
    right. right. right. exists i. split; [|done].
    unfold SHWR_RAW_NCH_MAX in *. simpl. lia.
Qed.

(** *** The functions registered with [atexit] *)

Lemma handler_ends h w :
  all_referenced w →
  post (run_handler E h) w
    (λ _ w', all_referenced w'
             ∧ (h = h_read_evt_end ∨ mapped w = [] → mapped w' = []))
    (exit_ends (λ code w',
       code = EXIT_SPIWRITE ∧ all_referenced w'
       ∧ (h = h_read_evt_end ∨ mapped w = [] → mapped w' = []))).
Proof.
  intros Hall.
  assert (Hsw : ∀ w', h ≠ h_read_evt_end → same_windows w w' →
            all_referenced w'
            ∧ (h = h_read_evt_end ∨ mapped w = [] → mapped w' = [])).
  { intros w' Hne Hs. split; [by eapply same_windows_referenced|].
    destruct Hs as (Hm & _). rewrite Hm. by intros [?|?]. }
  assert (Hk : h ≠ h_read_evt_end →
            keeps same_windows (λ code, code = EXIT_SPIWRITE) (run_handler E h)).
  { intros Hne. destruct h; [done| |]; cbn [run_handler].
    - apply keeps_restore_trigger; sw_side.
    - apply keeps_adc_normal; sw_side. }
  assert (Hcase : h = h_read_evt_end ∨ h ≠ h_read_evt_end)
    by (destruct h; [by left|by right..]).
  destruct Hcase as [->|Hne].
  - cbn [run_handler].
    eapply post_mono; [by apply read_evt_end_unmaps| |by intros [| | |]].
    intros [] w' (Hnil & Hg & _). split; [|done].
    intros m Hin. rewrite Hnil in Hin. by apply elem_of_nil in Hin.
  - eapply post_mono; [apply (Hk Hne)| |].
    + intros ? w' Hs. by apply Hsw.
    + intros [code w'|w'|w'|]; cbn; try done.
      intros [-> Hs]. split; [done|]. by apply Hsw.
Qed.

Lemma run_atexit_unmaps hs :
  ∀ code w status wf,
    run_atexit E hs code w = Exit status wf →
    all_referenced w →
    (status = code ∨ status = EXIT_SPIWRITE)
    ∧ (h_read_evt_end ∈ hs ∨ mapped w = [] → mapped wf = []).
Proof.
  induction hs as [|h hs IH]; intros code w status wf Hrun Hall.
  - cbn in Hrun. injection Hrun as -> ->. split; [by left|].
    intros [Hin|?]; [by apply elem_of_nil in Hin|done].
  - cbn [run_atexit] in Hrun.
    pose proof (handler_ends h (set_atexit_list hs w) Hall) as Hh.
    unfold post in Hh.
    destruct (run_handler E h (set_atexit_list hs w)) as [[] w1|c w1|w1|w1|];
      try done.
    + destruct Hh as (Hall1 & Hnil).
      destruct (IH code w1 status wf Hrun Hall1) as (Hst & Hm).
      split; [done|]. intros Hor. apply Hm.
      destruct Hor as [Hin|Hw]; [|right; apply Hnil; by right].
      apply elem_of_cons in Hin as [<-|Hin]; [right; apply Hnil; by left|by left].
    + cbn in Hh. destruct Hh as (-> & Hall1 & Hnil).
      destruct (IH _ w1 status wf Hrun Hall1) as (Hst & Hm).
      split; [right; by destruct Hst|]. intros Hor. apply Hm.
      destruct Hor as [Hin|Hw]; [|right; apply Hnil; by right].
      apply elem_of_cons in Hin as [<-|Hin]; [right; apply Hnil; by left|by left].
Qed.

(** *** [main] *)

Lemma main_after_init_evaluates fuel w :
  post (main_after_init E fuel) w
    (λ code w', evaluate_ramp (traces w') = Some code) (λ _, True).
Proof.
  unfold main_after_init.
  repeat (first [apply evaluate_ramp_globals_post | apply post_bind_any; intros]).
Qed.

Lemma main_after_init_ends fuel w :
  all_referenced w →
  post (main_after_init E fuel) w
    (λ code w', evaluate_ramp (traces w') = Some code
                ∧ h_read_evt_end ∈ atexit_list w' ∧ all_referenced w')
    (exit_ends (λ code w',
       code = EXIT_SPIWRITE
       ∧ h_read_evt_end ∈ atexit_list w' ∧ all_referenced w')).
Proof.
  intros Hall.
  assert (Hk : post (main_after_init E fuel) w
                 (λ _ w', h_read_evt_end ∈ atexit_list w' ∧ all_referenced w')
                 (exit_ends (λ code w',
                    code = EXIT_SPIWRITE
                    ∧ h_read_evt_end ∈ atexit_list w' ∧ all_referenced w'))).
  { unfold main_after_init. apply post_bind, post_modify.
    set (w1 := set_atexit_list _ w).
    assert (Hend : ∀ w', same_windows w1 w' →
              h_read_evt_end ∈ atexit_list w' ∧ all_referenced w').
    { intros w' Hs. split; [|by eapply same_windows_referenced].
      destruct Hs as (_ & _ & _ & _ & _ & [k ->]).
      apply elem_of_app. right. apply list_elem_of_here. }
    lazymatch goal with
    | |- post ?m _ _ _ =>
        assert (Hm : keeps same_windows (λ code, code = EXIT_SPIWRITE) m)
    end.
    { repeat keeps_step. }
    eapply post_mono; [apply Hm| |].
    - intros ? w' Hs. by apply Hend.
    - intros [code w'|w'|w'|]; cbn; try done.
      intros [-> Hs]. split; [done|]. by apply Hend. }
  pose proof (post_conj _ _ _ _ _ _ (main_after_init_evaluates fuel w) Hk) as Hc.
  eapply post_mono; [exact Hc| |].
  - intros code w' (? & ? & ?). done.
  - intros h [_ Hh]. exact Hh.
Qed.

(** *** [read_evt_init] *)

Lemma read_evt_init_ends w :
  mapped w = [] → length (shwr_pt (gl w)) = SHWR_RAW_NCH_MAX →
  post (read_evt_init E) w
    (λ _ w', all_referenced w' ∧ atexit_list w' = atexit_list w)
    (exit_ends (λ code w',
       atexit_list w' = atexit_list w ∧ code ∈ failure_statuses
       ∧ (mapped w' = [] ↔ ¬ (62 ≤ code ≤ 67)))).
Proof.
  intros Hmap Hlen. unfold read_evt_init, ReadEvt.read_evt_init.
  assert (Hcodes : ∀ code, In code [60; 61; 62; 63; 64; 65; 66; 67] →
            code ∈ failure_statuses).
  { intros code Hc. apply list_elem_of_In. unfold failure_statuses.
    apply in_or_app. by right. }
  assert (Hearly : ∀ code w', atexit_list w' = atexit_list w →
            mapped w' = [] → code = 60 ∨ code = 61 →
            exit_ends (λ code w',
              atexit_list w' = atexit_list w ∧ code ∈ failure_statuses
              ∧ (mapped w' = [] ↔ ¬ (62 ≤ code ≤ 67))) (HExit code w')).
  { intros code w' Ha Hm Hc. cbn. split; [done|]. split.
    - apply Hcodes. cbn. lia.
    - split; [lia|done]. }
  assert (Hlate : ∀ code w', atexit_list w' = atexit_list w →
            mapped w' ≠ [] → 62 ≤ code ≤ 67 →
            exit_ends (λ code w',
              atexit_list w' = atexit_list w ∧ code ∈ failure_statuses
              ∧ (mapped w' = [] ↔ ¬ (62 ≤ code ≤ 67))) (HExit code w')).
  { intros code w' Ha Hm Hc. cbn. split; [done|]. split.
    - apply Hcodes. cbn. lia.
    - split; [done|lia]. }
  apply post_bind, post_sys, post_bind, post_exit_if.
  { intros _. apply Hearly; [done|done|by left]. }
  intros _. apply post_bind, post_modify.
  apply post_bind, post_mmap; intros _; apply post_bind, post_exit_if; try done.
  { intros _. apply Hearly; [done|done|by right]. }
  intros _. apply post_bind, post_modify.
  apply post_bind, post_mmap; intros _; apply post_bind, post_exit_if; try done.
  { intros _. apply Hlate; [done|done|cbn; lia]. }
  intros _. apply post_bind, post_modify.
  apply post_bind, post_mmap; intros _; apply post_bind, post_exit_if; try done.
  { intros _. apply Hlate; [done|done|cbn; lia]. }
  intros _. apply post_bind, post_modify.
  apply post_bind, post_modify.
  set (w0 := set_gl _ _).
  set (J := λ (j : nat) w',
     atexit_list w' = atexit_list w
     ∧ length (shwr_pt (gl w')) = SHWR_RAW_NCH_MAX
     ∧ regs (gl w') = Some TriggerRegs ∧ tt_regs (gl w') = Some TimeTagRegs
     ∧ tstctl_regs (gl w') = Some TestCtlRegs
     ∧ (∀ i, (i < j)%nat → shwr_pt (gl w') !! i = Some (Some (ShwrBuf i)))
     ∧ (∀ m, m ∈ mapped w' →
          m.1 = TriggerRegs ∨ m.1 = TimeTagRegs ∨ m.1 = TestCtlRegs
          ∨ ∃ i, (i < j)%nat ∧ m.1 = ShwrBuf i)
     ∧ mapped w' ≠ []).
  apply post_bind.
  eapply post_mono; [apply (post_for_loop J)| |intros h Hh; exact Hh].
  - intros j w1 Hj (Ha & Hl & Hr & Ht & Hc & Hp & Hm & Hne).
    apply post_bind, post_mmap; intros _; apply post_bind, post_exit_if;
      try done.
    { intros _. apply Hlate; [done|done|cbn; lia]. }
    intros _. apply post_modify. unfold J. wsimpl.
    split; [done|]. split; [by rewrite length_insert|].
    split; [done|]. split; [done|]. split; [done|]. split; [|split; [|done]].
    + intros i Hi. destruct (decide (i = j)) as [->|Hij].
      * apply list_lookup_insert_eq. lia.
      * rewrite list_lookup_insert_ne by done. apply Hp. lia.
    + intros m Hin. apply elem_of_cons in Hin as [->|Hin].
      * right. right. right. exists j. split; [lia|done].
      * destruct (Hm m Hin) as [?|[?|[?|(i & Hi & ?)]]]; [tauto..|].
        right. right. right. exists i. split; [lia|done].
  - unfold J, w0. wsimpl. split; [done|]. split; [done|].
    split; [done|]. split; [done|]. split; [done|]. split; [intros i Hi; lia|].
    split; [|done]. intros m Hin. rewrite Hmap in Hin.
    apply elem_of_cons in Hin as [->|Hin]; [tauto|].
    apply elem_of_cons in Hin as [->|Hin]; [tauto|].
    apply elem_of_cons in Hin as [->|Hin]; [tauto|].
    by apply elem_of_nil in Hin.
  - intros [] w1 (Ha & Hl & Hr & Ht & Hc & Hp & Hm & Hne). cbv beta.
    apply post_bind, post_sys.
    apply post_bind, post_sys, post_bind, post_exit_if.
    { intros _. apply Hlate; [done|done|cbn; lia]. }
    intros _.
    apply post_bind, post_sys, post_bind, post_exit_if.
    { intros _. apply Hlate; [done|done|cbn; lia]. }
    intros _.
    apply post_bind, post_sys, post_bind, post_exit_if.
    { intros _. apply Hlate; [done|done|cbn; lia]. }
    intros _.
    apply post_bind, post_sys, post_bind, post_exit_if.
    { intros _. apply Hlate; [done|done|cbn; lia]. }
    intros _.
    apply post_bind, post_sys, post_bind, post_exit_if.
    { intros _. apply Hlate; [done|done|cbn; lia]. }
    intros _.
    apply post_modify. split; [|done].
    intros m Hin. wsimpl. unfold referenced. wsimpl.
    destruct (Hm m Hin) as [->|[->|[->|(i & Hi & ->)]]]; [tauto..|].
    right. right. right. exists i. split; [lia|]. by apply Hp.
Qed.

(** *** The mask is below 32 *)

Lemma evaluate_channels_bound (trace : Trace) :
  ∀ n ch result r,
    evaluate_channels n ch result trace = Some r →
    (ch + n ≤ SHWR_RAW_NCH_MAX)%nat →
    0 ≤ result → (∀ j, 5 ≤ j → Z.testbit result j = false) →
    0 ≤ r ∧ ∀ j, 5 ≤ j → Z.testbit r j = false.
Proof.
  induction n as [|n IH]; intros ch result r Heq Hch Hr0 Hbits.
  - cbn in Heq. by injection Heq as <-.
  - cbn [evaluate_channels] in Heq.
    destruct (tget trace (2 * ch) 0) as [sum|]; [|done].
    cbn [mbind option_bind] in Heq.
    destruct (ramp_mismatch _ _ _ _ _) as [bad|]; [|done].
    cbn [mbind option_bind] in Heq.
    apply IH in Heq; [done|lia| |].
    + destruct bad; [|done]. apply Z.lor_nonneg. split; [done|].
      apply Z.shiftl_nonneg. lia.
    + intros j Hj. destruct bad; [|by apply Hbits].
      rewrite Z.lor_spec, Hbits by done. rewrite Z.shiftl_1_l.
      rewrite Z.pow2_bits_false; [done|]. unfold SHWR_RAW_NCH_MAX in Hch. lia.
Qed.

Lemma evaluate_ramp_bound (trace : Trace) r :
  evaluate_ramp trace = Some r → 0 ≤ r ≤ 31.
Proof.
  intros Heq. unfold evaluate_ramp in Heq.
  apply evaluate_channels_bound in Heq as [Hr0 Hbits]; [|done|done|].
  - pose proof (bits_above_bound r 5 Hr0 ltac:(lia) Hbits) as Hb.
    change (2 ^ 5) with 32 in Hb. lia.
  - intros j _. apply Z.bits_0.
Qed.

Lemma main_ends fuel w :
  mapped w = [] → atexit_list w = [] →
  length (shwr_pt (gl w)) = SHWR_RAW_NCH_MAX →
  post (main E fuel) w
    (λ code w', evaluate_ramp (traces w') = Some code
                ∧ h_read_evt_end ∈ atexit_list w' ∧ all_referenced w')
    (exit_ends (λ code w',
       (code = EXIT_SPIWRITE
        ∧ h_read_evt_end ∈ atexit_list w' ∧ all_referenced w')
       ∨ (atexit_list w' = [] ∧ code ∈ failure_statuses
          ∧ (mapped w' = [] ↔ ¬ (62 ≤ code ≤ 67))))).
Proof.
  intros Hmap Hat Hlen.
  assert (Hearly : ∀ code w', code ∈ early_statuses → not_started w w' →
            (code = EXIT_SPIWRITE
             ∧ h_read_evt_end ∈ atexit_list w' ∧ all_referenced w')
            ∨ (atexit_list w' = [] ∧ code ∈ failure_statuses
               ∧ (mapped w' = [] ↔ ¬ (62 ≤ code ≤ 67)))).
  { intros code w' Hc (Hm & _ & Ha). right. split; [congruence|].
    split; [unfold failure_statuses; apply elem_of_app; by left|].
    rewrite Hm, Hmap. apply list_elem_of_In in Hc. cbn in Hc.
    split; [lia|done]. }
  unfold main. cbv zeta.
  apply (post_after_keeps_to not_started (λ c, c ∈ early_statuses))
    with (w0 := w);
    [ns_side|repeat keeps_step|ns_side|exact Hearly|]. intros _ w1 Hw1.
  apply (post_after_keeps_to not_started (λ c, c ∈ early_statuses))
    with (w0 := w);
    [ns_side|repeat keeps_step|done|exact Hearly|]. intros _ w2 Hw2.
  apply (post_after_keeps_to not_started (λ c, c ∈ early_statuses))
    with (w0 := w);
    [ns_side|repeat keeps_step|done|exact Hearly|]. intros verbose w3 Hw3.
  apply (post_after_keeps_to not_started (λ c, c ∈ early_statuses))
    with (w0 := w);
    [ns_side|repeat keeps_step|done|exact Hearly|]. intros _ w4 Hw4.
  apply (post_after_keeps_to not_started (λ c, c ∈ early_statuses))
    with (w0 := w);
    [ns_side|repeat keeps_step|done|exact Hearly|]. intros _ w5 Hw5.
  destruct Hw5 as (Hm5 & Hg5 & Ha5).
  apply post_bind.
  eapply post_mono; [apply read_evt_init_ends; congruence| |].
  - intros [] w6 (Hall & Ha6). cbv beta.
    eapply post_mono; [by apply main_after_init_ends|done|].
    intros [code w'|w'|w'|]; cbn; try done. intros ?. by left.
  - intros [code w'|w'|w'|]; cbn; try done. intros (Ha' & Hc & Hiff).
    right. split; [congruence|done].
Qed.

End Cleanup.

Lemma outcome_exits_with {A} (o : outcome A) (P : Z → world → Prop) :
  match o with Exit code w' => P code w' | _ => False end →
  ∃ code w', o = Exit code w' ∧ P code w'.
Proof. destruct o; try done. eauto. Qed.

(** X7.  The self-test, started with nothing mapped and nothing
    registered: whenever the process ends with an exit status, no window
    is left mapped, unless the status is one of 62..67, with which
    [read_evt_init] leaves after it has mapped the first window and
    before [main] registers [read_evt_end]; then a mapping is left. *)
Theorem selftest_releases_mappings `{HwDefs} (E : Env) (fuel : nat)
    (w : world) (status : Z) (wf : world) :
  mapped w = [] → atexit_list w = [] →
  length (shwr_pt (gl w)) = SHWR_RAW_NCH_MAX →
  AdcCheckRamp.run_process E (AdcCheckRamp.main E fuel) w = Exit status wf →
  (mapped wf = [] ↔ ¬ (62 ≤ status ≤ 67)).
Proof.
  intros Hmap Hat Hlen Hrun. pose proof (main_ends E fuel w Hmap Hat Hlen) as Hp.
  unfold AdcCheckRamp.run_process in Hrun. unfold post in Hp.
  destruct (AdcCheckRamp.main E fuel w) as [code w'|code w'|w'|w'|]; try done.
  - destruct Hp as (Hev & Hin & Hall).
    destruct (run_atexit_unmaps E _ _ _ _ _ Hrun Hall) as (Hst & Hm).
    apply evaluate_ramp_bound in Hev.
    split; [intros _; unfold AdcCheckRamp.EXIT_SPIWRITE in Hst; lia|].
    intros _. apply Hm. by left.
  - cbn in Hp. destruct Hp as [(-> & Hin & Hall)|(Hnil & Hc & Hiff)].
    + destruct (run_atexit_unmaps E _ _ _ _ _ Hrun Hall) as (Hst & Hm).
      split; [intros _; unfold AdcCheckRamp.EXIT_SPIWRITE in Hst; lia|].
      intros _. apply Hm. by left.
    + rewrite Hnil in Hrun. cbn in Hrun. by injection Hrun as <- <-.
Qed.

Lemma selftest_releases_mappings_witness :
  mapped w_init = [] ∧ atexit_list w_init = []
  ∧ length (shwr_pt (gl w_init)) = SHWR_RAW_NCH_MAX
  ∧ (∃ wf,
       AdcCheckRamp.run_process (H := sample_defs) env_help
         (AdcCheckRamp.main (H := sample_defs) env_help 3) w_init
       = Exit 32 wf
       ∧ (mapped wf = [] ↔ ¬ (62 ≤ 32 ≤ 67)))
  ∧ (∃ wf,
       AdcCheckRamp.run_process (H := sample_defs) env_no_timetag
         (AdcCheckRamp.main (H := sample_defs) env_no_timetag 3) w_init
       = Exit 62 wf
       ∧ mapped wf = [(TriggerRegs, 4096)]
       ∧ (mapped wf = [] ↔ ¬ (62 ≤ 62 ≤ 67))).
Proof.
  split; [reflexivity|]. split; [reflexivity|]. split; [reflexivity|]. split.
  - destruct (outcome_exits_with
                (AdcCheckRamp.run_process (H := sample_defs) env_help
                   (AdcCheckRamp.main (H := sample_defs) env_help 3) w_init)
                (λ code _, code = 32))
      as (status & wf & Hrun & ->); [vm_compute; reflexivity|].
    exists wf. split; [exact Hrun|].
    exact (selftest_releases_mappings (H := sample_defs) env_help 3 w_init
             32 wf eq_refl eq_refl eq_refl Hrun).
  - destruct (outcome_exits_with
                (AdcCheckRamp.run_process (H := sample_defs) env_no_timetag
                   (AdcCheckRamp.main (H := sample_defs) env_no_timetag 3)
                   w_init)
                (λ code w', code = 62 ∧ mapped w' = [(TriggerRegs, 4096)]))
      as (status & wf & Hrun & -> & Hm); [vm_compute; split; reflexivity|].
    exists wf. split; [exact Hrun|]. split; [exact Hm|].
    exact (selftest_releases_mappings (H := sample_defs) env_no_timetag 3
             w_init 62 wf eq_refl eq_refl eq_refl Hrun).
Defined.
(** ** Exit statuses of the self-test *)

Section Status.
Import AdcCheckRamp.
Context `{HwDefs} (E : Env).

Ltac any_side :=
  first [ done
        | intros; exact Logic.I
        | apply list_elem_of_In; vm_compute;
          repeat first [left; reflexivity | right]
        | intros c Hc; apply list_elem_of_In; cbn; lia ].

Ltac keeps_inst ::= any_side.

Lemma main_statuses fuel :
  keeps (λ _ _, True) (λ code, code ∈ failure_statuses) (main E fuel).
Proof.
  unfold main, read_evt_init. cbv zeta.
  repeat first [ apply keeps_read_evt_init; any_side
               | apply keeps_main_after_init; any_side
               | keeps_step ].
Qed.

Lemma handler_status h :
  ∀ w, post (run_handler E h) w (λ _ _, True)
         (exit_ends (λ code _, code = EXIT_SPIWRITE)).
Proof.
  intros w. destruct h; cbn [run_handler].
  - eapply post_mono; [apply read_evt_end_no_exit|done|by intros [| | |]].
  - eapply post_mono;
      [apply (keeps_restore_trigger (λ _ _, True) (λ c, c = EXIT_SPIWRITE));
       any_side|done|].
    intros [code w'|w'|w'|]; cbn; try done. by intros [-> _].
  - eapply post_mono;
      [apply (keeps_adc_normal E (λ _ _, True) (λ c, c = EXIT_SPIWRITE));
       any_side|done|].
    intros [code w'|w'|w'|]; cbn; try done. by intros [-> _].
Qed.

Lemma run_atexit_statuses hs :
  ∀ code w status wf,
    run_atexit E hs code w = Exit status wf →
    status = code ∨ status = EXIT_SPIWRITE.
Proof.
  induction hs as [|h hs IH]; intros code w status wf Hrun.
  - cbn in Hrun. injection Hrun as -> _. by left.
  - cbn [run_atexit] in Hrun.
    pose proof (handler_status h (set_atexit_list hs w)) as Hh.
    unfold post in Hh.
    destruct (run_handler E h (set_atexit_list hs w)) as [[] w1|c w1|w1|w1|];
      try done.
    + by apply IH in Hrun.
    + cbn in Hh. subst c. apply IH in Hrun. right. by destruct Hrun.
Qed.

End Status.

(** X8.  The exit status of the self-test.  [main] ends with a code:
    either it returns the mask [evaluate_ramp] computed on the traces,
    which is below 32, or it calls [exit] with one of the [EXIT_*] codes
    the tool uses, which are all 32 or more.  The functions registered
    with [atexit] then run, and the status of the process is that code
    unless one of them calls [exit]: a function run at exit changes the
    status only to [EXIT_SPIWRITE].  So the status is the mask [main]
    returned or one of the [EXIT_*] codes. *)
Theorem selftest_status `{HwDefs} (E : Env) (fuel : nat) (w : world)
    (status : Z) (wf : world) :
  AdcCheckRamp.run_process E (AdcCheckRamp.main E fuel) w = Exit status wf →
  (∃ code wm,
     ((AdcCheckRamp.main E fuel w = Ret code wm
       ∧ AdcCheckRamp.evaluate_ramp (traces wm) = Some code
       ∧ 0 ≤ code ≤ 31)
      ∨ (AdcCheckRamp.main E fuel w = Exit code wm
         ∧ code ∈ failure_statuses))
     ∧ AdcCheckRamp.run_atexit E (atexit_list wm) code wm = Exit status wf
     ∧ (status = code ∨ status = AdcCheckRamp.EXIT_SPIWRITE))
  ∧ ((∃ wm, AdcCheckRamp.main E fuel w = Ret status wm
            ∧ AdcCheckRamp.evaluate_ramp (traces wm) = Some status
            ∧ 0 ≤ status ≤ 31)
     ∨ status ∈ failure_statuses)
  ∧ (∀ code, code ∈ failure_statuses → 32 ≤ code ≤ 67).
Proof.
  intros Hrun.
  pose proof (post_conj _ _ _ _ _ _ (main_returns_evaluation E fuel w)
                (main_statuses E fuel w)) as Hp.
  unfold AdcCheckRamp.run_process in Hrun. unfold post in Hp.
  assert (H39 : AdcCheckRamp.EXIT_SPIWRITE ∈ failure_statuses).
  { apply list_elem_of_In. vm_compute. tauto. }
  split; [|split].
  - destruct (AdcCheckRamp.main E fuel w) as [code w'|code w'|w'|w'|];
      try done.
    + destruct Hp as (Hev & _). exists code, w'. split.
      { left. split; [done|]. split; [done|].
        by apply evaluate_ramp_bound in Hev. }
      split; [done|]. by apply run_atexit_statuses in Hrun.
    + destruct Hp as (_ & Hc & _). exists code, w'. split; [by right|].
      split; [done|]. by apply run_atexit_statuses in Hrun.
  - destruct (AdcCheckRamp.main E fuel w) as [code w'|code w'|w'|w'|];
      try done.
    + destruct Hp as (Hev & _).
      apply run_atexit_statuses in Hrun as [->| ->]; [left|by right].
      exists w'. split; [done|]. split; [done|].
      by apply evaluate_ramp_bound in Hev.
    + destruct Hp as (_ & Hc & _). right.
      by apply run_atexit_statuses in Hrun as [->| ->].
  - intros code Hc. apply list_elem_of_In in Hc. cbn in Hc. lia.
Qed.

Lemma selftest_status_witness :
  ∃ wf,
    AdcCheckRamp.run_process (H := sample_defs) env_no_timetag
      (AdcCheckRamp.main (H := sample_defs) env_no_timetag 3) w_init
    = Exit 62 wf
    ∧ (∃ code wm,
         ((AdcCheckRamp.main (H := sample_defs) env_no_timetag 3 w_init
           = Ret code wm
           ∧ AdcCheckRamp.evaluate_ramp (traces wm) = Some code
           ∧ 0 ≤ code ≤ 31)
          ∨ (AdcCheckRamp.main (H := sample_defs) env_no_timetag 3 w_init
             = Exit code wm
             ∧ code ∈ failure_statuses))
         ∧ AdcCheckRamp.run_atexit (H := sample_defs) env_no_timetag
             (atexit_list wm) code wm = Exit 62 wf
         ∧ (62 = code ∨ 62 = AdcCheckRamp.EXIT_SPIWRITE))
    ∧ ((∃ wm, AdcCheckRamp.main (H := sample_defs) env_no_timetag 3 w_init
              = Ret 62 wm
              ∧ AdcCheckRamp.evaluate_ramp (traces wm) = Some 62
              ∧ 0 ≤ 62 ≤ 31)
       ∨ 62 ∈ failure_statuses)
    ∧ (∀ code, code ∈ failure_statuses → 32 ≤ code ≤ 67).
Proof.
  destruct (outcome_exits_with
              (AdcCheckRamp.run_process (H := sample_defs) env_no_timetag
                 (AdcCheckRamp.main (H := sample_defs) env_no_timetag 3)
                 w_init)
              (λ code _, code = 62))
    as (status & wf & Hrun & ->); [vm_compute; reflexivity|].
  exists wf. split; [exact Hrun|].
  exact (selftest_status (H := sample_defs) env_no_timetag 3 w_init 62 wf Hrun).
Defined.
(** ** The remote ramp toggle *)

Section AdcRampProofs.
Import AdcRamp.
Context (E : Env).

Lemma land_3_byte c : Z.land c 3 mod 256 = Z.land c 3.
Proof.
  change 3 with (Z.ones 2). rewrite Z.land_ones by lia.
  change (2 ^ 2) with 4. lia.
Qed.

Lemma device_index_nonneg c : 0 ≤ Z.shiftr (Z.land c MASK_ADC) SH_ADC.
Proof. apply Z.shiftr_nonneg, Z.land_nonneg. right. done. Qed.

Lemma command_not_stop b : is_ramp_command b → b ≠ 0 ∧ b ≠ CMD_QUIT.
Proof. intros [Hc _]. split; intros ->; by apply Hc. Qed.

Lemma leading_commands_length msg :
  (length (leading_commands msg) ≤ length msg)%nat.
Proof.
  induction msg as [|b msg IH]; cbn [leading_commands length]; [done|].
  case_decide; cbn [length]; lia.
Qed.

Lemma leading_commands_stop msg s :
  msg !! length (leading_commands msg) = Some s → ¬ is_ramp_command s.
Proof.
  induction msg as [|b msg IH]; cbn [leading_commands]; [done|].
  case_decide as Hb; cbn [length].
  - apply IH.
  - cbn. by intros [= <-].
Qed.

Lemma leading_commands_sentinel msg :
  leading_commands (msg ++ [0]) = leading_commands msg.
Proof.
  induction msg as [|b msg IH]; cbn [leading_commands app].
  - rewrite decide_False; [done|]. intros [Hc _]. by apply Hc.
  - case_decide; [by rewrite IH|done].
Qed.

Lemma set_log_set_log l l' w : set_log l (set_log l' w) = set_log l w.
Proof. reflexivity. Qed.

Lemma adc_write_run fd address cmd w :
  sys_ret E (length (log w))
    (c_write fd [Z.land (Z.shiftr address 8) 0xff; Z.land address 0xff;
                 cmd mod 256]) = 3 →
  adc_write E fd address cmd w
  = Ret 1 (set_log (log w ++ [EvSys (c_write fd
             [Z.land (Z.shiftr address 8) 0xff; Z.land address 0xff;
              cmd mod 256]) 3]) w).
Proof.
  intros Hok. unfold adc_write. rewrite bind_sys. rewrite Hok.
  case_decide; [congruence|reflexivity].
Qed.

Hypothesis writes_complete : ∀ t fd bytes, sys_ret E t (c_write fd bytes) = 3.

(** The loop over the bytes of a message: the commands at its head are
    carried out, and the byte [s] after them decides how it ends. *)
Lemma run_commands_run buf :
  ∀ n i c resp w s,
    length (adcfd w) = NADC →
    (length (leading_commands (drop i buf)) < n)%nat →
    drop i buf !! length (leading_commands (drop i buf)) = Some s →
    run_commands E n i buf c resp w
    = Ret (if decide (s = 0)
           then default c (last (leading_commands (drop i buf))) else s,
           let k := Z.of_nat (length (leading_commands (drop i buf))) in
           if decide (s = 0) then resp + k
           else if decide (s = CMD_QUIT) then resp + k + 1
           else Z.lor (resp + k) RESP_ERR)
          (set_log (log w ++ flat_map (command_writes (adcfd w))
                                      (leading_commands (drop i buf))) w).
Proof.
  induction n as [|n IH]; intros i c resp w s Hfd Hn Hs; [lia|].
  cbn [run_commands].
  destruct (buf !! i) as [b|] eqn:Hb.
  2:{ apply lookup_ge_None in Hb. rewrite drop_ge in Hs by done. done. }
  rewrite (drop_S _ _ _ Hb) in Hn, Hs |- *. cbn [leading_commands] in *.
  destruct (decide (is_ramp_command b)) as [Hcmd|Hcmd].
  - destruct (command_not_stop b Hcmd) as [Hb0 Hbq]. destruct Hcmd as [Hc Hadc].
    cbv zeta.
    rewrite (decide_False (P := b = 0)) by done.
    rewrite (decide_False (P := b = CMD_QUIT)) by done.
    rewrite (decide_True (P := Z.land b MASK_CMD ≠ 0)) by done.
    rewrite (decide_False
               (P := Z.of_nat NADC ≤ Z.shiftr (Z.land b MASK_ADC) SH_ADC))
      by lia.
    pose proof (device_index_nonneg b) as Hidx.
    destruct (adcfd w !! Z.to_nat (Z.shiftr (Z.land b MASK_ADC) SH_ADC))
      as [fd|] eqn:Hfdl.
    2:{ apply lookup_ge_None in Hfdl. unfold NADC in *. lia. }
    unfold mbind at 1, M_bind at 1, arr_get. rewrite Hfdl.
    unfold mbind at 1, M_bind at 1.
    rewrite adc_write_run by apply writes_complete.
    unfold mbind at 1, M_bind at 1.
    rewrite adc_write_run by apply writes_complete.
    cbn [length] in Hn, Hs. cbn [lookup list_lookup] in Hs.
    rewrite (IH (S i) b (resp + 1) _ s); [|done|lia|done].
    cbn [length flat_map last]. wsimpl.
    change MASK_CHS with 3. rewrite land_3_byte.
    assert (Hon : (if decide (Z.land b MASK_ON ≠ 0) then RAMPON else RAMPOFF)
                  mod 256
                  = if decide (Z.land b 0x20 ≠ 0) then 15 else 0)
      by (change MASK_ON with 0x20; by case_decide).
    rewrite Hon. rewrite Nat2Z.inj_succ.
    f_equal; [f_equal|].
    + destruct (decide (s = 0)); [|reflexivity].
      destruct (leading_commands (drop (S i) buf)) as [|z l]; [done|].
      rewrite last_cons_cons.
      assert (is_Some (last (z :: l))) as [y Hy] by (by apply last_is_Some).
      by rewrite Hy.
    + destruct (decide (s = 0)); [lia|].
      destruct (decide (s = CMD_QUIT)); [lia|]. f_equal. lia.
    + rewrite !set_log_set_log. f_equal. rewrite <- !app_assoc. f_equal.
      unfold command_writes. change (Z.land b 28 ≫ 2) with
        (Z.land b MASK_ADC ≫ SH_ADC). by rewrite Hfdl.
  - cbn [length] in Hs. cbn [lookup list_lookup] in Hs. injection Hs as ->.
    cbn [length flat_map last default]. rewrite app_nil_r, set_log_id.
    cbv zeta. rewrite !Z.add_0_r.
    destruct (decide (s = 0)) as [->|H0]; [done|].
    destruct (decide (s = CMD_QUIT)) as [->|Hq]; [done|].
    destruct (decide (Z.land s MASK_CMD ≠ 0)) as [Hc|Hc]; [|done].
    rewrite decide_True; [done|].
    destruct (decide (Z.of_nat NADC ≤ Z.shiftr (Z.land s MASK_ADC) SH_ADC));
      [done|]. exfalso. apply Hcmd. split; [done|lia].
Qed.

Lemma leading_commands_all msg : Forall is_ramp_command (leading_commands msg).
Proof.
  induction msg as [|b msg IH]; cbn [leading_commands]; [done|].
  case_decide; [by constructor|done].
Qed.

Lemma bit4_of_status x : 32 ≤ x < 64 → (Z.testbit x 4 = true ↔ 48 ≤ x).
Proof.
  intros Hx. rewrite Z.testbit_odd, Z.shiftr_div_pow2 by lia.
  change (2 ^ 4) with 16.
  assert (Hq : x / 16 = 2 ∧ x < 48 ∨ x / 16 = 3 ∧ 48 ≤ x) by lia.
  destruct Hq as [[-> ?]|[-> ?]]; cbn; split; first [lia | done].
Qed.

Lemma sentinel_insert (msg : list Z) :
  length msg = MSGLEN → <[(MSGLEN - 1)%nat := 0]> msg = take 17 msg ++ [0].
Proof.
  intros Hlen. rewrite insert_take_drop by (rewrite Hlen; unfold MSGLEN; lia).
  f_equal. f_equal. apply drop_ge. rewrite Hlen. unfold MSGLEN. lia.
Qed.

(** One turn of the server on a full message *)
Lemma serve_once_run sock (buf msg : list Z) c w s :
  sys_ret E (length (log w)) (c_select sock) ≠ 0 →
  take MSGLEN (recv_bytes E (S (length (log w)))) = msg →
  length msg = MSGLEN → length buf = MSGLEN → length (adcfd w) = NADC →
  (take 17 msg ++ [0]) !! length (leading_commands (take 17 msg)) = Some s →
  let cmds := leading_commands (take 17 msg) in
  let k := Z.of_nat (length cmds) in
  let resp :=
    if decide (s = 0) then RESP_BASE + k
    else if decide (s = CMD_QUIT) then RESP_BASE + k + 1
    else Z.lor (RESP_BASE + k) RESP_ERR in
  let reply := <[0%nat := resp]> (<[17%nat := 0]> msg) in
  ∃ w' r,
    serve_once E sock buf c w
    = Ret (reply, if decide (s = 0) then default c (last cmds) else s) w'
    ∧ events_since w w'
      = [EvSys (c_select sock) (sys_ret E (length (log w)) (c_select sock));
         EvSys (c_recvfrom sock 18) 18]
        ++ flat_map (command_writes (adcfd w)) cmds
        ++ [EvSys (c_sendto sock reply) r].
Proof.
  intros Hsel Hmsg Hlen Hbuf Hfd Hs cmds k resp reply.
  unfold serve_once. rewrite bind_sys. rewrite decide_False by done.
  unfold mbind at 1, M_bind at 1, recvfrom. wsimpl.
  rewrite length_app, Nat.add_1_r, Hmsg.
  rewrite Hlen. rewrite (drop_ge buf) by (rewrite Hbuf; lia).
  rewrite app_nil_r. rewrite decide_False by (intros Hx; by apply Hx).
  rewrite sentinel_insert by done.
  unfold mbind at 1, M_bind at 1.
  rewrite (run_commands_run _ MSGLEN 0 c RESP_BASE _ s);
    [|done|rewrite drop_0, leading_commands_sentinel;
           pose proof (leading_commands_length (take 17 msg)) as Hl;
           rewrite length_take in Hl; unfold MSGLEN; lia
     |by rewrite drop_0, leading_commands_sentinel].
  rewrite drop_0, leading_commands_sentinel. fold cmds. cbv zeta. fold k.
  rewrite bind_sys. eexists _, _. split.
  - unfold mret, M_ret. rewrite <- sentinel_insert by done. reflexivity.
  - apply events_since_app. wsimpl. rewrite <- !app_assoc. reflexivity.
Qed.

End AdcRampProofs.

(** X9.  A datagram of 18 bytes or more, of which the first 18 are
    the message, with the SPI writes completing.  The server carries
    out the ramp commands at the head of the first 17
    bytes, two register writes each, and stops at the first byte that is
    not a ramp command for one of the five devices, or at the sentinel
    behind byte 16.  It sends one reply, the message with the sentinel
    in byte 17 and the status in byte 0: the status is 0x20 plus the
    number of commands carried out when it stopped at a zero byte, one
    more when it stopped at the quit byte, and has 0x10 or-ed in when it
    stopped at any other byte.  So bit 4 of the status is set on an
    error, and also without one once 16 is added to 0x20.  The loop of
    [main] ends after this turn exactly when it stopped at the quit
    byte. *)
Theorem serve_once_reply (E : Env) (sock : Z) (buf msg : list Z) (c : Z)
    (w : world) :
  sys_ret E (length (log w)) (c_select sock) ≠ 0 →
  take AdcRamp.MSGLEN (recv_bytes E (S (length (log w)))) = msg →
  length msg = AdcRamp.MSGLEN → length buf = AdcRamp.MSGLEN →
  length (adcfd w) = AdcRamp.NADC →
  (∀ t fd bytes, sys_ret E t (c_write fd bytes) = 3) →
  c ≠ AdcRamp.CMD_QUIT →
  let cmds := leading_commands (take 17 msg) in
  let n := Z.of_nat (length cmds) in
  let stop := default 0 ((take 17 msg ++ [0]) !! length cmds) in
  let resp :=
    if decide (stop = 0) then 0x20 + n
    else if decide (stop = 0x21) then 0x20 + n + 1
    else Z.lor (0x20 + n) 0x10 in
  let reply := <[0%nat := resp]> (<[17%nat := 0]> msg) in
  ¬ is_ramp_command stop ∧ 0 ≤ n ≤ 17
  ∧ (∃ c' w' sel r,
      AdcRamp.serve_once E sock buf c w = Ret (reply, c') w'
      ∧ events_since w w'
        = [EvSys (c_select sock) sel; EvSys (c_recvfrom sock 18) 18]
          ++ flat_map (command_writes (adcfd w)) cmds
          ++ [EvSys (c_sendto sock reply) r]
      ∧ (c' = AdcRamp.CMD_QUIT ↔ stop = 0x21))
  ∧ (Z.testbit resp 4 = true ↔
       (stop ≠ 0 ∧ stop ≠ 0x21) ∨ 16 ≤ n ∨ (n = 15 ∧ stop = 0x21)).
Proof.
  intros Hsel Hmsg Hlen Hbuf Hfd Hok Hc cmds n stop resp reply.
  pose proof (leading_commands_length (take 17 msg)) as Hl.
  rewrite length_take in Hl. fold cmds in Hl.
  assert (Hn : 0 ≤ n ≤ 17) by (unfold n; lia).
  destruct ((take 17 msg ++ [0]) !! length cmds) as [s|] eqn:Hs.
  2:{ apply lookup_ge_None in Hs. rewrite length_app, length_take, Hlen in Hs.
      unfold AdcRamp.MSGLEN in Hs. cbn in Hs. lia. }
  assert (Hstop : stop = s) by reflexivity.
  assert (Hnc : ¬ is_ramp_command s).
  { apply (leading_commands_stop (take 17 msg ++ [0])).
    by rewrite leading_commands_sentinel. }
  split; [by rewrite Hstop|]. split; [done|]. split.
  - destruct (serve_once_run E Hok sock buf msg c w s Hsel Hmsg Hlen Hbuf Hfd Hs)
      as (w' & r & Hrun & Hev).
    eexists _, w', _, r. split; [|split; [exact Hev|]].
    + rewrite Hrun. unfold reply, resp. rewrite Hstop. reflexivity.
    + rewrite Hstop. destruct (decide (s = 0)) as [->|Hs0]; [|done].
      split; [|done]. intros Hq. exfalso.
      destruct (last (leading_commands (take 17 msg))) as [x|] eqn:Hlast;
        cbn in Hq; [|done].
      apply last_Some_elem_of in Hlast.
      pose proof (leading_commands_all (take 17 msg)) as Hall.
      rewrite Forall_forall in Hall. specialize (Hall x Hlast).
      apply command_not_stop in Hall. by destruct Hall.
  - unfold resp. rewrite Hstop.
    destruct (decide (s = 0)) as [->|Hs0].
    { rewrite bit4_of_status by lia. split; [lia|].
      intros [[? _]|[?|[_ ?]]]; [done|lia|done]. }
    destruct (decide (s = 33)) as [->|Hsq].
    { rewrite bit4_of_status by lia. split; [lia|].
      intros [[_ ?]|[?|[? _]]]; [done|lia|lia]. }
    rewrite Z.lor_spec. change (Z.testbit 16 4) with true.
    rewrite orb_true_r. split; [by left|done].
Qed.

Lemma serve_once_reply_witness :
  sys_ret env_message (length (log w_spi_open)) (c_select 9) ≠ 0
  ∧ take AdcRamp.MSGLEN (recv_bytes env_message (S (length (log w_spi_open))))
    = sample_message
  ∧ length sample_message = AdcRamp.MSGLEN
  ∧ length (replicate AdcRamp.MSGLEN 0 : list Z) = AdcRamp.MSGLEN
  ∧ length (adcfd w_spi_open) = AdcRamp.NADC
  ∧ (∀ t fd bytes, sys_ret env_message t (c_write fd bytes) = 3)
  ∧ 0 ≠ AdcRamp.CMD_QUIT
  ∧ ∃ c' w' sel r,
      AdcRamp.serve_once env_message 9 (replicate AdcRamp.MSGLEN 0) 0 w_spi_open
      = Ret ([0x23; 0x4D; 0x21; 0; 0; 0; 0; 0; 0; 0; 0; 0; 0; 0; 0; 0; 0; 0], c')
            w'
      ∧ events_since w_spi_open w'
        = [EvSys (c_select 9) sel; EvSys (c_recvfrom 9 18) 18;
           EvSys (c_write 3 [0; 5; 3]) 3; EvSys (c_write 3 [0; 13; 15]) 3;
           EvSys (c_write 6 [0; 5; 1]) 3; EvSys (c_write 6 [0; 13; 0]) 3;
           EvSys (c_sendto 9
                    [0x23; 0x4D; 0x21; 0; 0; 0; 0; 0; 0; 0; 0; 0; 0; 0; 0; 0;
                     0; 0]) r]
      ∧ (c' = AdcRamp.CMD_QUIT ↔ 0x21 = 0x21).
Proof.
  assert (H1 : sys_ret env_message (length (log w_spi_open)) (c_select 9) ≠ 0)
    by done.
  assert (H2 : take AdcRamp.MSGLEN
                 (recv_bytes env_message (S (length (log w_spi_open))))
               = sample_message) by reflexivity.
  assert (H3 : length sample_message = AdcRamp.MSGLEN) by reflexivity.
  assert (H4 : length (replicate AdcRamp.MSGLEN 0 : list Z) = AdcRamp.MSGLEN)
    by reflexivity.
  assert (H5 : length (adcfd w_spi_open) = AdcRamp.NADC) by reflexivity.
  assert (H6 : ∀ (t : nat) fd bytes,
             sys_ret env_message t (c_write fd bytes) = 3) by reflexivity.
  assert (H7 : 0 ≠ AdcRamp.CMD_QUIT) by done.
  split; [exact H1|]. split; [exact H2|]. split; [exact H3|].
  split; [exact H4|]. split; [exact H5|]. split; [exact H6|].
  split; [exact H7|].
  exact (proj1 (proj2 (proj2
    (serve_once_reply env_message 9 (replicate AdcRamp.MSGLEN 0)
       sample_message 0 w_spi_open H1 H2 H3 H4 H5 H6 H7)))).
Defined.

Section AdcRampSilent.
Import AdcRamp.
Context (E : Env).

Lemma post_ramp_write fd address cmd w (Q : Z → world → Prop)
    (R : halt → Prop) :
  let bytes := [Z.land (Z.shiftr address 8) 0xff; Z.land address 0xff;
                cmd mod 256] in
  let r := sys_ret E (length (log w)) (c_write fd bytes) in
  let w1 := set_log (log w ++ [EvSys (c_write fd bytes) r]) w in
  (r = 3 → Q 1 w1) → (r ≠ 3 → R (HAbort w1)) →
  post (adc_write E fd address cmd) w Q R.
Proof.
  intros bytes r w1 Hq Hr. unfold adc_write. apply post_bind, post_sys.
  fold bytes r w1. case_decide; [by apply Hr|by apply Hq].
Qed.

Lemma failed_write_after_later (P : event → Prop) w w1 w' :
  extends_with P w w1 → failed_write_after P w1 w' → failed_write_after P w w'.
Proof.
  intros (evs & Hl & Hevs) (pre & fd & bytes & r & Hl' & Hr & Hpre).
  exists (evs ++ pre), fd, bytes, r. split; [|split; [done|]].
  - rewrite Hl', Hl. by rewrite <- !app_assoc.
  - by apply Forall_app.
Qed.

Lemma failed_write_now (P : event → Prop) w fd bytes r :
  r ≠ 3 →
  failed_write_after P w (set_log (log w ++ [EvSys (c_write fd bytes) r]) w).
Proof. intros Hr. by exists [], fd, bytes, r. Qed.

Lemma write_not_sendto fd bytes r : ¬ is_sendto (EvSys (c_write fd bytes) r).
Proof. by intros (? & ? & ? & ?). Qed.

Lemma run_commands_ends n :
  ∀ i buf c resp w,
    post (run_commands E n i buf c resp) w
      (λ _ w', extends_with (λ e, ¬ is_sendto e) w w')
      (aborts_unanswered w).
Proof.
  induction n as [|n IH]; intros i buf c resp w; [done|].
  cbn [run_commands]. destruct (buf !! i) as [b|]; [|done].
  case_decide; [apply post_ret, extends_with_refl|]. cbv zeta.
  case_decide; [apply post_ret, extends_with_refl|].
  case_decide; [|apply post_ret, extends_with_refl].
  case_decide; [apply post_ret, extends_with_refl|].
  apply post_bind, post_arr_get; [|done]. intros fd _.
  apply post_bind, post_ramp_write; [|intros Hr; by apply failed_write_now].
  intros Hr1. set (w1 := set_log _ w).
  assert (Hx1 : extends_with (λ e, ¬ is_sendto e) w w1)
    by apply extends_with_snoc, write_not_sendto.
  apply post_bind, post_ramp_write.
  2:{ intros Hr. eapply failed_write_after_later; [exact Hx1|].
      by apply failed_write_now. }
  intros Hr2. set (w2 := set_log _ w1).
  assert (Hx2 : extends_with (λ e, ¬ is_sendto e) w w2).
  { eapply extends_with_trans; [exact Hx1|].
    apply extends_with_snoc, write_not_sendto. }
  eapply post_mono; [apply IH| |].
  - intros ? w' Hw'. by eapply extends_with_trans.
  - intros [code w'|w'|w'|]; cbn; try done.
    intros Hf. by eapply failed_write_after_later.
Qed.

Lemma serve_once_ends sock buf c w :
  post (serve_once E sock buf c) w (λ _ _, True) (aborts_unanswered w).
Proof.
  unfold serve_once. apply post_bind, post_sys. set (w1 := set_log _ w).
  case_decide; [done|].
  apply post_bind. unfold post at 1, recvfrom. set (w2 := set_log _ w1).
  cbv beta iota. case_decide; [done|].
  assert (Hx2 : extends_with (λ e, ¬ is_sendto e) w w2).
  { eapply extends_with_trans; apply extends_with_snoc; by intros (? & ? & ? & ?). }
  apply post_bind. eapply post_mono; [apply run_commands_ends| |].
  - intros [c' resp'] w3 _. by apply post_bind, post_sys, post_ret.
  - intros [code w'|w'|w'|]; cbn; try done.
    intros Hf. by eapply failed_write_after_later.
Qed.

End AdcRampSilent.

(** X10.  When the server does not answer.  A time-out of [select]
    leaves the buffer and [c] as they were; so does a datagram of fewer
    than 18 bytes, except that its bytes are in the buffer: neither is
    answered.  The server never calls [exit]; when a turn ends in
    [abort], the last thing it did is an SPI write that did not
    complete, and it has not sent a reply. *)
Theorem serve_once_unanswered (E : Env) (sock : Z) (buf : list Z) (c : Z)
    (w : world) :
  let sel := sys_ret E (length (log w)) (c_select sock) in
  let data := recv_bytes E (S (length (log w))) in
  (sel = 0 →
     ∃ w', AdcRamp.serve_once E sock buf c w = Ret (buf, c) w'
           ∧ events_since w w' = [EvSys (c_select sock) 0])
  ∧ (sel ≠ 0 → (length data < 18)%nat →
     ∃ w', AdcRamp.serve_once E sock buf c w
           = Ret (data ++ drop (length data) buf, c) w'
           ∧ events_since w w'
             = [EvSys (c_select sock) sel;
                EvSys (c_recvfrom sock 18) (Z.of_nat (length data))])
  ∧ (∀ code w', AdcRamp.serve_once E sock buf c w ≠ Exit code w')
  ∧ (∀ w', AdcRamp.serve_once E sock buf c w = Abort w' →
       ∃ pre fd bytes r,
         events_since w w' = pre ++ [EvSys (c_write fd bytes) r]
         ∧ r ≠ 3 ∧ Forall (λ e, ¬ is_sendto e) pre).
Proof.
  intros sel data. split; [|split; [|split]].
  - intros Hsel. unfold AdcRamp.serve_once. rewrite bind_sys. fold sel.
    rewrite Hsel. rewrite decide_True by done. eexists. split; [reflexivity|].
    by apply events_since_app.
  - intros Hsel Hshort. unfold AdcRamp.serve_once. rewrite bind_sys. fold sel.
    rewrite decide_False by done.
    unfold mbind at 1, M_bind at 1, AdcRamp.recvfrom. wsimpl.
    rewrite length_app, Nat.add_1_r. fold data.
    rewrite (take_ge data) by (unfold AdcRamp.MSGLEN; lia).
    rewrite decide_True by (unfold AdcRamp.MSGLEN; lia).
    eexists. split; [reflexivity|]. apply events_since_app. wsimpl.
    by rewrite <- app_assoc.
  - intros code w' Hex. pose proof (serve_once_ends E sock buf c w) as Hp.
    unfold post in Hp. by rewrite Hex in Hp.
  - intros w' Hab. pose proof (serve_once_ends E sock buf c w) as Hp.
    unfold post in Hp. rewrite Hab in Hp. cbn in Hp.
    destruct Hp as (pre & fd & bytes & r & Hl & Hr & Hpre).
    exists pre, fd, bytes, r. split; [|done].
    apply events_since_app. by rewrite Hl.
Qed.
(** ** Start-up of the self-test *)

Section Startup.
Import AdcCheckRamp.
Context `{HwDefs} (E : Env).

Lemma databuf_of_range (a : Z) :
  0 ≤ a → a + 12 ≤ 2 ^ 32 →
  a + 4 ≤ databuf_of a ≤ a + 11 ∧ databuf_of a mod 8 = 4
  ∧ (a mod 4 = 0 → databuf_of a ≤ a + 8).
Proof.
  intros Ha Hfit. unfold databuf_of, to_uint32.
  rewrite (Z.mod_small (a + 7)) by lia.
  rewrite Z.shiftr_div_pow2, Z.shiftl_mul_pow2 by lia.
  change (2 ^ 3) with 8.
  rewrite Z.mod_small by lia. lia.
Qed.

Lemma main_unfold fuel :
  main E fuel
  = (exit_if (databuf_of (databuf_addr E) < databuf_addr E
              ∨ databuf_addr E + 4 * 8 ≤ databuf_of (databuf_addr E)
              ∨ Z.land (databuf_of (databuf_addr E)) 7 ≠ 4) EXIT_BUFALIGN;;
     sys E c_sched_setscheduler;;
     verbose ← parse_options E fuel 0;
     for_loop SHWR_RAW_NCH_MAX 0 (λ i,
       modify (λ w, set_adcfd (<[i := -1]> (adcfd w)) w));;
     for_loop SHWR_RAW_NCH_MAX 0 (λ i,
       fd ← openspidev E i;
       spi_init E fd;;
       modify (λ w, set_adcfd (<[i := fd]> (adcfd w)) w));;
     read_evt_init E;;
     main_after_init E fuel).
Proof. reflexivity. Qed.

Lemma alignment_check_passes :
  0 ≤ databuf_addr E → databuf_addr E + 12 ≤ 2 ^ 32 →
  ¬ (databuf_of (databuf_addr E) < databuf_addr E
     ∨ databuf_addr E + 4 * 8 ≤ databuf_of (databuf_addr E)
     ∨ Z.land (databuf_of (databuf_addr E)) 7 ≠ 4).
Proof.
  intros Ha Hfit.
  destruct (databuf_of_range _ Ha Hfit) as (Hd & Hd8 & _).
  change 7 with (Z.ones 3). rewrite Z.land_ones by lia.
  change (2 ^ 3) with 8. lia.
Qed.

Lemma quiet_start_trans w1 w2 w3 :
  quiet_start w1 w2 → quiet_start w2 w3 → quiet_start w1 w3.
Proof.
  intros (He1 & Ha1) (He2 & Ha2). split; [by eapply extends_with_trans|].
  by rewrite Ha2.
Qed.

Ltac code_side :=
  first [ done
        | intros; exact Logic.I
        | vm_compute; intros Hx; discriminate Hx
        | intros c Hc Hx; rewrite Hx in Hc; vm_compute in Hc;
          destruct Hc as [Ha Hb]; first [ by apply Ha | by apply Hb ] ].

Ltac keeps_inst ::= code_side.

(** After the check of the alignment, [main] does not use
    [EXIT_BUFALIGN]; after the command line, it does not use
    [EXIT_NOPER]. *)
Lemma after_alignment fuel :
  keeps (λ _ _, True) (λ code, code ≠ EXIT_BUFALIGN)
    (sys E c_sched_setscheduler;;
     verbose ← parse_options E fuel 0;
     for_loop SHWR_RAW_NCH_MAX 0 (λ i,
       modify (λ w, set_adcfd (<[i := -1]> (adcfd w)) w));;
     for_loop SHWR_RAW_NCH_MAX 0 (λ i,
       fd ← openspidev E i;
       spi_init E fd;;
       modify (λ w, set_adcfd (<[i := fd]> (adcfd w)) w));;
     read_evt_init E;;
     main_after_init E fuel).
Proof.
  unfold read_evt_init.
  repeat first [ apply keeps_read_evt_init; code_side
               | apply keeps_main_after_init; code_side
               | keeps_step ].
Qed.

Lemma after_options fuel :
  keeps (λ _ _, True) (λ code, code ≠ EXIT_NOPER)
    (for_loop SHWR_RAW_NCH_MAX 0 (λ i,
       modify (λ w, set_adcfd (<[i := -1]> (adcfd w)) w));;
     for_loop SHWR_RAW_NCH_MAX 0 (λ i,
       fd ← openspidev E i;
       spi_init E fd;;
       modify (λ w, set_adcfd (<[i := fd]> (adcfd w)) w));;
     read_evt_init E;;
     main_after_init E fuel).
Proof.
  unfold read_evt_init.
  repeat first [ apply keeps_read_evt_init; code_side
               | apply keeps_main_after_init; code_side
               | keeps_step ].
Qed.

(** The command line is read with calls of [getopt] only, and registers
    nothing. *)
Lemma parse_options_quiet fuel :
  ∀ verbose w,
    post (parse_options E fuel verbose) w (λ _ w', quiet_start w w')
      (exit_ends (λ _ w', quiet_start w w')).
Proof.
  induction fuel as [|fuel IH]; intros verbose w; [done|].
  cbn [parse_options]. apply post_bind, post_sys.
  assert (Hq : quiet_start w
                 (set_log (log w ++ [EvSys c_getopt
                                       (sys_ret E (length (log w)) c_getopt)])
                    w)).
  { split; [|done]. apply extends_with_snoc. eexists. by right. }
  repeat case_decide.
  - by apply post_ret.
  - apply post_bind, post_modify.
    eapply post_mono; [apply IH| |].
    + intros ? w'. by apply quiet_start_trans.
    + intros [code w'|w'|w'|]; cbn; try done. by apply quiet_start_trans.
  - eapply post_mono; [apply IH| |].
    + intros ? w'. by apply quiet_start_trans.
    + intros [code w'|w'|w'|]; cbn; try done. by apply quiet_start_trans.
  - by apply post_exit.
Qed.

Lemma main_usage_exit fuel w :
  post (main E fuel) w (λ _ _, True)
    (exit_ends (λ code w', code = EXIT_NOPER → quiet_start w w')).
Proof.
  rewrite main_unfold.
  apply post_bind, post_exit_if; [by intros _ Hx|intros _].
  apply post_bind, post_sys. apply post_bind.
  assert (Hq : quiet_start w
                 (set_log (log w ++ [EvSys c_sched_setscheduler
                            (sys_ret E (length (log w)) c_sched_setscheduler)])
                    w)).
  { split; [|done]. apply extends_with_snoc. eexists. by left. }
  eapply post_mono; [apply parse_options_quiet| |].
  - intros verbose w2 ?.
    eapply post_mono; [apply after_options|done|].
    intros [code w3|w3|w3|]; cbn; try done. by intros [Hne _] Heq.
  - intros [code w3|w3|w3|]; cbn; try done.
    intros Hq2 _. by eapply quiet_start_trans.
Qed.

Lemma main_usage_run fuel w :
  0 ≤ databuf_addr E → databuf_addr E + 12 ≤ 2 ^ 32 →
  sys_ret E (S (length (log w))) c_getopt ≠ -1 →
  sys_ret E (S (length (log w))) c_getopt ≠ 100 →
  sys_ret E (S (length (log w))) c_getopt ≠ 118 →
  ∃ w', main E (S fuel) w = Exit EXIT_NOPER w'
        ∧ events_since w w'
          = [EvSys c_sched_setscheduler
               (sys_ret E (length (log w)) c_sched_setscheduler);
             EvSys c_getopt (sys_ret E (S (length (log w))) c_getopt)].
Proof.
  intros Ha Hfit H1 H2 H3. rewrite main_unfold.
  rewrite bind_exit_if_false by by apply alignment_check_passes.
  rewrite bind_sys. cbn [parse_options].
  eexists. split.
  - unfold mbind at 1, M_bind. rewrite bind_sys.
    replace (length (log (set_log _ w))) with (S (length (log w)))
      by (cbn; rewrite length_app; cbn; lia).
    rewrite !decide_False by done. reflexivity.
  - apply events_since_app. cbn. by rewrite <- app_assoc.
Qed.

End Startup.

(** X11.  [main] moves [databuf] to the first address after [_databuf]
    that is 4 more than a multiple of 8.  Wherever [_databuf] lies (but
    not at the very end of the 32-bit address space), the check that
    follows passes, so that the self-test never ends with
    [EXIT_BUFALIGN]; and as [_databuf] is an array of words, [databuf]
    is at most two words further, so that [DATASIZE] words from
    [databuf] lie inside [_databuf[DATASIZE + 2]]. *)
Theorem databuf_alignment `{HwDefs} (E : Env) (fuel : nat) (w : world) :
  0 ≤ databuf_addr E →
  databuf_addr E + 4 * (Z.of_nat AdcCheckRamp.DATASIZE + 2) ≤ 2 ^ 32 →
  (databuf_of (databuf_addr E) mod 8 = 4
   ∧ databuf_addr E < databuf_of (databuf_addr E) ≤ databuf_addr E + 11)
  ∧ (databuf_addr E mod 4 = 0 →
     databuf_of (databuf_addr E) + 4 * Z.of_nat AdcCheckRamp.DATASIZE
     ≤ databuf_addr E + 4 * (Z.of_nat AdcCheckRamp.DATASIZE + 2))
  ∧ (∀ status wf,
       AdcCheckRamp.run_process E (AdcCheckRamp.main E fuel) w
       = Exit status wf →
       status ≠ AdcCheckRamp.EXIT_BUFALIGN).
Proof.
  intros Ha Hfit.
  assert (HD : 1 ≤ Z.of_nat AdcCheckRamp.DATASIZE) by (vm_compute; discriminate).
  assert (Hfit' : databuf_addr E + 12 ≤ 2 ^ 32) by lia.
  destruct (databuf_of_range _ Ha Hfit') as (Hd & Hd8 & Hd4).
  split; [split; [done|lia]|]. split; [intros Hmod; specialize (Hd4 Hmod); lia|].
  intros status wf Hrun.
  pose proof (main_returns_evaluation E fuel w) as Hret.
  assert (Hmain : post (AdcCheckRamp.main E fuel) w (λ _ _, True)
            (halts_within (λ _ _, True)
               (λ code, code ≠ AdcCheckRamp.EXIT_BUFALIGN) w)).
  { unfold post. rewrite main_unfold.
    rewrite bind_exit_if_false by by apply alignment_check_passes.
    exact (after_alignment E fuel w). }
  unfold AdcCheckRamp.run_process in Hrun. unfold post in Hret, Hmain.
  destruct (AdcCheckRamp.main E fuel w) as [code w'|code w'|w'|w'|];
    try done; apply run_atexit_statuses in Hrun as [->| ->]; try done.
  - apply evaluate_ramp_bound in Hret. vm_compute. lia.
  - by destruct Hmain.
Qed.

Lemma databuf_alignment_witness :
  0 ≤ databuf_addr env_ok
  ∧ databuf_addr env_ok + 4 * (Z.of_nat AdcCheckRamp.DATASIZE + 2) ≤ 2 ^ 32
  ∧ databuf_of (databuf_addr env_ok) = databuf_addr env_ok + 4
  ∧ (databuf_addr env_ok mod 4 = 0 →
     databuf_of (databuf_addr env_ok) + 4 * Z.of_nat AdcCheckRamp.DATASIZE
     ≤ databuf_addr env_ok + 4 * (Z.of_nat AdcCheckRamp.DATASIZE + 2))
  ∧ (∀ status wf,
       AdcCheckRamp.run_process (H := sample_defs) env_ok
         (AdcCheckRamp.main (H := sample_defs) env_ok 3) w_init
       = Exit status wf →
       status ≠ AdcCheckRamp.EXIT_BUFALIGN).
Proof.
  assert (Ha : 0 ≤ databuf_addr env_ok) by (vm_compute; discriminate).
  assert (Hfit : databuf_addr env_ok
                 + 4 * (Z.of_nat AdcCheckRamp.DATASIZE + 2) ≤ 2 ^ 32)
    by (vm_compute; discriminate).
  split; [exact Ha|]. split; [exact Hfit|]. split; [reflexivity|].
  exact (proj2 (databuf_alignment (H := sample_defs) env_ok 3 w_init Ha Hfit)).
Defined.

(** X12.  When the self-test ends in [main] with [EXIT_NOPER], it has
    called nothing but [sched_setscheduler] and [getopt] and has
    registered nothing with [atexit]: no device was opened, nothing was
    mapped and no register written.  That is how it ends at the first
    option that is not [-d] or [-v] ([-V], [-h] or an unknown one). *)
Theorem usage_exit_before_devices `{HwDefs} (E : Env) (fuel : nat)
    (w : world) :
  (∀ w', AdcCheckRamp.main E fuel w = Exit AdcCheckRamp.EXIT_NOPER w' →
         Forall before_devices (events_since w w')
         ∧ atexit_list w' = atexit_list w)
  ∧ (0 ≤ databuf_addr E → databuf_addr E + 12 ≤ 2 ^ 32 →
     sys_ret E (S (length (log w))) c_getopt ∉ [-1; 100; 118] →
     ∃ w', AdcCheckRamp.main E (S fuel) w = Exit AdcCheckRamp.EXIT_NOPER w'
           ∧ events_since w w'
             = [EvSys c_sched_setscheduler
                  (sys_ret E (length (log w)) c_sched_setscheduler);
                EvSys c_getopt (sys_ret E (S (length (log w))) c_getopt)]).
Proof.
  split.
  - intros w' Hmain.
    pose proof (main_usage_exit E fuel w) as Hp.
    eapply post_exit_inv in Hp; [|exact Hmain]. cbn in Hp.
    destruct (Hp eq_refl) as (Hext & Hat).
    split; [by apply extends_with_events|done].
  - intros Ha Hfit Hopt.
    apply main_usage_run; try done; intros Heq; apply Hopt; rewrite Heq;
      apply list_elem_of_In; cbn; tauto.
Qed.
(** ** A datagram that is not taken whole *)

Section ShortSend.
Import Netscope.
Context (E : Env) (sock : Z).

Lemma send_fragments_stops id :
  ∀ fuel start end_ w,
    length (workbuf w) = WBUFSIZE → loop_head fuel start end_ →
    match send_fragments E fuel sock id start end_ w with
    | Ret _ w' => ∃ frags, log w' = log w ++ map (sent sock) frags
    | Exit code w' =>
        code = 1
        ∧ ∃ frags bytes r,
            log w' = log w ++ map (sent sock) frags
                     ++ [EvSys (c_sendto sock bytes) r]
            ∧ r ≠ Z.of_nat (length bytes)
    | _ => False
    end.
Proof.
  pose proof sizes as (HW & HD & HP & HF).
  induction fuel as [|fuel IH]; intros start end_ w Hlen Hhead.
  { unfold loop_head in Hhead. lia. }
  rewrite send_fragments_unfold. case_decide as Hrun.
  2:{ exists []. cbn [map]. by rewrite app_nil_r. }
  assert (Hmod : (start mod 1392 = 0)%nat)
    by (unfold loop_head in Hhead; lia).
  assert (Hs8 : (start + FRAG_HEADER_SIZE < WBUFSIZE)%nat)
    by (unfold loop_head in Hhead; lia).
  cbv zeta.
  set (end1 := if decide (WBUFSIZE < start + PACKETSIZE)%nat then WBUFSIZE
               else (start + PACKETSIZE)%nat).
  assert (Hend1 : (start + FRAG_HEADER_SIZE < end1 ≤ WBUFSIZE
                   ∧ end1 ≤ start + PACKETSIZE)%nat).
  { unfold end1. case_decide; lia. }
  set (fh := frag_header_bytes id _ _).
  assert (Hfh : length fh = 8%nat) by apply length_frag_header.
  rewrite bind_gets.
  destruct (store_some (workbuf w) start fh) as (buf1 & Hst & Hl1); [lia|].
  rewrite Hst, bind_modify, bind_sys.
  cbn [log set_workbuf].
  set (pkt := take (end1 - start) (drop start buf1)).
  assert (Hpkt : length pkt = (end1 - start)%nat).
  { unfold pkt. rewrite length_take, length_drop. lia. }
  set (r := sys_ret E (length (log w)) (c_sendto sock pkt)).
  set (w2 := set_log _ _).
  assert (Hlog2 : log w2 = log w ++ [EvSys (c_sendto sock pkt) r]) by done.
  assert (Hlen2 : length (workbuf w2) = WBUFSIZE)
    by (unfold w2; wsimpl; lia).
  assert (Hhead2 : loop_head fuel (end1 - FRAG_HEADER_SIZE) end1).
  { right. unfold loop_head in Hhead. unfold end1 in *. case_decide; lia. }
  clearbody w2 end1 pkt r fh.
  destruct (decide (r = Z.of_nat (end1 - start))) as [Hr|Hr].
  - rewrite bind_exit_if_false by (intros Hx; by apply Hx).
    specialize (IH (end1 - FRAG_HEADER_SIZE)%nat end1 w2 Hlen2 Hhead2).
    destruct (send_fragments E fuel sock id (end1 - FRAG_HEADER_SIZE) end1 w2)
      as [[] w3|code w3|w3|w3|]; try done.
    + destruct IH as (frags & Hev). exists (pkt :: frags).
      rewrite Hev, Hlog2, <- app_assoc. cbn [map app]. unfold sent at 2.
      by rewrite Hpkt, <- Hr.
    + destruct IH as (Hcode & frags & bytes & r' & Hev & Hr').
      split; [done|]. exists (pkt :: frags), bytes, r'. split; [|done].
      rewrite Hev, Hlog2, <- app_assoc. cbn [map app]. unfold sent at 2.
      by rewrite Hpkt, <- Hr.
  - unfold mbind, M_bind, exit_if. rewrite decide_True by done.
    unfold exit.
    split; [done|]. exists [], pkt, r. split; [by rewrite Hlog2|].
    by rewrite Hpkt.
Qed.

End ShortSend.

(** X13.  [senddata] checks every [sendto]: with [workbuf] of its
    declared size, the call either returns, and then it has sent only
    datagrams that were taken whole, or ends the process with status 1
    right after the first [sendto] that did not return the size of its
    datagram, nothing being sent after it.  It does nothing else. *)
Theorem senddata_stops_at_short_send (E : Env) (sock : Z) (w : world) :
  length (workbuf w) = Netscope.WBUFSIZE →
  match Netscope.senddata E sock w with
  | Ret _ w' => ∃ frags, events_since w w' = map (sent sock) frags
  | Exit code w' => stops_short sock w code w'
  | _ => False
  end.
Proof.
  intros Hlen. unfold Netscope.senddata.
  rewrite bind_gets, bind_modify, bind_gets, bind_sys. cbn [log set_sh sh].
  set (h := Netscope.set_id _ _).
  set (r := sys_ret E (length (log w)) (c_sendto sock (Netscope.shwr_header_bytes h))).
  set (w1 := set_log _ _).
  assert (Hlog1 : log w1
                  = log w ++ [EvSys (c_sendto sock (Netscope.shwr_header_bytes h)) r])
    by done.
  assert (Hlen1 : length (workbuf w1) = Netscope.WBUFSIZE) by done.
  clearbody w1 r.
  destruct (decide (r = Z.of_nat Netscope.SHWR_HEADER_SIZE)) as [Hr|Hr].
  - rewrite bind_exit_if_false by (intros Hx; by apply Hx).
    pose proof (send_fragments_stops E sock (id (sh w)) Netscope.WBUFSIZE 0 0 w1 Hlen1) as Hs.
    destruct (Netscope.send_fragments E Netscope.WBUFSIZE sock (id (sh w)) 0 0 w1)
      as [[] w3|code w3|w3|w3|]; try (apply Hs; by left).
    + destruct Hs as (frags & Hev); [by left|].
      exists (Netscope.shwr_header_bytes h :: frags). apply events_since_app.
      rewrite Hev, Hlog1, <- app_assoc. cbn [map app]. unfold sent at 2.
      by rewrite length_shwr_header_bytes, <- Hr.
    + destruct Hs as (Hcode & frags & bytes & r' & Hev & Hr'); [by left|].
      split; [done|]. exists (Netscope.shwr_header_bytes h :: frags), bytes, r'.
      split; [|done]. apply events_since_app.
      rewrite Hev, Hlog1, <- app_assoc. cbn [map app]. unfold sent at 2.
      by rewrite length_shwr_header_bytes, <- Hr.
  - unfold mbind, M_bind, exit_if. rewrite decide_True by done.
    unfold exit.
    split; [done|]. exists [], (Netscope.shwr_header_bytes h), r.
    split; [by apply events_since_app|].
    by rewrite length_shwr_header_bytes.
Qed.

Lemma senddata_stops_at_short_send_witness :
  length (workbuf w_event) = Netscope.WBUFSIZE
  ∧ ∃ w', Netscope.senddata
            (env_send_fails_at (length (log w_event) + 2)) 5 w_event
          = Exit 1 w'
          ∧ stops_short 5 w_event 1 w'
          ∧ length (events_since w_event w') = 3%nat.
Proof.
  assert (Hlen : length (workbuf w_event) = Netscope.WBUFSIZE).
  { unfold w_event. cbn [workbuf set_workbuf].
    by rewrite length_map, length_offsets. }
  split; [exact Hlen|].
  pose proof (senddata_stops_at_short_send
                (env_send_fails_at (length (log w_event) + 2)) 5 w_event Hlen)
    as Hs.
  destruct (outcome_exits_with
              (Netscope.senddata
                 (env_send_fails_at (length (log w_event) + 2)) 5 w_event)
              (λ code w', code = 1
                          ∧ length (events_since w_event w') = 3%nat))
    as (code & w' & Hrun & -> & Hn); [vm_compute; split; reflexivity|].
  rewrite Hrun in Hs. exists w'. split; [exact Hrun|]. split; [exact Hs|exact Hn].
Defined.
(** ** A run of the self-test in which no event arrives *)

Section AfterKeepsAny.
Context (I : world → world → Prop) (X : Z → Prop).
Hypothesis I_trans : ∀ w1 w2 w3, I w1 w2 → I w2 w3 → I w1 w3.

Lemma post_after_keeps_any {A B} (m : M A) (k : A → M B) w0 w
    (Q : B → world → Prop) :
  keeps I X m → I w0 w →
  (∀ a w1, I w0 w1 → post (k a) w1 Q (λ _, True)) →
  post (m ≫= k) w Q (λ _, True).
Proof.
  intros Hm Hw Hk. apply post_bind. specialize (Hm w).
  eapply post_mono; [exact Hm| |done].
  intros a w1 Hw1. apply Hk. by eapply I_trans.
Qed.

End AfterKeepsAny.

Section NoEvent.
Import AdcCheckRamp.
Context `{HwDefs} (E : Env).

Lemma log_grows_refl w : log_grows w w.
Proof. exists []. by rewrite app_nil_r. Qed.

Lemma log_grows_trans w1 w2 w3 :
  log_grows w1 w2 → log_grows w2 w3 → log_grows w1 w3.
Proof.
  intros (e1 & H1) (e2 & H2). exists (e1 ++ e2). by rewrite H2, H1, app_assoc.
Qed.

Lemma untouched_refl w : untouched w w.
Proof. repeat split. apply log_grows_refl. Qed.

Lemma untouched_trans w1 w2 w3 :
  untouched w1 w2 → untouched w2 w3 → untouched w1 w3.
Proof.
  intros (Hd1 & Hs1 & Ht1 & Hl1) (Hd2 & Hs2 & Ht2 & Hl2).
  split; [congruence|]. split; [congruence|]. split; [congruence|].
  by eapply log_grows_trans.
Qed.

Lemma events_since_later w w1 w2 wm e :
  e ∈ events_since w1 w2 → log_grows w w1 → log_grows w2 wm →
  e ∈ events_since w wm.
Proof.
  unfold events_since. intros Hin (e1 & H1) (e2 & H2).
  apply list_elem_of_lookup in Hin as (i & Hi). rewrite lookup_drop in Hi.
  apply list_elem_of_lookup. exists (length (log w1) - length (log w) + i)%nat.
  rewrite lookup_drop, H2. apply lookup_app_l_Some.
  rewrite <- Hi. f_equal. rewrite H1, length_app. lia.
Qed.

Lemma id_event_in_drain rg rt rs st h n :
  EvIdCounter n ∈ drain_events rg rt rs st h n.
Proof.
  unfold drain_events. apply elem_of_app. right. apply elem_of_app. right.
  repeat first [ apply list_elem_of_here | apply list_elem_of_further ].
Qed.

(** With every sample 0, the ramp is broken at sample 1 in every
    channel pair. *)
Lemma evaluate_ramp_zero (tr : Trace) :
  trace_shape tr →
  (∀ c i, (c < 5)%nat → (i < 2048)%nat →
     tget tr (2 * c) i = Some 0 ∧ tget tr (2 * c + 1) i = Some 0) →
  evaluate_ramp tr = Some 31.
Proof.
  intros Hsh Hzero.
  assert (Hu : trace_uint16 tr).
  { apply trace_uint16_pointwise; [done|]. intros ch i v Hg.
    assert (Hch : (ch < 10)%nat ∧ (i < 2048)%nat).
    { destruct Hsh as (Hlen & Hrows). unfold tget in Hg.
      apply bind_Some in Hg as (row & Hrow & Hv).
      pose proof (lookup_lt_Some _ _ _ Hrow) as Hlt.
      pose proof (lookup_lt_Some _ _ _ Hv) as Hlt2.
      rewrite Forall_lookup in Hrows. rewrite (Hrows _ _ Hrow) in Hlt2.
      rewrite Hlen in Hlt.
      unfold SHWR_NCH_MAX, SHWR_RAW_NCH_MAX, SHWR_NSAMPLES in *. lia. }
    destruct (Hzero (ch / 2)%nat i) as (He & Ho); [lia|lia|].
    destruct (decide (ch mod 2 = 0)%nat).
    - replace (2 * (ch / 2))%nat with ch in He by lia. rewrite He in Hg.
      injection Hg as <-. lia.
    - replace (2 * (ch / 2) + 1)%nat with ch in Ho by lia. rewrite Ho in Hg.
      injection Hg as <-. lia. }
  destruct (evaluate_ramp_bits tr Hsh Hu) as (r & Heq & Hr0 & Hhi & Hbits).
  rewrite Heq. f_equal. apply Z.bits_inj'. intros j Hj.
  change 31 with (Z.ones 5).
  destruct (decide (5 ≤ j)) as [H5|H5].
  { rewrite Hhi by done. by rewrite Z.ones_spec_high by lia. }
  rewrite Z.ones_spec_low by lia.
  replace j with (Z.of_nat (Z.to_nat j)) by lia.
  apply Hbits; [lia|].
  destruct (Hzero (Z.to_nat j) 0%nat) as (He0 & _); [lia|lia|].
  destruct (Hzero (Z.to_nat j) 1%nat) as (He1 & Ho1); [lia|lia|].
  exists 0, 1%nat. split; [done|]. split; [lia|].
  exists 0, 0. split; [done|]. split; [done|]. right. done.
Qed.

(** The end of [main], from [convert_databuf] on, on a staging buffer of
    zeros *)
Lemma main_tail_on_zeros w :
  databuf w = replicate DATASIZE 0 → shwr_buf_start (sh w) = 0 →
  trace_shape (traces w) →
  post (convert_databuf_globals;;
        fn ← gets adc_trace_fn;
        (if fn : bool then sys E c_dump_trace;; mret tt else mret tt);;
        result ← evaluate_ramp_globals;
        mret result) w
    (λ code _, code = 31) (λ _, True).
Proof.
  intros Hbuf Hstart Hshape.
  destruct (convert_databuf_rotation (databuf w) (traces w) 0)
    as (tr & Heq & Hsh & Hval).
  { rewrite Hbuf. apply length_replicate. }
  { done. }
  { unfold SHWR_NSAMPLES. lia. }
  assert (Hev : evaluate_ramp tr = Some 31).
  { apply evaluate_ramp_zero; [done|]. intros c i Hc Hi.
    destruct (Hval c i Hc Hi) as (Hk & word & Hw & He & Ho).
    rewrite Hbuf in Hw. apply lookup_replicate in Hw as [-> _].
    by rewrite He, Ho. }
  apply post_bind. unfold post at 1, convert_databuf_globals.
  rewrite Hstart. change (Z.to_nat 0) with 0%nat. rewrite Heq.
  apply post_bind, post_gets.
  assert (Hend : ∀ w', traces w' = tr →
            post (result ← evaluate_ramp_globals; mret result) w'
              (λ code _, code = 31) (λ _, True)).
  { intros w' Htr. apply post_bind. unfold post at 1, evaluate_ramp_globals.
    rewrite Htr, Hev. by apply post_ret. }
  destruct (adc_trace_fn _).
  - apply post_bind, post_bind, post_sys, post_ret. by apply Hend.
  - apply post_bind, post_ret. by apply Hend.
Qed.

Ltac ut_side :=
  first [ exact untouched_refl | exact untouched_trans
        | exact log_grows_refl | exact log_grows_trans
        | intros; exact Logic.I
        | intros; unfold untouched, log_grows; split_and?;
          first [ reflexivity | by eexists
                | by (exists []; rewrite app_nil_r) ] ].

Ltac keeps_inst ::= ut_side.

Lemma main_without_event fuel w :
  databuf w = replicate DATASIZE 0 → shwr_buf_start (sh w) = 0 →
  trace_shape (traces w) →
  post (main E fuel) w
    (λ code wm, (∀ n, EvIdCounter n ∉ events_since w wm) → code = 31)
    (λ _, True).
Proof.
  intros Hbuf Hstart Hshape.
  unfold main, read_evt_init, main_after_init. cbv zeta.
  repeat lazymatch goal with
  | |- post (read_evt_read _ _ ≫= _) _ _ _ => fail
  | |- post (_ ≫= _) _ _ _ =>
      apply (post_after_keeps_any untouched (λ _, True) untouched_trans
               _ _ w);
        [ first [ apply keeps_read_evt_init; ut_side
                | solve [repeat keeps_step] ]
        | first [ assumption | apply untouched_refl ]
        | intros ? ? ? ]
  end.
  lazymatch goal with
  | Hu : untouched w ?w1 |- post (read_evt_read _ _ ≫= _) ?w1 _ _ =>
      destruct Hu as (Hd1 & Hs1 & Ht1 & Hl1)
  end.
  apply post_bind. eapply post_mono; [apply adc_read_evt_read_post| |done].
  intros r wr (waits & Hwaits & [(t0 & t1 & -> & Hdr)|(-> & Hto & Hev)]).
  - lazymatch goal with
    | |- post ?m _ _ _ =>
        assert (Hk : keeps log_grows (λ _, True) m) by (repeat keeps_step)
    end.
    eapply post_mono; [apply Hk| |done]. intros code wm Hlg Hno. exfalso.
    destruct Hdr as (rg & rt & rs & st & _ & _ & _ & _ & _ & _ & Hevs).
    eapply Hno, events_since_later; [|exact Hl1|exact Hlg].
    rewrite Hevs. apply elem_of_app. right. apply elem_of_app. left.
    apply id_event_in_drain.
  - destruct Hto as (Hw2 & _).
    eapply post_mono; [apply main_tail_on_zeros| |done].
    + rewrite Hw2. cbn [databuf set_log]. by rewrite Hd1.
    + rewrite Hw2. cbn [sh set_log]. by rewrite Hs1.
    + rewrite Hw2. cbn [traces set_log]. by rewrite Ht1.
    + intros code wm -> _. done.
Qed.

End NoEvent.

(** X14.  The self-test started with the staging buffer and the header
    still zero, as they are at program start: when [main] returns
    without having taken an event from the buffers (the wait in
    [read_evt_read] ended without a trigger), it returns 31.
    [convert_databuf] and [evaluate_ramp] run all the same, on the zeros,
    and a missing event is reported as a failure of all five devices. *)
Theorem no_event_reports_all_failing `{HwDefs} (E : Env) (fuel : nat)
    (w : world) :
  databuf w = replicate AdcCheckRamp.DATASIZE 0 →
  shwr_buf_start (sh w) = 0 →
  trace_shape (traces w) →
  match AdcCheckRamp.main E fuel w with
  | Ret status wm =>
      (∀ n, EvIdCounter n ∉ events_since w wm) → status = 31
  | _ => True
  end.
Proof.
  intros Hbuf Hstart Hshape.
  pose proof (main_without_event E fuel w Hbuf Hstart Hshape) as Hp.
  unfold post in Hp. by destruct (AdcCheckRamp.main E fuel w).
Qed.

Lemma no_event_reports_all_failing_witness :
  databuf w_init = replicate AdcCheckRamp.DATASIZE 0
  ∧ shwr_buf_start (sh w_init) = 0
  ∧ trace_shape (traces w_init)
  ∧ match AdcCheckRamp.main (H := sample_defs) env_no_event 3 w_init
          return Prop with
    | Ret status wm =>
        (∀ n, EvIdCounter n ∉ events_since w_init wm) → status = 31
    | _ => True
    end.
Proof.
  split; [reflexivity|]. split; [reflexivity|]. split; [exact blank_traces_shape|].
  exact (no_event_reports_all_failing (H := sample_defs) env_no_event 3 w_init
           eq_refl eq_refl blank_traces_shape).
Defined.
(** ** What runs at exit *)

Section EarlyExit.
Import AdcCheckRamp.
Context `{HwDefs} (E : Env).

Lemma same_atexit_refl w : same_atexit w w.
Proof. done. Qed.

Lemma same_atexit_trans w1 w2 w3 :
  same_atexit w1 w2 → same_atexit w2 w3 → same_atexit w1 w3.
Proof. unfold same_atexit. congruence. Qed.

Ltac sa_side :=
  first [ exact same_atexit_refl | exact same_atexit_trans
        | intros; exact Logic.I
        | intros; reflexivity ].

Ltac keeps_inst ::= sa_side.

Ltac not_registered :=
  let Hin := fresh in
  intros Hin;
  repeat (apply elem_of_cons in Hin as [Hin|Hin]; [discriminate Hin|]);
  by apply elem_of_nil in Hin.

Ltac reg_step w0 :=
  lazymatch goal with
  | Hcur : atexit_list ?wc = ?l ++ atexit_list w0
    |- post (atexit ?h ≫= _) ?wc _ _ =>
      apply post_bind, post_modify;
      let Hn := fresh "Hcur" in
      assert (Hn : atexit_list (set_atexit_list (h :: atexit_list wc) wc)
                   = (h :: l) ++ atexit_list w0)
        by (cbn [atexit_list set_atexit_list]; rewrite Hcur; reflexivity);
      clear Hcur
  | Hcur : atexit_list ?wc = ?l ++ atexit_list w0
    |- post (_ ≫= _) ?wc _ _ =>
      eapply (post_after_keeps_to same_atexit (λ _, True) same_atexit_trans
                _ _ wc wc);
        [ first [ apply keeps_read_evt_init; sa_side
                | solve [repeat keeps_step] ]
        | reflexivity
        | let Hs := fresh in
          intros ? ? _ Hs; exists l; split;
            [by rewrite Hs|not_registered]
        | let a := fresh in
          let w1 := fresh "w" in
          let Hs := fresh in
          let Hn := fresh "Hcur" in
          intros a w1 Hs;
          assert (Hn : atexit_list w1 = l ++ atexit_list w0)
            by (rewrite Hs; exact Hcur);
          clear Hcur Hs ]
  end.

(** What is registered when [main] ends: all three functions when it
    returns, [adc_normal] not among them when it calls [exit]. *)
Lemma main_registrations fuel w :
  post (main E fuel) w
    (λ _ wm, atexit_list wm
             = h_adc_normal :: h_restore_trigger :: h_read_evt_end
               :: atexit_list w)
    (exit_ends (λ _ w', ∃ l, atexit_list w' = l ++ atexit_list w
                             ∧ h_adc_normal ∉ l)).
Proof.
  unfold main, read_evt_init, main_after_init. cbv zeta.
  assert (Hcur : atexit_list w = [] ++ atexit_list w) by done.
  repeat lazymatch goal with
         | |- post (atexit h_adc_normal ≫= _) _ _ _ => fail
         | _ => reg_step w
         end.
  apply post_bind, post_modify.
  lazymatch goal with
  | |- post ?m _ _ _ =>
      assert (Hk : keeps same_atexit (λ _, False) m) by (repeat keeps_step)
  end.
  eapply post_mono; [apply Hk| |].
  - intros code wm Hs. rewrite Hs. cbn [atexit_list set_atexit_list].
    by rewrite Hcur.
  - intros [code w'|w'|w'|]; cbn; try done. by intros [[] _].
Qed.

(** *** The functions registered before [adc_normal] make no SPI
    transaction and do not call [exit] *)

Section UnmapsOnly.
Context (P : event → Prop) (X : Z → Prop).
Hypothesis P_munmap : ∀ r size ret, P (EvSys (c_munmap r size) ret).

Lemma keeps_munmap_only r size : keeps (extends_with P) X (munmap E r size).
Proof.
  intros w. unfold munmap. apply post_bind, post_sys, post_modify.
  eexists [_]. split; [reflexivity|].
  constructor; [apply P_munmap|constructor].
Qed.

Lemma keeps_read_evt_end_only :
  keeps (extends_with P) X (ReadEvt.read_evt_end E).
Proof.
  unfold ReadEvt.read_evt_end.
  repeat first [ apply keeps_munmap_only
               | apply keeps_bind;
                   [exact (extends_with_trans P)| |intros ?]
               | apply keeps_gets; exact (extends_with_refl P)
               | apply keeps_ret; exact (extends_with_refl P)
               | apply keeps_arr_get; exact (extends_with_refl P)
               | apply keeps_for_loop;
                   [exact (extends_with_refl P)
                   |exact (extends_with_trans P)|intros ?]
               | lazymatch goal with
                 | |- keeps _ _ (match ?x with _ => _ end) => destruct x
                 end ].
Qed.

End UnmapsOnly.

Lemma not_spi_write_munmap r size ret :
  not_spi_write (EvSys (c_munmap r size) ret).
Proof. intros fd (bytes & r' & Heq). discriminate Heq. Qed.

Lemma not_spi_write_reg r addr v : not_spi_write (EvWrite r addr v).
Proof. intros fd (bytes & r' & Heq). discriminate Heq. Qed.

Lemma keeps_reg_write_quiet (X : Z → Prop) p addr v :
  keeps (extends_with not_spi_write) X (reg_write p addr v).
Proof.
  intros w. apply post_reg_write; [apply extends_with_refl|].
  intros r _. apply extends_with_snoc, not_spi_write_reg.
Qed.

Lemma handler_quiet h :
  h ≠ h_adc_normal →
  keeps (extends_with not_spi_write) (λ _, False) (run_handler E h).
Proof.
  intros Hh. destruct h; [| |done]; cbn [run_handler].
  - apply keeps_read_evt_end_only, not_spi_write_munmap.
  - unfold restore_trigger.
    repeat first [ apply keeps_reg_write_quiet
                 | apply keeps_bind;
                     [exact (extends_with_trans not_spi_write)| |intros ?]
                 | apply keeps_gets; exact (extends_with_refl not_spi_write)
                 | apply keeps_ret; exact (extends_with_refl not_spi_write)
                 | lazymatch goal with
                   | |- keeps _ _ (match ?x with _ => _ end) => destruct x
                   end ].
Qed.

Lemma run_atexit_quiet hs :
  h_adc_normal ∉ hs →
  ∀ code w status wf,
    run_atexit E hs code w = Exit status wf →
    status = code ∧ extends_with not_spi_write w wf.
Proof.
  induction hs as [|h hs IH]; intros Hn code w status wf Hrun.
  - cbn in Hrun. injection Hrun as -> ->. split; [done|].
    apply extends_with_refl.
  - cbn [run_atexit] in Hrun.
    apply not_elem_of_cons in Hn as (Hh & Hn).
    pose proof (handler_quiet h (not_eq_sym Hh) (set_atexit_list hs w)) as Hq.
    unfold post in Hq.
    destruct (run_handler E h (set_atexit_list hs w)) as [[] w1|c w1|w1|w1|];
      try done; [|by destruct Hq].
    destruct (IH Hn _ _ _ _ Hrun) as (-> & Hext). split; [done|].
    eapply extends_with_trans; [|exact Hext]. exact Hq.
Qed.

End EarlyExit.

(** X15.  In the self-test [adc_normal], which puts the ADCs back into
    normal mode and closes them, is registered last and only after
    [adc_settestmode(RAMPON)] has returned, and [main] never calls [exit]
    after that.  So when [main] returns, all three functions are
    registered and [adc_normal] runs first; but whenever [main] ends by
    [exit] (a failed start-up, or an SPI write that fails while the ramp
    pattern is being switched on), [adc_normal] is not registered: the
    exit status is the one [main] gave, and no SPI transaction is made on
    the way out, so devices already switched to the ramp pattern stay in
    it. *)
Theorem early_exit_skips_adc_normal `{HwDefs} (E : Env) (fuel : nat)
    (w : world) :
  h_adc_normal ∉ atexit_list w →
  (∀ code wm,
     AdcCheckRamp.main E fuel w = Ret code wm →
     atexit_list wm
     = h_adc_normal :: h_restore_trigger :: h_read_evt_end :: atexit_list w)
  ∧ (∀ code w',
       AdcCheckRamp.main E fuel w = Exit code w' →
       (h_adc_normal ∉ atexit_list w')
       ∧ ∀ status wf,
           AdcCheckRamp.run_process E (AdcCheckRamp.main E fuel) w
           = Exit status wf →
           status = code ∧ Forall not_spi_write (events_since w' wf)).
Proof.
  intros Hn. pose proof (main_registrations E fuel w) as Hp. split.
  - intros code wm Hmain. eapply post_ret_inv in Hp; [exact Hp|exact Hmain].
  - intros code w' Hmain.
    eapply post_exit_inv in Hp; [|exact Hmain].
    destruct Hp as (l & Hl & Hnl).
    assert (Hn' : h_adc_normal ∉ atexit_list w').
    { rewrite Hl. intros Hin. apply elem_of_app in Hin as [Hin|Hin]; done. }
    split; [exact Hn'|]. intros status wf Hrun.
    unfold AdcCheckRamp.run_process in Hrun. rewrite Hmain in Hrun.
    destruct (run_atexit_quiet E _ Hn' _ _ _ _ Hrun) as (-> & Hext).
    split; [done|]. by apply extends_with_events.
Qed.

Lemma early_exit_skips_adc_normal_witness :
  (h_adc_normal ∉ atexit_list w_init)
  ∧ ∃ w',
      AdcCheckRamp.main (H := sample_defs) env_spi_broken 3 w_init
      = Exit AdcCheckRamp.EXIT_SPIWRITE w'
      ∧ failedadcfd w' = 4
      ∧ atexit_list w' = [h_restore_trigger; h_read_evt_end]
      ∧ ∀ status wf,
          AdcCheckRamp.run_process (H := sample_defs) env_spi_broken
            (AdcCheckRamp.main (H := sample_defs) env_spi_broken 3) w_init
          = Exit status wf →
          status = AdcCheckRamp.EXIT_SPIWRITE
          ∧ Forall not_spi_write (events_since w' wf).
Proof.
  assert (Hn : h_adc_normal ∉ atexit_list w_init) by apply not_elem_of_nil.
  split; [exact Hn|].
  destruct (outcome_exits_with
              (AdcCheckRamp.main (H := sample_defs) env_spi_broken 3 w_init)
              (λ code w', code = AdcCheckRamp.EXIT_SPIWRITE
                          ∧ failedadcfd w' = 4
                          ∧ atexit_list w'
                            = [h_restore_trigger; h_read_evt_end]))
    as (code & w' & Hmain & -> & Hf & Ha); [vm_compute; by repeat split|].
  exists w'. split; [exact Hmain|]. split; [exact Hf|]. split; [exact Ha|].
  exact (proj2 (proj2 (early_exit_skips_adc_normal (H := sample_defs)
                         env_spi_broken 3 w_init Hn)
                  _ _ Hmain)).
Defined.
(** ** The streaming tool when it is told to stop *)

Section NetStop.
Context `{HwDefs} (E : Env).

(** When [read_evt_init] returns, what is mapped is what the pointers of
    [gl] refer to; the exit codes do not matter. *)
Lemma read_evt_init_referenced c w :
  mapped w = [] → length (shwr_pt (gl w)) = SHWR_RAW_NCH_MAX →
  post (ReadEvt.read_evt_init E c) w (λ _ w', all_referenced w') (λ _, True).
Proof.
  intros Hmap Hlen. unfold ReadEvt.read_evt_init.
  apply post_bind, post_sys, post_bind, post_exit_if; [done|].
  intros _. apply post_bind, post_modify.
  apply post_bind, post_mmap; intros _; apply post_bind, post_exit_if; try done.
  intros _. apply post_bind, post_modify.
  apply post_bind, post_mmap; intros _; apply post_bind, post_exit_if; try done.
  intros _. apply post_bind, post_modify.
  apply post_bind, post_mmap; intros _; apply post_bind, post_exit_if; try done.
  intros _. apply post_bind, post_modify.
  apply post_bind, post_modify.
  set (w0 := set_gl _ _).
  set (J := λ (j : nat) w',
     length (shwr_pt (gl w')) = SHWR_RAW_NCH_MAX
     ∧ regs (gl w') = Some TriggerRegs ∧ tt_regs (gl w') = Some TimeTagRegs
     ∧ tstctl_regs (gl w') = Some TestCtlRegs
     ∧ (∀ i, (i < j)%nat → shwr_pt (gl w') !! i = Some (Some (ShwrBuf i)))
     ∧ (∀ m, m ∈ mapped w' →
          m.1 = TriggerRegs ∨ m.1 = TimeTagRegs ∨ m.1 = TestCtlRegs
          ∨ ∃ i, (i < j)%nat ∧ m.1 = ShwrBuf i)).
  apply post_bind.
  eapply post_mono; [apply (post_for_loop J)| |intros h Hh; exact Hh].
  - intros j w1 Hj (Hl & Hr & Ht & Hc & Hp & Hm).
    apply post_bind, post_mmap; intros _; apply post_bind, post_exit_if;
      try done.
    intros _. apply post_modify. unfold J. wsimpl.
    split; [by rewrite length_insert|].
    split; [done|]. split; [done|]. split; [done|]. split.
    + intros i Hi. destruct (decide (i = j)) as [->|Hij].
      * apply list_lookup_insert_eq. lia.
      * rewrite list_lookup_insert_ne by done. apply Hp. lia.
    + intros m Hin. apply elem_of_cons in Hin as [->|Hin].
      * right. right. right. exists j. split; [lia|done].
      * destruct (Hm m Hin) as [?|[?|[?|(i & Hi & ?)]]]; [tauto..|].
        right. right. right. exists i. split; [lia|done].
  - unfold J, w0. wsimpl. split; [done|].
    split; [done|]. split; [done|]. split; [done|]. split; [intros i Hi; lia|].
    intros m Hin. rewrite Hmap in Hin.
    apply elem_of_cons in Hin as [->|Hin]; [tauto|].
    apply elem_of_cons in Hin as [->|Hin]; [tauto|].
    apply elem_of_cons in Hin as [->|Hin]; [tauto|].
    by apply elem_of_nil in Hin.
  - intros [] w1 (Hl & Hr & Ht & Hc & Hp & Hm). cbv beta.
    apply post_bind, post_sys.
    apply post_bind, post_sys, post_bind, post_exit_if; [done|]. intros _.
    apply post_bind, post_sys, post_bind, post_exit_if; [done|]. intros _.
    apply post_bind, post_sys, post_bind, post_exit_if; [done|]. intros _.
    apply post_bind, post_sys, post_bind, post_exit_if; [done|]. intros _.
    apply post_bind, post_sys, post_bind, post_exit_if; [done|]. intros _.
    apply post_modify.
    intros m Hin. wsimpl. unfold referenced. wsimpl.
    destruct (Hm m Hin) as [->|[->|[->|(i & Hi & ->)]]]; [tauto..|].
    right. right. right. exists i. split; [lia|]. by apply Hp.
Qed.

Ltac any_code := intros; exact Logic.I.

Ltac ns_inst :=
  first [ exact not_started_refl | exact not_started_trans | any_code
        | intros; unfold not_started; split_and!; reflexivity ].

Ltac sw_inst :=
  first [ exact same_windows_refl | exact same_windows_trans | any_code
        | intros; unfold same_windows; split_and!; reflexivity ].

Ltac lg_inst :=
  first [ exact log_grows_refl | exact log_grows_trans | any_code
        | intros; unfold log_grows;
          first [ by eexists | by (exists []; rewrite app_nil_r) ] ].

(** When [main] returns, nothing is left mapped. *)
Lemma net_main_unmaps fuel w :
  mapped w = [] → length (shwr_pt (gl w)) = SHWR_RAW_NCH_MAX →
  post (Netscope.main E fuel) w
    (λ code w', code = 0 ∧ mapped w' = []) (λ _, True).
Proof.
  intros Hmap Hlen. unfold Netscope.main.
  apply (post_after_keeps_any not_started (λ _, True) not_started_trans
           _ _ w w); [apply keeps_opensock; ns_inst|apply not_started_refl|].
  intros datasock w1 Hw1.
  apply (post_after_keeps_any not_started (λ _, True) not_started_trans
           _ _ w w1); [apply keeps_opencontrolsock; ns_inst|done|].
  intros controlsock w2 (Hm2 & Hg2 & _).
  apply post_bind.
  eapply post_mono;
    [apply (read_evt_init_referenced Netscope.exit_codes w2);
     [by rewrite Hm2|by rewrite Hg2]| |done].
  intros [] w3 Href. cbv beta.
  apply (post_after_keeps_any same_windows (λ _, True) same_windows_trans
           _ _ w3 w3); [apply keeps_reg_write; sw_inst|apply same_windows_refl|].
  intros _ w4 Hw4.
  apply (post_after_keeps_any same_windows (λ _, True) same_windows_trans
           _ _ w3 w4); [apply keeps_reg_read; sw_inst|done|].
  intros v w5 Hw5.
  apply (post_after_keeps_any same_windows (λ _, True) same_windows_trans
           _ _ w3 w5); [apply keeps_reg_write; sw_inst|done|].
  intros _ w6 Hw6.
  apply (post_after_keeps_any same_windows (λ _, True) same_windows_trans
           _ _ w3 w6); [apply keeps_acquisition_loop; sw_inst|done|].
  intros _ w7 Hw7.
  apply post_bind.
  eapply post_mono;
    [apply (read_evt_end_unmaps E w7);
     by apply (same_windows_referenced w3)| |done].
  intros [] w8 (Hm8 & _). cbv beta.
  by apply post_bind, post_sys, post_bind, post_sys, post_ret.
Qed.

(** The loop ends with a [controlrecv] that returned more than 0. *)
Lemma acquisition_loop_stops fuel datasock controlsock :
  ∀ w, post (Netscope.acquisition_loop E fuel datasock controlsock) w
         (λ _ w', ∃ pre n,
            log w' = log w ++ pre ++ [EvSys (c_recvfrom controlsock 1) n]
            ∧ 0 < n)
         (λ _, True).
Proof.
  induction fuel as [|fuel IH]; intros w; [done|].
  cbn [Netscope.acquisition_loop]. unfold Netscope.controlrecv.
  apply post_bind, post_sys.
  set (n := sys_ret E (length (log w)) (c_recvfrom controlsock 1)).
  set (w1 := set_log _ w).
  case_decide as Hn.
  - apply post_bind.
    eapply post_mono;
      [apply (keeps_acquire_and_send E log_grows (λ _, True)); lg_inst| |done].
    intros [] w2 (e2 & Hl2). cbv beta.
    eapply post_mono; [apply IH| |done].
    intros [] w3 (pre & m & Hl3 & Hm).
    exists ([EvSys (c_recvfrom controlsock 1) n] ++ e2 ++ pre), m.
    split; [|done]. rewrite Hl3, Hl2. unfold w1. cbn [log set_log].
    by rewrite <- !app_assoc.
  - apply post_ret. exists [], n. split; [done|lia].
Qed.

(** After the loop: the windows are unmapped, the sockets closed. *)
Lemma net_tail_events controlsock datasock w :
  post (Netscope.read_evt_end E;; sys E (c_close controlsock);;
        sys E (c_close datasock);; mret 0) w
    (λ _ w', ∃ unmaps r1 r2,
       log w' = log w ++ unmaps ++ [EvSys (c_close controlsock) r1;
                                    EvSys (c_close datasock) r2]
       ∧ Forall is_munmap unmaps)
    (λ _, True).
Proof.
  apply post_bind.
  eapply post_mono;
    [apply (keeps_read_evt_end_only E is_munmap (λ _, False))| |done].
  { intros r size ret. by exists r, size, ret. }
  intros [] w1 (unmaps & Hl1 & Hf). cbv beta.
  apply post_bind, post_sys, post_bind, post_sys, post_ret.
  eexists unmaps, _, _. split; [|done]. cbn [log set_log].
  rewrite Hl1, <- !app_assoc. reflexivity.
Qed.

Lemma net_main_events fuel w :
  post (Netscope.main E fuel) w
    (λ _ w', ∃ pre controlsock datasock n unmaps r1 r2,
       log w' = log w ++ pre ++ EvSys (c_recvfrom controlsock 1) n
                          :: unmaps ++ [EvSys (c_close controlsock) r1;
                                        EvSys (c_close datasock) r2]
       ∧ 0 < n ∧ Forall is_munmap unmaps)
    (λ _, True).
Proof.
  unfold Netscope.main.
  apply (post_after_keeps_any log_grows (λ _, True) log_grows_trans
           _ _ w w); [apply keeps_opensock; lg_inst|apply log_grows_refl|].
  intros datasock w1 Hw1.
  apply (post_after_keeps_any log_grows (λ _, True) log_grows_trans
           _ _ w w1); [apply keeps_opencontrolsock; lg_inst|done|].
  intros controlsock w2 Hw2.
  apply (post_after_keeps_any log_grows (λ _, True) log_grows_trans
           _ _ w w2); [apply keeps_read_evt_init; lg_inst|done|].
  intros _ w3 Hw3.
  apply (post_after_keeps_any log_grows (λ _, True) log_grows_trans
           _ _ w w3); [apply keeps_reg_write; lg_inst|done|].
  intros _ w4 Hw4.
  apply (post_after_keeps_any log_grows (λ _, True) log_grows_trans
           _ _ w w4); [apply keeps_reg_read; lg_inst|done|].
  intros v w5 Hw5.
  apply (post_after_keeps_any log_grows (λ _, True) log_grows_trans
           _ _ w w5); [apply keeps_reg_write; lg_inst|done|].
  intros _ w6 (e0 & Hl6).
  apply post_bind.
  eapply post_mono; [apply acquisition_loop_stops| |done].
  intros [] w7 (pre & n & Hl7 & Hn). cbv beta.
  eapply post_mono; [apply net_tail_events| |done].
  intros code w' (unmaps & r1 & r2 & Hl & Hf).
  exists (e0 ++ pre), controlsock, datasock, n, unmaps, r1, r2.
  split; [|done]. rewrite Hl, Hl7, Hl6, <- !app_assoc. reflexivity.
Qed.

End NetStop.

(** X16.  The streaming tool returns only when [controlrecv] has
    returned more than 0, that is at the first datagram on the control
    port; it then sends nothing more: what follows is the unmapping of
    the windows by [read_evt_end] and the [close] of the control and the
    data socket.  Started with nothing mapped, it leaves nothing mapped,
    and the status is 0. *)
Theorem netscope_stops_cleanly `{HwDefs} (E : Env) (fuel : nat)
    (w : world) (code : Z) (w' : world) :
  mapped w = [] → length (shwr_pt (gl w)) = SHWR_RAW_NCH_MAX →
  Netscope.main E fuel w = Ret code w' →
  code = 0 ∧ mapped w' = []
  ∧ ∃ pre controlsock datasock n unmaps r1 r2,
      events_since w w'
      = pre ++ EvSys (c_recvfrom controlsock 1) n
            :: unmaps ++ [EvSys (c_close controlsock) r1;
                          EvSys (c_close datasock) r2]
      ∧ 0 < n ∧ Forall is_munmap unmaps.
Proof.
  intros Hmap Hlen Hmain.
  pose proof (net_main_unmaps E fuel w Hmap Hlen) as Hu.
  pose proof (net_main_events E fuel w) as He.
  eapply post_ret_inv in Hu; [|exact Hmain].
  eapply post_ret_inv in He; [|exact Hmain].
  destruct Hu as (-> & Hm).
  destruct He as (pre & cs & ds & n & unmaps & r1 & r2 & Hl & Hn & Hf).
  split; [done|]. split; [done|].
  exists pre, cs, ds, n, unmaps, r1, r2. split; [|done].
  by apply events_since_app.
Qed.

Lemma netscope_stops_cleanly_witness :
  mapped w_init = [] ∧ length (shwr_pt (gl w_init)) = SHWR_RAW_NCH_MAX
  ∧ ∃ w', Netscope.main (H := sample_defs) env_ok 3 w_init = Ret 0 w'
      ∧ mapped w' = []
      ∧ ∃ pre controlsock datasock n unmaps r1 r2,
          events_since w_init w'
          = pre ++ EvSys (c_recvfrom controlsock 1) n
                :: unmaps ++ [EvSys (c_close controlsock) r1;
                              EvSys (c_close datasock) r2]
          ∧ 0 < n ∧ Forall is_munmap unmaps.
Proof.
  split; [reflexivity|]. split; [reflexivity|].
  destruct (outcome_is_ret (Netscope.main (H := sample_defs) env_ok 3 w_init))
    as (code & w' & Hmain); [vm_compute; exact I|].
  destruct (netscope_stops_cleanly (H := sample_defs) env_ok 3 w_init code w'
              eq_refl eq_refl Hmain) as (-> & Hrest).
  exists w'. split; [exact Hmain|]. exact Hrest.
Defined.
(** ** The ramp server from start to end *)

Section AdcRampMain.
Import AdcRamp.
Context (E : Env).

Ltac lg_inst :=
  first [ exact log_grows_refl | exact log_grows_trans
        | intros; exact Logic.I
        | intros; unfold log_grows;
          first [ by eexists | by (exists []; rewrite app_nil_r) ] ].

Ltac keeps_inst ::= lg_inst.

Lemma keeps_ramp_opencontrolsock (X : Z → Prop) :
  keeps log_grows X (opencontrolsock E).
Proof. unfold opencontrolsock, pabort. repeat keeps_step. Qed.

Lemma keeps_ramp_openspidev (X : Z → Prop) adc :
  keeps log_grows X (openspidev E adc).
Proof. unfold openspidev, pabort. repeat keeps_step. Qed.

Lemma keeps_ramp_spi_init (X : Z → Prop) fd :
  keeps log_grows X (spi_init E fd).
Proof. unfold spi_init, pabort. repeat keeps_step. Qed.

Lemma keeps_ramp_adc_write (X : Z → Prop) fd address cmd :
  keeps log_grows X (adc_write E fd address cmd).
Proof. unfold adc_write, pabort. repeat keeps_step. Qed.

Lemma keeps_run_commands (X : Z → Prop) n :
  ∀ i buf c resp, keeps log_grows X (run_commands E n i buf c resp).
Proof.
  induction n as [|n IH]; intros i buf c resp; cbn [run_commands];
    [keeps_step|].
  destruct (buf !! i) as [b|]; [|keeps_step].
  repeat first [ apply IH | apply keeps_ramp_adc_write | keeps_step ].
Qed.

(** One turn: the log grows; [c] changes only in a turn that ends with
    the reply. *)
Lemma serve_once_turn sock buf c w :
  post (serve_once E sock buf c) w
    (λ r w', log_grows w w'
             ∧ (r.2 ≠ c →
                ∃ pre ret,
                  log w' = log w ++ pre ++ [EvSys (c_sendto sock r.1) ret]))
    not_exit.
Proof.
  unfold serve_once. apply post_bind, post_sys. set (w1 := set_log _ w).
  assert (Hw1 : log_grows w w1) by (by eexists).
  case_decide; [by apply post_ret|].
  apply post_bind. unfold post at 1, recvfrom. set (w2 := set_log _ w1).
  assert (Hw2 : log_grows w w2).
  { eapply log_grows_trans; [exact Hw1|]. by eexists. }
  cbv beta iota. case_decide; [by apply post_ret|].
  apply post_bind.
  eapply post_mono; [apply (keeps_run_commands (λ _, False))| |].
  - intros [c' resp'] w3 Hw3. cbv beta iota.
    apply post_bind, post_sys, post_ret.
    destruct (log_grows_trans _ _ _ Hw2 Hw3) as (pre & Hpre).
    split.
    + eexists (pre ++ [_]). cbn [log set_log]. by rewrite Hpre, <- app_assoc.
    + intros _. eexists pre, _. cbn [log set_log fst].
      by rewrite Hpre, <- app_assoc.
  - intros [code w'|w'|w'|]; cbn; try done. by intros [[] _].
Qed.

Lemma main_loop_ends fuel :
  ∀ sock buf c w,
    c ≠ CMD_QUIT →
    post (main_loop E fuel sock buf c) w
      (λ _ w', ∃ pre reply ret,
         log w' = log w ++ pre ++ [EvSys (c_sendto sock reply) ret])
      not_exit.
Proof.
  induction fuel as [|fuel IH]; intros sock buf c w Hc; [done|].
  cbn [main_loop]. apply post_bind.
  eapply post_mono; [apply serve_once_turn| |done].
  intros [buf' c'] w1 [(e1 & Hl1) Hlast]. cbv beta iota.
  case_decide as Hq.
  - eapply post_mono; [by apply IH| |done].
    intros [] w2 (pre & reply & ret & Hl2).
    exists (e1 ++ pre), reply, ret. by rewrite Hl2, Hl1, <- !app_assoc.
  - apply post_ret. destruct Hlast as (pre & ret & Hl).
    { cbn. intros ->. by apply Hc. }
    by exists pre, buf', ret.
Qed.

(** The devices are closed, one [close] each. *)
Lemma close_devices w :
  post (for_loop NADC 0 (λ adc,
          fd ← arr_get adcfd adc; sys E (c_close fd);; mret tt)) w
    (λ _ w', ∃ closes, log w' = log w ++ closes
                       ∧ Forall is_close closes ∧ length closes = NADC)
    not_exit.
Proof.
  set (J := λ (j : nat) w',
         ∃ closes, log w' = log w ++ closes
                   ∧ Forall is_close closes ∧ length closes = j).
  eapply post_mono; [apply (post_for_loop J)| |intros h Hh; exact Hh].
  - intros j w1 _ (closes & Hl & Hf & Hn).
    apply post_bind, post_arr_get; [|done]. intros fd _.
    apply post_bind, post_sys, post_ret.
    eexists (closes ++ [_]). cbn [log set_log]. rewrite Hl, <- app_assoc.
    split; [reflexivity|]. split.
    + apply Forall_app. split; [done|]. constructor; [|done]. by eexists _, _.
    + rewrite length_app. cbn. lia.
  - exists []. by rewrite app_nil_r.
  - intros [] w' HJ. exact HJ.
Qed.

Lemma ramp_main_ends fuel w :
  post (main E fuel) w
    (λ code w', code = 0
       ∧ ∃ pre sock reply ret r0 closes,
           log w' = log w ++ pre ++ EvSys (c_sendto sock reply) ret
                              :: EvSys (c_close sock) r0 :: closes
           ∧ Forall is_close closes ∧ length closes = NADC)
    not_exit.
Proof.
  unfold main. apply post_bind.
  eapply post_mono; [apply (keeps_ramp_opencontrolsock (λ _, False))| |].
  2:{ intros [code w'|w'|w'|]; cbn; try done. by intros [[] _]. }
  intros sock w1 (e1 & Hl1). cbv beta.
  apply post_bind.
  lazymatch goal with
  | |- post ?m _ _ _ =>
      assert (Hk : keeps log_grows (λ _, False) m)
        by (repeat first [ apply keeps_ramp_openspidev
                         | apply keeps_ramp_spi_init | keeps_step ])
  end.
  eapply post_mono; [apply Hk| |].
  2:{ intros [code w'|w'|w'|]; cbn; try done. by intros [[] _]. }
  intros [] w2 (e2 & Hl2). cbv beta.
  apply post_bind.
  eapply post_mono; [by apply main_loop_ends| |done].
  intros [] w3 (pre & reply & ret & Hl3). cbv beta.
  apply post_bind, post_sys. apply post_bind.
  eapply post_mono; [apply close_devices| |done].
  intros [] w4 (closes & Hl4 & Hf & Hn). apply post_ret.
  split; [done|].
  eexists (e1 ++ e2 ++ pre), sock, reply, ret, _, closes.
  split; [|done]. rewrite Hl4. cbn [log set_log].
  rewrite Hl3, Hl2, Hl1, <- !app_assoc. reflexivity.
Qed.

End AdcRampMain.

(** X17.  The ramp server never calls [exit], and it returns only in
    one way: the last datagram it sent is the reply of the turn that
    ended the loop, and after it come the [close] of the socket and one
    [close] for each of the five devices; the status is 0.  A time-out
    or a short datagram does not end the loop, and the server does not
    leave without answering. *)
Theorem ramp_server_ends (E : Env) (fuel : nat) (w : world) :
  (∀ code w', AdcRamp.main E fuel w ≠ Exit code w')
  ∧ (∀ code w',
       AdcRamp.main E fuel w = Ret code w' →
       code = 0
       ∧ ∃ pre sock reply ret r0 closes,
           events_since w w'
           = pre ++ EvSys (c_sendto sock reply) ret
                 :: EvSys (c_close sock) r0 :: closes
           ∧ Forall is_close closes ∧ length closes = AdcRamp.NADC).
Proof.
  pose proof (ramp_main_ends E fuel w) as Hp. split.
  - intros code w' Hmain. by eapply post_exit_inv in Hp; [|exact Hmain].
  - intros code w' Hmain. eapply post_ret_inv in Hp; [|exact Hmain].
    destruct Hp as (-> & pre & sock & reply & ret & r0 & closes & Hl & Hf & Hn).
    split; [done|]. exists pre, sock, reply, ret, r0, closes.
    split; [|done]. by apply events_since_app.
Qed.
(** ** The trigger mask *)

(** *** Code that only makes calls *)

Section KeepsCalls.
Context `{HwDefs} (E : Env).
Context (I : world → world → Prop) (X : Z → Prop).
Hypothesis I_refl : ∀ w, I w w.
Hypothesis I_trans : ∀ w1 w2 w3, I w1 w2 → I w2 w3 → I w1 w3.
Hypothesis I_call : ∀ w c r, I w (set_log (log w ++ [EvSys c r]) w).
Hypothesis I_mapped : ∀ w m, I w (set_mapped (m :: mapped w) w).
Hypothesis I_gl : ∀ w f, I w (set_gl f w).
Hypothesis I_adcfd : ∀ w x, I w (set_adcfd x w).
Hypothesis I_adc_trace_fn : ∀ w x, I w (set_adc_trace_fn x w).
Hypothesis X_any : ∀ c, X c.

Lemma keeps_call c : keeps I X (sys E c).
Proof. intros w. apply I_call. Qed.

Lemma keeps_mmap_call r size : keeps I X (mmap E r size).
Proof. apply keeps_mmap; [done|done|intros; apply I_call|done]. Qed.

Ltac keeps_inst ::= first [ apply X_any | apply I_gl ].

Ltac keeps_known ::=
  lazymatch goal with
  | |- keeps _ _ (sys _ _) => apply keeps_call
  | |- keeps _ _ (mmap _ _ _) => apply keeps_mmap_call
  end.

Lemma calls_openspidev adc : keeps I X (AdcCheckRamp.openspidev E adc).
Proof. unfold AdcCheckRamp.openspidev. repeat keeps_step. Qed.

Lemma calls_spi_init fd : keeps I X (AdcCheckRamp.spi_init E fd).
Proof. unfold AdcCheckRamp.spi_init. repeat keeps_step. Qed.

Lemma calls_parse_options fuel verbose :
  keeps I X (AdcCheckRamp.parse_options E fuel verbose).
Proof.
  revert verbose. induction fuel as [|fuel IH]; intros verbose;
    cbn [AdcCheckRamp.parse_options]; repeat keeps_step; apply IH.
Qed.

Lemma calls_read_evt_init c : keeps I X (ReadEvt.read_evt_init E c).
Proof. unfold ReadEvt.read_evt_init. cbv zeta. repeat keeps_step. Qed.

End KeepsCalls.

(** *** The self-test saves the mask, sets it, and puts it back *)

Section TriggerMask.
Import AdcCheckRamp.
Context `{HwDefs} (E : Env).

Lemma quiet_call c r : not_reg_write (EvSys c r).
Proof. intros (r' & addr & v & Heq). discriminate Heq. Qed.

Lemma quiet_munmap e : is_munmap e → not_reg_write e.
Proof. intros (r & size & ret & ->). apply quiet_call. Qed.

Lemma only_calls_refl w : only_calls w w.
Proof. split; [apply extends_with_refl|done]. Qed.

Lemma only_calls_trans w1 w2 w3 :
  only_calls w1 w2 → only_calls w2 w3 → only_calls w1 w3.
Proof.
  intros (He1 & Ha1) (He2 & Ha2). split; [by eapply extends_with_trans|].
  by rewrite Ha2.
Qed.

Lemma trigger_kept_refl w : trigger_kept w w.
Proof. repeat split. apply log_grows_refl. Qed.

Lemma trigger_kept_trans w1 w2 w3 :
  trigger_kept w1 w2 → trigger_kept w2 w3 → trigger_kept w1 w3.
Proof.
  intros (Hr1 & Hs1 & Ha1 & Hl1) (Hr2 & Hs2 & Ha2 & Hl2).
  split; [congruence|]. split; [congruence|]. split; [congruence|].
  by eapply log_grows_trans.
Qed.

Lemma armed_kept w w1 w2 : armed w w1 → trigger_kept w1 w2 → armed w w2.
Proof.
  intros (rg & v & pre & mid & Hl & Hq & Hr & Hs) (Hr2 & Hs2 & _ & e2 & Hl2).
  exists rg, v, pre, (mid ++ e2). split; [|split; [done|split; congruence]].
  rewrite Hl2, Hl, <- !app_assoc. reflexivity.
Qed.

Ltac oc_side :=
  first [ exact only_calls_refl | exact only_calls_trans
        | intros; exact Logic.I
        | intros; split; [apply extends_with_snoc, quiet_call|reflexivity]
        | intros; split;
            [exists []; split; [by rewrite app_nil_r|constructor]
            |reflexivity] ].

Ltac tk_side :=
  first [ exact trigger_kept_refl | exact trigger_kept_trans
        | intros; exact Logic.I
        | intros; unfold trigger_kept, log_grows; split_and?;
          first [ reflexivity | by eexists
                | by (exists []; rewrite app_nil_r) ] ].

Ltac keeps_inst ::= tk_side.

(** How [main] can end: before it touches the trigger, with at most
    [read_evt_end] registered; or with the trigger set and
    [restore_trigger] registered. *)
Lemma main_trigger fuel w :
  atexit_list w = [] →
  post (main E fuel) w
    (λ _ wm, armed w wm
             ∧ atexit_list wm
               = [h_adc_normal; h_restore_trigger; h_read_evt_end])
    (exit_ends (λ _ w',
       (extends_with not_reg_write w w'
        ∧ (atexit_list w' = [] ∨ atexit_list w' = [h_read_evt_end]))
       ∨ (armed w w'
          ∧ atexit_list w' = [h_restore_trigger; h_read_evt_end]))).
Proof.
  intros Ha. unfold main, read_evt_init, main_after_init. cbv zeta.
  repeat lazymatch goal with
  | |- post (atexit _ ≫= _) _ _ _ => fail
  | |- post (_ ≫= _) ?wc _ _ =>
      eapply (post_after_keeps_to only_calls (λ _, True) only_calls_trans
                _ _ w wc);
        [ first [ apply calls_parse_options; oc_side
                | apply calls_read_evt_init; oc_side
                | apply keeps_for_loop; [oc_side..|intros ?];
                  repeat first [ apply calls_openspidev; oc_side
                               | apply calls_spi_init; oc_side
                               | apply keeps_bind; [oc_side| |intros ?]
                               | apply keeps_modify; oc_side ]
                | apply keeps_exit_if; oc_side
                | apply keeps_call; oc_side ]
        | first [ assumption | apply only_calls_refl ]
        | let Hx := fresh in
          let Hat := fresh in
          intros ? ? _ (Hx & Hat); left; split; [exact Hx|];
          left; by rewrite Hat
        | intros ? ? ? ]
  end.
  lazymatch goal with
  | Hoc : only_calls w ?wc |- post _ ?wc _ _ => destruct Hoc as (Hq & Hat)
  end.
  apply post_bind, post_modify.
  apply post_bind, post_reg_read; [done|]. intros rg Hrg v.
  apply post_bind, post_modify.
  apply post_bind, post_reg_write; [done|]. intros rg' Hrg'.
  apply post_bind, post_modify.
  lazymatch goal with |- post _ ?x _ _ => set (wB := x) end.
  assert (HB : armed w wB
               ∧ atexit_list wB = [h_restore_trigger; h_read_evt_end]).
  { unfold wB. wsimpl. split; [|by rewrite Hat, Ha].
    assert (rg' = rg) as -> by congruence.
    destruct Hq as (pre & Hl & Hpre). exists rg, v, pre, [].
    wsimpl. split; [by rewrite Hl, <- !app_assoc|]. done. }
  clearbody wB. destruct HB as (HB & HaB).
  repeat lazymatch goal with
  | |- post (atexit _ ≫= _) _ _ _ => fail
  | |- post (_ ≫= _) ?wc _ _ =>
      eapply (post_after_keeps_to trigger_kept (λ _, True) trigger_kept_trans
                _ _ wB wc);
        [ solve [repeat keeps_step]
        | first [ assumption | apply trigger_kept_refl ]
        | let Hk := fresh in
          intros ? ? _ Hk; right; split; [by eapply armed_kept|];
          destruct Hk as (_ & _ & -> & _); exact HaB
        | intros ? ? ? ]
  end.
  lazymatch goal with
  | Hk : trigger_kept wB ?wc |- post _ ?wc _ _ =>
      pose proof (armed_kept _ _ _ HB Hk) as HC;
      destruct Hk as (_ & _ & HaC & _)
  end.
  apply post_bind, post_modify.
  lazymatch goal with |- post _ ?x _ _ => set (wC := x) end.
  assert (HC' : armed w wC
                ∧ atexit_list wC
                  = [h_adc_normal; h_restore_trigger; h_read_evt_end]).
  { unfold wC. wsimpl. split; [|by rewrite HaC, HaB].
    destruct HC as (rg0 & v0 & pre & mid & Hl & Hpre & Hr & Hs).
    exists rg0, v0, pre, mid. by wsimpl. }
  clearbody wC. destruct HC' as (HC' & HaC').
  lazymatch goal with
  | |- post ?m _ _ _ =>
      assert (Hk : keeps trigger_kept (λ _, False) m) by (repeat keeps_step)
  end.
  eapply post_mono; [apply Hk| |].
  - intros code wm Hkm. split; [by eapply armed_kept|].
    destruct Hkm as (_ & _ & -> & _). exact HaC'.
  - intros [code w'|w'|w'|]; cbn; try done. by intros [[] _].
Qed.


(** *** At exit *)

Lemma exit_untouched hs code w0 w' status wf :
  extends_with not_reg_write w0 w' → hs = [] ∨ hs = [h_read_evt_end] →
  run_atexit E hs code w' = Exit status wf →
  extends_with not_reg_write w0 wf.
Proof.
  intros Hq [-> | ->] Hrun.
  - cbn in Hrun. by injection Hrun as _ <-.
  - cbn [run_atexit run_handler] in Hrun. unfold read_evt_end in Hrun.
    pose proof (keeps_read_evt_end_only E not_reg_write (λ _, False)
                  (λ r size ret, quiet_call _ _)
                  (set_atexit_list [] w')) as Hk.
    unfold post in Hk.
    destruct (ReadEvt.read_evt_end E (set_atexit_list [] w'))
      as [[] w1|c w1|w1|w1|]; try done; [|by destruct Hk].
    injection Hrun as _ <-. eapply extends_with_trans; [exact Hq|exact Hk].
Qed.

Lemma restore_trigger_writes w rg :
  regs (gl w) = Some rg →
  post restore_trigger w
    (λ _ w1, w1 = set_log (log w ++ [EvWrite rg SHWR_BUF_TRIG_MASK_ADDR
                                       (saved_trigger w)]) w)
    not_exit.
Proof.
  intros Hr. unfold restore_trigger. apply post_bind, post_gets.
  cbn [compose]. rewrite Hr. apply post_bind, post_gets.
  apply post_reg_write; [done|]. intros rg' Hrg'. cbn [compose] in Hrg'.
  by assert (rg' = rg) as -> by congruence.
Qed.

Lemma exit_restores code w0 w' status wf :
  armed w0 w' →
  run_atexit E [h_restore_trigger; h_read_evt_end] code w' = Exit status wf →
  mask_restored (events_since w0 wf).
Proof.
  intros (rg & v & pre & mid & Hl & Hpre & Hr & Hs) Hrun.
  cbn [run_atexit run_handler] in Hrun. unfold read_evt_end in Hrun.
  pose proof (restore_trigger_writes (set_atexit_list [h_read_evt_end] w') rg Hr)
    as Hw.
  unfold post in Hw.
  destruct (restore_trigger (set_atexit_list [h_read_evt_end] w'))
    as [[] w1|c w1|w1|w1|]; try done.
  pose proof (keeps_read_evt_end_only E is_munmap (λ _, False)
                (λ r size ret, ex_intro _ r (ex_intro _ size
                   (ex_intro _ ret eq_refl)))
                (set_atexit_list [] w1)) as Hk.
  unfold post in Hk.
  destruct (ReadEvt.read_evt_end E (set_atexit_list [] w1))
    as [[] w2|c w2|w2|w2|]; try done; [|by destruct Hk].
  injection Hrun as _ <-. destruct Hk as (unmaps & Hl2 & Hf).
  exists rg, v, pre, mid, unmaps. split; [|done].
  apply events_since_app. rewrite Hl2. cbn [log set_atexit_list].
  rewrite Hw. cbn [log set_log set_atexit_list saved_trigger].
  rewrite Hl, Hs, <- !app_assoc. reflexivity.
Qed.

Lemma exit_armed hs code w0 w' status wf :
  armed w0 w' →
  hs = [h_restore_trigger; h_read_evt_end]
  ∨ hs = [h_adc_normal; h_restore_trigger; h_read_evt_end] →
  run_atexit E hs code w' = Exit status wf →
  mask_restored (events_since w0 wf).
Proof.
  intros Harm [-> | ->] Hrun; [by eapply exit_restores|].
  cbn [run_atexit] in Hrun. cbn [run_handler] in Hrun.
  set (w2 := set_atexit_list [h_restore_trigger; h_read_evt_end] w') in *.
  assert (Harm2 : armed w0 w2).
  { destruct Harm as (rg & v & pre & mid & Hl & Hpre & Hr & Hs).
    by exists rg, v, pre, mid. }
  pose proof (keeps_adc_normal E trigger_kept (λ _, True)) as Hk.
  specialize (Hk trigger_kept_refl trigger_kept_trans).
  assert (Hn : keeps trigger_kept (λ _, True) (adc_normal E))
    by (apply Hk; tk_side).
  specialize (Hn w2). unfold post in Hn.
  destruct (adc_normal E w2) as [[] w3|c w3|w3|w3|]; try done.
  - eapply exit_restores; [|exact Hrun]. by eapply armed_kept.
  - destruct Hn as [_ Hn]. eapply exit_restores; [|exact Hrun].
    by eapply armed_kept.
Qed.

End TriggerMask.

(** X18.  The self-test leaves the trigger mask as it found it.  With
    nothing registered at the start, whenever the process ends with an
    exit status, either it has written no register at all (it ended
    before [main] touched the trigger), or: before any register write
    [main] read the mask, [v], and set it to [SHWR_BUF_TRIG_LED]; and
    the last register write of the run puts [v] back, followed only by
    the unmapping of the windows.  This holds also when [main] or
    [adc_normal] ends with [exit]. *)
Theorem trigger_mask_restored `{HwDefs} (E : Env) (fuel : nat) (w : world)
    (status : Z) (wf : world) :
  atexit_list w = [] →
  AdcCheckRamp.run_process E (AdcCheckRamp.main E fuel) w = Exit status wf →
  Forall not_reg_write (events_since w wf) ∨ mask_restored (events_since w wf).
Proof.
  intros Ha Hrun. pose proof (main_trigger E fuel w Ha) as Hp.
  unfold AdcCheckRamp.run_process in Hrun. unfold post in Hp.
  destruct (AdcCheckRamp.main E fuel w) as [code w'|code w'|w'|w'|];
    try done.
  - destruct Hp as (Harm & Hat). right. rewrite Hat in Hrun.
    exact (exit_armed E _ _ _ _ _ _ Harm (or_intror eq_refl) Hrun).
  - cbn in Hp. destruct Hp as [(Hq & Hat)|(Harm & Hat)].
    + left. apply extends_with_events.
      destruct Hat as [Hat|Hat]; rewrite Hat in Hrun.
      * exact (exit_untouched E _ _ _ _ _ _ Hq (or_introl eq_refl) Hrun).
      * exact (exit_untouched E _ _ _ _ _ _ Hq (or_intror eq_refl) Hrun).
    + right. rewrite Hat in Hrun.
      exact (exit_armed E _ _ _ _ _ _ Harm (or_introl eq_refl) Hrun).
Qed.

Lemma trigger_mask_restored_witness :
  atexit_list w_init = []
  ∧ ∃ wf,
      AdcCheckRamp.run_process (H := sample_defs) env_spi_broken
        (AdcCheckRamp.main (H := sample_defs) env_spi_broken 3) w_init
      = Exit AdcCheckRamp.EXIT_SPIWRITE wf
      ∧ (Forall not_reg_write (events_since w_init wf)
         ∨ mask_restored (H := sample_defs) (events_since w_init wf)).
Proof.
  split; [reflexivity|].
  destruct (outcome_exits_with
              (AdcCheckRamp.run_process (H := sample_defs) env_spi_broken
                 (AdcCheckRamp.main (H := sample_defs) env_spi_broken 3)
                 w_init)
              (λ code _, code = AdcCheckRamp.EXIT_SPIWRITE))
    as (code & wf & Hrun & ->); [vm_compute; reflexivity|].
  exists wf. split; [exact Hrun|].
  exact (trigger_mask_restored (H := sample_defs) env_spi_broken 3 w_init
           _ wf eq_refl Hrun).
Defined.
(** ** The course of [read_evt_read] *)

Section ReadCourse.
Context `{HwDefs} (E : Env).

Lemma post_of_eq {A} (m : M A) w a w' (Q : A → world → Prop)
    (R : halt → Prop) :
  m w = Ret a w' → Q a w' → post m w Q R.
Proof. unfold post. by intros ->. Qed.

Lemma post_reg_read_in p addr w r Q (R : halt → Prop) :
  reg_mapped w (p w) r addr →
  Q (hw_val E (length (log w)) r addr)
    (set_log (log w ++ [EvRead r addr (hw_val E (length (log w)) r addr)]) w) →
  post (reg_read E p addr) w Q R.
Proof.
  intros (Hp & size & Hm & Hin) Hq. unfold reg_read.
  apply post_bind, post_gets, post_bind. rewrite Hp.
  unfold post at 1. rewrite (window_mapping _ _ _ Hm).
  rewrite decide_True by done.
  apply post_bind, post_gets, post_bind, post_modify, post_ret. done.
Qed.

Lemma post_reg_write_in p addr v w r Q (R : halt → Prop) :
  reg_mapped w (p w) r addr →
  Q tt (set_log (log w ++ [EvWrite r addr v]) w) →
  post (reg_write p addr v) w Q R.
Proof.
  intros (Hp & size & Hm & Hin) Hq. unfold reg_write.
  apply post_bind, post_gets, post_bind. rewrite Hp.
  unfold post at 1. rewrite (window_mapping _ _ _ Hm).
  rewrite decide_True by done.
  apply post_modify. done.
Qed.

(** *** The wait *)

Lemma wait_status_shift rg t j :
  wait_status E rg (S (S t)) j = wait_status E rg t (S j).
Proof. unfold wait_status. f_equal. lia. Qed.

Lemma wait_signal_shift t j :
  wait_signal E (S (S t)) j = wait_signal E t (S j).
Proof. unfold wait_signal. f_equal. lia. Qed.

Lemma signal_at_shift sig t j :
  signal_at E (wait_signal E t 0) (S (S t)) j = signal_at E sig t (S j).
Proof. destruct j; [done|]. apply wait_signal_shift. Qed.

Lemma flat_map_shift {A} (f : nat → list A) (l : list nat) :
  flat_map f (map S l) = flat_map (λ j, f (S j)) l.
Proof. induction l as [|x l IH]; [done|]. cbn. by rewrite IH. Qed.

Lemma wait_rounds_S rg t n :
  wait_rounds E rg t (S n)
  = EvRead rg SHWR_BUF_STATUS_ADDR (wait_status E rg t 0)
    :: EvSys c_sigwaitinfo (wait_signal E t 0)
    :: wait_rounds E rg (S (S t)) n.
Proof.
  unfold wait_rounds. cbn [seq flat_map app]. do 2 f_equal.
  rewrite <- seq_shift, flat_map_shift. apply flat_map_ext. intros j.
  by rewrite wait_status_shift, wait_signal_shift.
Qed.

Lemma wait_rounds_length rg t n : length (wait_rounds E rg t n) = (2 * n)%nat.
Proof.
  revert t. induction n as [|n IH]; intros t; [done|].
  rewrite wait_rounds_S. cbn [length]. rewrite IH. lia.
Qed.

Lemma wait_events_length rg t n :
  length (wait_events E rg t n) = (2 * n + 1)%nat.
Proof.
  unfold wait_events. rewrite length_app, wait_rounds_length. cbn. lia.
Qed.

(** The wait returns after the round in which its test fails, with the
    signal that test saw, and has added its events to the log. *)
Lemma wait_trigger_runs rg (n : nat) :
  ∀ fuel w sig,
    (n < fuel)%nat →
    reg_mapped w (regs (gl w)) rg SHWR_BUF_STATUS_ADDR →
    (∀ j, (j < n)%nat →
       full_flag (wait_status E rg (length (log w)) j) = 0
       ∧ signal_at E sig (length (log w)) j = SIG_WAKEUP) →
    ¬ (full_flag (wait_status E rg (length (log w)) n) = 0
       ∧ signal_at E sig (length (log w)) n = SIG_WAKEUP) →
    ReadEvt.wait_trigger E fuel
      (to_uint32 (Z.shiftl SHWR_BUF_NFULL_MASK SHWR_BUF_NFULL_SHIFT)) sig w
    = Ret (signal_at E sig (length (log w)) n)
          (set_log (log w ++ wait_events E rg (length (log w)) n) w).
Proof.
  induction n as [|n IH]; intros fuel w sig Hfuel Hreg Hidle Hend;
    (destruct fuel as [|fuel]; [lia|]); apply post_eq;
    cbn [ReadEvt.wait_trigger];
    (apply post_bind; eapply post_reg_read_in; [exact Hreg|]);
    (assert (Hst : hw_val E (length (log w)) rg SHWR_BUF_STATUS_ADDR
                   = wait_status E rg (length (log w)) 0)
       by (unfold wait_status; f_equal; lia));
    rewrite Hst.
  - rewrite decide_False by exact Hend. apply post_ret. done.
  - destruct (Hidle 0%nat ltac:(lia)) as (Hflag & Hsig). cbn in Hsig.
    rewrite decide_True by (split; [exact Hflag|exact Hsig]).
    apply post_bind, post_sys. wsimpl.
    assert (Hsg : sys_ret E
                    (length (log w ++ [EvRead rg SHWR_BUF_STATUS_ADDR
                                         (wait_status E rg (length (log w)) 0)]))
                    c_sigwaitinfo
                  = wait_signal E (length (log w)) 0).
    { unfold wait_signal. f_equal. rewrite length_app. cbn. lia. }
    rewrite Hsg.
    set (w2 := set_log _ _).
    assert (Hl2 : length (log w2) = S (S (length (log w)))).
    { unfold w2. wsimpl. rewrite !length_app. cbn. lia. }
    eapply post_of_eq.
    + apply (IH fuel w2 (wait_signal E (length (log w)) 0)); [lia|exact Hreg| |].
      * intros j Hj. rewrite Hl2, wait_status_shift, (signal_at_shift sig).
        apply Hidle. lia.
      * rewrite Hl2, wait_status_shift, (signal_at_shift sig). exact Hend.
    + rewrite Hl2, (signal_at_shift sig). split; [done|].
      unfold w2, wait_events. wsimpl. rewrite wait_rounds_S, wait_status_shift.
      rewrite <- !app_assoc. done.
Qed.


(** *** The copies *)

Lemma channel_words_length t offset i :
  length (channel_words E t offset i) = SHWR_NSAMPLES.
Proof. unfold channel_words. by rewrite length_map, length_seq. Qed.

Lemma copied_words_length t offset j :
  length (flat_map (channel_words E t offset) (seq 0 j))
  = (j * SHWR_NSAMPLES)%nat.
Proof.
  induction j as [|j IH]; [done|].
  rewrite seq_S, flat_map_app, length_app, IH. cbn [flat_map].
  rewrite app_nil_r, channel_words_length. lia.
Qed.

Lemma copied_words_S t offset j :
  flat_map (channel_words E t offset) (seq 0 (S j))
  = flat_map (channel_words E t offset) (seq 0 j) ++ channel_words E t offset j.
Proof.
  rewrite seq_S, flat_map_app. cbn [flat_map Nat.add]. by rewrite app_nil_r.
Qed.

Lemma copy_events_S offset j :
  map (λ i, EvMemcpy (ShwrBuf i) offset SHWR_NSAMPLES) (seq 0 (S j))
  = map (λ i, EvMemcpy (ShwrBuf i) offset SHWR_NSAMPLES) (seq 0 j)
    ++ [EvMemcpy (ShwrBuf j) offset SHWR_NSAMPLES].
Proof. by rewrite seq_S, map_app. Qed.

(** [store] right behind what was stored before *)
Lemma store_behind (pre src rest : list Z) (n : nat) :
  length pre = n → (length src ≤ length rest)%nat →
  store (pre ++ rest) n src = Some ((pre ++ src) ++ drop (length src) rest).
Proof.
  intros Hn Hle. unfold store. rewrite decide_True
    by (rewrite length_app; lia).
  rewrite take_app_length' by done. rewrite <- Hn at 1.
  rewrite <- drop_drop, drop_app_length. by rewrite <- app_assoc.
Qed.

(** With the windows mapped and the slot inside them, the copy loop of
    the self-test returns: the staging buffer holds the words of the
    five windows, in channel order, each window read at the moment of
    its copy. *)
Lemma adc_copy_slot_runs offset size w :
  windows_mapped w size →
  0 ≤ 4 * offset ∧ 4 * (offset + Z.of_nat SHWR_NSAMPLES) ≤ size →
  length (databuf w) = AdcCheckRamp.DATASIZE →
  AdcCheckRamp.copy_slot E offset w
  = Ret tt (set_databuf (slot_words E (length (log w)) offset)
              (set_log (log w ++ map (λ r, EvMemcpy r offset SHWR_NSAMPLES)
                                     channel_windows) w)).
Proof.
  intros Hwin Hin Hlen. apply post_eq.
  set (t := length (log w)).
  set (I := λ (j : nat) w',
         w' = set_databuf
                (flat_map (channel_words E t offset) (seq 0 j)
                 ++ drop (j * SHWR_NSAMPLES) (databuf w))
                (set_log (log w ++ map (λ i, EvMemcpy (ShwrBuf i) offset
                                               SHWR_NSAMPLES) (seq 0 j)) w)).
  unfold AdcCheckRamp.copy_slot.
  eapply post_mono; [apply (post_for_loop I)| |intros h Hh; exact Hh].
  - intros j w1 Hj ->. destruct (Hwin j) as (Hp & Hm); [lia|].
    apply post_bind, post_arr_get.
    2:{ wsimpl. rewrite Hp. done. }
    wsimpl. rewrite Hp. intros p [= <-].
    apply post_bind. eapply post_read_words_in; [done|exact Hm|done|].
    wsimpl.
    assert (Hw : map (λ k, hw_val E
                       (length (log w ++ map (λ i, EvMemcpy (ShwrBuf i) offset
                                                SHWR_NSAMPLES) (seq 0 j)))
                       (ShwrBuf j) (offset + Z.of_nat k)) (seq 0 SHWR_NSAMPLES)
                 = channel_words E t offset j).
    { unfold channel_words. rewrite length_app, length_map, length_seq. done. }
    rewrite Hw. apply post_bind, post_gets. wsimpl.
    pose proof (copied_words_length t offset j) as Hcl.
    pose proof (channel_words_length t offset j) as Hwl.
    rewrite (store_behind _ _ _ _ Hcl).
    2:{ rewrite length_drop, Hwl, Hlen.
        unfold AdcCheckRamp.DATASIZE, SHWR_RAW_NCH_MAX, SHWR_NSAMPLES in *.
        lia. }
    apply post_modify. unfold I.
    rewrite Hwl, drop_drop, copied_words_S, copy_events_S, app_assoc.
    replace (j * SHWR_NSAMPLES + SHWR_NSAMPLES)%nat
      with (S j * SHWR_NSAMPLES)%nat by lia.
    done.
  - unfold I. cbn [seq flat_map map app Nat.mul drop]. rewrite app_nil_r.
    by destruct w.
  - intros [] w' ->. split; [done|]. cbn [Nat.add].
    rewrite drop_ge, app_nil_r
      by (rewrite Hlen; unfold AdcCheckRamp.DATASIZE; lia).
    unfold slot_words, channel_windows. by rewrite map_map.
Qed.

Lemma le_words_length (l : list Z) :
  length (flat_map (Netscope.le_bytes 4) l) = (4 * length l)%nat.
Proof.
  induction l as [|x l IH]; [done|].
  cbn [flat_map]. rewrite length_app, IH, length_le_bytes. cbn [length]. lia.
Qed.

(** The same for the streaming tool: the words go, as bytes, behind the
    room for the fragment header. *)
Lemma net_copy_slot_runs offset size w :
  windows_mapped w size →
  0 ≤ 4 * offset ∧ 4 * (offset + Z.of_nat SHWR_NSAMPLES) ≤ size →
  length (workbuf w) = Netscope.WBUFSIZE →
  Netscope.copy_slot E offset w
  = Ret tt (set_workbuf
              (take Netscope.FRAG_HEADER_SIZE (workbuf w)
               ++ flat_map (Netscope.le_bytes 4)
                           (slot_words E (length (log w)) offset))
              (set_log (log w ++ map (λ r, EvMemcpy r offset SHWR_NSAMPLES)
                                     channel_windows) w)).
Proof.
  intros Hwin Hin Hlen. apply post_eq.
  set (t := length (log w)).
  set (bytes := λ j, flat_map (Netscope.le_bytes 4)
                       (flat_map (channel_words E t offset) (seq 0 j))).
  set (I := λ (j : nat) w',
         w' = set_workbuf
                (take Netscope.FRAG_HEADER_SIZE (workbuf w) ++ bytes j
                 ++ drop (Netscope.FRAG_HEADER_SIZE + 4 * (j * SHWR_NSAMPLES))
                         (workbuf w))
                (set_log (log w ++ map (λ i, EvMemcpy (ShwrBuf i) offset
                                               SHWR_NSAMPLES) (seq 0 j)) w)).
  assert (Hbl : ∀ j, length (bytes j) = (4 * (j * SHWR_NSAMPLES))%nat).
  { intros j. unfold bytes. by rewrite le_words_length, copied_words_length. }
  assert (Hhead : length (take Netscope.FRAG_HEADER_SIZE (workbuf w))
                  = Netscope.FRAG_HEADER_SIZE).
  { rewrite length_take, Hlen.
    unfold Netscope.WBUFSIZE, Netscope.FRAG_HEADER_SIZE. lia. }
  unfold Netscope.copy_slot.
  eapply post_mono; [apply (post_for_loop I)| |intros h Hh; exact Hh].
  - intros j w1 Hj ->. destruct (Hwin j) as (Hp & Hm); [lia|].
    apply post_bind, post_arr_get.
    2:{ wsimpl. rewrite Hp. done. }
    wsimpl. rewrite Hp. intros p [= <-].
    apply post_bind. eapply post_read_words_in; [done|exact Hm|done|].
    wsimpl.
    assert (Hw : map (λ k, hw_val E
                       (length (log w ++ map (λ i, EvMemcpy (ShwrBuf i) offset
                                                SHWR_NSAMPLES) (seq 0 j)))
                       (ShwrBuf j) (offset + Z.of_nat k)) (seq 0 SHWR_NSAMPLES)
                 = channel_words E t offset j).
    { unfold channel_words. rewrite length_app, length_map, length_seq. done. }
    rewrite Hw. apply post_bind, post_gets. wsimpl.
    pose proof (channel_words_length t offset j) as Hwl.
    assert (Hsl : length (flat_map (Netscope.le_bytes 4)
                            (channel_words E t offset j))
                  = (4 * SHWR_NSAMPLES)%nat)
      by (by rewrite le_words_length, Hwl).
    rewrite (app_assoc (take _ _) (bytes j)).
    rewrite (store_behind _ _ _ (Netscope.FRAG_HEADER_SIZE
                                 + 4 * (j * SHWR_NSAMPLES))).
    2:{ rewrite length_app, Hhead, Hbl. done. }
    2:{ rewrite length_drop, Hsl, Hlen.
        unfold Netscope.WBUFSIZE, Netscope.DATASIZE, Netscope.FRAG_HEADER_SIZE,
          SHWR_RAW_NCH_MAX, SHWR_NSAMPLES in *.
        lia. }
    apply post_modify. unfold I.
    assert (Hb : bytes (S j)
                 = bytes j ++ flat_map (Netscope.le_bytes 4)
                                (channel_words E t offset j)).
    { unfold bytes. by rewrite copied_words_S, flat_map_app. }
    rewrite Hsl, drop_drop, Hb, copy_events_S.
    rewrite <- !app_assoc, (app_assoc (log w)).
    replace (Netscope.FRAG_HEADER_SIZE + 4 * (j * SHWR_NSAMPLES)
             + 4 * SHWR_NSAMPLES)%nat
      with (Netscope.FRAG_HEADER_SIZE + 4 * (S j * SHWR_NSAMPLES))%nat by lia.
    done.
  - unfold I, bytes. cbn [seq flat_map map app Nat.mul Nat.add].
    rewrite app_nil_r, take_drop. by destruct w.
  - intros [] w' ->. split; [done|]. cbn [Nat.add].
    rewrite drop_ge, app_nil_r
      by (rewrite Hlen; unfold Netscope.WBUFSIZE, Netscope.DATASIZE; lia).
    unfold bytes, slot_words, channel_windows. by rewrite map_map.
Qed.

(** *** The whole call *)

Lemma drain_ready_inv w rg rt size :
  drain_ready w rg rt size →
  (reg_mapped w (regs (gl w)) rg SHWR_BUF_STATUS_ADDR
   ∧ reg_mapped w (regs (gl w)) rg SHWR_BUF_START_ADDR
   ∧ reg_mapped w (regs (gl w)) rg SHWR_BUF_TRIG_ID_ADDR
   ∧ reg_mapped w (regs (gl w)) rg SHWR_BUF_CONTROL_ADDR)
  ∧ (reg_mapped w (tt_regs (gl w)) rt TTAG_SHWR_SECONDS_ADDR
     ∧ reg_mapped w (tt_regs (gl w)) rt TTAG_SHWR_NANOSEC_ADDR)
  ∧ windows_mapped w size
  ∧ ∀ st, 0 ≤ 4 * (slot_of st * Z.of_nat SHWR_NSAMPLES)
          ∧ 4 * (slot_of st * Z.of_nat SHWR_NSAMPLES + Z.of_nat SHWR_NSAMPLES)
            ≤ size.
Proof.
  intros (Hg & Ht & Hw & Hs).
  apply Forall_cons in Hg as (H1 & Hg). apply Forall_cons in Hg as (H2 & Hg).
  apply Forall_cons in Hg as (H3 & Hg). apply Forall_cons in Hg as (H4 & _).
  apply Forall_cons in Ht as (H5 & Ht). apply Forall_cons in Ht as (H6 & _).
  split; [done|]. split; [done|]. split; [done|].
  intros st. specialize (Hs st). unfold SHWR_NSAMPLES in *. lia.
Qed.

(** A wait that ends without the wake-up: both tools return their
    time-out result with nothing changed but the log, which has the
    events of the wait. *)
Lemma read_times_out rg n fuel w :
  reg_mapped w (regs (gl w)) rg SHWR_BUF_STATUS_ADDR →
  waits_for E rg (length (log w)) n → (n < fuel)%nat →
  signal_before E (length (log w)) n ≠ SIG_WAKEUP →
  AdcCheckRamp.read_evt_read E fuel w
  = Ret (-1) (set_log (log w ++ wait_events E rg (length (log w)) n) w)
  ∧ Netscope.read_evt_read E fuel w
    = Ret 1 (set_log (log w ++ wait_events E rg (length (log w)) n) w).
Proof.
  intros Hreg (Hidle & Hend) Hfuel Hsig.
  pose proof (wait_trigger_runs rg n fuel w SIG_WAKEUP Hfuel Hreg Hidle Hend)
    as Hwait.
  split; apply post_eq.
  - unfold AdcCheckRamp.read_evt_read. apply post_bind.
    eapply post_of_eq; [exact Hwait|].
    rewrite decide_False by exact Hsig. by apply post_ret.
  - unfold Netscope.read_evt_read. apply post_bind.
    eapply post_of_eq; [exact Hwait|].
    rewrite decide_False by exact Hsig. by apply post_ret.
Qed.

(** Two states are equal when their components are. *)
Lemma world_eq (w1 w2 : world) :
  gl w1 = gl w2 → sh w1 = sh w2 → saved_trigger w1 = saved_trigger w2 →
  databuf w1 = databuf w2 → traces w1 = traces w2 →
  adc_trace_fn w1 = adc_trace_fn w2 → adcfd w1 = adcfd w2 →
  failedadcfd w1 = failedadcfd w2 → workbuf w1 = workbuf w2 →
  atexit_list w1 = atexit_list w2 → mapped w1 = mapped w2 →
  log w1 = log w2 → w1 = w2.
Proof. destruct w1, w2. cbn. by intros -> -> -> -> -> -> -> -> -> -> -> ->. Qed.

(** The same steps, with the moment named *)
Lemma post_reg_read_at (tm : nat) p addr w r Q (R : halt → Prop) :
  reg_mapped w (p w) r addr → length (log w) = tm →
  Q (hw_val E tm r addr) (set_log (log w ++ [EvRead r addr (hw_val E tm r addr)]) w) →
  post (reg_read E p addr) w Q R.
Proof. intros Hr <-. by apply post_reg_read_in. Qed.

Lemma post_sys_at (tm : nat) c w Q (R : halt → Prop) :
  length (log w) = tm →
  Q (sys_ret E tm c) (set_log (log w ++ [EvSys c (sys_ret E tm c)]) w) →
  post (sys E c) w Q R.
Proof. intros <-. apply post_sys. Qed.

Lemma channel_windows_length : length channel_windows = 5%nat.
Proof. reflexivity. Qed.

Ltac moment :=
  wsimpl;
  rewrite ?length_app, ?wait_events_length, ?length_map,
    ?channel_windows_length;
  cbn [length]; lia.

(** A wait that ends with the wake-up: the self-test tool drains. *)
Lemma adc_read_drains rg rt size n fuel w :
  waits_for E rg (length (log w)) n → (n < fuel)%nat →
  signal_before E (length (log w)) n = SIG_WAKEUP →
  drain_ready w rg rt size →
  length (databuf w) = AdcCheckRamp.DATASIZE →
  AdcCheckRamp.read_evt_read E fuel w
  = Ret (adc_drain_value E w n) (adc_drain_state E rg rt w n).
Proof.
  intros (Hidle & Hend) Hfuel Hsig Hready Hlen.
  destruct (drain_ready_inv _ _ _ _ Hready)
    as ((Hst & Hstart & Htrig & Hctl) & (Hsec & Hnsec) & Hwin & Hslot).
  pose proof (wait_trigger_runs rg n fuel w SIG_WAKEUP Hfuel Hst Hidle Hend)
    as Hwait.
  unfold adc_drain_value, adc_drain_state. cbv zeta.
  set (t := length (log w)) in *.
  apply post_eq. unfold AdcCheckRamp.read_evt_read. apply post_bind.
  eapply post_of_eq; [exact Hwait|].
  rewrite decide_True by exact Hsig.
  apply post_bind, (post_sys_at (t + 2 * n + 1)); [moment|]. wsimpl.
  set (t0 := sys_ret E _ c_gettimeofday).
  apply post_bind.
  eapply (post_reg_read_at (t + 2 * n + 2)); [exact Hst|moment|]. wsimpl.
  set (st := hw_val E _ rg SHWR_BUF_STATUS_ADDR).
  apply post_bind. eapply post_of_eq.
  { eapply adc_copy_slot_runs; [exact Hwin|apply Hslot|exact Hlen]. }
  wsimpl.
  replace (length ((((log w ++ wait_events E rg t n)
                     ++ [EvSys c_gettimeofday t0])
                    ++ [EvRead rg SHWR_BUF_STATUS_ADDR st])))
    with (t + 2 * n + 2 + 1)%nat by moment.
  apply post_bind, post_gets. wsimpl.
  apply post_bind.
  eapply (post_reg_read_at (t + 2 * n + 2 + 6)); [exact Hst|moment|]. wsimpl.
  apply post_bind.
  eapply (post_reg_read_at (t + 2 * n + 2 + 7)); [exact Hstart|moment|]. wsimpl.
  apply post_bind.
  eapply (post_reg_read_at (t + 2 * n + 2 + 8)); [exact Htrig|moment|]. wsimpl.
  apply post_bind.
  eapply (post_reg_read_at (t + 2 * n + 2 + 9)); [exact Hsec|moment|]. wsimpl.
  apply post_bind.
  eapply (post_reg_read_at (t + 2 * n + 2 + 10)); [exact Hnsec|moment|]. wsimpl.
  apply post_bind, post_modify. wsimpl.
  apply post_bind. eapply post_reg_write_in; [exact Hctl|]. wsimpl.
  apply post_bind, post_modify. apply post_bind, post_modify. wsimpl.
  apply post_bind, (post_sys_at (t + 2 * n + 15)); [moment|]. wsimpl.
  apply post_ret. split; [done|].
  apply world_eq; wsimpl; try done.
  unfold drain_log, drain_events, drain_header. wsimpl.
  rewrite <- !app_assoc. reflexivity.
Qed.

(** The same for the streaming tool. *)
Lemma net_read_drains rg rt size n fuel w :
  waits_for E rg (length (log w)) n → (n < fuel)%nat →
  signal_before E (length (log w)) n = SIG_WAKEUP →
  drain_ready w rg rt size →
  length (workbuf w) = Netscope.WBUFSIZE →
  Netscope.read_evt_read E fuel w = Ret 0 (net_drain_state E rg rt w n).
Proof.
  intros (Hidle & Hend) Hfuel Hsig Hready Hlen.
  destruct (drain_ready_inv _ _ _ _ Hready)
    as ((Hst & Hstart & Htrig & Hctl) & (Hsec & Hnsec) & Hwin & Hslot).
  pose proof (wait_trigger_runs rg n fuel w SIG_WAKEUP Hfuel Hst Hidle Hend)
    as Hwait.
  unfold net_drain_state. cbv zeta.
  set (t := length (log w)) in *.
  apply post_eq. unfold Netscope.read_evt_read. apply post_bind.
  eapply post_of_eq; [exact Hwait|].
  rewrite decide_True by exact Hsig.
  apply post_bind.
  eapply (post_reg_read_at (t + 2 * n + 1)); [exact Hst|moment|]. wsimpl.
  set (st := hw_val E _ rg SHWR_BUF_STATUS_ADDR).
  apply post_bind. eapply post_of_eq.
  { eapply net_copy_slot_runs; [exact Hwin|apply Hslot|exact Hlen]. }
  wsimpl.
  replace (length ((log w ++ wait_events E rg t n)
                   ++ [EvRead rg SHWR_BUF_STATUS_ADDR st]))
    with (t + 2 * n + 1 + 1)%nat by moment.
  apply post_bind, post_gets. wsimpl.
  apply post_bind.
  eapply (post_reg_read_at (t + 2 * n + 1 + 6)); [exact Hst|moment|]. wsimpl.
  apply post_bind.
  eapply (post_reg_read_at (t + 2 * n + 1 + 7)); [exact Hstart|moment|]. wsimpl.
  apply post_bind.
  eapply (post_reg_read_at (t + 2 * n + 1 + 8)); [exact Htrig|moment|]. wsimpl.
  apply post_bind.
  eapply (post_reg_read_at (t + 2 * n + 1 + 9)); [exact Hsec|moment|]. wsimpl.
  apply post_bind.
  eapply (post_reg_read_at (t + 2 * n + 1 + 10)); [exact Hnsec|moment|]. wsimpl.
  apply post_bind, post_modify. wsimpl.
  apply post_bind. eapply post_reg_write_in; [exact Hctl|]. wsimpl.
  apply post_bind, post_modify. apply post_bind, post_modify. wsimpl.
  apply post_ret. split; [done|].
  apply world_eq; wsimpl; try done.
  unfold drain_log, drain_events, drain_header. wsimpl.
  rewrite <- !app_assoc. reflexivity.
Qed.

Lemma wait_events_wait rg t n : Forall is_wait_event (wait_events E rg t n).
Proof.
  unfold wait_events. apply Forall_app. split.
  - revert t. induction n as [|n IH]; intros t; [constructor|].
    rewrite wait_rounds_S. constructor; [left; by eexists _, _|].
    constructor; [right; by eexists|]. apply IH.
  - constructor; [left; by eexists _, _|constructor].
Qed.

End ReadCourse.

(** ** Claim C4 *)

(** C4.  How a call of [read_evt_read] goes is decided by its wait, in
    both tools.  The wait reads the status register, and while the
    buffer-full bits are clear and the last signal was the wake-up it
    calls [sigwaitinfo] and reads again; let it make [n] such calls,
    with the status register mapped and enough fuel for them.

    If the last signal was not the wake-up (the no-wakeup path), the
    function returns its time-out result, -1 in the self-test and 1 in
    the streaming tool, and the state is as before but for the log,
    which has gained the status reads and signal waits of the wait and
    nothing else: no register was written and the id counter is as it
    was.

    Otherwise the buffer-full bits were set, and with the registers and
    channel windows mapped and the staging buffer of its size the
    function returns after the drain, whose steps are, in this order:
    the status read that gives the slot [rd]; the copy of that slot from
    each of the five channel windows, after which the staging buffer
    holds those words; the reads of status, start, trigger id, seconds
    and nanoseconds, which with the id counter and [rd] make the header;
    the write of [rd] to the release register; the increment of the id
    counter.  The release is the only register write of the call and
    only the counter update follows it (and, in the self-test, the
    second reading of the clock). *)
Theorem read_evt_read_order `{HwDefs} (E : Env) (fuel : nat) (w : world)
    (rg : region) (n : nat) :
  reg_mapped w (regs (gl w)) rg SHWR_BUF_STATUS_ADDR →
  waits_for E rg (length (log w)) n → (n < fuel)%nat →
  (signal_before E (length (log w)) n ≠ SIG_WAKEUP →
     AdcCheckRamp.read_evt_read E fuel w
     = Ret (-1) (set_log (log w ++ wait_events E rg (length (log w)) n) w)
     ∧ Netscope.read_evt_read E fuel w
       = Ret 1 (set_log (log w ++ wait_events E rg (length (log w)) n) w))
  ∧ (signal_before E (length (log w)) n = SIG_WAKEUP →
     full_flag (wait_status E rg (length (log w)) n) ≠ 0
     ∧ ∀ rt size, drain_ready w rg rt size →
         (length (databuf w) = AdcCheckRamp.DATASIZE →
          AdcCheckRamp.read_evt_read E fuel w
          = Ret (adc_drain_value E w n) (adc_drain_state E rg rt w n))
         ∧ (length (workbuf w) = Netscope.WBUFSIZE →
            Netscope.read_evt_read E fuel w
            = Ret 0 (net_drain_state E rg rt w n)))
  ∧ Forall is_wait_event (wait_events E rg (length (log w)) n)
  ∧ ∀ rt td idc,
      let st := hw_val E td rg SHWR_BUF_STATUS_ADDR in
      let h := drain_header E rg rt td idc in
      id h = idc ∧ rd h = slot_of st
      ∧ drain_log E rg rt td idc
        = EvRead rg SHWR_BUF_STATUS_ADDR st
          :: map (λ i, EvMemcpy (ShwrBuf i)
                         (slot_of st * Z.of_nat SHWR_NSAMPLES) SHWR_NSAMPLES)
                 (seq 0 SHWR_RAW_NCH_MAX)
          ++ [EvRead rg SHWR_BUF_STATUS_ADDR (shwr_buf_status h);
              EvRead rg SHWR_BUF_START_ADDR (shwr_buf_start h);
              EvRead rg SHWR_BUF_TRIG_ID_ADDR (shwr_buf_trig_id h);
              EvRead rt TTAG_SHWR_SECONDS_ADDR (ttag_shwr_seconds h);
              EvRead rt TTAG_SHWR_NANOSEC_ADDR (ttag_shwr_nanosec h);
              EvWrite rg SHWR_BUF_CONTROL_ADDR (rd h);
              EvIdCounter (to_uint32 (id h + 1))].
Proof.
  intros Hreg Hwait Hfuel. split; [|split; [|split]].
  - intros Hsig. by apply read_times_out.
  - intros Hsig. split.
    + intros Hflag. by apply (proj2 Hwait).
    + intros rt size Hready. split; intros Hlen.
      * by eapply adc_read_drains.
      * by eapply net_read_drains.
  - apply wait_events_wait.
  - intros rt td idc st h. split; [done|]. split; [done|].
    unfold drain_log, drain_events, channel_windows. by rewrite map_map.
Qed.

Lemma sample_slot_fits (st : Z) :
  0 ≤ slot_of (H := sample_defs) st
  ∧ 4 * ((slot_of (H := sample_defs) st + 1) * Z.of_nat SHWR_NSAMPLES) ≤ 32768.
Proof.
  unfold slot_of. cbn [SHWR_BUF_RNUM_SHIFT SHWR_BUF_RNUM_MASK sample_defs].
  change 3 with (Z.ones 2). rewrite Z.land_ones by lia.
  unfold SHWR_NSAMPLES. change (2 ^ 2) with 4. lia.
Qed.

Lemma sample_reg_mapped (p : option region) (r : region) (addr : Z) :
  p = Some r → mapping_of w_mapped r = Some 4096 → 0 ≤ addr < 1024 →
  reg_mapped w_mapped p r addr.
Proof. intros Hp Hm Ha. split; [done|]. exists 4096. split; [done|]. lia. Qed.

Lemma sample_drain_ready :
  drain_ready (H := sample_defs) w_mapped TriggerRegs TimeTagRegs 32768.
Proof.
  split; [|split; [|split]].
  - repeat first [apply Forall_nil_2 | apply Forall_cons_2];
      (apply sample_reg_mapped; [reflexivity|reflexivity|cbn; lia]).
  - repeat first [apply Forall_nil_2 | apply Forall_cons_2];
      (apply sample_reg_mapped; [reflexivity|reflexivity|cbn; lia]).
  - intros i Hi. unfold SHWR_RAW_NCH_MAX in Hi.
    do 5 (destruct i as [|i]; [split; reflexivity|]). lia.
  - apply sample_slot_fits.
Qed.

Lemma read_evt_read_order_witness :
  reg_mapped w_mapped (regs (gl w_mapped)) TriggerRegs
    (SHWR_BUF_STATUS_ADDR (HwDefs := sample_defs))
  ∧ waits_for (H := sample_defs) env_ok TriggerRegs 0 0
  ∧ waits_for (H := sample_defs) env_no_event TriggerRegs 0 1
  ∧ (0 < 3)%nat ∧ (1 < 3)%nat
  ∧ signal_before (H := sample_defs) env_ok 0 0 = 48
  ∧ signal_before (H := sample_defs) env_no_event 0 1 ≠ 48
  ∧ drain_ready (H := sample_defs) w_mapped TriggerRegs TimeTagRegs 32768
  ∧ length (databuf w_mapped) = AdcCheckRamp.DATASIZE
  ∧ length (workbuf w_mapped) = Netscope.WBUFSIZE
  ∧ (AdcCheckRamp.read_evt_read (H := sample_defs) env_ok 3 w_mapped
     = Ret (adc_drain_value env_ok w_mapped 0)
           (adc_drain_state (H := sample_defs) env_ok TriggerRegs TimeTagRegs
              w_mapped 0)
     ∧ log (adc_drain_state (H := sample_defs) env_ok TriggerRegs TimeTagRegs
              w_mapped 0)
       = [EvRead TriggerRegs 130 18; EvSys c_gettimeofday 0;
          EvRead TriggerRegs 130 18;
          EvMemcpy (ShwrBuf 0) 4096 2048; EvMemcpy (ShwrBuf 1) 4096 2048;
          EvMemcpy (ShwrBuf 2) 4096 2048; EvMemcpy (ShwrBuf 3) 4096 2048;
          EvMemcpy (ShwrBuf 4) 4096 2048;
          EvRead TriggerRegs 130 18; EvRead TriggerRegs 131 0;
          EvRead TriggerRegs 129 0;
          EvRead TimeTagRegs 8 1008; EvRead TimeTagRegs 9 1009;
          EvWrite TriggerRegs 128 2; EvIdCounter 1; EvSys c_gettimeofday 0]
     ∧ take 3 (databuf (adc_drain_state (H := sample_defs) env_ok TriggerRegs
                          TimeTagRegs w_mapped 0))
       = [0; 4095 * 65537; 4094 * 65537])
  ∧ Netscope.read_evt_read (H := sample_defs) env_ok 3 w_mapped
    = Ret 0 (net_drain_state (H := sample_defs) env_ok TriggerRegs TimeTagRegs
               w_mapped 0)
  ∧ AdcCheckRamp.read_evt_read (H := sample_defs) env_no_event 3 w_mapped
    = Ret (-1) (set_log [EvRead TriggerRegs 130 0; EvSys c_sigwaitinfo (-1);
                         EvRead TriggerRegs 130 0] w_mapped)
  ∧ Netscope.read_evt_read (H := sample_defs) env_no_event 3 w_mapped
    = Ret 1 (set_log [EvRead TriggerRegs 130 0; EvSys c_sigwaitinfo (-1);
                      EvRead TriggerRegs 130 0] w_mapped).
Proof.
  assert (Hreg : reg_mapped w_mapped (regs (gl w_mapped)) TriggerRegs
                   (SHWR_BUF_STATUS_ADDR (HwDefs := sample_defs))).
  { apply sample_reg_mapped; [reflexivity|reflexivity|cbn; lia]. }
  assert (Hok : waits_for (H := sample_defs) env_ok TriggerRegs 0 0).
  { split; [intros j Hj; lia|]. intros [Hf _]. vm_compute in Hf.
    discriminate Hf. }
  assert (Hno : waits_for (H := sample_defs) env_no_event TriggerRegs 0 1).
  { split.
    - intros j Hj. assert (j = 0%nat) as -> by lia. split; reflexivity.
    - intros [_ Hs]. vm_compute in Hs. discriminate Hs. }
  assert (Hwake : signal_before (H := sample_defs) env_ok 0 0 = 48)
    by reflexivity.
  assert (Hnone : signal_before (H := sample_defs) env_no_event 0 1 ≠ 48).
  { intros Hs. vm_compute in Hs. discriminate Hs. }
  assert (Hd : length (databuf w_mapped) = AdcCheckRamp.DATASIZE)
    by exact (length_replicate _ _).
  assert (Hb : length (workbuf w_mapped) = Netscope.WBUFSIZE)
    by exact (length_replicate _ _).
  pose proof (read_evt_read_order (H := sample_defs) env_ok 3 w_mapped
                TriggerRegs 0 Hreg Hok ltac:(lia)) as (_ & Hdrain & _).
  destruct (Hdrain Hwake) as (_ & Hdrain').
  destruct (Hdrain' TimeTagRegs 32768 sample_drain_ready) as (Hadc & Hnet).
  pose proof (read_evt_read_order (H := sample_defs) env_no_event 3 w_mapped
                TriggerRegs 1 Hreg Hno ltac:(lia)) as (Htime & _).
  destruct (Htime Hnone) as (Hta & Htn).
  split; [exact Hreg|]. split; [exact Hok|]. split; [exact Hno|].
  split; [lia|]. split; [lia|]. split; [exact Hwake|]. split; [exact Hnone|].
  split; [exact sample_drain_ready|]. split; [exact Hd|]. split; [exact Hb|].
  split; [split; [exact (Hadc Hd)|split; reflexivity]|].
  split; [exact (Hnet Hb)|]. split; [exact Hta|exact Htn].
Defined.
(** ** The mark of a failed device *)

Section Mark.
Import AdcCheckRamp.
Context (E : Env).




End Mark.

(** ** Claim C7 *)



(** ** The status after the functions run at exit *)

Section ExitStatus.
Import AdcCheckRamp.
Context `{HwDefs} (E : Env).







End ExitStatus.


(** ** Claim C2 *)



